(* ===== verification/_CoqProject ===== *)
-Q . S2P
Prelude.v
CStd.v
Json.v
JsonPatch.v
JsonDiff.v
HttpUtil.v
Fs.v
Util.v
Clock.v
Logging.v
SessionStats.v
TorrentStatus.v
Libtorrent.v
Demo.v
JsonText.v
Sheath.v
Torrents.v
Accounting.v
Handlers.v
HttpSession.v
Commands.v
Sync.v
WebSocket.v
Rounds.v
Versions.v
Locks.v
Atomic.v
Calls.v
Races.v
Delivery.v
Channel.v
Process.v
Shutdown.v
Program.v
Answers.v
Resume.v
Lives.v
Requests.v
Removal.v
Options.v
CommandLine.v
Main.v
