(* ===== verification/Prelude.v ===== *)
(** * kedge: a verification development

    kedge is a small BitTorrent server: one process owns a libtorrent session
    and serves a REST API, a web UI and a websocket channel over HTTP.  This
    library models the program under src/ (the C++ of src/src and src/include)
    and proves what its parts promise each other and their clients, including
    the places where they do not.

    ** The program and its parts

    [main] builds the libtorrent session from the options and hands it to
    [sheath], the server state.  A session thread calls [sheath::doLoop], which
    takes in libtorrent's alerts and scans the watched directory; a second
    thread calls [httpCaller::doLoop], which every second sends the websocket
    clients the difference between two snapshots of the state; a third asks
    for the torrents of the resume files; the others, the main thread among
    them, serve connections.  A connection reads a request, [handle_request]
    gives it to [httpCaller::sbCall] (the API) or answers with a file of the web
    UI, and a request for the websocket becomes a websocket session with a queue
    of outgoing messages.  A signal ends the loops; [main] joins the threads, and
    the destructor of [sheath] waits for the resume data and saves the session.

    ** Files, sources and state

    - [Prelude], [CStd], [Fs]: notations, tactics, generic lemmas; [atoi],
      [strtol], hexadecimal insertion, path concatenation; the file system,
      a finite map from paths to files and directories with a set of paths on
      which writing is refused.  Language library, not code of the program.
    - [Json], [JsonPatch], [JsonText]: JSON values (with the C++ kind of a
      number, so equality of values is the coarser [≡]), the specification of
      JSON Patch (RFC 6902), texts.
    - [JsonDiff] (include/json_diff.hpp): [json_diff].
    - [HttpUtil] (include/http_util.hpp, include/const.hpp): messages, response
      builders, MIME types, [url_decode], [query_arg_one].
    - [Util], [Clock] (src/util.cpp, include/util.hpp): resume file names,
      directories, the port parser; the clocks, random ids, and dates, with the
      calendar behind [localtime].
    - [SessionStats] (include/session_stats.hpp, include/session_values.hpp):
      counters, the table of their indices, and rates, the latter in IEEE
      binary32.
    - [TorrentStatus] (src/sheath.cpp, [torrent_status_to_json_obj]).
    - [Libtorrent], [Demo]: what the program uses of libtorrent, as classes with
      laws; a concrete libtorrent that satisfies the laws, for the examples.
    - [Sheath], [Torrents], [Accounting] (src/sheath.cpp, include/sheath.hpp):
      record [sheath] has the data members (the map of statuses, the count of
      outstanding saves, the counters, the prepared peer), the file system and,
      in [calls], the requests made of the libtorrent session in order.
      [Sheath] has the alerts, the loader and the end; [Torrents] the operations
      on torrents, the watched directory and the snapshot; [Accounting] any
      sequence of operations ([op], [exec], [run]), between which libtorrent may
      change its session, and the count of outstanding saves along it.
    - [Handlers] (src/handlers.cpp): the REST handlers, against the class
      [SheathApi]; [sheath_api] is its instance by [Sheath] and [Torrents], and
      [SheathApiLaws] what the clients' theorems need of it.
    - [HttpSession] (src/http_session.cpp, src/listener.cpp): [handle_request],
      a connection as a state machine, the accept loop.  [Commands]: what a
      request does, read off the request ([request_command]).
    - [Sync] (src/handlers.cpp, [httpCaller]): joining, leaving, broadcasting and
      the loop as whole operations; what a client holds that applies the messages.
    - [WebSocket] (src/http_websocket.cpp): the queue of one session, a step
      relation on queue, posted handlers and the write under way.
    - [Rounds], [Versions]: the channel again, with every access to what its
      threads share as a step of its own: [join] holds the mutex over three of
      them, a round of [httpCaller::doLoop] has seven and takes the mutex only to
      copy the set, and a session being destroyed stays in the set until its
      destructor has called [leave].  [round_steps] and [join_steps] say that
      the operations of [Sync] are runs of these steps with none between.
    - [Locks], [Atomic], [Calls], [Races] (src/sheath.cpp, src/handlers.cpp,
      include/session_values.hpp): the functions that touch what threads share,
      instruction by instruction under [httpCaller::mutex_] and [sheath::mutex_]:
      a thread is the code it has left with a frame ([code_of], [exec_instr]),
      a step ([step]) runs one instruction of one thread.  [Locks] has the
      discipline of the mutexes as an invariant and the races; [Atomic] relates
      the instructions to the operations of [Torrents], [SessionStats] and [Sync]
      that all other files take as one step; [Calls] bounds the calls; [Races]
      shows what the races do.
    - [Delivery]: the steps of [Rounds] with real sessions: what is sent is posted
      to a strand, goes through the queue and comes out of the socket; handlers
      own their session; texts of clients are broadcast; [closeWS].
    - [Channel]: the snapshots of the channel are those of [Torrents].
    - [Process] (src/main.cpp): the threads of the program as steps on what they
      share: the server state, the connections, the channel with its sessions,
      the flag [quit], the I/O context; the signal, the joins in order, the
      destructors.  The session's thread goes alert by alert and file by file,
      so that requests are answered between any two of them; [session_round]
      says that [sheath::doLoop] is these steps with none between.  [Shutdown]
      is about the end of the process, [Program] about what [Accounting] and
      [Channel] say of it ([proc_run_ops]: every run of the threads is a run of
      operations), [Answers] about libtorrent's answers to its requests,
      [Resume] about the files it leaves to the next start, [Lives] about two
      lives of the program, [Requests] about what a client of the API may rely
      on, [Removal] about requests that remove a torrent whose alerts wait.
    - [Logging] (deps/crow/logging.hpp): a logger that came with the HTTP code
      and that no other file includes.
    - [Options], [CommandLine] (include/option.hpp): the session's settings; the
      command line and the environment, and the whole of [Option::init_from].
      [Main] (src/main.cpp): from what the process is given to the [process]
      that [main] starts.

    ** Conventions

    A function that can throw or reach undefined behaviour (a read out of
    bounds, a dangling pointer, an empty optional) returns an [option], [None]
    being that end; so a theorem that gives [Some] says it does not happen.
    Where the difference matters the comment of the definition says which.  For
    a step of a system of threads [None] also says that the step is not
    possible in this state.  Integers are [Z] with the wrap-around of their
    width written out.  Randomness, clocks and the fields C++ leaves
    indeterminate are arguments.  Boost.Beast, Boost.JSON,
    Boost.Program_options and libtorrent are classes; each law of such a class
    states documented behaviour, and the witnesses run on instances that
    satisfy them ([Demo], [text_demo], ...).

    ** What the theorems show

    - The process.  [clients_hold_server_state]: whatever the threads interleave,
      a client whose session has written what it was given holds the snapshot of
      the server state that was last taken.  It rests on a chain of refinements:
      [process] to [system] ([proc_run_sys]), [system] to [chan]
      ([system_refines]), and what [clients_settle] proves of [chan].
      [process_ends]: after the signal the session thread can stop the context,
      from then on the measure [to_do] bounds the steps left, and where no step
      is possible the main thread has come to its end; [process_ended_clean]:
      what is there then.  [process_accounting]: the count of outstanding saves
      in any run; [saves_answered]: with a libtorrent that answers only what it
      was asked, that count is what is owed and what is in hand, and the end
      waits for the last answer; [process_end_returns]: it comes with the
      answers.  [torrents_latest]: the map of torrents.  [life_saves_session]:
      from the options to the session file.
    - The channel.  [json_diff_applies]: the computed patch always applies and
      what it makes of the source is the document [json_diff_correct] compares
      with the target: they agree when no array grows by more than one element.
      [json_diff_loses_growth] is the other case: the loop that adds elements
      advances its index twice and skips every second one.
      [sync_clients_current], [sync_end_to_end]: every client holds the
      current snapshot, operation by operation; [clients_settle] the same step
      by step, [everything_arrives] with the queues and sockets, which come to
      rest within [work] steps.  Two conditions are needed: each round lists
      at most one torrent more, and no join reads the snapshot between a
      round's assignment and its copy of the set, which
      [join_inside_round_breaks] is about.  [sessions_never_dangle],
      [owned_sessions_live]: the raw pointers of the set.
      [versions_never_go_back]: the numbers of the messages.
    - Threads.  [locked_sections_atomic]: with every turn of every loop a step of
      its own, the map of torrents changes as by whole updates in the order in
      which they take the mutex, and each snapshot is the one [getSyncStats] makes
      of the server state of the moment it is put together; [calls_alone]: a call
      that no other comes between has exactly the effect of its operation.  This
      is what lets [Process] take them as single steps.  [calls_end]: the two
      mutexes never deadlock, and every call ends.  [races_known]: the races that
      are left, for the counters, [curr_stats] and the test of the set;
      [races_reached]: they are there; [half_update_undefined]: what the first of
      them does.  [alerts_survive], [delete_kills]: when the handler of an alert
      can throw.
    - Resume data.  [next_start_loads]: in any run of the threads the resume file
      of a torrent is decided by a short history, the saves handled and the
      drops asked for, and the next start requests what its last entry says;
      [torrents_come_back]: in the next life the loader has requested it when it
      ends, whatever the other threads do; [load_resumes_requests],
      [saved_torrent_restarts], [dropped_torrent_not_reloaded] are about single
      operations, and [late_save_undoes_drop] about an order that fails.
      [outstanding_accounting] holds after any sequence of operations, and is
      why [wait_saves_terminates] and [end_returns] hold: answered requests end
      the wait.  [handle_alert_fails]: the alerts whose handling throws, which
      nothing catches.  [saved_session_not_loaded]: the session state is written
      to one path and looked for at another.
    - Torrents.  [all_handles_latest], [getSyncStats_snapshot], the two flags
      after each action, progress in permille, the watched directory.
    - The API.  [requests_one_at_a_time]: each answer is made from the server
      state of one moment, and a connection's answers are in order;
      [request_is_command]: what a request does is one operation or none, and
      [GET] and [HEAD] change nothing.  [torrent_api] is the table of answers and
      effects;
      [sbCall_total] that no target makes a handler read out of bounds;
      [sbCall_misroutes], [query_arg_one_overruns], [torrents_post] the cases
      where the parsing of targets and headers goes wrong.
    - Connections.  [static_files_confined], [connection_in_order],
      [ws_fifo_one_write] (an invariant by rule induction), [ws_drains],
      [ws_error_stops].
    - Helpers.  [url_decode_encode], [is_resume_file_spec], [prepare_dirs_spec],
      [parse_port_value], [pptime_minute] and [stamp_second] (a date names the
      minute or second it was made from), [log_statement_line],
      [counters_window] and the two theorems on the guard and the unset field
      of the session counters.
    - Options.  [options_precedence]: the command line before the environment
      before the default, and which of them reach the settings;
      [peer_prefix_twice]: two variables for one option end the program.

    ** Bounds, fuel and measures

    Two loops carry fuel.  [url_decode] has the length of its text, and every
    iteration advances by at least one; [url_decode_encode] shows that no byte
    is lost.  The adding loop of [json_diff] has the length of the target, and
    advances by two.  [json_diff] itself is structural in the source value.  The
    loops of the program that wait for others ([wait for resume data], the
    session loop, the accept loop, the rounds of the channel) run on the list of
    what they receive, one entry for each iteration, or are steps of a run that
    others come between; [wait_saves_terminates] and [end_returns] prove that
    they leave the loop with a result, and on how long a list.  Three
    measures bound runs: [work] is what queues and strands have left to write,
    [to_do] what the threads have left to do once the context is stopped,
    [calls_left] the instructions of the calls under way, where a walk of the map
    counts as many turns as the map can still come to have.

    ** Not modelled

    What the program logs with plog (include/log.hpp).  Of the memory model, a
    data race is what [racing] says, and is undefined; [Locks] goes on with the
    value a member has, reading all counters of [getSessionStats] at once.  The
    parsers and the store of Boost.Program_options, a class with laws.  The
    handshakes of websockets, timeouts and body limits of connections, which are
    Beast's: [async_close] only marks the session, and the session may end before
    its handler has run.
    Sleeping is no step: a thread takes its next step when it does.  The threads
    of libtorrent are the step that changes the session; of what its alerts are,
    only the order of requests and answers is asked, where it is needed.

    Files and messages written in pieces that can fail midway are whole.  That
    the alerts libtorrent gives are of torrents that are there is a hypothesis
    ([alert_safe], [all_spared]), as its contract does not promise it. *)

From Stdlib Require Export Ascii ZArith Lia.
From Stdlib Require DecimalString DecimalNat.
From stdpp Require Export strings gmap list.

(** Every [string] below is a C++ [std::string] or [std::string_view]: a
    finite sequence of bytes, with no terminator of its own. *)

Declare Scope kedge_scope.
Delimit Scope kedge_scope with kedge.
Open Scope kedge_scope.
Open Scope stdpp_scope.

(** [k ~> v] is the entry a C++ initializer list spells [{k, v}]. *)
Notation "k ~> v" := (k, v)
  (at level 60, right associativity, only parsing) : kedge_scope.

Create HintDb kedge.

(** ** Tactics *)

(** Splits every boolean connective and comparison of the hypotheses. *)
Ltac bool_simp :=
  repeat match goal with
    | H : andb _ _ = true |- _ => apply andb_true_iff in H; destruct H
    | H : orb _ _ = false |- _ => apply orb_false_iff in H; destruct H
    | H : negb _ = true |- _ => apply negb_true_iff in H
    | H : negb _ = false |- _ => apply negb_false_iff in H
    | H : Nat.eqb _ _ = true |- _ => apply Nat.eqb_eq in H
    | H : Nat.eqb _ _ = false |- _ => apply Nat.eqb_neq in H
    | H : Nat.ltb _ _ = true |- _ => apply Nat.ltb_lt in H
    | H : Nat.ltb _ _ = false |- _ => apply Nat.ltb_ge in H
    | H : Nat.leb _ _ = true |- _ => apply Nat.leb_le in H
    | H : Nat.leb _ _ = false |- _ => apply Nat.leb_gt in H
    | H : Z.eqb _ _ = true |- _ => apply Z.eqb_eq in H
    | H : Z.eqb _ _ = false |- _ => apply Z.eqb_neq in H
    | H : Z.ltb _ _ = true |- _ => apply Z.ltb_lt in H
    | H : Z.ltb _ _ = false |- _ => apply Z.ltb_ge in H
    | H : Z.leb _ _ = true |- _ => apply Z.leb_le in H
    | H : Z.leb _ _ = false |- _ => apply Z.leb_gt in H
    | H : bool_decide _ = true |- _ => apply bool_decide_eq_true in H
    | H : bool_decide _ = false |- _ => apply bool_decide_eq_false in H
    end.

(** One case split on the first condition or [match] of the goal. *)
Ltac split_if :=
  match goal with
  | |- context [if ?b then _ else _] => destruct b eqn:?
  | |- context [match ?o with _ => _ end] => destruct o eqn:?
  end; bool_simp; simplify_eq/=.

(** ** Machine integers *)

(** The value of a [w]-bit unsigned and signed integer after conversion. *)
Definition uwrap (w z : Z) : Z := (z mod 2 ^ w)%Z.
Definition swrap (w z : Z) : Z := ((z + 2 ^ (w - 1)) mod 2 ^ w - 2 ^ (w - 1))%Z.

Definition in_sint (w z : Z) : bool := (- 2 ^ (w - 1) <=? z)%Z && (z <? 2 ^ (w - 1))%Z.

Lemma uwrap_small w z : (0 <= z < 2 ^ w)%Z -> uwrap w z = z.
Proof. apply Z.mod_small. Qed.

Lemma uwrap_range w z : (0 <= w)%Z -> (0 <= uwrap w z < 2 ^ w)%Z.
Proof. intros. apply Z.mod_pos_bound. lia. Qed.

Lemma swrap_small w z :
  (0 < w)%Z -> (- 2 ^ (w - 1) <= z < 2 ^ (w - 1))%Z -> swrap w z = z.
Proof.
  intros Hw Hz. unfold swrap.
  assert (2 ^ w = 2 * 2 ^ (w - 1))%Z as Hp.
  { rewrite <- Z.pow_succ_r by lia. f_equal. lia. }
  rewrite Z.mod_small; lia.
Qed.

Lemma in_sint_spec w z :
  in_sint w z = true <-> (- 2 ^ (w - 1) <= z < 2 ^ (w - 1))%Z.
Proof. unfold in_sint. rewrite andb_true_iff, Z.leb_le, Z.ltb_lt. lia. Qed.

#[export] Hint Resolve uwrap_range : kedge.

(** ** Strings *)

Fixpoint stake (n : nat) (s : string) : string :=
  match n, s with
  | S n', String c s' => String c (stake n' s')
  | _, _ => ""
  end.

Fixpoint sdrop (n : nat) (s : string) : string :=
  match n, s with
  | S n', String _ s' => sdrop n' s'
  | _, _ => s
  end.

(** [s.substr(pos, n)]: [std::out_of_range] (here [None]) past the end, and
    the count is clipped to what is left. *)
Definition substr (s : string) (pos n : nat) : option string :=
  if pos <=? String.length s then Some (stake n (sdrop pos s)) else None.

(** [s.substr(pos)], the count defaulting to [npos]. *)
Definition substr_from (s : string) (pos : nat) : option string :=
  if pos <=? String.length s then Some (sdrop pos s) else None.

Fixpoint sfind_at (i : nat) (needle s : string) : option nat :=
  if String.prefix needle s then Some i
  else match s with
       | "" => None
       | String _ s' => sfind_at (S i) needle s'
       end.

(** [s.find(needle, pos)]; [None] is [npos]. *)
Definition sfind (s needle : string) (pos : nat) : option nat :=
  if pos <=? String.length s then sfind_at pos needle (sdrop pos s) else None.

(** [s.rfind(c)] and [strrchr]: the last position that holds [c]. *)
Fixpoint srfind (c : ascii) (s : string) : option nat :=
  match s with
  | "" => None
  | String d s' =>
      match srfind c s' with
      | Some i => Some (S i)
      | None => if bool_decide (c = d) then Some 0 else None
      end
  end.

(** [s.c_str()] read as a C string: up to the first NUL. *)
Fixpoint c_str (s : string) : string :=
  match s with
  | "" => ""
  | String c s' => if bool_decide (c = Ascii.zero) then "" else String c (c_str s')
  end.

Fixpoint sforall (P : ascii -> bool) (s : string) : bool :=
  match s with
  | "" => true
  | String c s' => P c && sforall P s'
  end.

#[global] Arguments String.append !_ _ / : simpl nomatch.

Lemma sapp_nil_r s : s +:+ "" = s.
Proof. induction s; cbn; congruence. Qed.

Lemma sapp_assoc s1 s2 s3 : (s1 +:+ s2) +:+ s3 = s1 +:+ (s2 +:+ s3).
Proof. induction s1; cbn; congruence. Qed.

Lemma slength_app s1 s2 :
  String.length (s1 +:+ s2) = String.length s1 + String.length s2.
Proof. induction s1; cbn; congruence. Qed.

Lemma sapp_inj_r s s1 s2 : s +:+ s1 = s +:+ s2 -> s1 = s2.
Proof. apply (inj (String.append s)). Qed.

Lemma sapp_inj_len s1 s2 t1 t2 :
  String.length s1 = String.length t1 ->
  s1 +:+ s2 = t1 +:+ t2 -> s1 = t1 /\ s2 = t2.
Proof.
  revert t1. induction s1 as [|c s1 IH]; intros [|d t1] Hlen Heq; cbn in *; try lia.
  - done.
  - injection Heq as -> Heq. destruct (IH t1) as [-> ->]; [lia|done|done].
Qed.

Lemma stake_app s1 s2 : stake (String.length s1) (s1 +:+ s2) = s1.
Proof. induction s1; cbn; [by destruct s2|congruence]. Qed.

Lemma sdrop_app s1 s2 : sdrop (String.length s1) (s1 +:+ s2) = s2.
Proof. induction s1; cbn; [by destruct s2|done]. Qed.

Lemma stake_sdrop n s : stake n s +:+ sdrop n s = s.
Proof. revert s. induction n; intros [|c s]; cbn; try done. by rewrite IHn. Qed.

Lemma slength_stake n s : String.length (stake n s) = n `min` String.length s.
Proof. revert s. induction n; intros [|c s]; cbn; try done. by rewrite IHn. Qed.

Lemma slength_sdrop n s : String.length (sdrop n s) = String.length s - n.
Proof. revert s. induction n; intros [|c s]; cbn; try done. Qed.

Lemma stake_ge n s : String.length s <= n -> stake n s = s.
Proof.
  revert s. induction n; intros [|c s]; cbn; intros; try done; [lia|].
  by rewrite IHn by lia.
Qed.

Lemma sdrop_ge n s : String.length s <= n -> sdrop n s = "".
Proof. revert s. induction n; intros [|c s]; cbn; intros; try done; [lia|]. apply IHn. lia. Qed.

Lemma sdrop_sdrop n m s : sdrop n (sdrop m s) = sdrop (m + n) s.
Proof. revert s. induction m; intros [|c s]; cbn; [by destruct n..|by destruct n|done]. Qed.

Lemma stake_plus s1 s2 n : stake (String.length s1 + n) (s1 +:+ s2) = s1 +:+ stake n s2.
Proof. induction s1 as [|c s1 IH]; simpl; [done|]. by rewrite IH. Qed.

Lemma sforall_app P s1 s2 : sforall P (s1 +:+ s2) = sforall P s1 && sforall P s2.
Proof. induction s1; cbn; [done|]. by rewrite IHs1, andb_assoc. Qed.

Lemma sforall_impl (P Q : ascii -> bool) s :
  (forall c, P c = true -> Q c = true) -> sforall P s = true -> sforall Q s = true.
Proof.
  intros HPQ. induction s; cbn; [done|]. intros; bool_simp.
  rewrite HPQ, IHs; done.
Qed.

#[export] Hint Rewrite sapp_nil_r sapp_assoc slength_app stake_app sdrop_app
  slength_stake slength_sdrop sforall_app : kedge.

Lemma substr_from_app s1 s2 : substr_from (s1 +:+ s2) (String.length s1) = Some s2.
Proof.
  unfold substr_from. rewrite slength_app, sdrop_app.
  case_match; bool_simp; [done|lia].
Qed.

Lemma substr_total s pos n :
  pos <= String.length s -> substr s pos n = Some (stake n (sdrop pos s)).
Proof. intros. unfold substr. case_match; bool_simp; [done|lia]. Qed.

Lemma substr_from_total s pos : pos <= String.length s -> substr_from s pos = Some (sdrop pos s).
Proof. intros. unfold substr_from. case_match; bool_simp; [done|lia]. Qed.

Lemma substr_app s t n :
  String.length s = n -> substr (s +:+ t) 0 n = Some s /\ substr_from (s +:+ t) n = Some t.
Proof.
  intros <-. rewrite substr_total, substr_from_app by lia. cbn [sdrop]. by rewrite stake_app.
Qed.

Lemma prefix_app s1 s2 : String.prefix s1 (s1 +:+ s2) = true.
Proof. induction s1 as [|c s1 IH]; cbn; [by destruct s2|]. by destruct (ascii_dec c c). Qed.

Lemma prefix_spec s1 s2 : String.prefix s1 s2 = true <-> exists s, s2 = s1 +:+ s.
Proof.
  split; [|intros [s ->]; apply prefix_app].
  revert s2. induction s1 as [|c s1 IH]; intros [|d s2]; cbn; try done; eauto.
  destruct (ascii_dec c d) as [->|]; [|done]. intros [s ->]%IH. by exists s.
Qed.

Lemma sfind_at_lb i needle s j : sfind_at i needle s = Some j -> i <= j.
Proof.
  revert i. induction s as [|c s IH]; intros i; cbn [sfind_at];
    destruct (String.prefix needle _); intros Hf; simplify_eq; try lia.
  apply IH in Hf. lia.
Qed.

(** A hit of [find] splits the string around the needle. *)
Lemma sfind_at_split i needle s j :
  sfind_at i needle s = Some j ->
  exists a b, s = a +:+ needle +:+ b /\ j = i + String.length a.
Proof.
  revert i. induction s as [|c s IH]; intros i; cbn [sfind_at];
    destruct (String.prefix needle _) eqn:Hp; intros Hf; simplify_eq.
  1, 2: apply prefix_spec in Hp as [b ->]; exists "", b; cbn; split; [done|lia].
  apply IH in Hf as (a & b & -> & ->). exists (String c a), b. cbn. split; [done|lia].
Qed.

Lemma sfind_split s needle pos j :
  sfind s needle pos = Some j ->
  exists a b, s = a +:+ needle +:+ b /\ j = String.length a /\ pos <= j.
Proof.
  unfold sfind. case_match; [|done]. bool_simp. intros Hf.
  pose proof (sfind_at_lb _ _ _ _ Hf).
  apply sfind_at_split in Hf as (a & b & Hs & ->).
  exists (stake pos s +:+ a), b.
  rewrite sapp_assoc, <- Hs, stake_sdrop, slength_app, slength_stake.
  repeat split; lia.
Qed.

(** ** Lists *)

(** The loop over the indices two arrays share, from index [i]. *)
Definition zip_concat {A B C} (f : nat -> A -> B -> list C) :=
  fix go (i : nat) (l : list A) (m : list B) : list C :=
    match l, m with
    | x :: l', y :: m' => f i x y ++ go (S i) l' m'
    | _, _ => []
    end.

Lemma zip_concat_fmap {A B C D} (f : nat -> A -> B -> list C) (g : C -> D) i l m :
  g <$> zip_concat f i l m = zip_concat (fun i x y => g <$> f i x y) i l m.
Proof.
  revert i m. induction l as [|x l IH]; intros i [|y m]; simpl; try done.
  by rewrite fmap_app, IH.
Qed.

(** Induction two elements at a time. *)
Lemma list_pair_ind {A} (P : list A -> Prop) :
  P [] -> (forall x, P [x]) -> (forall x y l, P l -> P (x :: y :: l)) -> forall l, P l.
Proof.
  intros H0 H1 H2 l. enough (P l /\ forall x, P (x :: l)) as [? _] by done.
  induction l as [|y l [IHl IHc]]; split; auto.
Qed.

Lemma Forall_zip_concat {A B C} (P : C -> Prop) (f : nat -> A -> B -> list C) i l m :
  (forall i x y, x ∈ l -> y ∈ m -> Forall P (f i x y)) -> Forall P (zip_concat f i l m).
Proof.
  revert i m. induction l as [|x l IH]; intros i [|y m] Hf; simpl; try constructor.
  apply Forall_app. split; [apply Hf; set_solver|]. apply IH. intros. apply Hf; set_solver.
Qed.

Lemma zip_concat_ext {A B C} (f g : nat -> A -> B -> list C) i l m :
  Forall (fun x => forall i y, f i x y = g i x y) l -> zip_concat f i l m = zip_concat g i l m.
Proof.
  intros Hfg. revert i m. induction Hfg; intros i [|z m]; simpl; congruence.
Qed.

Lemma Forall_flat_map {A B} (P : B -> Prop) (f : A -> list B) l :
  (forall x, x ∈ l -> Forall P (f x)) -> Forall P (flat_map f l).
Proof.
  induction l as [|x l IH]; intros Hf; simpl; [constructor|].
  apply Forall_app. split; [apply Hf; set_solver|]. apply IH. intros. apply Hf; set_solver.
Qed.

Lemma flat_map_fmap {A B C} (f : A -> list B) (g : B -> C) l :
  g <$> flat_map f l = flat_map (fun x => g <$> f x) l.
Proof. induction l as [|x l IH]; simpl; [done|]. by rewrite fmap_app, IH. Qed.

Lemma flat_map_ext_Forall {A B} (f g : A -> list B) l :
  Forall (fun x => f x = g x) l -> flat_map f l = flat_map g l.
Proof. induction 1; simpl; congruence. Qed.

(** ** Searching for one character *)

Definition no_char (c : ascii) (s : string) : bool :=
  sforall (fun d => negb (bool_decide (d = c))) s.

Lemma sfind_at_char i c s m :
  no_char c s = true -> sfind_at i (String c "") (s +:+ String c m) = Some (i + String.length s).
Proof.
  revert i. induction s as [|d s IH]; intros i Hs; simpl.
  - destruct (ascii_dec c c); [|done]. destruct m; by rewrite Nat.add_0_r.
  - simpl in Hs. apply andb_true_iff in Hs as [Hd Hs]. bool_simp.
    destruct (ascii_dec c d) as [->|]; [done|]. rewrite IH by done. f_equal. lia.
Qed.

Lemma sfind_at_char_none i c s : no_char c s = true -> sfind_at i (String c "") s = None.
Proof.
  revert i. induction s as [|d s IH]; intros i Hs; simpl; [done|].
  simpl in Hs. apply andb_true_iff in Hs as [Hd Hs]. bool_simp.
  destruct (ascii_dec c d) as [->|]; [done|]. by apply IH.
Qed.

Lemma sfind_char p c s m :
  no_char c s = true ->
  sfind (p +:+ s +:+ String c m) (String c "") (String.length p)
  = Some (String.length p + String.length s).
Proof.
  intros Hs. unfold sfind. rewrite sdrop_app, sfind_at_char by done.
  rewrite slength_app. case_match; bool_simp; [done|lia].
Qed.

Lemma sfind_char_none p c s :
  no_char c s = true -> sfind (p +:+ s) (String c "") (String.length p) = None.
Proof.
  intros Hs. unfold sfind. rewrite sdrop_app, sfind_at_char_none by done. by case_match.
Qed.

Lemma srfind_none c s : no_char c s = true -> srfind c s = None.
Proof.
  induction s as [|d s IH]; intros Hs; simpl; [done|].
  simpl in Hs. apply andb_true_iff in Hs as [Hd Hs]. bool_simp.
  rewrite IH by done. rewrite bool_decide_eq_false_2; [done|congruence].
Qed.

Lemma srfind_last p c s :
  no_char c s = true -> srfind c (p +:+ String c s) = Some (String.length p).
Proof.
  intros Hs. induction p as [|d p IH]; simpl.
  - rewrite srfind_none by done. by rewrite bool_decide_eq_true_2.
  - by rewrite IH.
Qed.

Lemma srfind_Some c s i :
  srfind c s = Some i -> s = stake i s +:+ String c (sdrop (S i) s) /\ no_char c (sdrop (S i) s) = true.
Proof.
  revert i. induction s as [|d s IH]; intros i; simpl; [done|].
  destruct (srfind c s) as [j|] eqn:Hj; intros Hi; simplify_eq.
  - destruct (IH j) as [Heq Hn]; [done|]. split; [|done]. simpl. f_equal. exact Heq.
  - case_bool_decide; simplify_eq. simpl. split; [done|].
    clear IH. induction s as [|e s IH]; [done|]. simpl in Hj.
    destruct (srfind d s); [done|]. case_bool_decide; [done|]. unfold no_char in *. simpl.
    rewrite bool_decide_eq_false_2 by congruence. by apply IH.
Qed.
