(* ===== verification/CStd.v ===== *)
(** * The conversions of the C and C++ standard libraries the program uses

    [atoi], [strtol] with base 16, [std::to_string] on [std::size_t], the
    [std::hex] insertion with [std::setw], and [std::filesystem::path::operator/].
    These are language library functions: nothing of this file is mapped to
    the repository, the other files build on it. *)

From S2P Require Import Prelude.
Import DecimalString.

(** [std::isspace] in the C locale: tab, newline, vertical tab, form feed,
    carriage return and space. *)
Definition isspace (c : ascii) : bool :=
  let n := nat_of_ascii c in ((9 <=? n) && (n <=? 13)) || (n =? 32).

(** The value of a digit of the base (at most 16), letters in either case. *)
Definition digit_val (base : Z) (c : ascii) : option Z :=
  let n := Z.of_N (N_of_ascii c) in
  let v :=
    if (48 <=? n)%Z && (n <=? 57)%Z then Some (n - 48)%Z
    else if (97 <=? n)%Z && (n <=? 102)%Z then Some (n - 87)%Z
    else if (65 <=? n)%Z && (n <=? 70)%Z then Some (n - 55)%Z
    else None in
  match v with
  | Some d => if (d <? base)%Z then Some d else None
  | None => None
  end.

Fixpoint skip_space (s : string) : string :=
  match s with
  | String c s' => if isspace c then skip_space s' else s
  | "" => ""
  end.

(** An optional sign: [true] for a minus. *)
Definition scan_sign (s : string) : bool * string :=
  match s with
  | String "-" s' => (true, s')
  | String "+" s' => (false, s')
  | _ => (false, s)
  end.

Fixpoint scan_digits (base acc : Z) (s : string) : Z :=
  match s with
  | String c s' =>
      match digit_val base c with
      | Some d => scan_digits base (acc * base + d) s'
      | None => acc
      end
  | "" => acc
  end.

Definition apply_sign (neg : bool) (z : Z) : Z := if neg then (- z)%Z else z.

(** [atoi]: [None] stands for the values no [int] holds, on which the C
    standard leaves the behaviour undefined. *)
Definition atoi (s : string) : option Z :=
  let '(neg, ds) := scan_sign (skip_space (c_str s)) in
  let z := apply_sign neg (scan_digits 10 0 ds) in
  if in_sint 32 z then Some z else None.

(** [0x] or [0X] before a base 16 subject is skipped when a digit follows. *)
Definition skip_0x (s : string) : string :=
  match s with
  | String "0" (String x (String c s')) =>
      if (bool_decide (x = "x"%char) || bool_decide (x = "X"%char))
         && bool_decide (is_Some (digit_val 16 c))
      then String c s' else s
  | _ => s
  end.

(** [std::strtol(s, nullptr, 16)], clamped to the range of [long]. *)
Definition strtol16 (s : string) : Z :=
  let '(neg, ds) := scan_sign (skip_space (c_str s)) in
  Z.max (- 2 ^ 63) (Z.min (2 ^ 63 - 1) (apply_sign neg (scan_digits 16 0 (skip_0x ds)))).

(** [std::to_string(n)] for an unsigned integer. *)
Definition to_string (n : nat) : string := NilEmpty.string_of_uint (Nat.to_uint n).

Definition is_digit (c : ascii) : bool := bool_decide (is_Some (digit_val 10 c)).

Lemma string_of_uint_digits d : sforall is_digit (NilEmpty.string_of_uint d) = true.
Proof. induction d; cbn; [done|..]; by rewrite IHd. Qed.

Lemma to_string_digits n : sforall is_digit (to_string n) = true.
Proof. apply string_of_uint_digits. Qed.

Lemma to_string_nonempty n : to_string n <> "".
Proof.
  intros H. apply (f_equal NilEmpty.uint_of_string) in H.
  unfold to_string in H. rewrite NilEmpty.usu in H. cbn in H. injection H as H.
  apply (f_equal Nat.of_uint) in H as H'. rewrite DecimalNat.Unsigned.of_to in H'.
  cbn in H'. subst n. discriminate H.
Qed.

(** The inverse reads a string back only when it is the canonical spelling:
    no sign, no leading zero, not empty. *)
Definition read_index (s : string) : option nat :=
  match NilEmpty.uint_of_string s with
  | Some d => let n := Nat.of_uint d in
              if bool_decide (to_string n = s) then Some n else None
  | None => None
  end.

Lemma read_index_to_string n : read_index (to_string n) = Some n.
Proof.
  unfold read_index, to_string at 1. rewrite NilEmpty.usu, DecimalNat.Unsigned.of_to.
  by rewrite bool_decide_eq_true_2.
Qed.

Lemma read_index_Some s n : read_index s = Some n -> s = to_string n.
Proof. unfold read_index. case_match; [|done]. intros. by repeat case_match; bool_simp; simplify_eq. Qed.

#[global] Instance to_string_inj : Inj (=) (=) to_string.
Proof. intros n m H. apply (f_equal read_index) in H. rewrite !read_index_to_string in H. congruence. Qed.

#[export] Hint Rewrite read_index_to_string : kedge.

(** ** Decimal round trips *)

Lemma scan_digits_uint d acc :
  scan_digits 10 (Z.of_nat acc) (NilEmpty.string_of_uint d) = Z.of_nat (Nat.of_uint_acc d acc).
Proof.
  revert acc. induction d as [|d IH|d IH|d IH|d IH|d IH|d IH|d IH|d IH|d IH|d IH]; intros acc;
    [done|..]; cbn [NilEmpty.string_of_uint Nat.of_uint_acc];
    (etrans; [|apply IH]); rewrite ?Nat.tail_mul_spec;
    cbn [scan_digits]; match goal with |- context [digit_val 10 ?c] =>
      let v := eval vm_compute in (digit_val 10 c) in change (digit_val 10 c) with v end;
    cbv beta iota; f_equal; lia.
Qed.

Lemma scan_digits_to_string n : scan_digits 10 0 (to_string n) = Z.of_nat n.
Proof.
  unfold to_string. rewrite (scan_digits_uint _ 0).
  change (Nat.of_uint_acc (Nat.to_uint n) 0) with (Nat.of_uint (Nat.to_uint n)).
  by rewrite DecimalNat.Unsigned.of_to.
Qed.

Lemma digits_no_char c s : is_digit c = false -> sforall is_digit s = true -> no_char c s = true.
Proof.
  intros Hc. apply sforall_impl. intros d Hd.
  apply negb_true_iff, bool_decide_eq_false. congruence.
Qed.

Lemma c_str_app a b : no_char Ascii.zero a = true -> c_str (a +:+ b) = a +:+ c_str b.
Proof.
  induction a as [|c a IH]; intros Ha; [done|].
  simpl in Ha. apply andb_true_iff in Ha as [Hc Ha]. bool_simp.
  change (String c a +:+ ?x) with (String c (a +:+ x)). cbn [c_str].
  rewrite bool_decide_eq_false_2 by congruence. by rewrite IH.
Qed.

(** What [c_str] cuts off. *)
Lemma c_str_prefix s : exists t, s = c_str s +:+ t.
Proof.
  induction s as [|c s [t IH]]; [by exists ""|]. cbn [c_str]. case_bool_decide; [by eexists|].
  exists t. change (String c (c_str s) +:+ t) with (String c (c_str s +:+ t)). by rewrite <- IH.
Qed.

Lemma c_str_id s : no_char Ascii.zero s = true -> c_str s = s.
Proof.
  induction s as [|c s IH]; intros Hs; simpl; [done|].
  simpl in Hs. apply andb_true_iff in Hs as [Hc Hs]. bool_simp.
  rewrite bool_decide_eq_false_2 by congruence. by rewrite IH.
Qed.

(** A decimal numeral starts with neither a blank nor a sign. *)
Lemma scan_sign_digits s :
  sforall is_digit s = true -> scan_sign (skip_space s) = (false, s).
Proof.
  destruct s as [|c s]; [done|]. simpl. intros [Hc _]%andb_true_iff.
  destruct c as [[] [] [] [] [] [] [] []]; done.
Qed.

Lemma atoi_to_string n : (Z.of_nat n < 2 ^ 31)%Z -> atoi (to_string n) = Some (Z.of_nat n).
Proof.
  intros Hn. unfold atoi.
  rewrite c_str_id by (apply digits_no_char; [done|apply to_string_digits]).
  rewrite scan_sign_digits by apply to_string_digits. simpl.
  rewrite scan_digits_to_string.
  destruct (in_sint 32 (Z.of_nat n)) eqn:Hi; [done|].
  apply not_true_iff_false in Hi. destruct Hi. apply in_sint_spec. lia.
Qed.

(** ** [std::hex] *)

Definition hex_char (d : Z) : ascii :=
  ascii_of_N (Z.to_N (if (d <? 10)%Z then d + 48 else d + 87)%Z).

(** Lower-case digits, most significant first, of a number below [16 ^ fuel]. *)
Fixpoint hex_digits (fuel : nat) (z : Z) (acc : string) : string :=
  match fuel with
  | 0 => acc
  | S fuel' =>
      let acc' := String (hex_char (z mod 16)) acc in
      if (z / 16 =? 0)%Z then acc' else hex_digits fuel' (z / 16) acc'
  end.

Fixpoint srepeat (n : nat) (c : ascii) : string :=
  match n with 0 => "" | S n' => String c (srepeat n' c) end.

(** [setfill(c) << setw(w)]: padding on the left, never truncating. *)
Definition setw (w : nat) (c : ascii) (s : string) : string :=
  srepeat (w - String.length s) c +:+ s.

Lemma digit_val_hex_char d : (0 <= d < 16)%Z -> digit_val 16 (hex_char d) = Some d.
Proof.
  intros Hd. assert (d ∈ (Z.of_nat <$> seq 0 16)) as Hin.
  { apply list_elem_of_fmap. exists (Z.to_nat d). split; [lia|]. apply elem_of_seq. lia. }
  revert Hin. cbn. rewrite !elem_of_cons, elem_of_nil. naive_solver.
Qed.

Lemma scan_hex_digits fuel z acc :
  (0 <= z < 16 ^ Z.of_nat fuel)%Z -> 0 < fuel ->
  scan_digits 16 0 (hex_digits fuel z acc) = scan_digits 16 z acc.
Proof.
  revert z acc. induction fuel as [|fuel IH]; intros z acc Hz Hf; [lia|].
  cbn [hex_digits]. pose proof (Z.mod_pos_bound z 16). pose proof (Z.div_mod z 16).
  case_match; bool_simp.
  - cbn [scan_digits]. rewrite digit_val_hex_char by lia. f_equal. lia.
  - rewrite Nat2Z.inj_succ, Z.pow_succ_r in Hz by lia.
    assert (z / 16 < 16 ^ Z.of_nat fuel)%Z by (apply Z.div_lt_upper_bound; lia).
    assert (0 <= z / 16)%Z by (apply Z.div_pos; lia).
    destruct fuel as [|fuel]; [simpl in *; lia|].
    rewrite IH by lia. cbn [scan_digits]. rewrite digit_val_hex_char by lia. f_equal. lia.
Qed.

Lemma length_hex_digits fuel z acc :
  String.length (hex_digits fuel z acc) <= fuel + String.length acc.
Proof.
  revert z acc. induction fuel as [|fuel IH]; intros z acc; cbn [hex_digits]; [done|].
  case_match; [simpl; lia|]. etrans; [apply IH|]. simpl. lia.
Qed.

Lemma length_srepeat n c : String.length (srepeat n c) = n.
Proof. induction n; simpl; congruence. Qed.

Lemma length_setw w c s : String.length s <= w -> String.length (setw w c s) = w.
Proof. intros. unfold setw. rewrite slength_app, length_srepeat. lia. Qed.

Lemma scan_zeros base n s : (1 < base)%Z -> scan_digits base 0 (srepeat n "0" +:+ s) = scan_digits base 0 s.
Proof.
  intros Hb. induction n as [|n IH]; simpl; [done|].
  assert (digit_val base "0" = Some 0%Z) as ->; [|done].
  unfold digit_val. simpl. case_match; bool_simp; [done|lia].
Qed.
