(* ===== verification/Json.v ===== *)
(** * JSON values

    The data of [boost::json::value]: one constructor per [json::kind], an
    object being its members in insertion order.  Boost.JSON is not part of
    the repository; what the program relies on of [operator==] is the class
    [JsonEq] with its law, and every client takes it as an argument. *)

From S2P Require Import Prelude.
From Corelib Require Export SpecFloat.

Inductive json : Type :=
  | JNull
  | JBool (b : bool)
  | JInt64 (z : Z)
  | JUint64 (z : Z)
  | JDouble (d : spec_float)
  | JString (s : string)
  | JArray (l : list json)
  | JObject (o : list (string * json)).

(** [json::kind]. *)
Inductive kind := KNull | KBool | KInt64 | KUint64 | KDouble | KString | KArray | KObject.

#[global] Instance kind_eq_dec : EqDecision kind.
Proof. solve_decision. Defined.

Definition json_kind (j : json) : kind :=
  match j with
  | JNull => KNull | JBool _ => KBool | JInt64 _ => KInt64 | JUint64 _ => KUint64
  | JDouble _ => KDouble | JString _ => KString | JArray _ => KArray | JObject _ => KObject
  end.

(** The children carry the induction hypothesis in arrays and objects. *)
Section json_nested_ind.
  Context (P : json -> Prop).
  Context (Hleaf : forall j, json_kind j <> KArray -> json_kind j <> KObject -> P j).
  Context (Harr : forall l, Forall P l -> P (JArray l)).
  Context (Hobj : forall o, Forall (fun kv => P kv.2) o -> P (JObject o)).

Fixpoint json_nested (j : json) : P j :=
  match j return P j with
  | JArray l =>
      Harr l (list_ind (Forall P) (Forall_nil_2 _)
                (fun x _ => Forall_cons_2 _ x _ (json_nested x)) l)
  | JObject o =>
      Hobj o ((fix members (o : list (string * json)) : Forall (fun kv => P kv.2) o :=
                 match o with
                 | [] => Forall_nil_2 _
                 | kv :: o' => Forall_cons_2 _ kv o' (let (k, v) as p return P p.2 := kv in json_nested v)
                                 (members o')
                 end) o)
  | j => Hleaf j ltac:(discriminate) ltac:(discriminate)
  end.
End json_nested_ind.

(** ** Objects *)

Notation members := (list (string * json)).

(** [object::find] followed by a read of the value. *)
Fixpoint obj_find (k : string) (o : members) : option json :=
  match o with
  | [] => None
  | (k', v) :: o' => if bool_decide (k = k') then Some v else obj_find k o'
  end.

(** [object::emplace(k, v)]: a member that exists already is kept. *)
Definition obj_emplace (k : string) (v : json) (o : members) : members :=
  match obj_find k o with
  | Some _ => o
  | None => o ++ [(k, v)]
  end.

(** [if (b) obj.emplace(k, v)]. *)
Definition emplace_if (b : bool) (k : string) (v : json) (o : members) : members :=
  if b then obj_emplace k v o else o.

(** [obj[k] = v] on a member that exists: its position is kept. *)
Fixpoint obj_set (k : string) (v : json) (o : members) : members :=
  match o with
  | [] => []
  | (k', w) :: o' => if bool_decide (k = k') then (k', v) :: o' else (k', w) :: obj_set k v o'
  end.

(** [object::erase(k)]. *)
Fixpoint obj_erase (k : string) (o : members) : members :=
  match o with
  | [] => []
  | (k', w) :: o' => if bool_decide (k = k') then o' else (k', w) :: obj_erase k o'
  end.

Definition keys (o : members) : list string := o.*1.

(** ** Well-formed values and equality *)

Definition not_nan (d : spec_float) : bool :=
  match d with S754_nan => false | _ => true end.

(** What the type itself promises (the keys of an object are distinct),
    and no NaN, on which equality is not reflexive. *)
Fixpoint json_wf (j : json) : bool :=
  match j with
  | JDouble d => not_nan d
  | JArray l => forallb json_wf l
  | JObject o => bool_decide (NoDup (keys o)) && forallb (fun kv => json_wf kv.2) o
  | _ => true
  end.

(** The integer a value holds, whatever its signedness. *)
Definition integral (j : json) : option Z :=
  match j with
  | JInt64 z | JUint64 z => Some z
  | _ => None
  end.

(** The documented [operator==]: equal kinds and contents, two integers of
    different signedness compared by value, objects regardless of order. *)
Fixpoint json_same (a b : json) {struct a} : bool :=
  match a, b with
  | JNull, JNull => true
  | JBool x, JBool y => Bool.eqb x y
  | JInt64 x, JInt64 y | JInt64 x, JUint64 y
  | JUint64 x, JInt64 y | JUint64 x, JUint64 y => Z.eqb x y
  | JDouble x, JDouble y => SFeqb x y
  | JString x, JString y => bool_decide (x = y)
  | JArray l, JArray m =>
      (fix go (l m : list json) : bool :=
         match l, m with
         | [], [] => true
         | x :: l', y :: m' => json_same x y && go l' m'
         | _, _ => false
         end) l m
  | JObject o, JObject p =>
      (length o =? length p)
      && forallb (fun kv => match obj_find kv.1 p with
                            | Some w => json_same kv.2 w
                            | None => false
                            end) o
  | _, _ => false
  end.

(** Equality of well-formed values, a partial equivalence. *)
#[global] Instance json_equiv : Equiv json := fun a b =>
  json_wf a = true /\ json_wf b = true /\ json_same a b = true.

#[global] Instance json_equiv_dec (a b : json) : Decision (a ≡ b).
Proof. unfold equiv, json_equiv. apply _. Defined.

(** What the program relies on of [operator==(value, value)]. *)
Class JsonEq := json_eqb : json -> json -> bool.
Class JsonEqLaws `{JsonEq} : Prop :=
  json_eqb_spec a b :
    json_wf a = true -> json_wf b = true -> json_eqb a b = true <-> a ≡ b.

(** The documented comparison is an implementation of it. *)
Definition documented_eq : JsonEq := json_same.

Lemma documented_eq_laws : @JsonEqLaws documented_eq.
Proof. intros a b Ha Hb. unfold json_eqb, documented_eq, equiv, json_equiv. naive_solver. Qed.

(** ** Member lists *)

Lemma obj_find_app k o1 o2 :
  obj_find k (o1 ++ o2) = match obj_find k o1 with Some v => Some v | None => obj_find k o2 end.
Proof. induction o1 as [|[k' v] o1 IH]; simpl; [done|]. by case_bool_decide. Qed.

Lemma obj_find_None k o : obj_find k o = None <-> k ∉ keys o.
Proof.
  induction o as [|[k' v] o IH]; simpl; [set_solver|].
  rewrite not_elem_of_cons. case_bool_decide; naive_solver.
Qed.

Lemma obj_find_Some k v o : NoDup (keys o) -> obj_find k o = Some v <-> (k, v) ∈ o.
Proof.
  induction o as [|[k' w] o IH]; simpl; intros Hnd; [set_solver|].
  apply NoDup_cons in Hnd as [Hk Hnd]. rewrite elem_of_cons, <- IH by done.
  case_bool_decide; [|naive_solver]. subst.
  split; [naive_solver|intros [|Hf]; [naive_solver|]].
  destruct Hk. destruct (decide (k' ∈ keys o)) as [|Hn]; [done|].
  apply obj_find_None in Hn. congruence.
Qed.

Lemma obj_find_elem k v o : obj_find k o = Some v -> (k, v) ∈ o.
Proof.
  induction o as [|[k' w] o IH]; simpl; [done|].
  case_bool_decide; intros; simplify_eq; set_solver.
Qed.

Lemma obj_find_keys k o : is_Some (obj_find k o) <-> k ∈ keys o.
Proof.
  rewrite <- not_eq_None_Some, obj_find_None. split; [|naive_solver].
  destruct (decide (k ∈ keys o)); naive_solver.
Qed.

Lemma obj_find_emplace k k' v o :
  obj_find k (obj_emplace k' v o)
  = match obj_find k o with
    | Some w => Some w
    | None => if bool_decide (k = k') then Some v else None
    end.
Proof.
  unfold obj_emplace. destruct (obj_find k' o) eqn:Hk'.
  - case_bool_decide; [subst; by rewrite Hk'|by case_match].
  - rewrite obj_find_app. simpl. done.
Qed.

Lemma keys_emplace k v o :
  keys (obj_emplace k v o) = if decide (k ∈ keys o) then keys o else keys o ++ [k].
Proof.
  unfold obj_emplace. destruct (obj_find k o) eqn:Hk; case_decide as Hd; try done.
  - destruct Hd. apply obj_find_keys. eauto.
  - by apply obj_find_None in Hk.
  - unfold keys. by rewrite fmap_app.
Qed.

Lemma NoDup_keys_emplace k v o : NoDup (keys o) -> NoDup (keys (obj_emplace k v o)).
Proof.
  rewrite keys_emplace. case_decide; [done|]. intros.
  apply NoDup_app. split_and!; [done|set_solver|apply NoDup_singleton].
Qed.

Lemma obj_set_mid k v w o1 o2 :
  k ∉ keys o1 -> obj_set k v (o1 ++ (k, w) :: o2) = o1 ++ (k, v) :: o2.
Proof.
  induction o1 as [|[k' u] o1 IH]; simpl; intros Hk.
  - by rewrite bool_decide_eq_true_2.
  - apply not_elem_of_cons in Hk as [? ?]. rewrite bool_decide_eq_false_2 by done. by rewrite IH.
Qed.

Lemma obj_erase_mid k w o1 o2 : k ∉ keys o1 -> obj_erase k (o1 ++ (k, w) :: o2) = o1 ++ o2.
Proof.
  induction o1 as [|[k' u] o1 IH]; simpl; intros Hk.
  - by rewrite bool_decide_eq_true_2.
  - apply not_elem_of_cons in Hk as [? ?]. rewrite bool_decide_eq_false_2 by done. by rewrite IH.
Qed.

Lemma obj_find_set k k' v o :
  obj_find k (obj_set k' v o)
  = if bool_decide (k = k') then (fun _ => v) <$> obj_find k o else obj_find k o.
Proof.
  induction o as [|[k2 w] o IH]; simpl; [by case_bool_decide|].
  repeat (case_bool_decide; simplify_eq/=); try done.
Qed.

Lemma keys_set k v o : keys (obj_set k v o) = keys o.
Proof. induction o as [|[k' w] o IH]; simpl; [done|]. case_bool_decide; simpl; congruence. Qed.

Lemma obj_set_set k v w o : obj_set k v (obj_set k w o) = obj_set k v o.
Proof.
  induction o as [|[k' u] o IH]; simpl; [done|].
  case_bool_decide; simpl; [by rewrite bool_decide_eq_true_2|by rewrite bool_decide_eq_false_2, IH].
Qed.

Lemma keys_erase_elem k k' o :
  NoDup (keys o) -> k' ∈ keys (obj_erase k o) <-> k' ∈ keys o /\ k' <> k.
Proof.
  induction o as [|[k2 w] o IH]; simpl; intros Hnd; [set_solver|].
  apply NoDup_cons in Hnd as [Hk Hnd].
  case_bool_decide; simpl; rewrite ?elem_of_cons, ?IH by done; naive_solver.
Qed.

Lemma NoDup_keys_erase k o : NoDup (keys o) -> NoDup (keys (obj_erase k o)).
Proof.
  induction o as [|[k2 w] o IH]; simpl; intros Hnd; [done|].
  apply NoDup_cons in Hnd as [Hk Hnd]. case_bool_decide; simpl; [done|].
  apply NoDup_cons. split; [|auto]. rewrite keys_erase_elem by done. naive_solver.
Qed.

Lemma obj_find_erase k k' o :
  NoDup (keys o) ->
  obj_find k (obj_erase k' o) = if bool_decide (k = k') then None else obj_find k o.
Proof.
  induction o as [|[k2 w] o IH]; simpl; intros Hnd; [by case_bool_decide|].
  apply NoDup_cons in Hnd as [Hk Hnd]. specialize (IH Hnd).
  repeat (case_bool_decide; simplify_eq/=; rewrite ?IH); try done; try by rewrite bool_decide_eq_true_2.
  - by apply obj_find_None.
Qed.

(** ** Equality *)

Lemma json_same_array l m :
  json_same (JArray l) (JArray m) = true <-> Forall2 (fun x y => json_same x y = true) l m.
Proof.
  revert m. induction l as [|x l IH]; intros [|y m]; split; intros H; try done;
    try (by inversion H).
  - cbn in H. apply andb_true_iff in H as [? H]. constructor; [done|]. by apply IH.
  - inversion H; subst. cbn. apply andb_true_iff. split; [done|]. by apply IH.
Qed.

Lemma forallb_Forall {A} (f : A -> bool) l : forallb f l = true <-> Forall (fun x => f x = true) l.
Proof. rewrite List.forallb_forall, Forall_forall. by setoid_rewrite list_elem_of_In. Qed.

Lemma json_wf_array l : json_wf (JArray l) = true <-> Forall (fun j => json_wf j = true) l.
Proof. apply forallb_Forall. Qed.

Lemma json_wf_object o :
  json_wf (JObject o) = true <->
  NoDup (keys o) /\ forall k v, obj_find k o = Some v -> json_wf v = true.
Proof.
  cbn. rewrite andb_true_iff, bool_decide_eq_true, forallb_Forall, Forall_forall.
  split; intros [Hnd Hf]; split; try done.
  - intros k v Hk. by apply obj_find_elem, (Hf (k, v)) in Hk.
  - intros [k v] Hin. by apply (Hf k), obj_find_Some.
Qed.

(** Members of one object, each present in the other: same key sets. *)
Lemma keys_incl_length o p :
  NoDup (keys o) -> NoDup (keys p) -> length o = length p ->
  (forall k, k ∈ keys o -> k ∈ keys p) -> forall k, k ∈ keys p -> k ∈ keys o.
Proof.
  intros Ho Hp Hlen Hsub k Hk.
  assert (keys o ⊆+ keys p) as Hs by (by apply NoDup_submseteq).
  apply submseteq_length_Permutation in Hs; [by rewrite Hs|].
  unfold keys. rewrite !length_fmap. lia.
Qed.

Lemma NoDup_keys_length o p :
  NoDup (keys o) -> NoDup (keys p) ->
  (forall k, k ∈ keys o <-> k ∈ keys p) -> length o = length p.
Proof.
  intros Ho Hp Hk. assert (keys o ≡ₚ keys p) as Hs by (by apply NoDup_Permutation).
  apply Permutation_length in Hs. unfold keys in Hs. by rewrite !length_fmap in Hs.
Qed.

Lemma json_equiv_array l m : JArray l ≡ JArray m <-> Forall2 (≡) l m.
Proof.
  unfold equiv at 1, json_equiv. rewrite !json_wf_array, json_same_array. split.
  - intros (Hl & Hm & Hs). revert Hl Hm.
    induction Hs; intros; constructor; inversion Hl; inversion Hm; subst; [by split_and!|auto].
  - induction 1 as [|x y l m (?&?&?) ? (?&?&?)]; split_and!; constructor; auto.
Qed.

Lemma json_same_object_find o p :
  NoDup (keys o) -> NoDup (keys p) ->
  json_same (JObject o) (JObject p) = true <->
  forall k, match obj_find k o, obj_find k p with
            | Some v, Some w => json_same v w = true
            | None, None => True
            | _, _ => False
            end.
Proof.
  intros Ho Hp. cbn. rewrite andb_true_iff, Nat.eqb_eq, forallb_Forall, Forall_forall. split.
  - intros [Hlen Hf] k.
    assert (forall k, k ∈ keys o -> k ∈ keys p) as Hsub.
    { intros k' Hk'. apply obj_find_keys in Hk' as [v Hv].
      apply obj_find_elem, Hf in Hv. cbn in Hv. apply obj_find_keys. by case_match. }
    destruct (obj_find k o) as [v|] eqn:Hk.
    + apply obj_find_elem, Hf in Hk. cbn in Hk. by case_match.
    + destruct (obj_find k p) as [w|] eqn:Hk'; [|done].
      apply obj_find_None in Hk. apply Hk, (keys_incl_length o p); try done.
      apply obj_find_keys. eauto.
  - intros Hf. split.
    + apply NoDup_keys_length; [done..|]. intros k. rewrite <- !obj_find_keys.
      specialize (Hf k). repeat case_match; naive_solver.
    + intros [k v] Hin. apply obj_find_Some in Hin; [|done]. cbn.
      specialize (Hf k). rewrite Hin in Hf. by case_match.
Qed.

Lemma json_equiv_object o p :
  JObject o ≡ JObject p <->
  NoDup (keys o) /\ NoDup (keys p) /\ forall k, option_Forall2 (≡) (obj_find k o) (obj_find k p).
Proof.
  unfold equiv at 1, json_equiv. split.
  - intros (Hwo & Hwp & Hs). apply json_wf_object in Hwo as [Ho Hwo], Hwp as [Hp Hwp].
    split_and!; [done..|]. rewrite json_same_object_find in Hs by done. intros k.
    specialize (Hs k). specialize (Hwo k). specialize (Hwp k).
    destruct (obj_find k o), (obj_find k p); try done; constructor.
    split_and!; [by apply Hwo|by apply Hwp|done].
  - intros (Ho & Hp & Hf). rewrite !json_wf_object, json_same_object_find by done.
    split_and!; try done.
    + intros k v Hv. specialize (Hf k). rewrite Hv in Hf. inversion Hf as [?? (?&?&?)|]; by subst.
    + intros k v Hv. specialize (Hf k). rewrite Hv in Hf. inversion Hf as [?? (?&?&?)|]; by subst.
    + intros k. specialize (Hf k). inversion Hf as [?? (?&?&?)|]; subst; done.
Qed.

(** IEEE equality holds of identical values and of the two zeros only. *)
Lemma SFeqb_spec x y :
  SFeqb x y = true <->
  (x = y /\ not_nan x = true) \/ exists s t, x = S754_zero s /\ y = S754_zero t.
Proof.
  split.
  - unfold SFeqb, SFcompare. destruct x as [s|s| |s m e], y as [t|t| |t n f]; intros H;
      try done; try (by right; eauto); try (by destruct s); try (by destruct t);
      left; destruct s, t; try done.
    all: destruct (Z.compare_spec e f) as [->| |]; try done; change (Pos.compare_cont Eq) with Pos.compare in H.
    all: destruct (Pos.compare_spec m n) as [->| |]; done.
  - intros [[-> Hn]|(s & t & -> & ->)]; [|done].
    unfold SFeqb, SFcompare. destruct y as [s|s| |s m e]; try done; destruct s; try done.
    all: rewrite Z.compare_refl; change (Pos.compare_cont Eq) with Pos.compare;
      by rewrite Pos.compare_refl.
Qed.

Lemma json_equiv_refl a : json_wf a = true -> a ≡ a.
Proof.
  induction a as [a Ha Ho|l IH|o IH] using json_nested; intros Hwf.
  - split_and!; [done..|]. destruct a; cbn in *; try done.
    + apply Bool.eqb_true_iff. done.
    + apply Z.eqb_refl.
    + apply Z.eqb_refl.
    + apply SFeqb_spec. by left.
    + by apply bool_decide_eq_true.
  - apply json_equiv_array. apply json_wf_array in Hwf.
    induction IH; inversion Hwf; subst; constructor; auto.
  - apply json_wf_object in Hwf as [Hnd Hwf]. apply json_equiv_object.
    split_and!; [done..|]. intros k. destruct (obj_find k o) as [v|] eqn:Hk; constructor.
    rewrite Forall_forall in IH. apply (IH (k, v)); [by apply obj_find_elem|eauto].
Qed.

#[global] Instance json_equiv_sym : Symmetric (≡@{json}).
Proof.
  intros a. induction a as [a Ha Ho|l IH|o IH] using json_nested; intros b Hab.
  - destruct Hab as (Hwa & Hwb & Hs). split_and!; [done..|].
    destruct a, b; cbn in *; try done.
    + apply Bool.eqb_true_iff in Hs as ->. apply Bool.eqb_true_iff. done.
    + by rewrite Z.eqb_sym.
    + by rewrite Z.eqb_sym.
    + by rewrite Z.eqb_sym.
    + by rewrite Z.eqb_sym.
    + apply SFeqb_spec in Hs. apply SFeqb_spec. naive_solver.
    + apply bool_decide_eq_true in Hs as ->. by apply bool_decide_eq_true.
  - destruct b as [| | | | | |m|]; try by destruct Hab as (_&_&?).
    rewrite json_equiv_array in *.
    induction Hab; inversion IH; subst; constructor; auto.
  - destruct b as [| | | | | | |p]; try by destruct Hab as (_&_&?).
    rewrite json_equiv_object in *. destruct Hab as (Ho & Hp & Hf).
    split_and!; [done..|]. intros k. specialize (Hf k).
    rewrite Forall_forall in IH. inversion Hf as [v w Hvw Hv Hw|]; constructor.
    apply (IH (k, v)); [by apply obj_find_elem|done].
Qed.

#[global] Instance json_equiv_trans : Transitive (≡@{json}).
Proof.
  intros a. induction a as [a Ha Ho|l IH|o IH] using json_nested; intros b c Hab Hbc.
  - destruct Hab as (Hwa & Hwb & Hs), Hbc as (_ & Hwc & Hs'). split_and!; [done..|].
    destruct a, b; try done; destruct c; try done; cbn in *.
    all: rewrite ?Bool.eqb_true_iff, ?Z.eqb_eq, ?bool_decide_eq_true in *; try congruence.
    rewrite SFeqb_spec in *. naive_solver.
  - destruct b as [| | | | | |m|]; try by destruct Hab as (_&_&?).
    destruct c as [| | | | | |n|]; try by destruct Hbc as (_&_&?).
    rewrite json_equiv_array in *. revert n Hbc.
    induction Hab; intros n Hbc; inversion Hbc; inversion IH; subst; constructor; eauto.
  - destruct b as [| | | | | | |p]; try by destruct Hab as (_&_&?).
    destruct c as [| | | | | | |q]; try by destruct Hbc as (_&_&?).
    rewrite json_equiv_object in *. destruct Hab as (Ho & Hp & Hf), Hbc as (_ & Hq & Hg).
    split_and!; [done..|]. intros k. specialize (Hf k). specialize (Hg k).
    rewrite Forall_forall in IH.
    inversion Hf as [v w Hvw Hv Hw|Hv Hw]; rewrite <- Hw in Hg; inversion Hg; subst; constructor.
    eapply (IH (k, v)); [by apply obj_find_elem|done..].
Qed.

Lemma json_equiv_wf_l a b : a ≡ b -> json_wf a = true.
Proof. by intros (?&_&_). Qed.
Lemma json_equiv_wf_r a b : a ≡ b -> json_wf b = true.
Proof. by intros (_&?&_). Qed.

(** Values of different kinds are equal only as integers. *)
Lemma json_equiv_kind a b :
  a ≡ b -> json_kind a = json_kind b \/ (exists z, integral a = Some z /\ integral b = Some z).
Proof.
  intros (_&_&Hs). destruct a, b; try done; try (by left); right; eexists; cbn in *;
    apply Z.eqb_eq in Hs; subst; done.
Qed.

#[export] Hint Resolve json_equiv_refl json_equiv_wf_l json_equiv_wf_r : kedge.

(** ** Objects built by a run of conditional emplaces *)

(** [(b, k, v)] stands for [if (b) obj.emplace(k, v)]. *)
Notation entry := (bool * string * json)%type.

Definition emplace_all (es : list entry) (o : members) : members :=
  foldl (fun o e => emplace_if e.1.1 e.1.2 e.2 o) o es.

Definition present (es : list entry) : members :=
  omap (fun e : entry => if e.1.1 then Some (e.1.2, e.2) else None) es.

Definition names (es : list entry) : list string := (fun e : entry => e.1.2) <$> es.

Lemma emplace_all_spec es o :
  NoDup (keys o ++ names es) -> emplace_all es o = o ++ present es.
Proof.
  revert o. induction es as [|[[b k] v] es IH]; intros o Hnd; simpl in *; [by rewrite app_nil_r|].
  assert (k ∉ keys o) as Hk.
  { apply NoDup_app in Hnd as (_ & Hd & _). intros Hin. apply (Hd k Hin). apply list_elem_of_here. }
  unfold emplace_all in *. destruct b; simpl.
  - unfold obj_emplace. apply obj_find_None in Hk. rewrite Hk.
    rewrite IH; rewrite <- ?app_assoc; [done|].
    unfold keys in *. rewrite fmap_app, <- app_assoc. done.
  - rewrite IH; [done|]. apply NoDup_app in Hnd as (? & Hd & [_ ?]%NoDup_cons).
    apply NoDup_app. split_and!; [done| |done]. intros k' ??. by apply (Hd k'), list_elem_of_further.
Qed.

Lemma keys_present es k : k ∈ keys (present es) -> k ∈ names es.
Proof.
  unfold keys, names, present. intros ([k' v] & -> & Hin)%list_elem_of_fmap.
  apply list_elem_of_omap in Hin as ([[b k] w] & Hin & Hb). simpl in *. destruct b; simplify_eq.
  apply list_elem_of_fmap. by exists (true, k', v).
Qed.

Lemma NoDup_present es : NoDup (names es) -> NoDup (keys (present es)).
Proof.
  induction es as [|[[b k] v] es IH]; simpl; intros Hnd; [constructor|].
  apply NoDup_cons in Hnd as [Hk Hnd]. destruct b; simpl; [|auto].
  apply NoDup_cons. split; [|auto]. by intros Hin%keys_present.
Qed.

(** Reading a member of such an object. *)
Lemma find_emplace_all es o k v :
  NoDup (keys o ++ names es) ->
  obj_find k (emplace_all es o) = Some v <-> (k, v) ∈ o \/ (true, k, v) ∈ es.
Proof.
  intros Hnd. rewrite emplace_all_spec by done.
  apply NoDup_app in Hnd as (Ho & Hd & Hes). rewrite obj_find_Some, elem_of_app.
  - apply or_iff_compat_l. unfold present. rewrite list_elem_of_omap. split.
    + intros ([[b k'] w] & Hin & Hb). simpl in Hb. destruct b; naive_solver.
    + intros Hin. by exists (true, k, v).
  - unfold keys. rewrite fmap_app. apply NoDup_app. split_and!; [done| |by apply NoDup_present].
    intros k' Hk' Hin. by apply keys_present, (Hd k') in Hin.
Qed.

Lemma wf_emplace_all es o :
  NoDup (keys o ++ names es) ->
  Forall (fun kv => json_wf kv.2 = true) o -> Forall (fun e : entry => json_wf e.2 = true) es ->
  json_wf (JObject (emplace_all es o)) = true.
Proof.
  intros Hnd Ho Hes. apply json_wf_object. split.
  - rewrite emplace_all_spec by done. apply NoDup_app in Hnd as (? & Hd & ?).
    unfold keys. rewrite fmap_app. apply NoDup_app. split_and!; [done| |by apply NoDup_present].
    intros k' Hk' Hin. by apply keys_present, (Hd k') in Hin.
  - intros k v Hv. apply find_emplace_all in Hv as [Hv|Hv]; [| |done].
    + rewrite Forall_forall in Ho. by apply (Ho _ Hv).
    + rewrite Forall_forall in Hes. by apply (Hes _ Hv).
Qed.
