(* ===== verification/JsonPatch.v ===== *)
(** * JSON Patch, the language of the sync messages

    What a client of [/api/sync] does with the [body] of a delta message:
    RFC 6901 pointers and the [add], [remove] and [replace] operations of
    RFC 6902.  This is the specification [json_diff] (file [JsonDiff]) is
    proved against; nothing of this file is code of the repository. *)

From S2P Require Import Prelude CStd Json.

(** ** Pointers *)

Definition token_char (c : ascii) : bool :=
  negb (bool_decide (c = "/"%char)) && negb (bool_decide (c = "~"%char)).

(** A reference token that is written as it is, with nothing to escape. *)
Definition token_safe (t : string) : bool := sforall token_char t.

(** The substrings between slashes, at least one. *)
Fixpoint split_slash (s : string) : list string :=
  match s with
  | "" => [""]
  | String c s' =>
      if bool_decide (c = "/"%char) then "" :: split_slash s'
      else match split_slash s' with
           | t :: ts => String c t :: ts
           | [] => [String c ""]
           end
  end.

(** [~0] is a tilde, [~1] a slash; any other use of a tilde is an error. *)
Fixpoint unescape (s : string) : option string :=
  match s with
  | "" => Some ""
  | String "~" (String "0" s') => String "~" <$> unescape s'
  | String "~" (String "1" s') => String "/" <$> unescape s'
  | String "~" _ => None
  | String c s' => String c <$> unescape s'
  end.

(** The empty pointer is the whole document; any other starts with a slash. *)
Definition parse_pointer (s : string) : option (list string) :=
  match s with
  | "" => Some []
  | String "/" s' => mapM unescape (split_slash s')
  | _ => None
  end.

(** The pointer with the given tokens, none of which needs escaping. *)
Fixpoint pointer (ts : list string) : string :=
  match ts with
  | [] => ""
  | t :: ts' => "/" +:+ t +:+ pointer ts'
  end.

(** ** Operations *)

Inductive action :=
  | Add (v : json)
  | Remove
  | Replace (v : json).

Definition jstring (j : json) : option string :=
  match j with JString s => Some s | _ => None end.

(** One element of a patch: the members [op], [path] and, for [add] and
    [replace], [value]. *)
Definition decode_op (j : json) : option (list string * action) :=
  match j with
  | JObject o =>
      name ← (obj_find "op" o ≫= jstring);
      ptr ← (obj_find "path" o ≫= jstring);
      path ← parse_pointer ptr;
      if bool_decide (name = "add") then v ← obj_find "value" o; Some (path, Add v)
      else if bool_decide (name = "replace") then v ← obj_find "value" o; Some (path, Replace v)
      else if bool_decide (name = "remove") then Some (path, Remove)
      else None
  | _ => None
  end.

(** The operation on the member or element [t] of a container. *)
Definition act_on (t : string) (act : action) (doc : json) : option json :=
  match doc with
  | JObject o =>
      match act, obj_find t o with
      | Add v, None => Some (JObject (o ++ [(t, v)]))
      | Add v, Some _ | Replace v, Some _ => Some (JObject (obj_set t v o))
      | Remove, Some _ => Some (JObject (obj_erase t o))
      | _, None => None
      end
  | JArray l =>
      match act with
      | Add v =>
          if bool_decide (t = "-") then Some (JArray (l ++ [v]))
          else i ← read_index t;
               if i <=? length l then Some (JArray (take i l ++ v :: drop i l)) else None
      | Remove => i ← read_index t; _ ← l !! i; Some (JArray (delete i l))
      | Replace v => i ← read_index t; _ ← l !! i; Some (JArray (<[i:=v]> l))
      end
  | _ => None
  end.

(** The value [t] leads to, and the document with that value replaced. *)
Definition child (t : string) (doc : json) : option json :=
  match doc with
  | JObject o => obj_find t o
  | JArray l => i ← read_index t; l !! i
  | _ => None
  end.

Definition set_child (t : string) (v : json) (doc : json) : json :=
  match doc with
  | JObject o => JObject (obj_set t v o)
  | JArray l => match read_index t with Some i => JArray (<[i:=v]> l) | None => JArray l end
  | _ => doc
  end.

Fixpoint apply_at (ts : list string) (act : action) (doc : json) : option json :=
  match ts with
  | [] => match act with Add v | Replace v => Some v | Remove => None end
  | [t] => act_on t act doc
  | t :: ts' =>
      v ← child t doc;
      v' ← apply_at ts' act v;
      Some (set_child t v' doc)
  end.

(** A patch is applied operation by operation; one that fails fails it all. *)
Fixpoint run (ops : list (list string * action)) (doc : json) : option json :=
  match ops with
  | [] => Some doc
  | (ts, act) :: ops' => doc' ← apply_at ts act doc; run ops' doc'
  end.

Definition apply_patch (patch : list json) (doc : json) : option json :=
  ops ← mapM decode_op patch; run ops doc.

(** The client's side of a delta message. *)
Definition patch_json (patch doc : json) : option json :=
  match patch with JArray l => apply_patch l doc | _ => None end.

Example patch_demo :
  apply_patch
    [JObject [("op", JString "remove"); ("path", JString "/a/0")];
     JObject [("op", JString "add"); ("path", JString "/a/-"); ("value", JNull)]]
    (JObject [("a", JArray [JInt64 1; JInt64 2])])
  = Some (JObject [("a", JArray [JInt64 2; JNull])]).
Proof. reflexivity. Qed.

(** ** Pointers with nothing to escape read back *)

Lemma token_char_not_slash c : token_char c = true -> c <> "/"%char /\ c <> "~"%char.
Proof. unfold token_char. intros; bool_simp. done. Qed.

Lemma split_slash_safe t s :
  token_safe t = true -> split_slash (t +:+ String "/" s) = t :: split_slash s.
Proof.
  induction t as [|c t IH]; intros Ht; simpl in *; [done|].
  apply andb_true_iff in Ht as [[Hc _]%token_char_not_slash Ht].
  unfold token_safe in IH.
  rewrite bool_decide_eq_false_2 by done. by rewrite IH.
Qed.

Lemma split_slash_single t : token_safe t = true -> split_slash t = [t].
Proof.
  induction t as [|c t IH]; intros Ht; simpl in *; [done|].
  apply andb_true_iff in Ht as [[Hc _]%token_char_not_slash Ht].
  rewrite bool_decide_eq_false_2 by done. by rewrite IH.
Qed.

Lemma unescape_safe t : token_safe t = true -> unescape t = Some t.
Proof.
  induction t as [|c t IH]; intros Ht; simpl in *; [done|].
  apply andb_true_iff in Ht as [[_ Hc]%token_char_not_slash Ht]. rewrite IH by done.
  destruct c as [[] [] [] [] [] [] [] []]; try done.
Qed.

Lemma split_slash_pointer t ts :
  Forall (fun t => token_safe t = true) (t :: ts) ->
  split_slash (t +:+ pointer ts) = t :: ts.
Proof.
  revert t. induction ts as [|t' ts IH]; intros t Hf; inversion Hf; subst; simpl.
  - rewrite sapp_nil_r. by apply split_slash_single.
  - rewrite split_slash_safe by done. by rewrite IH.
Qed.

Lemma parse_pointer_pointer ts :
  Forall (fun t => token_safe t = true) ts -> parse_pointer (pointer ts) = Some ts.
Proof.
  destruct ts as [|t ts]; intros Hf; [done|]. simpl.
  rewrite split_slash_pointer by done. apply mapM_Some.
  induction Hf; constructor; auto using unescape_safe.
Qed.

Lemma pointer_app ts us : pointer (ts ++ us) = pointer ts +:+ pointer us.
Proof. induction ts as [|t ts IH]; simpl; [done|]. by rewrite IH, !sapp_assoc. Qed.

Lemma digit_token_char c : is_digit c = true -> token_char c = true.
Proof. unfold is_digit. destruct c as [[] [] [] [] [] [] [] []]; done. Qed.

Lemma to_string_safe n : token_safe (to_string n) = true.
Proof. eapply sforall_impl; [apply digit_token_char|apply to_string_digits]. Qed.

Lemma to_string_not_dash n : to_string n <> "-".
Proof. intros H. pose proof (to_string_digits n) as Hd. by rewrite H in Hd. Qed.

(** Every member name is a reference token as it stands. *)
Fixpoint plain (j : json) : bool :=
  match j with
  | JArray l => forallb plain l
  | JObject o => forallb (fun kv => token_safe kv.1 && plain kv.2) o
  | _ => true
  end.

Lemma plain_array l : plain (JArray l) = true <-> Forall (fun j => plain j = true) l.
Proof. apply forallb_Forall. Qed.

Lemma plain_object o :
  plain (JObject o) = true <->
  Forall (fun kv => token_safe kv.1 = true /\ plain kv.2 = true) o.
Proof. cbn. rewrite forallb_Forall. apply Forall_iff. intros. apply andb_true_iff. Qed.

Lemma plain_emplace_all es o :
  NoDup (keys o ++ names es) ->
  Forall (fun kv => token_safe kv.1 = true /\ plain kv.2 = true) o ->
  Forall (fun e : entry => token_safe e.1.2 = true /\ plain e.2 = true) es ->
  plain (JObject (emplace_all es o)) = true.
Proof.
  intros Hnd Ho Hes. apply plain_object. rewrite emplace_all_spec by done.
  apply Forall_app. split; [done|]. apply Forall_forall. intros kv Hin.
  apply list_elem_of_omap in Hin as (e & He & Hb). rewrite Forall_forall in Hes.
  specialize (Hes _ He). destruct e as [[[] ?] ?]; naive_solver.
Qed.

(** ** Patches below a member or an element *)

Lemma run_app ops1 ops2 doc : run (ops1 ++ ops2) doc = run ops1 doc ≫= run ops2.
Proof.
  revert doc. induction ops1 as [|[ts act] ops1 IH]; intros doc; simpl; [done|].
  destruct (apply_at ts act doc); simpl; [apply IH|done].
Qed.

(** The same operations, one level deeper. *)
Definition push (t : string) (op : list string * action) : list string * action :=
  (t :: op.1, op.2).

(** Operations on the whole document only replace it. *)
Definition root_replaces (op : list string * action) : Prop :=
  op.1 = [] -> exists v, op.2 = Replace v.

Definition container (t : string) (doc : json) : Prop := is_Some (child t doc).

Lemma child_set_child t v doc :
  container t doc -> child t (set_child t v doc) = Some v.
Proof.
  intros [w Hw]. destruct doc; try done; simpl in *.
  - destruct (read_index t) as [i|] eqn:Hi; simpl in *; [|done]. rewrite Hi. simpl.
    apply list_lookup_insert_eq. by eapply lookup_lt_Some.
  - by rewrite obj_find_set, bool_decide_eq_true_2, Hw.
Qed.

Lemma set_child_id t v doc : child t doc = Some v -> set_child t v doc = doc.
Proof.
  intros Hw. destruct doc as [| | | | | |l|o]; try done; simpl in *.
  - destruct (read_index t) as [i|]; simpl in *; [|done]. by rewrite list_insert_id.
  - f_equal. revert Hw. induction o as [|[k w] o IH]; simpl; [done|].
    case_bool_decide; intros; simplify_eq; [done|]. by rewrite IH.
Qed.

Lemma set_set_child t v w doc :
  set_child t v (set_child t w doc) = set_child t v doc.
Proof.
  destruct doc as [| | | | | |l|o]; try done; simpl.
  - destruct (read_index t) as [i|] eqn:Hi; simpl; rewrite ?Hi; [|done].
    by rewrite list_insert_insert_eq.
  - by rewrite obj_set_set.
Qed.

Lemma act_on_replace t v doc :
  container t doc -> act_on t (Replace v) doc = Some (set_child t v doc).
Proof.
  intros [w Hw]. destruct doc; try done; simpl in *.
  - destruct (read_index t) as [i|]; simpl in *; [|done]. by rewrite Hw.
  - by rewrite Hw.
Qed.

(** A pushed patch works inside the child and leaves the rest alone. *)
Lemma run_push t ops doc v :
  child t doc = Some v ->
  Forall root_replaces ops ->
  run (push t <$> ops) doc = v' ← run ops v; Some (set_child t v' doc).
Proof.
  intros Hc Hops. revert doc v Hc.
  induction Hops as [|[ts act] ops Hroot Hops IH]; intros doc v Hc; simpl.
  - by rewrite set_child_id.
  - assert (container t doc) as Hd by (by eexists).
    destruct ts as [|t' ts]; cbn [apply_at].
    + destruct Hroot as [w Hw]; [done|]. simpl in Hw. subst act.
      rewrite act_on_replace by done. simpl.
      rewrite (IH _ w) by (by apply child_set_child).
      destruct (run ops w); simpl; [|done]. by rewrite set_set_child.
    + rewrite Hc. simpl.
      change (match ts with
              | [] => act_on t' act v
              | _ :: _ => v0 ← child t' v; v' ← apply_at ts act v0; Some (set_child t' v' v)
              end) with (apply_at (t' :: ts) act v).
      destruct (apply_at (t' :: ts) act v) as [w|]; simpl; [|done].
      rewrite (IH _ w) by (by apply child_set_child).
      destruct (run ops w); simpl; [|done]. by rewrite set_set_child.
Qed.

(** ** Equal documents are patched to equal documents *)

Definition wf_action (act : action) : Prop :=
  match act with Add v | Replace v => json_wf v = true | Remove => True end.

(** [keys] of a set, and the lookups that decide equality of objects. *)
Lemma json_equiv_array_lookup l m :
  JArray l ≡ JArray m <-> forall i : nat, option_Forall2 (≡) (l !! i) (m !! i).
Proof. rewrite json_equiv_array. apply Forall2_lookup. Qed.

Lemma child_proper t d1 d2 : d1 ≡ d2 -> option_Forall2 (≡) (child t d1) (child t d2).
Proof.
  intros Hd. destruct d1 as [| | | | | |l|o], d2 as [| | | | | |m|p];
    try (by destruct Hd as (_&_&?)); try constructor; simpl.
  - destruct (read_index t); simpl; [|constructor]. by apply json_equiv_array_lookup.
  - by apply json_equiv_object in Hd as (_&_&?).
Qed.

Lemma set_child_proper t v1 v2 d1 d2 :
  v1 ≡ v2 -> d1 ≡ d2 -> set_child t v1 d1 ≡ set_child t v2 d2.
Proof.
  intros Hv Hd. destruct d1 as [| | | | | |l|o], d2 as [| | | | | |m|p];
    try (by destruct Hd as (_&_&?)); try done; simpl.
  - destruct (read_index t) as [i|]; [|done]. apply json_equiv_array.
    apply json_equiv_array in Hd. by apply Forall2_insert.
  - rewrite json_equiv_object in *. rewrite !keys_set. destruct Hd as (?&?&Hf).
    split_and!; [done..|]. intros k. rewrite !obj_find_set. specialize (Hf k).
    case_bool_decide; [|done]. inversion Hf; simpl; by constructor.
Qed.

(** Equal values in the same operation. *)
Definition action_equiv (a b : action) : Prop :=
  match a, b with
  | Add v, Add w | Replace v, Replace w => v ≡ w
  | Remove, Remove => True
  | _, _ => False
  end.

Lemma action_equiv_refl a : wf_action a -> action_equiv a a.
Proof. destruct a; simpl; auto using json_equiv_refl. Qed.

Lemma act_on_array_proper t a b l m :
  action_equiv a b -> JArray l ≡ JArray m ->
  option_Forall2 (≡) (act_on t a (JArray l)) (act_on t b (JArray m)).
Proof.
  intros Hact Hd. apply json_equiv_array in Hd as Hf. pose proof (Forall2_length _ _ _ Hf) as Hlen.
  destruct a as [v| |v], b as [w| |w]; try done; simpl in *.
  - case_bool_decide; [constructor; apply json_equiv_array; apply Forall2_app; auto|].
    destruct (read_index t) as [i|]; simpl; [|constructor]. rewrite <- Hlen.
    case_match; constructor. apply json_equiv_array. apply Forall2_app; [by apply Forall2_take|].
    constructor; [auto|by apply Forall2_drop].
  - destruct (read_index t) as [i|]; simpl; [|constructor].
    pose proof (proj1 (json_equiv_array_lookup l m) Hd i) as Hi.
    inversion Hi; simpl; constructor. apply json_equiv_array. by apply Forall2_delete.
  - destruct (read_index t) as [i|]; simpl; [|constructor].
    pose proof (proj1 (json_equiv_array_lookup l m) Hd i) as Hi.
    inversion Hi; simpl; constructor. apply json_equiv_array. apply Forall2_insert; auto.
Qed.

Lemma act_on_object_proper t a b o p :
  action_equiv a b -> JObject o ≡ JObject p ->
  option_Forall2 (≡) (act_on t a (JObject o)) (act_on t b (JObject p)).
Proof.
  intros Hact Hd. apply json_equiv_object in Hd as Hf. destruct Hf as (Ho & Hp & Hf).
  pose proof (Hf t) as Ht. destruct a as [v| |v], b as [w| |w]; try done; simpl in *.
  - inversion Ht as [x y|Hx Hy]; constructor.
    + by apply (set_child_proper t v w (JObject o) (JObject p)).
    + symmetry in Hx, Hy. apply json_equiv_object.
      assert (forall v q, obj_find t q = None -> NoDup (keys q) -> NoDup (keys (q ++ [(t, v)]))) as Hnd.
      { intros u q Hq Hnd. pose proof (NoDup_keys_emplace t u q Hnd) as Hn.
        unfold obj_emplace in Hn. by rewrite Hq in Hn. }
      split_and!; [by apply Hnd..|]. intros k. rewrite !obj_find_app. specialize (Hf k).
      inversion Hf; simpl; [by constructor|]. case_bool_decide; by constructor.
  - inversion Ht as [x y|Hx Hy]; constructor. apply json_equiv_object.
    split_and!; [by apply NoDup_keys_erase..|]. intros k.
    rewrite !obj_find_erase by done. case_bool_decide; [constructor|apply Hf].
  - inversion Ht as [x y|Hx Hy]; constructor.
    by apply (set_child_proper t v w (JObject o) (JObject p)).
Qed.

Lemma act_on_proper t a b d1 d2 :
  action_equiv a b -> d1 ≡ d2 -> option_Forall2 (≡) (act_on t a d1) (act_on t b d2).
Proof.
  intros Hact Hd. destruct d1 as [| | | | | |l|o], d2 as [| | | | | |m|p];
    try (by destruct Hd as (_&_&?)); try constructor.
  - by apply act_on_array_proper.
  - by apply act_on_object_proper.
Qed.

Lemma apply_at_proper ts a b d1 d2 :
  action_equiv a b -> d1 ≡ d2 -> option_Forall2 (≡) (apply_at ts a d1) (apply_at ts b d2).
Proof.
  intros Hact. revert d1 d2. induction ts as [|t ts IH]; intros d1 d2 Hd.
  - destruct a, b; try done; simpl; by constructor.
  - destruct ts as [|t' ts]; [by apply act_on_proper|]. cbn [apply_at].
    pose proof (child_proper t d1 d2 Hd) as Hc.
    inversion Hc as [v1 v2 Hv|]; cbn [mbind option_bind]; [|constructor].
    specialize (IH v1 v2 Hv). cbn [apply_at] in IH.
    inversion IH; cbn [mbind option_bind]; constructor. by apply set_child_proper.
Qed.

(** Equal operations at the same places. *)
Definition op_equiv (x y : list string * action) : Prop := x.1 = y.1 /\ action_equiv x.2 y.2.

Lemma run_equiv ops1 ops2 d1 d2 :
  Forall2 op_equiv ops1 ops2 -> d1 ≡ d2 -> option_Forall2 (≡) (run ops1 d1) (run ops2 d2).
Proof.
  intros Hops. revert d1 d2. induction Hops as [|[ts a] [us b] ops1 ops2 [Hts Hact] Hops IH]; intros d1 d2 Hd;
    cbn [run]; [by constructor|]. simpl in Hts, Hact. subst us.
  pose proof (apply_at_proper ts a b d1 d2 Hact Hd) as Ha.
  inversion Ha; cbn [mbind option_bind]; [by apply IH|constructor].
Qed.

Lemma run_proper ops d1 d2 :
  Forall (fun op => wf_action op.2) ops -> d1 ≡ d2 -> option_Forall2 (≡) (run ops d1) (run ops d2).
Proof.
  intros Hops. apply run_equiv. induction Hops; constructor; [|done].
  split; [done|by apply action_equiv_refl].
Qed.

(** ** Equal patches *)

Lemma jstring_proper o1 o2 : option_Forall2 (≡) o1 o2 -> o1 ≫= jstring = o2 ≫= jstring.
Proof.
  intros [x y Hxy|]; [|done]. simpl. destruct Hxy as (_ & _ & Hs).
  destruct x, y; try done. simpl in *. by apply bool_decide_eq_true in Hs as ->.
Qed.

Lemma decode_op_proper j1 j2 : j1 ≡ j2 -> option_Forall2 op_equiv (decode_op j1) (decode_op j2).
Proof.
  intros Hj. destruct j1 as [| | | | | |l|o], j2 as [| | | | | |m|p];
    try (by destruct Hj as (_&_&?)); try constructor.
  apply json_equiv_object in Hj as (_ & _ & Hf). cbn [decode_op].
  rewrite (jstring_proper _ _ (Hf "op")), (jstring_proper _ _ (Hf "path")).
  destruct (obj_find "op" p ≫= jstring) as [name|]; cbn [mbind option_bind]; [|constructor].
  destruct (obj_find "path" p ≫= jstring) as [ptr|]; cbn [mbind option_bind]; [|constructor].
  destruct (parse_pointer ptr) as [path|]; cbn [mbind option_bind]; [|constructor].
  pose proof (Hf "value") as Hv.
  repeat case_bool_decide; try (by constructor);
    inversion Hv; cbn [mbind option_bind]; by constructor.
Qed.

(** Equal patches of equal documents give equal documents. *)
Lemma patch_json_proper p1 p2 d1 d2 :
  p1 ≡ p2 -> d1 ≡ d2 -> option_Forall2 (≡) (patch_json p1 d1) (patch_json p2 d2).
Proof.
  intros Hp Hd. destruct p1 as [| | | | | |l|o], p2 as [| | | | | |m|q];
    try (by destruct Hp as (_&_&?)); try constructor.
  apply json_equiv_array in Hp. cbn [patch_json]. unfold apply_patch.
  assert (option_Forall2 (Forall2 op_equiv) (mapM decode_op l) (mapM decode_op m)) as Hm.
  { induction Hp as [|x y l m Hxy _ IH]; [by constructor|]. cbn [mapM].
    destruct (decode_op_proper x y Hxy); cbn [mbind option_bind]; [|constructor].
    destruct IH; cbn [mbind option_bind]; constructor. by constructor. }
  destruct Hm; cbn [mbind option_bind]; [by apply run_equiv|constructor].
Qed.
