(* ===== verification/JsonDiff.v ===== *)
(** * [json_diff] (include/json_diff.hpp)

    The function that computes the [body] of a delta message, and its
    correctness against JSON Patch (file [JsonPatch]): which document a
    client holds after it applied the computed patch to the source. *)

From S2P Require Import Prelude CStd Json JsonPatch.

Section diff.
Context `{JsonEq}.

(** The three operation objects the function builds. *)
Definition op_replace (path : string) (v : json) : json :=
  JObject ["op" ~> JString "replace"; "path" ~> JString path; "value" ~> v].

Definition op_remove (path : string) : json :=
  JObject ["op" ~> JString "remove"; "path" ~> JString path].

Definition op_add (path : string) (v : json) : json :=
  JObject ["op" ~> JString "add"; "path" ~> JString path; "value" ~> v].

(** [for (i = _src.size(); i-- > _tgt.size();)]: the test reads [i] before
    it is decremented, the body after. *)
Fixpoint array_removes (path : string) (tgt_size i : nat) : list json :=
  match i with
  | 0 => []
  | S i' =>
      if tgt_size <? i
      then op_remove (path +:+ "/" +:+ to_string i') :: array_removes path tgt_size i'
      else []
  end.

(** [for (i = _src.size(); i < _tgt.size(); ++i) { ...; ++i; }]: the body
    increments the index a second time. *)
Fixpoint array_adds (fuel : nat) (path : string) (tgt : list json) (i : nat) : list json :=
  match fuel with
  | 0 => []
  | S fuel' =>
      match tgt !! i with
      | Some v => op_add (path +:+ "/-") v :: array_adds fuel' path tgt (S (S i))
      | None => []
      end
  end.

(** The second pass over objects: members of the target the source lacks. *)
Fixpoint object_adds (path : string) (src tgt : members) : list json :=
  match tgt with
  | [] => []
  | (k, v) :: tgt' =>
      match obj_find k src with
      | None => op_add (path +:+ "/" +:+ k) v :: object_adds path src tgt'
      | Some _ => object_adds path src tgt'
      end
  end.

Fixpoint json_diff (source target : json) (path : string) {struct source} : list json :=
  if json_eqb source target then []
  else if negb (bool_decide (json_kind source = json_kind target))
  then [op_replace path target]
  else
    match source, target with
    | JArray src, JArray tgt =>
        zip_concat (fun i x y => json_diff x y (path +:+ "/" +:+ to_string i)) 0 src tgt
        ++ array_removes path (length tgt) (length src)
        ++ array_adds (length tgt) path tgt (length src)
    | JObject src, JObject tgt =>
        flat_map (fun '(k, v) =>
                    match obj_find k tgt with
                    | Some w => json_diff v w (path +:+ "/" +:+ k)
                    | None => [op_remove (path +:+ "/" +:+ k)]
                    end) src
        ++ object_adds path src tgt
    | _, _ => [op_replace path target]
    end.

(** The message body: a JSON array of operations from the root. *)
Definition json_diff_root (source target : json) : json := JArray (json_diff source target "").
End diff.

(** ** The patched document

    What applying the computed patch to the source gives, member by member:
    elements beyond the source's length survive one in two. *)
Fixpoint every_other {A} (l : list A) : list A :=
  match l with
  | x :: _ :: l' => x :: every_other l'
  | l => l
  end.

Section patched.
Context `{JsonEq}.

Fixpoint patched (source target : json) {struct source} : json :=
  if json_eqb source target then source
  else if negb (bool_decide (json_kind source = json_kind target)) then target
  else
    match source, target with
    | JArray src, JArray tgt =>
        JArray (zip_with patched src tgt ++ every_other (drop (length src) tgt))
    | JObject src, JObject tgt =>
        JObject (omap (fun '(k, v) => w ← obj_find k tgt; Some (k, patched v w)) src
                 ++ filter (fun kv => obj_find kv.1 src = None) tgt)
    | _, _ => target
    end.

(** No array that is compared grows by more than one element. *)
Fixpoint grows_by_one (source target : json) {struct source} : bool :=
  match source, target with
  | JArray src, JArray tgt =>
      (length tgt <=? S (length src))
      && forallb id (zip_with grows_by_one src tgt)
  | JObject src, JObject tgt =>
      forallb (fun kv => match obj_find kv.1 tgt with
                         | Some w => grows_by_one kv.2 w
                         | None => true
                         end) src
  | _, _ => true
  end.
End patched.

Example diff_demo :
  let _ := documented_eq in
  let s := JObject [("a", JInt64 1); ("b", JArray [JNull]); ("c", JBool true)] in
  let t := JObject [("b", JArray [JInt64 2; JNull]); ("c", JBool true); ("d", JArray [])] in
  apply_patch (json_diff s t "") s = Some (patched s t) /\ patched s t ≡ t.
Proof. vm_compute. done. Qed.

(** ** The same patch with its paths as token lists *)
Section ops.
Context `{JsonEq}.

Definition remove_ops (tgt_size src_size : nat) : list (list string * action) :=
  (fun j => ([to_string j], Remove)) <$> reverse (seq tgt_size (src_size - tgt_size)).

Fixpoint diff_ops (source target : json) {struct source} : list (list string * action) :=
  if json_eqb source target then []
  else if negb (bool_decide (json_kind source = json_kind target)) then [([], Replace target)]
  else
    match source, target with
    | JArray src, JArray tgt =>
        zip_concat (fun i x y => push (to_string i) <$> diff_ops x y) 0 src tgt
        ++ remove_ops (length tgt) (length src)
        ++ ((fun v => (["-"], Add v)) <$> every_other (drop (length src) tgt))
    | JObject src, JObject tgt =>
        flat_map (fun '(k, v) =>
                    match obj_find k tgt with
                    | Some w => push k <$> diff_ops v w
                    | None => [([k], Remove)]
                    end) src
        ++ ((fun kv => ([kv.1], Add kv.2)) <$> filter (fun kv => obj_find kv.1 src = None) tgt)
    | _, _ => [([], Replace target)]
    end.
End ops.

(** The operation object at a path, its tokens joined by slashes. *)
Definition encode (path : string) (op : list string * action) : json :=
  let p := path +:+ pointer op.1 in
  match op.2 with
  | Add v => op_add p v
  | Remove => op_remove p
  | Replace v => op_replace p v
  end.

Lemma encode_push path t op : encode path (push t op) = encode (path +:+ "/" +:+ t) op.
Proof. destruct op as [ts act]. unfold encode. simpl. by rewrite !sapp_assoc. Qed.

#[local] Arguments parse_pointer : simpl never.

Lemma decode_encode op :
  Forall (fun t => token_safe t = true) op.1 -> decode_op (encode "" op) = Some op.
Proof.
  destruct op as [ts act]. intros Hts. simpl in Hts.
  destruct act; simpl; rewrite parse_pointer_pointer by done; done.
Qed.

(** ** The loops *)

Lemma every_other_cons2 {A} (x y : A) l : every_other (x :: y :: l) = x :: every_other l.
Proof. done. Qed.

(** The add loop ends with one unit of fuel per element left; it visits
    every other one of them. *)
Lemma array_adds_spec fuel path tgt i :
  length tgt - i <= fuel ->
  array_adds fuel path tgt i = op_add (path +:+ "/-") <$> every_other (drop i tgt).
Proof.
  revert i. induction fuel as [|fuel IH]; intros i Hf; simpl.
  - by rewrite drop_ge by lia.
  - destruct (tgt !! i) as [v|] eqn:Hi.
    + apply lookup_lt_Some in Hi as Hlt. rewrite IH by lia.
      rewrite (drop_S tgt v i) by done.
      destruct (tgt !! S i) as [w|] eqn:Hj.
      * by rewrite (drop_S tgt w (S i)), every_other_cons2 by done.
      * apply lookup_ge_None in Hj. by rewrite !drop_ge by lia.
    + apply lookup_ge_None in Hi. by rewrite drop_ge.
Qed.

Lemma array_removes_spec path n i :
  array_removes path n i
  = (fun j => op_remove (path +:+ "/" +:+ to_string j)) <$> reverse (seq n (i - n)).
Proof.
  induction i as [|i IH]; [done|]. cbn [array_removes].
  destruct (n <? S i) eqn:Hn; bool_simp.
  - rewrite IH. replace (S i - n) with (S (i - n)) by lia.
    rewrite seq_S, reverse_app, fmap_app. simpl. by replace (n + (i - n)) with i by lia.
  - by replace (S i - n) with 0 by lia.
Qed.

Lemma object_adds_spec path src tgt :
  object_adds path src tgt
  = (fun kv => op_add (path +:+ "/" +:+ kv.1) kv.2)
      <$> filter (fun kv => obj_find kv.1 src = None) tgt.
Proof.
  induction tgt as [|[k v] tgt IH]; simpl; [done|]. rewrite filter_cons. simpl.
  destruct (obj_find k src); case_decide; try done. simpl. by rewrite IH.
Qed.

Section correct.
Context `{JsonEq}.

(** The strings the code builds are the encodings of [diff_ops]. *)
Lemma json_diff_encode s t path : json_diff s t path = encode path <$> diff_ops s t.
Proof.
  assert (forall v, [op_replace path v] = encode path <$> [([], Replace v)]) as Hroot.
  { intros v. unfold encode. cbn. by rewrite sapp_nil_r. }
  revert t path Hroot. induction s as [s Ha Ho|src IH|src IH] using json_nested; intros t path Hroot.
  - destruct s, t; try done; cbn; repeat case_match; done.
  - destruct t as [| | | | | |tgt|]; cbn [json_diff diff_ops];
      (destruct (json_eqb _ _); [done|]); try (by case_match).
    rewrite bool_decide_eq_true_2 by done. simpl.
    rewrite !fmap_app, array_removes_spec, array_adds_spec, zip_concat_fmap by lia.
    f_equal; [|f_equal].
    + apply zip_concat_ext. eapply Forall_impl; [exact IH|]. intros x Hx i y. simpl.
      rewrite Hx by (intros; unfold encode; cbn; by rewrite sapp_nil_r).
      rewrite <- list_fmap_compose. apply list_fmap_ext. intros. symmetry. apply encode_push.
    + unfold remove_ops. rewrite <- list_fmap_compose. apply list_fmap_ext. intros. unfold encode. simpl.
      by rewrite sapp_nil_r.
    + rewrite <- list_fmap_compose. done.
  - destruct t as [| | | | | | |tgt]; cbn [json_diff diff_ops];
      (destruct (json_eqb _ _); [done|]); try (by case_match).
    rewrite bool_decide_eq_true_2 by done. simpl.
    rewrite !fmap_app, object_adds_spec, flat_map_fmap. f_equal.
    + apply flat_map_ext_Forall. eapply Forall_impl; [exact IH|]. intros [k v] Hx. simpl in *.
      destruct (obj_find k tgt).
      * rewrite Hx by (intros; unfold encode; cbn; by rewrite sapp_nil_r).
        rewrite <- list_fmap_compose. apply list_fmap_ext. intros. symmetry. apply encode_push.
      * unfold encode. simpl. by rewrite sapp_nil_r.
    + rewrite <- list_fmap_compose. apply list_fmap_ext. intros _ [k v] _. unfold encode. simpl.
      by rewrite sapp_nil_r.
Qed.
End correct.

(** ** The tokens are safe and only whole-document replacements are rootless *)

Lemma every_other_sublist {A} (l : list A) : every_other l `sublist_of` l.
Proof.
  induction l using list_pair_ind; simpl; [done..|].
  apply sublist_skip. by apply sublist_cons.
Qed.

Lemma length_every_other {A} (l : list A) : length (every_other l) = (S (length l)) / 2.
Proof.
  induction l as [| |x y l IH] using list_pair_ind; [done..|]. cbn [every_other length].
  rewrite IH. replace (S (S (S (length l)))) with (1 * 2 + S (length l)) by lia.
  by rewrite Nat.div_add_l by lia.
Qed.

Section shape.
Context `{JsonEq}.

Definition safe_op (op : list string * action) : Prop :=
  Forall (fun t => token_safe t = true) op.1.

Lemma push_Forall (P : list string * action -> Prop) t ops :
  (forall op, P op -> P (push t op)) -> Forall P ops -> Forall P (push t <$> ops).
Proof. intros HP Hops. apply Forall_fmap. eapply Forall_impl; [exact Hops|done]. Qed.

Lemma diff_ops_safe s t :
  plain s = true -> plain t = true -> Forall safe_op (diff_ops s t).
Proof.
  revert t. induction s as [s Ha Ho|src IH|src IH] using json_nested; intros t Hs Ht.
  - destruct s, t; try done; cbn; repeat case_match; repeat constructor.
  - destruct t as [| | | | | |tgt|]; cbn [diff_ops]; repeat case_match; repeat constructor.
    rewrite plain_array in *. rewrite !Forall_app. rewrite Forall_forall in IH, Hs, Ht. split_and!.
    + apply Forall_zip_concat. intros i x y Hx Hy. apply push_Forall; [|auto].
      intros op Hop. constructor; [apply to_string_safe|done].
    + apply Forall_fmap, Forall_forall. intros j _. constructor; [apply to_string_safe|done].
    + apply Forall_fmap, Forall_forall. intros v _. by repeat constructor.
  - destruct t as [| | | | | | |tgt]; cbn [diff_ops]; repeat case_match; repeat constructor.
    rewrite plain_object in *. rewrite Forall_app. rewrite Forall_forall in IH, Hs, Ht. split.
    + apply Forall_flat_map. intros [k v] Hkv.
      destruct (Hs _ Hkv) as [Hk Hv]. destruct (obj_find k tgt) as [w|] eqn:Hw.
      * apply obj_find_elem in Hw. destruct (Ht _ Hw) as [_ ?].
        apply push_Forall; [by constructor|]. by apply (IH _ Hkv).
      * by repeat constructor.
    + apply Forall_forall. intros op (kv & -> & Hkv)%list_elem_of_fmap. apply list_elem_of_filter in Hkv as [_ Hkv].
      destruct (Ht _ Hkv). by repeat constructor.
Qed.

Lemma diff_ops_root s t : Forall root_replaces (diff_ops s t).
Proof.
  assert (forall k ops, Forall root_replaces (push k <$> ops)) as Hpush.
  { intros k ops. apply Forall_fmap, Forall_forall. intros op _. by intros ?. }
  destruct s, t; cbn [diff_ops]; repeat case_match;
    try (by repeat constructor); try (by constructor; [intros _; eauto|constructor]).
  - rewrite !Forall_app. split_and!.
    + by apply Forall_zip_concat.
    + apply Forall_fmap, Forall_forall. by intros j _ ?.
    + apply Forall_fmap, Forall_forall. by intros v _ ?.
  - rewrite Forall_app. split.
    + apply Forall_flat_map. intros [k v] _. case_match; [done|]. by repeat constructor.
    + apply Forall_fmap, Forall_forall. by intros v _ ?.
Qed.
End shape.

(** ** Running the patch, phase by phase *)
Section running.
Context `{JsonEq}.

Notation runs s := (forall t, json_wf t = true -> run (diff_ops s t) s = Some (patched s t)).

Lemma run_elements pre src tgt :
  Forall (fun x => runs x) src ->
  Forall (fun y => json_wf y = true) tgt ->
  run (zip_concat (fun i x y => push (to_string i) <$> diff_ops x y) (length pre) src tgt)
      (JArray (pre ++ src))
  = Some (JArray (pre ++ zip_with patched src tgt ++ drop (length tgt) src)).
Proof.
  intros Hsrc. revert pre tgt. induction Hsrc as [|x src Hx Hsrc IH]; intros pre [|y tgt] Htgt;
    simpl; rewrite ?app_nil_r; try done.
  inversion Htgt; subst. rewrite run_app, (run_push _ _ _ x), Hx; [|done| |apply diff_ops_root].
  - simpl. rewrite read_index_to_string. simpl. rewrite insert_app_r_alt, Nat.sub_diag by lia. simpl.
    specialize (IH (pre ++ [patched x y]) tgt). rewrite length_app, Nat.add_1_r, <- !app_assoc in IH.
    by apply IH.
  - simpl. rewrite read_index_to_string. simpl. by rewrite list_lookup_middle.
Qed.

Lemma run_removes n l :
  run (remove_ops n (length l)) (JArray l) = Some (JArray (take n l)).
Proof.
  unfold remove_ops. remember (length l - n) as k eqn:Hk. revert l Hk.
  induction k as [|k IH]; intros l Hk; [simpl; by rewrite take_ge by lia|].
  rewrite seq_S, reverse_app. simpl. rewrite read_index_to_string. simpl.
  destruct (lookup_lt_is_Some_2 l (n + k)) as [v Hv]; [lia|]. rewrite Hv. simpl.
  assert (delete (n + k) l = take (n + k) l) as ->.
  { rewrite delete_take_drop. rewrite (drop_ge l) by lia. apply app_nil_r. }
  rewrite IH by (rewrite length_take; lia). by rewrite take_take, Nat.min_l by lia.
Qed.

Lemma run_appends vs l :
  run ((fun v => (["-"], Add v)) <$> vs) (JArray l) = Some (JArray (l ++ vs)).
Proof.
  revert l. induction vs as [|v vs IH]; intros l; simpl; [by rewrite app_nil_r|].
  by rewrite IH, <- app_assoc.
Qed.

Lemma keys_app o p : keys (o ++ p) = keys o ++ keys p.
Proof. apply fmap_app. Qed.

Lemma run_members pre src tgt :
  Forall (fun kv => runs kv.2) src ->
  NoDup (keys (pre ++ src)) ->
  json_wf (JObject tgt) = true ->
  run (flat_map (fun '(k, v) =>
                   match obj_find k tgt with
                   | Some w => push k <$> diff_ops v w
                   | None => [([k], Remove)]
                   end) src) (JObject (pre ++ src))
  = Some (JObject (pre ++ omap (fun '(k, v) => w ← obj_find k tgt; Some (k, patched v w)) src)).
Proof.
  intros Hsrc Hnd [_ Hwf]%json_wf_object. revert pre Hnd.
  induction Hsrc as [|[k v] src Hx Hsrc IH]; intros pre Hnd; simpl in *.
  - done.
  - assert (k ∉ keys pre) as Hk.
    { rewrite keys_app in Hnd. apply NoDup_app in Hnd as (_ & Hd & _). set_solver. }
    assert (obj_find k (pre ++ (k, v) :: src) = Some v) as Hf.
    { apply obj_find_Some; [done|]. set_solver. }
    destruct (obj_find k tgt) as [w|] eqn:Hw; simpl.
    + rewrite run_app, (run_push _ _ _ v), Hx by eauto using diff_ops_root. simpl.
      rewrite obj_set_mid by done. specialize (IH (pre ++ [(k, patched v w)])).
      rewrite <- !app_assoc in IH. apply IH.
      rewrite keys_app in *. done.
    + rewrite Hf. simpl. rewrite obj_erase_mid by done. apply IH.
      rewrite keys_app in *. simpl in Hnd. apply NoDup_app in Hnd as (? & ? & ?%NoDup_cons).
      apply NoDup_app. split_and!; [done|set_solver|naive_solver].
Qed.

Lemma run_adds vs o :
  NoDup (keys (o ++ vs)) ->
  run ((fun kv => ([kv.1], Add kv.2)) <$> vs) (JObject o) = Some (JObject (o ++ vs)).
Proof.
  revert o. induction vs as [|[k v] vs IH]; intros o Hnd; simpl; [by rewrite app_nil_r|].
  assert (obj_find k o = None) as ->.
  { apply obj_find_None. rewrite keys_app in Hnd. apply NoDup_app in Hnd as (_ & Hd & _). set_solver. }
  change (run ((fun kv => ([kv.1], Add kv.2)) <$> vs) (JObject (o ++ [(k, v)]))
          = Some (JObject (o ++ (k, v) :: vs))).
  rewrite IH; by rewrite <- app_assoc.
Qed.

Lemma elem_of_keys k o : k ∈ keys o <-> exists v, (k, v) ∈ o.
Proof.
  unfold keys. rewrite list_elem_of_fmap. split.
  - intros ([k' v] & -> & Hv). eauto.
  - intros [v Hv]. by exists (k, v).
Qed.

(** The members the first pass keeps are members of both objects. *)
Lemma keys_common k (src tgt : members) :
  k ∈ keys (omap (fun '(k, v) => w ← obj_find k tgt; Some (k, patched v w)) src)
  <-> k ∈ keys src /\ is_Some (obj_find k tgt).
Proof.
  rewrite !elem_of_keys. setoid_rewrite list_elem_of_omap. split.
  - intros (v & [k' u] & Hu & Hb). apply bind_Some in Hb as (w & Hw & ?). simplify_eq. eauto.
  - intros [[v Hv] [w Hw]]. exists (patched v w), (k, v). by rewrite Hw.
Qed.

Lemma NoDup_keys_common (src tgt : members) :
  NoDup (keys src) ->
  NoDup (keys (omap (fun '(k, v) => w ← obj_find k tgt; Some (k, patched v w)) src)).
Proof.
  induction src as [|[k v] src IH]; simpl; intros Hnd; [constructor|].
  apply NoDup_cons in Hnd as [Hk Hnd]. destruct (obj_find k tgt); simpl; [|auto].
  apply NoDup_cons. split; [|auto]. rewrite keys_common. naive_solver.
Qed.

Lemma NoDup_keys_filter (P : string * json -> Prop) `{!forall x, Decision (P x)} o :
  NoDup (keys o) -> NoDup (keys (filter P o)).
Proof. intros Hnd. eapply sublist_NoDup; [exact Hnd|]. apply fmap_sublist, sublist_filter. Qed.

Lemma NoDup_keys_patched (src tgt : members) :
  NoDup (keys src) -> NoDup (keys tgt) ->
  NoDup (keys (omap (fun '(k, v) => w ← obj_find k tgt; Some (k, patched v w)) src
               ++ filter (fun kv => obj_find kv.1 src = None) tgt)).
Proof.
  intros Hs Ht. rewrite keys_app. apply NoDup_app. split_and!.
  - by apply NoDup_keys_common.
  - intros k [Hk _]%keys_common [v Hv]%elem_of_keys. apply list_elem_of_filter in Hv as [Hn _].
    by apply obj_find_None in Hn.
  - by apply NoDup_keys_filter.
Qed.
End running.

Section correctness.
Context `{JsonEq}.

Lemma run_diff_ops s t :
  json_wf s = true -> json_wf t = true -> run (diff_ops s t) s = Some (patched s t).
Proof.
  revert t. induction s as [s Ha Ho|src IH|src IH] using json_nested; intros t Hs Ht.
  - destruct s; try done; cbn; repeat case_match; done.
  - destruct t as [| | | | | |tgt|]; cbn [diff_ops patched];
      (destruct (json_eqb _ _); [done|]); try (by case_match).
    rewrite bool_decide_eq_true_2 by done. cbn [negb].
    apply json_wf_array in Hs, Ht.
    rewrite !run_app. rewrite (run_elements []); [|clear Ht; induction IH; inversion Hs; eauto|done].
    cbn [mbind option_bind app].
    set (mid := zip_with patched src tgt ++ drop (length tgt) src).
    assert (length mid = length src) as Hlen.
    { unfold mid. rewrite length_app, length_zip_with, length_drop. lia. }
    rewrite run_app, <- Hlen, run_removes. cbn [mbind option_bind]. rewrite run_appends, Hlen.
    do 2 f_equal. apply (f_equal (fun l => l ++ _)). unfold mid. destruct (decide (length src <= length tgt)).
    + rewrite (drop_ge src) by done. rewrite app_nil_r, take_ge; [done|].
      rewrite length_zip_with. lia.
    + rewrite take_app_length'; [done|]. rewrite length_zip_with. lia.
  - destruct t as [| | | | | | |tgt]; cbn [diff_ops patched];
      (destruct (json_eqb _ _); [done|]); try (by case_match).
    rewrite bool_decide_eq_true_2 by done. cbn [negb].
    apply json_wf_object in Hs as [Hs Hsv]. pose proof Ht as [Ht' _]%json_wf_object.
    rewrite run_app. rewrite (run_members [] src tgt); [| |done|done].
    + cbn [mbind option_bind app]. apply run_adds. by apply NoDup_keys_patched.
    + apply Forall_forall. intros [k v] Hkv t Hwt. rewrite Forall_forall in IH.
      apply (IH _ Hkv); [|done]. by apply (Hsv k), obj_find_Some.
Qed.

Lemma find_common k (src tgt : members) :
  NoDup (keys src) ->
  obj_find k (omap (fun '(k, v) => w ← obj_find k tgt; Some (k, patched v w)) src)
  = v ← obj_find k src; w ← obj_find k tgt; Some (patched v w).
Proof.
  intros Hnd. destruct (obj_find k src) as [v|] eqn:Hv; cbn [mbind option_bind].
  - destruct (obj_find k tgt) as [w|] eqn:Hw; cbn [mbind option_bind].
    + apply obj_find_Some; [by apply NoDup_keys_common|]. apply list_elem_of_omap.
      exists (k, v). split; [by apply obj_find_elem|]. by rewrite Hw.
    + apply obj_find_None. rewrite keys_common, Hw. by intros [_ [? ?]].
  - apply obj_find_None. rewrite keys_common. apply obj_find_None in Hv. naive_solver.
Qed.

Lemma find_filter k (src tgt : members) :
  NoDup (keys tgt) ->
  obj_find k (filter (fun kv => obj_find kv.1 src = None) tgt)
  = match obj_find k src with Some _ => None | None => obj_find k tgt end.
Proof.
  intros Hnd. destruct (obj_find k src) as [v|] eqn:Hv.
  - apply obj_find_None. intros [w Hw]%elem_of_keys. apply list_elem_of_filter in Hw as [Hw _].
    simpl in Hw. congruence.
  - destruct (obj_find k tgt) as [w|] eqn:Hw.
    + apply obj_find_Some; [by apply NoDup_keys_filter|]. apply list_elem_of_filter.
      split; [done|]. by apply obj_find_elem.
    + apply obj_find_None. intros [w Hw']%elem_of_keys. apply list_elem_of_filter in Hw' as [_ Hw'].
      apply obj_find_None in Hw. apply Hw, elem_of_keys. eauto.
Qed.

Lemma every_other_short {A} (l : list A) : length l <= 1 -> every_other l = l.
Proof. destruct l as [|x [|y l]]; simpl; intros; [done..|lia]. Qed.

Lemma patched_elements src tgt :
  Forall (fun x => forall y, json_wf x = true -> json_wf y = true ->
                   grows_by_one x y = true -> patched x y ≡ y) src ->
  Forall (fun x => json_wf x = true) src ->
  Forall (fun y => json_wf y = true) tgt ->
  forallb id (zip_with grows_by_one src tgt) = true ->
  Forall2 (≡) (zip_with patched src tgt ++ drop (length src) tgt) tgt.
Proof.
  intros Hpat Hs. revert tgt. induction Hs as [|x src Hx Hs IH]; intros tgt Ht Hg.
  - simpl. rewrite drop_0. induction Ht; constructor; auto using json_equiv_refl.
  - destruct Ht as [|y tgt Hy Ht]; [constructor|]. inversion Hpat; subst. simpl in *.
    bool_simp. constructor; auto.
Qed.

Context `{!JsonEqLaws}.

Lemma patched_equiv s t :
  json_wf s = true -> json_wf t = true -> grows_by_one s t = true -> patched s t ≡ t.
Proof.
  revert t. induction s as [s Ha Ho|src IH|src IH] using json_nested; intros t Hs Ht Hg.
  - destruct s, t; try done; cbn [patched]; repeat case_match; bool_simp;
      try (by apply json_eqb_spec); by apply json_equiv_refl.
  - destruct t as [| | | | | |tgt|]; cbn [patched];
      (destruct (json_eqb _ _) eqn:He; [by apply json_eqb_spec|]);
      repeat case_match; try (by apply json_equiv_refl).
    apply json_equiv_array. apply json_wf_array in Hs, Ht.
    cbn [grows_by_one] in Hg. apply andb_true_iff in Hg as [Hlen Hg]. bool_simp.
    rewrite every_other_short by (rewrite length_drop; lia).
    by apply patched_elements.
  - destruct t as [| | | | | | |tgt]; cbn [patched];
      (destruct (json_eqb _ _) eqn:He; [by apply json_eqb_spec|]);
      repeat case_match; try (by apply json_equiv_refl).
    pose proof Hs as [Hnd Hsv]%json_wf_object. pose proof Ht as [Hnd' Htv]%json_wf_object.
    apply json_equiv_object. split_and!; [by apply NoDup_keys_patched|done|]. intros k.
    rewrite obj_find_app, find_common, find_filter by done.
    cbn [grows_by_one] in Hg. apply forallb_Forall in Hg. rewrite Forall_forall in IH, Hg.
    destruct (obj_find k src) as [v|] eqn:Hv; cbn [mbind option_bind].
    + destruct (obj_find k tgt) as [w|] eqn:Hw; cbn [mbind option_bind]; constructor.
      apply obj_find_elem in Hv as Hin. apply (IH _ Hin); [eauto..|].
      specialize (Hg _ Hin). simpl in Hg. by rewrite Hw in Hg.
    + destruct (obj_find k tgt) as [w|] eqn:Hw; constructor. apply json_equiv_refl. eauto.
Qed.
End correctness.

(** ** What the client gets *)
Section theorems.
Context `{JsonEq}.

Lemma decode_diff s t :
  plain s = true -> plain t = true -> mapM decode_op (json_diff s t "") = Some (diff_ops s t).
Proof.
  intros Hs Ht. rewrite json_diff_encode. apply mapM_Some.
  pose proof (diff_ops_safe s t Hs Ht) as Hsafe. induction Hsafe; simpl; constructor; [|done].
  by apply decode_encode.
Qed.

Lemma apply_json_diff s t d :
  plain s = true -> plain t = true -> apply_patch (json_diff s t "") d = run (diff_ops s t) d.
Proof. intros. unfold apply_patch. by rewrite decode_diff. Qed.

Lemma wf_obj_find k v o : json_wf (JObject o) = true -> obj_find k o = Some v -> json_wf v = true.
Proof. intros [_ Hwf]%json_wf_object. apply Hwf. Qed.

Lemma diff_ops_wf s t : json_wf t = true -> Forall (fun op => wf_action op.2) (diff_ops s t).
Proof.
  revert t. induction s as [s Ha Ho|src IH|src IH] using json_nested; intros t Ht.
  - destruct s, t; try done; cbn; repeat case_match; by repeat constructor.
  - destruct t as [| | | | | |tgt|]; cbn [diff_ops]; repeat case_match; try (by repeat constructor).
    apply json_wf_array in Ht. rewrite Forall_forall in IH, Ht. rewrite !Forall_app. split_and!.
    + apply Forall_zip_concat. intros i x y Hx Hy. apply push_Forall; [done|]. auto.
    + apply Forall_fmap, Forall_forall. done.
    + apply Forall_fmap, Forall_forall. intros v Hv. apply Ht.
      eapply elem_of_submseteq; [exact Hv|]. apply sublist_submseteq.
      etrans; [apply every_other_sublist|]. apply sublist_drop.
  - destruct t as [| | | | | | |tgt]; cbn [diff_ops]; repeat case_match; try (by repeat constructor).
    rewrite Forall_forall in IH. rewrite Forall_app. split.
    + apply Forall_flat_map. intros [k v] Hkv. destruct (obj_find k tgt) as [w|] eqn:Hw.
      * apply push_Forall; [done|]. apply (IH _ Hkv). by eapply wf_obj_find.
      * by repeat constructor.
    + apply Forall_fmap, Forall_forall. intros [k v] [_ Hkv]%list_elem_of_filter. simpl.
      apply json_wf_object in Ht as [Hnd Ht]. by apply (Ht k), obj_find_Some.
Qed.

(** The patch is itself a well-formed document. *)
Lemma json_diff_wf s t path : json_wf t = true -> json_wf (JArray (json_diff s t path)) = true.
Proof.
  intros Ht. rewrite json_diff_encode. apply json_wf_array, Forall_fmap.
  eapply Forall_impl; [by apply diff_ops_wf|]. intros [ts [v| |v]] Hv; simpl in *; by rewrite ?Hv.
Qed.

(** From a null source the patch replaces any document. *)
Lemma apply_json_diff_null t d :
  plain t = true -> t <> JNull -> json_eqb JNull t = false ->
  apply_patch (json_diff JNull t "") d = Some t.
Proof. intros Hp Hn He. rewrite apply_json_diff by done. cbn [diff_ops]. rewrite He. by destruct t. Qed.

(** A replica equal to the source is patched to a document equal to what
    the source itself is patched to. *)
Lemma apply_json_diff_replica s t r :
  json_wf s = true -> json_wf t = true -> plain s = true -> plain t = true -> r ≡ s ->
  exists d, apply_patch (json_diff s t "") r = Some d /\ d ≡ patched s t.
Proof.
  intros Hs Ht Hps Hpt Hr. rewrite apply_json_diff by done.
  pose proof (run_proper (diff_ops s t) r s (diff_ops_wf s t Ht) Hr) as Hrun.
  rewrite run_diff_ops in Hrun by done. inversion Hrun; subst; eauto.
Qed.


Context `{!JsonEqLaws}.


(** C34: an array that grows by two or more elements is never reproduced:
    the patched array is shorter than the target's. *)
Theorem json_diff_loses_growth src tgt :
  json_wf (JArray src) = true -> json_wf (JArray tgt) = true ->
  plain (JArray src) = true -> plain (JArray tgt) = true ->
  S (length src) < length tgt ->
  exists l, apply_patch (json_diff (JArray src) (JArray tgt) "") (JArray src) = Some (JArray l)
            /\ length l = length src + S (length tgt - length src) / 2
            /\ ~ JArray l ≡ JArray tgt.
Proof.
  intros Hs Ht Hps Hpt Hlen. rewrite apply_json_diff, run_diff_ops by done. cbn [patched].
  destruct (json_eqb _ _) eqn:He.
  { apply json_eqb_spec, json_equiv_array, Forall2_length in He; [lia|done..]. }
  rewrite bool_decide_eq_true_2 by done. eexists. split; [done|].
  rewrite length_app, length_zip_with, length_every_other, length_drop, Nat.min_l by lia.
  split; [done|]. intros Hl%json_equiv_array%Forall2_length. revert Hl.
  rewrite length_app, length_zip_with, length_every_other, length_drop, Nat.min_l by lia.
  assert (S (length tgt - length src) / 2 < length tgt - length src); [|lia].
  apply Nat.Div0.div_lt_upper_bound. lia.
Qed.

Lemma zip_concat_nil {C} (f : nat -> json -> json -> list C) (R : json -> json -> Prop) i l m :
  (forall i x y, x ∈ l -> y ∈ m -> f i x y = [] -> R x y) ->
  zip_concat f i l m = [] -> length l = length m -> Forall2 R l m.
Proof.
  revert i m. induction l as [|x l IH]; intros i [|y m] Hf Hz Hlen; simpl in *; try lia; constructor.
  - apply app_nil in Hz as [Hz _]. eapply Hf; [set_solver..|done].
  - apply app_nil in Hz as [_ Hz]. eapply IH; [|done|lia]. intros. eapply Hf; [set_solver..|done].
Qed.

Lemma fmap_nil_inv' {A B} (f : A -> B) l : f <$> l = [] -> l = [].
Proof. by destruct l. Qed.

Lemma remove_ops_nil n m : remove_ops n m = [] -> m <= n.
Proof.
  intros Hr%fmap_nil_inv'%(f_equal length). rewrite length_reverse, length_seq in Hr.
  simpl in Hr. lia.
Qed.

Lemma diff_ops_nil s t :
  json_wf s = true -> json_wf t = true -> diff_ops s t = [] -> s ≡ t.
Proof.
  revert t. induction s as [s Ha Ho|src IH|src IH] using json_nested; intros t Hs Ht.
  - destruct s, t; try done; cbn [diff_ops]; repeat case_match; try done;
      intros _; by apply json_eqb_spec.
  - destruct t as [| | | | | |tgt|]; cbn [diff_ops];
      (destruct (json_eqb _ _) eqn:He; [intros; by apply json_eqb_spec|]);
      repeat case_match; try done.
    intros [Hz [Hr%remove_ops_nil Ha%fmap_nil_inv'%(f_equal length)]%app_nil]%app_nil.
    rewrite length_every_other, length_drop in Ha. cbn [length] in Ha.
    apply Nat.div_small_iff in Ha; [|lia].
    apply json_wf_array in Hs, Ht. rewrite Forall_forall in IH, Hs, Ht.
    apply json_equiv_array. eapply zip_concat_nil; [|exact Hz|lia].
    intros i x y Hx Hy Hp%fmap_nil_inv'. auto.
  - destruct t as [| | | | | | |tgt]; cbn [diff_ops];
      (destruct (json_eqb _ _) eqn:He; [intros; by apply json_eqb_spec|]);
      repeat case_match; try done.
    intros [Hz Ha%fmap_nil_inv']%app_nil.
    pose proof Hs as [Hnd Hsv]%json_wf_object. pose proof Ht as [Hnd' Htv]%json_wf_object.
    apply json_equiv_object. split_and!; [done..|]. intros k.
    pose proof (find_filter k src tgt Hnd') as Hff. rewrite Ha in Hff. cbn in Hff.
    destruct (obj_find k src) as [v|] eqn:Hv; [|rewrite <- Hff; constructor].
    apply obj_find_elem in Hv as Hin. rewrite Forall_forall in IH.
    assert (forall op, op ∉ match obj_find k tgt with
                    | Some w => push k <$> diff_ops v w
                    | None => [([k], Remove)]
                    end) as Hnone.
    { intros op Hop. enough (op ∈ @nil (list string * action)) by set_solver.
      rewrite <- Hz. apply list_elem_of_In, in_flat_map. exists (k, v).
      by rewrite <- !list_elem_of_In. }
    destruct (obj_find k tgt) as [w|] eqn:Hw; [|destruct (Hnone ([k], Remove)); set_solver].
    constructor. apply (IH _ Hin); [eauto..|].
    apply (fmap_nil_inv' (push k)). by apply elem_of_nil_inv.
Qed.

(** An empty patch means the two values are equal, and conversely: no
    difference goes unreported, even where the patch does not carry all of it. *)
Theorem json_diff_empty s t path :
  json_wf s = true -> json_wf t = true -> json_diff s t path = [] <-> s ≡ t.
Proof.
  intros Hs Ht. split.
  - rewrite json_diff_encode. intros Hd%fmap_nil_inv'. by apply diff_ops_nil.
  - intros Heq%json_eqb_spec; [|done..].
    destruct s; cbn [json_diff]; by rewrite Heq.
Qed.
End theorems.

(** ** Witnesses, with the documented comparison *)

Definition demo_source : json :=
  JObject ["stats" ~> JObject ["rates" ~> JInt64 7; "uptime" ~> JInt64 3];
           "torrents" ~> JArray [JObject ["name" ~> JString "a"; "progress" ~> JDouble (S754_zero false)]]].

Definition demo_target : json :=
  JObject ["stats" ~> JObject ["rates" ~> JUint64 7; "taskCount" ~> JInt64 1];
           "torrents" ~> JArray [JObject ["name" ~> JString "b"]; JNull]].

(** The source with its members in another order. *)
Definition demo_replica : json :=
  JObject ["torrents" ~> JArray [JObject ["progress" ~> JDouble (S754_zero true); "name" ~> JString "a"]];
           "stats" ~> JObject ["uptime" ~> JUint64 3; "rates" ~> JInt64 7]].



Lemma json_diff_loses_growth_witness :
  exists l, apply_patch (@json_diff documented_eq (JArray []) (JArray [JNull; JBool true]) "") (JArray [])
            = Some (JArray l) /\ length l = 1 /\ ~ JArray l ≡ JArray [JNull; JBool true].
Proof.
  apply (@json_diff_loses_growth documented_eq documented_eq_laws [] [JNull; JBool true]);
    vm_compute; try done; lia.
Defined.

Lemma json_diff_empty_witness :
  @json_diff documented_eq demo_source demo_replica "/x" = [] <-> demo_source ≡ demo_replica.
Proof. apply (@json_diff_empty documented_eq documented_eq_laws); vm_compute; done. Defined.
