(* ===== verification/HttpUtil.v ===== *)
(** * HTTP helpers (include/http_util.hpp, include/const.hpp)

    The request and response messages the handlers see, the response
    builders, the MIME table, and the two query-string functions.
    Boost.Beast enters as the class [Beast]: the two functions of it that
    are called, with what their documentation promises. *)

From S2P Require Import Prelude CStd.

(** [http::verb], the methods the program tells apart. *)
Module verb.
Inductive t := get | head | post | put | delete_ | other (name : string).

#[export] Instance eq_dec : EqDecision t.
Proof. solve_decision. Defined.
End verb.

(** [http::status], the codes the program answers with. *)
Module status.
Inductive t := ok | no_content | bad_request | not_found | internal_server_error.

#[export] Instance eq_dec : EqDecision t.
Proof. solve_decision. Defined.

Definition code (s : t) : nat :=
  match s with
  | ok => 200 | no_content => 204 | bad_request => 400 | not_found => 404
  | internal_server_error => 500
  end.
End status.
Export (hints) verb status.

Record request := mk_request {
  req_method : verb.t;
  req_target : string;
  req_version : nat;
  req_keep_alive : bool;
  req_find : string -> option string;   (** a header field by name *)
  req_body : string;
}.

Record response := mk_response {
  res_status : status.t;
  res_version : nat;
  res_server : string;
  res_content_type : string;
  res_cache_control : option string;
  res_pragma : option string;
  res_content_length : option nat;
  res_keep_alive : bool;
  res_body : string;
}.

Definition with_content_length (n : option nat) (r : response) : response :=
  {| res_status := res_status r; res_version := res_version r; res_server := res_server r;
     res_content_type := res_content_type r; res_cache_control := res_cache_control r;
     res_pragma := res_pragma r; res_content_length := n;
     res_keep_alive := res_keep_alive r; res_body := res_body r |}.

(** ASCII lower case. *)
Definition tolower (c : ascii) : ascii :=
  let n := nat_of_ascii c in
  if (65 <=? n) && (n <=? 90) then ascii_of_nat (n + 32) else c.

Fixpoint lower (s : string) : string :=
  match s with "" => "" | String c s' => String (tolower c) (lower s') end.

(** What is called of Boost.Beast: [message::prepare_payload], which adjusts
    the framing fields only, and [iequals], which ignores ASCII case. *)
Class Beast := {
  prepare_payload : response -> response;
  iequals : string -> string -> bool;
}.
Class BeastLaws `{Beast} : Prop := {
  prepare_payload_framing r : exists n, prepare_payload r = with_content_length n r;
  iequals_spec a b : iequals a b = true <-> lower a = lower b;
}.

(** An instance: the length is set from the body. *)
Definition beast_demo : Beast := {|
  prepare_payload r := with_content_length (Some (String.length (res_body r))) r;
  iequals a b := bool_decide (lower a = lower b);
|}.

Lemma beast_demo_laws : @BeastLaws beast_demo.
Proof. split; [intros r; by eexists|]. intros a b. apply bool_decide_eq_true. Qed.

Definition SERVER_SIGNATURE : string := "Kedge/0.0.2".

Definition ctJSON : string := "application/json".
Definition ctText : string := "text/plain".
Definition ctTorrent : string := "application/x-bittorrent".
Definition hdCacheControl : string := "no-cache, no-store, must-revalidate".
Definition hdPragma : string := "no-cache".

Section responses.
Context `{Beast}.

Definition make_resp (req : request) (body ct : string) (sc : status.t) : response :=
  prepare_payload
    {| res_status := sc;
       res_version := req_version req;
       res_server := SERVER_SIGNATURE;
       res_content_type := ct;
       res_cache_control := Some hdCacheControl;
       res_pragma := Some hdPragma;
       res_content_length := Some (String.length body);
       res_keep_alive := req_keep_alive req;
       res_body := if bool_decide (sc = status.no_content) then "" else body |}.

Definition make_resp_204 (req : request) : response := make_resp req "" "" status.no_content.

Definition make_resp_400 (req : request) (why : string) : response :=
  make_resp req ("Bad request: " +:+ why) ctText status.bad_request.

Definition make_resp_404 (req : request) : response :=
  make_resp req ("The resource '" +:+ req_target req +:+ "' was not found.")
    ctText status.not_found.

Definition make_resp_500 (req : request) (what : string) : response :=
  make_resp req ("An error occurred: '" +:+ what +:+ "'") ctText status.internal_server_error.

(** [path.rfind(".")], the extension with its dot. *)
Definition path_ext (path : string) : string :=
  match srfind "." path with
  | None => ""
  | Some pos => sdrop pos path
  end.

Definition mime_type (path : string) : string :=
  let ext := path_ext path in
  if iequals ext ".html" then "text/html"
  else if iequals ext ".css" then "text/css"
  else if iequals ext ".txt" then "text/plain"
  else if iequals ext ".js" then "application/javascript"
  else if iequals ext ".json" then "application/json"
  else if iequals ext ".png" then "image/png"
  else if iequals ext ".jpe" then "image/jpeg"
  else if iequals ext ".jpeg" then "image/jpeg"
  else if iequals ext ".jpg" then "image/jpeg"
  else if iequals ext ".gif" then "image/gif"
  else if iequals ext ".ico" then "image/vnd.microsoft.icon"
  else if iequals ext ".svg" then "image/svg+xml"
  else if iequals ext ".svgz" then "image/svg+xml"
  else "application/text".
End responses.

(** [static_cast<char>] of a [long]. *)
Definition char_of_long (z : Z) : ascii := ascii_of_N (Z.to_N (uwrap 8 z)).

(** The loop of [url_decode], [i] the index; a decoded triplet advances it
    by three. *)
Fixpoint url_decode_from (fuel i : nat) (value : string) : string :=
  match fuel with
  | 0 => ""
  | S fuel' =>
      match String.get i value with
      | None => ""
      | Some ch =>
          if bool_decide (ch = "%"%char) && (i + 2 <? String.length value)
          then
            let hex := stake 2 (sdrop (i + 1) value) in
            String (char_of_long (strtol16 hex)) (url_decode_from fuel' (i + 3) value)
          else if bool_decide (ch = "+"%char)
          then String " " (url_decode_from fuel' (i + 1) value)
          else String ch (url_decode_from fuel' (i + 1) value)
      end
  end.

Definition url_decode (value : string) : string :=
  url_decode_from (String.length value) 0 value.

(** [uri.substr(pos + keypre.size(), uri.find('&', pos))]: the second
    argument of [substr] is a count. *)
Definition query_arg_one (uri keypre : string) : option string :=
  match sfind uri keypre 0 with
  | None => Some ""
  | Some pos =>
      match sfind uri "&" pos with
      | Some count => substr uri (pos + String.length keypre) count
      | None => substr_from uri (pos + String.length keypre)
      end
  end.

Example query_demo1 : query_arg_one "/api/sync?id=ab%20c" "id=" = Some "ab%20c".
Proof. reflexivity. Qed.
Example query_demo2 : query_arg_one "/api/sync?id=abc&x=1" "id=" = Some "abc&x=1".
Proof. reflexivity. Qed.
Example decode_demo : url_decode "a%2Fb+c%4" = "a/b c%4".
Proof. reflexivity. Qed.

(** ** [url_decode] *)

(** The decoder on the characters left, without an index. *)
Fixpoint urldec (s : string) : string :=
  match s with
  | "" => ""
  | String c r =>
      match r with
      | String a (String b r') =>
          if bool_decide (c = "%"%char)
          then String (char_of_long (strtol16 (String a (String b "")))) (urldec r')
          else String (if bool_decide (c = "+"%char) then " "%char else c) (urldec r)
      | _ => String (if bool_decide (c = "+"%char) then " "%char else c) (urldec r)
      end
  end.

Lemma sget_sdrop i s :
  String.get i s = match sdrop i s with "" => None | String c _ => Some c end.
Proof. revert s. induction i as [|i IH]; intros [|c s]; simpl; done. Qed.

Lemma url_decode_from_urldec fuel i value :
  String.length value - i <= fuel -> url_decode_from fuel i value = urldec (sdrop i value).
Proof.
  revert i. induction fuel as [|fuel IH]; intros i Hf.
  - pose proof (slength_sdrop i value). destruct (sdrop i value); [done|]. simpl in *. lia.
  - cbn [url_decode_from]. rewrite sget_sdrop.
    assert (forall k, sdrop (i + k) value = sdrop k (sdrop i value)) as Hd
      by (intros; by rewrite sdrop_sdrop).
    pose proof (slength_sdrop i value) as Hlen.
    rewrite !IH, !Hd by lia. clear IH Hf Hd.
    destruct (sdrop i value) as [|c r]; [done|]. simpl in Hlen.
    destruct r as [|a [|b r]]; simpl in *; repeat case_bool_decide; simplify_eq/=;
      repeat case_match; bool_simp; try done; lia.
Qed.

Lemma url_decode_urldec value : url_decode value = urldec value.
Proof. unfold url_decode. rewrite url_decode_from_urldec by lia. done. Qed.

(** Percent-encoding, as a browser writes a query argument. *)
Definition unreserved (c : ascii) : bool :=
  let n := nat_of_ascii c in
  ((48 <=? n) && (n <=? 57)) || ((65 <=? n) && (n <=? 90)) || ((97 <=? n) && (n <=? 122))
  || (n =? 45) || (n =? 46) || (n =? 95) || (n =? 126).

Definition hex_digit_of (n : nat) : ascii := ascii_of_nat (if n <? 10 then n + 48 else n + 55).

Fixpoint url_encode (s : string) : string :=
  match s with
  | "" => ""
  | String c s' =>
      if unreserved c then String c (url_encode s')
      else if bool_decide (c = " "%char) then String "+" (url_encode s')
      else let n := nat_of_ascii c in
           String "%" (String (hex_digit_of (n / 16)) (String (hex_digit_of (n mod 16)) (url_encode s')))
  end.

Definition byte_round (c : ascii) : bool :=
  let n := nat_of_ascii c in
  bool_decide (char_of_long (strtol16 (String (hex_digit_of (n / 16))
                                        (String (hex_digit_of (n mod 16)) ""))) = c)
  && (negb (unreserved c) || (negb (bool_decide (c = "%"%char)) && negb (bool_decide (c = "+"%char)))).

Lemma byte_round_all c : byte_round c = true.
Proof. destruct c as [[] [] [] [] [] [] [] []]; vm_compute; done. Qed.

Lemma urldec_cons c s :
  c <> "%"%char -> urldec (String c s) = String (if bool_decide (c = "+"%char) then " "%char else c) (urldec s).
Proof.
  intros Hc. destruct s as [|a [|b s]]; try done. simpl. by rewrite (bool_decide_eq_false_2 (c = _)).
Qed.

(** C32: [url_decode] is the inverse of percent-encoding on every byte string. *)
Theorem url_decode_encode s : url_decode (url_encode s) = s.
Proof.
  rewrite url_decode_urldec. induction s as [|c s IH]; [done|]. cbn [url_encode].
  pose proof (byte_round_all c) as Hb. unfold byte_round in Hb.
  apply andb_true_iff in Hb as [Hb Hu]. bool_simp.
  destruct (unreserved c).
  - simpl in Hu. bool_simp. rewrite urldec_cons by done. by rewrite IH, bool_decide_eq_false_2.
  - destruct (bool_decide (c = " "%char)) eqn:Hsp; bool_simp.
    + subst. rewrite urldec_cons by done. by rewrite IH.
    + cbn [urldec]. by rewrite bool_decide_eq_true_2, Hb, IH.
Qed.

(** The index loop reads every byte once, keeps an incomplete triplet as
    it is, never grows the text, and leaves a text with no percent and no
    plus sign unchanged. *)
Theorem url_decode_bounds value :
  url_decode value = urldec value
  /\ String.length (url_decode value) <= String.length value
  /\ (sforall (fun c => negb (bool_decide (c = "%"%char)) && negb (bool_decide (c = "+"%char))) value = true ->
      url_decode value = value).
Proof.
  rewrite url_decode_urldec. split_and!; [done| |].
  - enough (forall n s, String.length s <= n -> String.length (urldec s) <= String.length s) by eauto.
    induction n as [|n IH]; intros [|c [|a [|b s]]] Hn; simpl in *; try lia.
    case_bool_decide; simpl.
    + etrans; [apply le_n_S, IH|]; lia.
    + apply le_n_S. apply (IH (String a (String b s))). simpl. lia.
  - induction value as [|c s IH]; intros Hs; [done|]. simpl in Hs.
    apply andb_true_iff in Hs as [Hc Hs]. bool_simp.
    rewrite urldec_cons by done. by rewrite IH, bool_decide_eq_false_2.
Qed.

(** ** [query_arg_one] *)

Lemma query_arg_one_at uri keypre pos :
  sfind uri keypre 0 = Some pos ->
  query_arg_one uri keypre
  = match sfind uri "&" pos with
    | Some count => Some (stake count (sdrop (pos + String.length keypre) uri))
    | None => Some (sdrop (pos + String.length keypre) uri)
    end.
Proof.
  intros Hp. unfold query_arg_one. rewrite Hp.
  apply sfind_split in Hp as (a & b & -> & -> & _).
  unfold substr, substr_from. repeat case_match; bool_simp; try done.
  all: rewrite !slength_app in *; lia.
Qed.

(** The argument is found exactly when it is the last of the query;
    [substr] never throws. *)
Theorem query_arg_one_last a keypre v :
  sfind (a +:+ keypre +:+ v) keypre 0 = Some (String.length a) ->
  no_char "&" (keypre +:+ v) = true ->
  query_arg_one (a +:+ keypre +:+ v) keypre = Some v.
Proof.
  intros Hp Hn. rewrite (query_arg_one_at _ _ _ Hp).
  rewrite sfind_char_none by done.
  by rewrite <- slength_app, <- sapp_assoc, sdrop_app.
Qed.

(** An argument that another one follows is returned with what follows
    it: the position of the ampersand is passed as a count, so the result
    runs on past the argument by as many bytes as stand before it, or to the
    end of the target. *)
Theorem query_arg_one_overruns a keypre v more :
  sfind (a +:+ keypre +:+ v +:+ "&" +:+ more) keypre 0 = Some (String.length a) ->
  no_char "&" (keypre +:+ v) = true ->
  exists w, query_arg_one (a +:+ keypre +:+ v +:+ "&" +:+ more) keypre = Some (v +:+ w)
            /\ String.length w
               = (String.length a + String.length keypre) `min` S (String.length more).
Proof.
  intros Hp Hn. rewrite (query_arg_one_at _ _ _ Hp).
  replace (a +:+ keypre +:+ v +:+ "&" +:+ more) with (a +:+ (keypre +:+ v) +:+ String "&" more)
    by (by rewrite sapp_assoc).
  rewrite sfind_char by done.
  replace (a +:+ (keypre +:+ v) +:+ String "&" more)
    with ((a +:+ keypre) +:+ v +:+ String "&" more) by (by rewrite !sapp_assoc).
  rewrite <- (slength_app a keypre), sdrop_app.
  exists (stake (String.length (a +:+ keypre)) (String "&" more)). split.
  - f_equal. rewrite <- stake_plus. f_equal. rewrite !slength_app. lia.
  - rewrite slength_stake. simpl. by rewrite slength_app.
Qed.

Lemma query_arg_one_last_witness :
  query_arg_one ("/api/sync?" +:+ "id=" +:+ "7f") "id=" = Some "7f".
Proof. apply (query_arg_one_last "/api/sync?" "id=" "7f"); reflexivity. Defined.

Lemma query_arg_one_overruns_witness :
  exists w, query_arg_one ("/api/sync?" +:+ "id=" +:+ "7f" +:+ "&" +:+ "v=2") "id=" = Some ("7f" +:+ w)
            /\ String.length w = 4.
Proof. apply (query_arg_one_overruns "/api/sync?" "id=" "7f" "v=2"); reflexivity. Defined.

(** ** [mime_type] *)

Definition mime_table : list (string * string) :=
  [(".html", "text/html"); (".css", "text/css"); (".txt", "text/plain");
   (".js", "application/javascript"); (".json", "application/json");
   (".png", "image/png"); (".jpe", "image/jpeg"); (".jpeg", "image/jpeg");
   (".jpg", "image/jpeg"); (".gif", "image/gif"); (".ico", "image/vnd.microsoft.icon");
   (".svg", "image/svg+xml"); (".svgz", "image/svg+xml")].

Fixpoint assoc (k : string) (l : list (string * string)) : option string :=
  match l with
  | [] => None
  | (k', v) :: l' => if bool_decide (k = k') then Some v else assoc k l'
  end.

Section mime.
Context `{Beast, !BeastLaws}.

Lemma iequals_lower a b : iequals a b = bool_decide (lower a = lower b).
Proof.
  apply Bool.eq_true_iff_eq. rewrite iequals_spec, bool_decide_eq_true. tauto.
Qed.

Lemma mime_type_assoc path : mime_type path = default "application/text" (assoc (lower (path_ext path)) mime_table).
Proof.
  unfold mime_type. rewrite !iequals_lower. generalize (lower (path_ext path)). intros e.
  repeat match goal with
    | |- context [lower ?s] => let v := eval vm_compute in (lower s) in change (lower s) with v
    end.
  unfold mime_table. cbn [assoc]. by repeat (case_bool_decide; [done|]).
Qed.

(** The type depends on the last extension alone, in any case of its
    letters; what the table does not list is served as [application/text]. *)
Theorem mime_type_by_extension base ext :
  no_char "." ext = true ->
  mime_type (base +:+ "." +:+ ext)
  = match assoc ("." +:+ lower ext) mime_table with
    | Some m => m
    | None => "application/text"
    end.
Proof.
  intros Hext. rewrite mime_type_assoc. unfold path_ext.
  change ("." +:+ ext) with (String "." ext). rewrite srfind_last by done.
  rewrite sdrop_app. done.
Qed.
End mime.

Lemma mime_type_by_extension_witness :
  @mime_type beast_demo ("/srv/webui/a.b/app" +:+ "." +:+ "JS") = "application/javascript".
Proof. apply (@mime_type_by_extension beast_demo beast_demo_laws "/srv/webui/a.b/app" "JS"); reflexivity. Defined.
