(* ===== verification/Fs.v ===== *)
(** * Files and directories

    The part of [std::filesystem] and [std::fstream] the program calls, on a
    state that maps a path to a file or a directory.  Paths are the strings
    the program builds; two spellings of one path are two keys.  [fs_denied]
    are the paths on which the operating system refuses to create or write.
    These are language library functions: nothing here is mapped. *)

From S2P Require Import Prelude CStd.

Inductive node := File (bytes : string) | Dir.

Record fsys := mk_fsys {
  fs_nodes : gmap string node;
  fs_denied : gset string;
}.

Definition set_nodes (m : gmap string node) (f : fsys) : fsys :=
  {| fs_nodes := m; fs_denied := fs_denied f |}.

(** [path / name] of POSIX paths. *)
Definition ends_with_slash (p : string) : bool :=
  bool_decide (srfind "/" p = Some (pred (String.length p))).

Definition path_div (p q : string) : string :=
  if String.prefix "/" q then q
  else if bool_decide (p = "") || ends_with_slash p then p +:+ q
  else p +:+ "/" +:+ q.

(** [path::filename]: what follows the last slash. *)
Definition path_filename (p : string) : string :=
  match srfind "/" p with
  | None => p
  | Some i => sdrop (S i) p
  end.

(** [path::extension] of a file name: from its last dot on, none when the
    name is a dot file or a dot directory. *)
Definition path_extension (p : string) : string :=
  let name := path_filename p in
  if bool_decide (name = ".") || bool_decide (name = "..") then ""
  else match srfind "." name with
       | None | Some 0 => ""
       | Some i => sdrop i name
       end.

Definition fs_exists (f : fsys) (p : string) : bool := bool_decide (is_Some (fs_nodes f !! p)).

(** The directory a path is in exists. *)
Definition parent_ok (f : fsys) (p : string) : bool :=
  match srfind "/" p with
  | None | Some 0 => true
  | Some i => match fs_nodes f !! stake i p with Some Dir => true | _ => false end
  end.

(** [fs::create_directory(p, ec)]: whether a directory was created, the
    error (zero for none; an existing directory is none), the new state. *)
Definition create_directory (f : fsys) (p : string) : bool * Z * fsys :=
  match fs_nodes f !! p with
  | Some Dir => (false, 0%Z, f)
  | Some (File _) => (false, 17%Z, f)
  | None =>
      if negb (parent_ok f p) then (false, 2%Z, f)
      else if bool_decide (p ∈ fs_denied f) then (false, 13%Z, f)
      else (true, 0%Z, set_nodes (<[p:=Dir]> (fs_nodes f)) f)
  end.

(** Opening for reading and reading everything. *)
Definition read_all (f : fsys) (p : string) : option string :=
  match fs_nodes f !! p with Some (File b) => Some b | _ => None end.

(** Opening with [trunc | out], writing, closing. *)
Definition write_all (f : fsys) (p bytes : string) : bool * fsys :=
  match fs_nodes f !! p with
  | Some Dir => (false, f)
  | _ =>
      if negb (parent_ok f p) || bool_decide (p ∈ fs_denied f) then (false, f)
      else (true, set_nodes (<[p:=File bytes]> (fs_nodes f)) f)
  end.

(** [std::remove] and [fs::remove] on a file. *)
Definition remove_file (f : fsys) (p : string) : bool * fsys :=
  match fs_nodes f !! p with
  | Some (File _) =>
      if bool_decide (p ∈ fs_denied f) then (false, f)
      else (true, set_nodes (delete p (fs_nodes f)) f)
  | _ => (false, f)
  end.

Lemma create_directory_dir f p :
  let '(created, ec, f') := create_directory f p in
  (created || (ec =? 0)%Z) = true -> fs_nodes f' !! p = Some Dir.
Proof.
  unfold create_directory. destruct (fs_nodes f !! p) as [[b|]|] eqn:Hp; simpl; try done.
  destruct (parent_ok f p), (bool_decide (p ∈ fs_denied f)); simpl; try done.
  intros _. by rewrite lookup_insert_eq.
Qed.

(** Creating a directory changes no node that was there. *)
Lemma create_directory_mono f p q n :
  let '(_, _, f') := create_directory f p in
  fs_nodes f !! q = Some n -> fs_nodes f' !! q = Some n.
Proof.
  unfold create_directory. destruct (fs_nodes f !! p) as [[b|]|] eqn:Hp; simpl; try done.
  destruct (parent_ok f p), (bool_decide (p ∈ fs_denied f)); simpl; try done.
  intros Hq. rewrite lookup_insert_ne; congruence.
Qed.

(** ** Writing and reading *)

(** What a write to [p] needs. *)
Definition writable (f : fsys) (p : string) : bool :=
  match fs_nodes f !! p with
  | Some Dir => false
  | _ => parent_ok f p && negb (bool_decide (p ∈ fs_denied f))
  end.

Lemma write_all_spec f p b :
  write_all f p b
  = (writable f p, if writable f p then set_nodes (<[p:=File b]> (fs_nodes f)) f else f).
Proof.
  unfold write_all, writable. destruct (fs_nodes f !! p) as [[?|]|]; try done;
    by destruct (parent_ok f p), (bool_decide (p ∈ fs_denied f)).
Qed.

Lemma write_all_denied f p b : fs_denied (write_all f p b).2 = fs_denied f.
Proof. rewrite write_all_spec. simpl. by destruct (writable f p). Qed.

Lemma read_write_eq f p b : writable f p = true -> read_all (write_all f p b).2 p = Some b.
Proof.
  rewrite write_all_spec. intros ->. unfold read_all. simpl. by rewrite lookup_insert_eq.
Qed.

Lemma read_write_ne f p q b : p <> q -> read_all (write_all f p b).2 q = read_all f q.
Proof.
  rewrite write_all_spec. intros. unfold read_all. simpl.
  destruct (writable f p); [|done]. simpl. by rewrite lookup_insert_ne.
Qed.

Lemma write_all_dir f p b q :
  fs_nodes (write_all f p b).2 !! q = Some Dir <-> fs_nodes f !! q = Some Dir.
Proof.
  rewrite write_all_spec. simpl. unfold writable.
  destruct (fs_nodes f !! p) as [[?|]|] eqn:Hp; try done;
    (destruct (parent_ok f p && _); [|done]); simpl;
    (destruct (decide (p = q)) as [<-|]; [rewrite lookup_insert_eq; naive_solver|by rewrite lookup_insert_ne]).
Qed.

Lemma parent_ok_dirs f g p :
  (forall q, fs_nodes g !! q = Some Dir <-> fs_nodes f !! q = Some Dir) -> parent_ok g p = parent_ok f p.
Proof.
  intros Hd. unfold parent_ok. destruct (srfind "/" p) as [[|i]|]; try done.
  specialize (Hd (stake (S i) p)). destruct (fs_nodes f !! _) as [[?|]|], (fs_nodes g !! _) as [[?|]|];
    naive_solver.
Qed.

Lemma writable_dirs f g p :
  (forall q, fs_nodes g !! q = Some Dir <-> fs_nodes f !! q = Some Dir) ->
  fs_denied g = fs_denied f -> writable g p = writable f p.
Proof.
  intros Hd Hn. unfold writable. rewrite (parent_ok_dirs f g), Hn by done.
  specialize (Hd p). destruct (fs_nodes f !! p) as [[?|]|], (fs_nodes g !! p) as [[?|]|]; naive_solver.
Qed.

Lemma writable_write f p b q : writable (write_all f p b).2 q = writable f q.
Proof. apply writable_dirs; [intros; apply write_all_dir|apply write_all_denied]. Qed.

Lemma remove_file_dir f p q :
  fs_nodes (remove_file f p).2 !! q = Some Dir <-> fs_nodes f !! q = Some Dir.
Proof.
  unfold remove_file. destruct (fs_nodes f !! p) as [[?|]|] eqn:Hp; try done.
  case_bool_decide; [done|]. simpl.
  destruct (decide (p = q)) as [<-|]; [rewrite lookup_delete_eq; naive_solver|by rewrite lookup_delete_ne].
Qed.

Lemma writable_remove f p q : writable (remove_file f p).2 q = writable f q.
Proof.
  apply writable_dirs; [intros; apply remove_file_dir|].
  unfold remove_file. by repeat case_match.
Qed.

Lemma read_remove_ne f p q : p <> q -> read_all (remove_file f p).2 q = read_all f q.
Proof.
  intros. unfold remove_file, read_all. destruct (fs_nodes f !! p) as [[?|]|]; try done.
  case_bool_decide; [done|]. simpl. by rewrite lookup_delete_ne.
Qed.

Lemma read_remove_eq f p : (remove_file f p).1 = true -> read_all (remove_file f p).2 p = None.
Proof.
  unfold remove_file, read_all. destruct (fs_nodes f !! p) as [[?|]|]; try done.
  case_bool_decide; [done|]. simpl. by rewrite lookup_delete_eq.
Qed.

(** What is read after a removal was there before. *)
Lemma read_remove_sub f p q b : read_all (remove_file f p).2 q = Some b -> read_all f q = Some b.
Proof.
  destruct (decide (p = q)) as [<-|]; [|by rewrite read_remove_ne].
  unfold remove_file, read_all. destruct (fs_nodes f !! p) as [[?|]|] eqn:Hp; try done.
  - case_bool_decide; simpl; [by rewrite Hp|by rewrite lookup_delete_eq].
  - simpl. by rewrite Hp.
  - simpl. by rewrite Hp.
Qed.

(** ** Entries of a directory *)

(** What stands before a relative [q] in [path_div p q]. *)
Definition dir_prefix (p : string) : string :=
  if bool_decide (p = "") || ends_with_slash p then p else p +:+ "/".

Lemma path_div_prefix p q : String.prefix "/" q = false -> path_div p q = dir_prefix p +:+ q.
Proof. unfold path_div, dir_prefix. intros ->. case_match; [done|]. by rewrite sapp_assoc. Qed.

Lemma no_slash_prefix q : no_char "/" q = true -> String.prefix "/" q = false.
Proof.
  intros Hq. apply not_true_iff_false. intros [r ->]%prefix_spec. by vm_compute in Hq.
Qed.

Lemma dir_prefix_shape p : dir_prefix p = "" \/ exists p', dir_prefix p = p' +:+ "/".
Proof.
  unfold dir_prefix. case_bool_decide as Hp; [by left|]. right. simpl.
  destruct (ends_with_slash p) eqn:He; [|eauto]. unfold ends_with_slash in He.
  apply bool_decide_eq_true in He. exists (stake (pred (String.length p)) p).
  apply srfind_Some in He as [He _]. rewrite He at 1. f_equal. f_equal.
  destruct (sdrop (S (pred (String.length p))) p) as [|c r] eqn:Hd; [done|].
  pose proof (slength_sdrop (S (pred (String.length p))) p) as Hl.
  rewrite Hd in Hl. destruct p; [done|]. simpl in Hl. lia.
Qed.

Lemma path_filename_div p q : no_char "/" q = true -> path_filename (path_div p q) = q.
Proof.
  intros Hq. rewrite path_div_prefix by by apply no_slash_prefix. unfold path_filename.
  destruct (dir_prefix_shape p) as [->|[p' ->]].
  - cbn. by rewrite srfind_none.
  - assert (srfind "/" ((p' +:+ "/") +:+ q) = Some (String.length p')) as ->.
    { rewrite sapp_assoc. by apply srfind_last. }
    replace (S (String.length p')) with (String.length (p' +:+ "/")); [apply sdrop_app|].
    rewrite slength_app. simpl. lia.
Qed.

Lemma path_div_inj p q q' :
  no_char "/" q = true -> no_char "/" q' = true -> path_div p q = path_div p q' -> q = q'.
Proof.
  intros Hq Hq' He. rewrite !path_div_prefix in He by by apply no_slash_prefix.
  by apply sapp_inj_r in He.
Qed.

(** The names a directory iterator gives, in whatever order. *)
Definition lists_dir (f : fsys) (d : string) (l : list string) : Prop :=
  forall n, n ∈ l <-> n <> "" /\ no_char "/" n = true /\ is_Some (fs_nodes f !! path_div d n).
