(* ===== verification/Util.v ===== *)
(** * Utilities (src/util.cpp, include/util.hpp)

    File names, hexadecimal info-hashes, the configuration directories, the
    port parser.  The hash type and its stream operators belong to
    libtorrent: they are the class [Sha1]. *)

From S2P Require Import Prelude CStd Fs.

Definition SESS_FILE : string := ".ses_state".
Definition RESUME_DIR : string := ".resume".
Definition RESUME_EXT : string := ".resume".
Definition WATCH_DIR : string := "watching".
Definition CERT_DIR : string := "certificates".
Definition APP_NAME : string := "kedge".
Definition WATCH_INTERVAL : Z := 2.
Definition PERCENT_ONE : Z := 10000.
Definition PERCENT_DONE : Z := 100 * PERCENT_ONE.

(** ** Info-hashes *)

Definition hex_digit : string := "0123456789abcdef".

(** [hex_digit.find(c) != npos]. *)
Definition is_hex_digit (c : ascii) : bool :=
  bool_decide (is_Some (sfind hex_digit (String c "") 0)).

(** Forty lower-case hexadecimal digits. *)
Definition hex40 (s : string) : bool := (String.length s =? 40) && sforall is_hex_digit s.

(** [lt::sha1_hash] with [operator<<] and [operator>>]; reading gives [None]
    when it sets the stream's fail bit. *)
Class Sha1 := {
  sha1_hash : Type;
  sha1_write : sha1_hash -> string;
  sha1_read : string -> option sha1_hash;
  #[global] sha1_eq_dec :: EqDecision sha1_hash;
}.
Class Sha1Laws `{Sha1} : Prop := {
  sha1_write_hex h : hex40 (sha1_write h) = true;
  sha1_read_write h : sha1_read (sha1_write h) = Some h;
  sha1_read_hex s : hex40 s = true -> exists h, sha1_read s = Some h /\ sha1_write h = s;
}.

Definition is_resume_file (s : string) : bool :=
  if negb (String.length s =? 40 + 7) then false
  else if negb (bool_decide (substr_from s 40 = Some ".resume")) then false
  else match substr s 0 40 with
       | Some h => sforall is_hex_digit h
       | None => false
       end.

Section hashes.
Context `{Sha1}.

Definition to_hex (ih : sha1_hash) : string := sha1_write ih.

(** The string is handed to the stream through [c_str()]. *)
Definition from_hex (s : string) : option sha1_hash :=
  if negb (String.length s =? 40) then None else sha1_read (c_str s).
End hashes.

(** ** Files *)

(** [load_file(filename, v, limit)]: [None] is the result [false]. *)
Definition load_file (f : fsys) (filename : string) (limit : Z) : option string :=
  match read_all f filename with
  | None => None
  | Some bytes => if (limit <? Z.of_nat (String.length bytes))%Z then None else Some bytes
  end.

(** The default argument for the limit. *)
Definition default_limit : Z := 8000000.

Definition save_file (f : fsys) (filename v : string) : bool * fsys := write_all f filename v.

(** [fs::path(base) += path]: no separator is inserted. *)
Definition path_cat (base path : string) : string := base +:+ path.

Definition prepared_paths (cd : string) : list string :=
  [cd; path_div cd RESUME_DIR; path_div cd WATCH_DIR; path_div cd CERT_DIR].

(** The loop of [prepare_dirs], left at the first directory that fails. *)
Fixpoint prepare_loop (f : fsys) (paths : list string) : bool * fsys :=
  match paths with
  | [] => (true, f)
  | p :: paths' =>
      let '(created, ec, f') := create_directory f p in
      if negb created && negb (ec =? 0)%Z then (false, f') else prepare_loop f' paths'
  end.

Definition prepare_dirs (f : fsys) (cd : string) : bool * fsys := prepare_loop f (prepared_paths cd).

(** ** The environment *)

(** The process environment and the password entry of the user. *)
Record environ := mk_environ {
  getenv : string -> option string;
  pw_dir : option string;
}.

Definition getEnvStr (e : environ) (key dft : string) : string :=
  match getenv e key with None => dft | Some v => v end.

(** [home] is the function's static pointer; the second component is its
    value afterwards. *)
Definition getHomeDir (e : environ) (home : option string) : string * option string :=
  match home with
  | Some h => (h, home)
  | None =>
      let h := match getenv e "HOME" with
               | Some h => h
               | None => match pw_dir e with Some d => d | None => "" end
               end in
      (h, Some h)
  end.

Definition getConfDir (e : environ) (home : option string) (app : string) : string * option string :=
  let '(h, home') := getHomeDir e home in
  let xcfg := path_div h ".config" in
  (path_div (getEnvStr e "XDG_CONFIG_HOME" xcfg) app, home').

Definition getLogsDir (e : environ) (home : option string) : string * option string :=
  let '(h, home') := getHomeDir e home in (path_div h "logs", home').

Definition getStoreDir (e : environ) (home : option string) : string * option string :=
  let '(h, home') := getHomeDir e home in (path_div h "Downloads", home').

Definition getWebUI (e : environ) (home : option string) : string * option string :=
  let '(c, home') := getConfDir e home APP_NAME in (path_div c "webui", home').

(** ** Ports and ids *)

(** The value is an [int16_t]: [None] where [atoi] is undefined. *)
Definition parse_port (addr : string) : option Z :=
  if bool_decide (addr = "") then Some 0%Z
  else match srfind ":" (c_str addr) with
       | Some i =>
           n ← atoi (sdrop (S i) (c_str addr));
           Some (swrap 16 (uwrap 16 n))
       | None => Some 0%Z
       end.

(** [n2hex] of an unsigned value of [size] bytes. *)
Definition n2hex (size : nat) (i : Z) : string :=
  setw (size * 2) "0" (hex_digits (size * 2) i "").

(** ** Resume file names *)

Lemma substr_from_spec s n t : substr_from s n = Some t <-> n <= String.length s /\ sdrop n s = t.
Proof. unfold substr_from. case_match; bool_simp; naive_solver lia. Qed.

Lemma is_resume_file_hex h : hex40 h = true -> is_resume_file (h +:+ RESUME_EXT) = true.
Proof.
  unfold is_resume_file, hex40. intros [Hlen Hd]%andb_true_iff. bool_simp.
  rewrite slength_app, Hlen. cbn [Nat.eqb Nat.add String.length RESUME_EXT negb].
  destruct (substr_app h RESUME_EXT 40 Hlen) as [-> ->].
  by rewrite bool_decide_eq_true_2.
Qed.

(** The files taken for resume files are exactly those named by forty
    lower-case hexadecimal digits and [.resume]. *)
Theorem is_resume_file_spec s :
  is_resume_file s = true <-> exists h, hex40 h = true /\ s = h +:+ RESUME_EXT.
Proof.
  split.
  - unfold is_resume_file, hex40. destruct (String.length s =? 40 + 7) eqn:Hlen; [|done]. bool_simp. cbn [negb].
    destruct (bool_decide _) eqn:Hext; [|done]. bool_simp. cbn [negb].
    apply substr_from_spec in Hext as [_ Hext].
    rewrite substr_total by lia. cbn [sdrop]. intros Hd. exists (stake 40 s).
    rewrite slength_stake, Hlen, Hd. split; [done|].
    rewrite <- (stake_sdrop 40 s) at 1. by rewrite Hext.
  - intros (h & Hh & ->). by apply is_resume_file_hex.
Qed.

Lemma hex_digit_nonzero c : is_hex_digit c = true -> c <> Ascii.zero.
Proof. intros Hc ->. vm_compute in Hc. done. Qed.

Lemma hex40_c_str h : hex40 h = true -> c_str h = h.
Proof.
  intros [_ Hd]%andb_true_iff. apply c_str_id. eapply sforall_impl; [|exact Hd].
  intros c Hc%hex_digit_nonzero. by apply negb_true_iff, bool_decide_eq_false.
Qed.

Section hash_theorems.
Context `{Sha1, !Sha1Laws}.

Lemma to_hex_hex40 ih : hex40 (to_hex ih) = true.
Proof. apply sha1_write_hex. Qed.

Lemma from_hex_to_hex ih : from_hex (to_hex ih) = Some ih.
Proof.
  pose proof (to_hex_hex40 ih) as Hh. unfold from_hex. rewrite hex40_c_str by done.
  unfold hex40 in Hh. apply andb_true_iff in Hh as [Hlen _]. rewrite Hlen. apply sha1_read_write.
Qed.

(** Every hash has one resume file name, the loader accepts it, and the
    hash is read back from it. *)
Theorem resume_name_roundtrip ih :
  is_resume_file (to_hex ih +:+ RESUME_EXT) = true
  /\ (h ← substr (to_hex ih +:+ RESUME_EXT) 0 40; from_hex h) = Some ih.
Proof.
  pose proof (to_hex_hex40 ih) as Hh. split.
  - by apply is_resume_file_hex.
  - unfold hex40 in Hh. apply andb_true_iff in Hh as [Hlen _]. bool_simp.
    destruct (substr_app _ RESUME_EXT 40 Hlen) as [-> _]. apply from_hex_to_hex.
Qed.
End hash_theorems.

(** Hashes as their forty digits. *)
Definition sha1_demo : Sha1 := {|
  sha1_hash := { s : string | hex40 s = true };
  sha1_write := proj1_sig;
  sha1_read s := match decide (hex40 s = true) with left Hs => Some (s ↾ Hs) | right _ => None end;
|}.

Lemma sha1_demo_laws : @Sha1Laws sha1_demo.
Proof.
  assert (forall s Hs, @sha1_read sha1_demo s = Some (s ↾ Hs)) as Hread.
  { intros s Hs. simpl. case_decide; [|done]. f_equal. by apply (sig_eq_pi _). }
  split.
  - by intros [s Hs].
  - intros [s Hs]. apply Hread.
  - intros s Hs. exists (s ↾ Hs). split; [apply Hread|done].
Qed.

Definition demo_hex : string := "5e13283d8dc83894fa899b4702f114dcab6b736e".
Definition demo_hash : @sha1_hash sha1_demo := demo_hex ↾ eq_refl.

Lemma resume_name_roundtrip_witness :
  is_resume_file (@to_hex sha1_demo demo_hash +:+ RESUME_EXT) = true
  /\ (h ← substr (@to_hex sha1_demo demo_hash +:+ RESUME_EXT) 0 40; @from_hex sha1_demo h) = Some demo_hash.
Proof. apply (@resume_name_roundtrip sha1_demo sha1_demo_laws demo_hash). Defined.

(** ** Directories *)

Lemma prepare_loop_mono f ps q n :
  fs_nodes f !! q = Some n -> fs_nodes (prepare_loop f ps).2 !! q = Some n.
Proof.
  revert f. induction ps as [|p ps IH]; intros f Hq; [done|]. cbn [prepare_loop].
  pose proof (create_directory_mono f p q n) as Hm.
  destruct (create_directory f p) as [[c ec] f']. case_match; simpl; auto.
Qed.

Lemma prepare_loop_true f ps :
  (prepare_loop f ps).1 = true ->
  Forall (fun p => fs_nodes (prepare_loop f ps).2 !! p = Some Dir) ps.
Proof.
  revert f. induction ps as [|p ps IH]; intros f; cbn [prepare_loop]; [constructor|].
  pose proof (create_directory_dir f p) as Hd.
  destruct (create_directory f p) as [[c ec] f'].
  destruct (negb c && negb (ec =? 0)%Z) eqn:Hc; [done|]. intros Ht. constructor; [|by apply IH].
  apply prepare_loop_mono, Hd. by destruct c, (ec =? 0)%Z.
Qed.

Lemma create_directory_existing f p :
  fs_nodes f !! p = Some Dir -> create_directory f p = (false, 0%Z, f).
Proof. intros Hp. unfold create_directory. by rewrite Hp. Qed.

Lemma prepare_loop_existing f ps :
  Forall (fun p => fs_nodes f !! p = Some Dir) ps -> prepare_loop f ps = (true, f).
Proof. induction 1; cbn [prepare_loop]; [done|]. by rewrite create_directory_existing. Qed.

Lemma prepare_loop_false f ps :
  (prepare_loop f ps).1 = false ->
  Exists (fun p => fs_nodes (prepare_loop f ps).2 !! p <> Some Dir) ps.
Proof.
  revert f. induction ps as [|p ps IH]; intros f; cbn [prepare_loop]; [done|].
  unfold create_directory.
  destruct (fs_nodes f !! p) as [[b|]|] eqn:Hp; [|intros Ht; right; by apply IH|].
  - intros _. left. simpl. congruence.
  - destruct (parent_ok f p); [|intros _; left; simpl; congruence].
    destruct (bool_decide _); [intros _; left; simpl; congruence|].
    intros Ht. right. by apply IH.
Qed.

(** [prepare_dirs] succeeds exactly when the configuration directory and
    its three subdirectories are directories afterwards; it removes nothing,
    and repeating a success changes nothing. *)
Theorem prepare_dirs_spec f cd :
  let '(ok, f') := prepare_dirs f cd in
  (ok = true <-> Forall (fun p => fs_nodes f' !! p = Some Dir) (prepared_paths cd))
  /\ (forall q n, fs_nodes f !! q = Some n -> fs_nodes f' !! q = Some n)
  /\ (ok = true -> prepare_dirs f' cd = (true, f')).
Proof.
  unfold prepare_dirs. pose proof (prepare_loop_true f (prepared_paths cd)) as Ht.
  pose proof (prepare_loop_false f (prepared_paths cd)) as Hf.
  pose proof (fun q n => prepare_loop_mono f (prepared_paths cd) q n) as Hm.
  destruct (prepare_loop f (prepared_paths cd)) as [ok f']. cbn [fst snd] in *.
  split_and!; [|done|intros; by apply prepare_loop_existing, Ht].
  split; [done|]. intros Hall. destruct ok; [done|]. specialize (Hf eq_refl).
  rewrite Exists_exists in Hf. rewrite Forall_forall in Hall. naive_solver.
Qed.

(** ** Ports and ids *)

(** [parse_port] reads the decimal number behind the last colon, and
    since it goes through [int16_t], a port of 32768 or more comes out as
    the negative number 65536 below it. *)
Theorem parse_port_value host n :
  no_char Ascii.zero host = true -> (Z.of_nat n < 65536)%Z ->
  parse_port (host +:+ ":" +:+ to_string n)
  = Some (if Z.of_nat n <? 32768 then Z.of_nat n else Z.of_nat n - 65536)%Z.
Proof.
  intros Hh Hn. pose proof (to_string_digits n) as Hd. unfold parse_port.
  rewrite bool_decide_eq_false_2 by (by destruct host).
  rewrite c_str_id.
  2: { unfold no_char in *. rewrite !sforall_app, Hh. cbn.
       by apply (digits_no_char Ascii.zero). }
  change (":" +:+ to_string n) with (String ":" (to_string n)).
  rewrite srfind_last by (by apply digits_no_char).
  change (S (String.length host)) with (1 + String.length host).
  replace (sdrop (1 + String.length host) (host +:+ String ":" (to_string n)))
    with (to_string n).
  2: { rewrite Nat.add_comm, <- sdrop_sdrop, sdrop_app. done. }
  rewrite atoi_to_string by lia. cbn [mbind option_bind]. f_equal.
  rewrite uwrap_small by lia. unfold swrap. case_match; bool_simp.
  - rewrite Z.mod_small; lia.
  - rewrite <- (Z.mod_unique_pos _ (2 ^ 16) 1 (Z.of_nat n - 32768)); lia.
Qed.

Lemma parse_port_value_witness :
  parse_port ("[::]" +:+ ":" +:+ to_string 40000)
  = Some (if Z.of_nat 40000 <? 32768 then Z.of_nat 40000 else Z.of_nat 40000 - 65536)%Z.
Proof. apply (parse_port_value "[::]" 40000); [reflexivity|vm_compute; reflexivity]. Defined.

(** The id handed to a websocket client that brings none: always the full
    width of the type, and no two numbers share one. *)
Theorem n2hex_fixed_width size i :
  0 < size -> (0 <= i < 16 ^ Z.of_nat (size * 2))%Z ->
  String.length (n2hex size i) = size * 2 /\ scan_digits 16 0 (n2hex size i) = i.
Proof.
  intros Hs Hi. unfold n2hex.
  pose proof (length_hex_digits (size * 2) i "") as Hl. simpl in Hl. rewrite Nat.add_0_r in Hl.
  split; [by apply length_setw|]. unfold setw.
  rewrite scan_zeros, scan_hex_digits by lia. done.
Qed.

Lemma n2hex_fixed_width_witness :
  String.length (n2hex 4 9999) = 8 /\ scan_digits 16 0 (n2hex 4 9999) = 9999%Z.
Proof. apply (n2hex_fixed_width 4 9999); [lia|split; reflexivity || lia]. Defined.
