(* ===== verification/Clock.v ===== *)
(** * Clocks, dates and random numbers (src/util.cpp)

    The times of [std::time] and [system_clock] are arguments; the local time
    zone is the class [TimeZone], the random numbers are the class [Random].
    [localtime] and [strftime] are the C library's, for the formats the
    program uses. *)

From S2P Require Import Prelude CStd Util.

(** ** Clocks *)

(** [start_up] and [start_up_c] are initialized when the program starts; the
    clock of [system_clock] counts nanoseconds. *)
Definition uptime (now start_up : Z) : Z := (now - start_up)%Z.

(** [duration_cast<milliseconds>] cuts towards zero. *)
Definition uptimeMs (now_c start_up_c : Z) : Z := Z.quot (now_c - start_up_c) 1000000.

(** ** Random numbers *)

(** What [uniform_int_distribution] draws from the engine. *)
Class Random := draw : Z -> Z -> Z.
Class RandomLaws `{Random} : Prop := draw_range a b : (a <= b)%Z -> (a <= draw a b <= b)%Z.

Definition randNum `{Random} (min max : Z) : Z := draw min max.

(** The id of a client that brings none: [n2hex(randNum(1000, 9999))]. *)
Theorem drawn_id `{RandomLaws} :
  let id := n2hex 4 (randNum 1000 9999) in
  String.length id = 8 /\ (1000 <= scan_digits 16 0 id <= 9999)%Z.
Proof.
  pose proof (draw_range 1000 9999 ltac:(lia)) as Hr. unfold randNum.
  destruct (n2hex_fixed_width 4 (draw 1000 9999)) as [Hl Hs]; [lia|cbn; lia|]. cbn zeta. by rewrite Hs.
Qed.

(** ** The calendar *)

(** [std::tm], with the year and the month counted as they are written. *)
Record tm := mk_tm { tm_year : Z; tm_mon : Z; tm_mday : Z; tm_hour : Z; tm_min : Z; tm_sec : Z }.

(** The day of the Gregorian calendar, from the days since 1970-01-01, by
    400-year eras that begin in March: the century, the four years, the year,
    the month. *)
Definition era_day (doe : Z) : Z * Z * Z :=
  let c := Z.min (doe / 36524) 3 in
  let r := (doe - c * 36524)%Z in
  let q := (r / 1461)%Z in
  let r := (r - q * 1461)%Z in
  let y := Z.min (r / 365) 3 in
  let doy := (r - y * 365)%Z in
  let mp := ((5 * doy + 2) / 153)%Z in
  ((100 * c + 4 * q + y)%Z, mp, (doy - (153 * mp + 2) / 5 + 1)%Z).

Definition civil (days : Z) : Z * Z * Z :=
  let z := (days + 719468)%Z in
  let '(yoe, mp, d) := era_day (z mod 146097) in
  let m := (if mp <? 10 then mp + 3 else mp - 9)%Z in
  ((yoe + z / 146097 * 400 + (if m <=? 2 then 1 else 0))%Z, m, d).

(** The days before a day of the calendar, counted year by year. *)
Definition days_of (y m d : Z) : Z :=
  let y := (if m <=? 2 then y - 1 else y)%Z in
  let mp := (if m <=? 2 then m + 9 else m - 3)%Z in
  (365 * y + y / 4 - y / 100 + y / 400 + (153 * mp + 2) / 5 + d - 1 - 719468)%Z.

Lemma era_day_spec doe :
  (0 <= doe < 146097)%Z ->
  let '(yoe, mp, d) := era_day doe in
  (0 <= yoe < 400)%Z /\ (0 <= mp < 12)%Z /\ (1 <= d <= 31)%Z
  /\ (365 * yoe + yoe / 4 - yoe / 100 + (153 * mp + 2) / 5 + d - 1 = doe)%Z.
Proof.
  intros Hd. unfold era_day. set (c := Z.min (doe / 36524) 3). set (r := (doe - c * 36524)%Z).
  assert (0 <= c <= 3 /\ 0 <= r <= 36524)%Z as [Hc Hr] by (unfold r, c; Z.to_euclidean_division_equations; lia).
  set (q := (r / 1461)%Z). set (r' := (r - q * 1461)%Z).
  assert (0 <= q <= 24 /\ 0 <= r' <= 1460)%Z as [Hq Hr'] by (unfold r', q; Z.to_euclidean_division_equations; lia).
  set (y := Z.min (r' / 365) 3). set (doy := (r' - y * 365)%Z).
  assert (0 <= y <= 3 /\ 0 <= doy <= 365)%Z as [Hy Hdoy] by (unfold doy, y; Z.to_euclidean_division_equations; lia).
  assert ((100 * c + 4 * q + y) / 4 = 25 * c + q /\ (100 * c + 4 * q + y) / 100 = c)%Z as [-> ->]
    by (Z.to_euclidean_division_equations; lia).
  assert (doe = 36524 * c + 1461 * q + 365 * y + doy)%Z as He by (unfold doy, r', r; lia).
  clearbody c r q r' y doy. clear - Hc Hq Hy Hdoy He.
  split; [lia|]. Z.to_euclidean_division_equations. lia.
Qed.

Lemma civil_spec days :
  let '(y, m, d) := civil days in
  days_of y m d = days /\ (1 <= m <= 12)%Z /\ (1 <= d <= 31)%Z.
Proof.
  unfold civil, days_of. set (z := (days + 719468)%Z).
  pose proof (era_day_spec (z mod 146097) (Z.mod_pos_bound z 146097 eq_refl)) as He.
  destruct (era_day (z mod 146097)) as [[yoe mp] d]. destruct He as (Hyoe & Hmp & Hd & He).
  assert (z = 146097 * (z / 146097) + z mod 146097)%Z as Hz by (apply Z.div_mod; lia).
  set (era := (z / 146097)%Z) in *. set (m := if (mp <? 10)%Z then (mp + 3)%Z else (mp - 9)%Z).
  assert ((m <=? 2) = (10 <=? mp))%Z as Hm.
  { unfold m. destruct (mp <? 10)%Z eqn:Hs; bool_simp; [rewrite (proj2 (Z.leb_gt _ _)), (proj2 (Z.leb_gt _ _)); lia|].
    rewrite !(proj2 (Z.leb_le _ _)); lia. }
  assert ((if m <=? 2 then yoe + era * 400 + (if m <=? 2 then 1 else 0) - 1
           else yoe + era * 400 + (if m <=? 2 then 1 else 0)) = yoe + era * 400)%Z as -> by (destruct (m <=? 2)%Z; lia).
  assert ((if m <=? 2 then m + 9 else m - 3) = mp)%Z as ->.
  { rewrite Hm. unfold m. destruct (mp <? 10)%Z eqn:Hs; bool_simp.
    - rewrite (proj2 (Z.leb_gt _ _)); lia.
    - rewrite (proj2 (Z.leb_le _ _)); lia. }
  replace ((yoe + era * 400) / 4)%Z with (yoe / 4 + era * 100)%Z
    by (replace (yoe + era * 400)%Z with (yoe + era * 100 * 4)%Z by lia; by rewrite Z.div_add).
  replace ((yoe + era * 400) / 100)%Z with (yoe / 100 + era * 4)%Z
    by (replace (yoe + era * 400)%Z with (yoe + era * 4 * 100)%Z by lia; by rewrite Z.div_add).
  replace ((yoe + era * 400) / 400)%Z with era by (rewrite Z.div_add, Z.div_small; lia).
  split; [lia|]. split; [|lia]. unfold m. destruct (mp <? 10)%Z eqn:Hs; bool_simp; lia.
Qed.

(** ** Local time *)

(** The seconds a local clock is ahead of UTC at a time. *)
Class TimeZone := utc_offset : Z -> Z.

(** [std::localtime]: a null pointer when the year is none of [int]'s,
    counted from 1900. *)
Definition localtime `{TimeZone} (t : Z) : option tm :=
  let l := (t + utc_offset t)%Z in
  let '(y, m, d) := civil (l / 86400) in
  let s := (l mod 86400)%Z in
  if in_sint 32 (y - 1900) then Some (mk_tm y m d (s / 3600) (s / 60 mod 60) (s mod 60)) else None.

(** Decimal digits, [w] of them. *)
Fixpoint dec (w : nat) (n : Z) : string :=
  match w with
  | 0 => ""
  | S w' => dec w' (n / 10) +:+ String (hex_char (n mod 10)) ""
  end.

(** [%Y], for the years from 1000 on. *)
Definition year_text (y : Z) : string := if (y <=? 9999)%Z then dec 4 y else to_string (Z.to_nat y).

(** [strftime] into [size] bytes: nothing when the text and its terminator do
    not fit. *)
Definition fits (size : nat) (s : string) : option string := if String.length s <? size then Some s else None.

Definition date_text (x : tm) : string :=
  year_text (tm_year x) +:+ (dec 2 (tm_mon x) +:+ (dec 2 (tm_mday x) +:+ (" " +:+ (dec 2 (tm_hour x) +:+ (":" +:+ dec 2 (tm_min x)))))).

(** [None]: [localtime] gave a null pointer, which [strftime] reads. *)
Definition pptime `{TimeZone} (t : Z) : option string :=
  if (t =? 0)%Z then Some "0"
  else
    x ← localtime t;
    Some (match fits 15 (date_text x) with Some s => s | None => " - " end).

(** [%m%d %X]; [%X] is [%H:%M:%S] in the C locale. *)
Definition timestamp `{TimeZone} (now : Z) : option string :=
  x ← localtime now;
  Some (dec 2 (tm_mon x) +:+ (dec 2 (tm_mday x) +:+ (" " +:+ (dec 2 (tm_hour x) +:+ (":" +:+ (dec 2 (tm_min x)
        +:+ (":" +:+ dec 2 (tm_sec x)))))))).

(** ** What the dates say *)

Lemma length_dec w n : String.length (dec w n) = w.
Proof. revert n. induction w as [|w IH]; intros n; [done|]. cbn [dec]. rewrite slength_app, IH. simpl. lia. Qed.

Lemma digit_val_dec n : (0 <= n)%Z -> digit_val 10 (hex_char (n mod 10)) = Some (n mod 10)%Z.
Proof.
  intros Hn. pose proof (Z.mod_pos_bound n 10 eq_refl). generalize dependent (n mod 10)%Z. intros d Hd.
  assert (d ∈ (Z.of_nat <$> seq 0 10)) as Hin.
  { apply list_elem_of_fmap. exists (Z.to_nat d). split; [lia|]. apply elem_of_seq. lia. }
  revert Hin. cbn. rewrite !elem_of_cons, elem_of_nil. naive_solver.
Qed.

Lemma scan_dec w n s acc :
  (0 <= n < 10 ^ Z.of_nat w)%Z ->
  scan_digits 10 acc (dec w n +:+ s) = scan_digits 10 (acc * 10 ^ Z.of_nat w + n) s.
Proof.
  revert n s. induction w as [|w IH]; intros n s Hn.
  - cbn in Hn |- *. f_equal. lia.
  - cbn [dec]. rewrite sapp_assoc. rewrite Nat2Z.inj_succ, Z.pow_succ_r in * by lia.
    rewrite IH by (split; [apply Z.div_pos; lia|apply Z.div_lt_upper_bound; lia]).
    change (String ?c "" +:+ s) with (String c s). cbn [scan_digits]. rewrite digit_val_dec by lia. f_equal.
    pose proof (Z.div_mod n 10). lia.
Qed.

Lemma dec_value w n : (0 <= n < 10 ^ Z.of_nat w)%Z -> scan_digits 10 0 (dec w n) = n.
Proof. intros Hn. rewrite <- (sapp_nil_r (dec w n)), scan_dec by done. cbn. lia. Qed.

(** The minute a text of [pptime] names, counted from 1970 in local time. *)
Definition minute_of (s : string) : Z :=
  let num (i n : nat) := scan_digits 10 0 (stake n (sdrop i s)) in
  (days_of (num 0%nat 4%nat) (num 4%nat 2%nat) (num 6%nat 2%nat) * 1440 + num 9%nat 2%nat * 60 + num 12%nat 2%nat)%Z.

Lemma stake_dec w n s : stake w (dec w n +:+ s) = dec w n.
Proof. rewrite <- (length_dec w n) at 1. apply stake_app. Qed.

Lemma sdrop_dec w n s : sdrop w (dec w n +:+ s) = s.
Proof. rewrite <- (length_dec w n) at 1. apply sdrop_app. Qed.

Lemma minute_of_date y m d h mi :
  (0 <= y < 10000)%Z -> (0 <= m < 100)%Z -> (0 <= d < 100)%Z -> (0 <= h < 100)%Z -> (0 <= mi < 100)%Z ->
  let s := dec 4 y +:+ (dec 2 m +:+ (dec 2 d +:+ (" " +:+ (dec 2 h +:+ (":" +:+ dec 2 mi))))) in
  String.length s = 14 /\ minute_of s = (days_of y m d * 1440 + h * 60 + mi)%Z.
Proof.
  intros Hy Hm Hd Hh Hmi s. split; [reflexivity|]. unfold minute_of. cbn zeta.
  change (stake 4 (sdrop 0 s)) with (dec 4 y). change (stake 2 (sdrop 4 s)) with (dec 2 m).
  change (stake 2 (sdrop 6 s)) with (dec 2 d). change (stake 2 (sdrop 9 s)) with (dec 2 h).
  change (stake 2 (sdrop 12 s)) with (dec 2 mi). by rewrite !dec_value.
Qed.

(** The year of a day before the year 10000. *)
Lemma days_of_year y m d :
  (1 <= m <= 12)%Z -> (1 <= d <= 31)%Z -> (0 <= days_of y m d < 2932897)%Z -> (1969 <= y < 10000)%Z.
Proof. unfold days_of. intros Hm Hd Hb. destruct (m <=? 2)%Z eqn:H; bool_simp; Z.to_euclidean_division_equations; lia. Qed.

(** The times in the log can be read back: a time before the year 10000 is
    written as fourteen characters that name its minute. *)
Theorem pptime_minute `{TimeZone} t :
  t <> 0%Z -> (0 <= t + utc_offset t < 253402300800)%Z ->
  exists s, pptime t = Some s /\ String.length s = 14 /\ minute_of s = ((t + utc_offset t) / 60)%Z.
Proof.
  intros Ht Hl. unfold pptime. rewrite (proj2 (Z.eqb_neq _ _)) by done. unfold localtime.
  set (l := (t + utc_offset t)%Z) in *. pose proof (civil_spec (l / 86400)) as Hc.
  destruct (civil (l / 86400)) as [[y m] d]. destruct Hc as (Hdays & Hm & Hd).
  assert (0 <= l / 86400 < 2932897)%Z as Hb by (Z.to_euclidean_division_equations; lia).
  assert (1969 <= y < 10000)%Z as Hy by (apply (days_of_year y m d); [done..|by rewrite Hdays]).
  assert (in_sint 32 (y - 1900) = true) as -> by (unfold in_sint; apply andb_true_iff; split; apply Z.leb_le || apply Z.ltb_lt; lia).
  cbn [mbind option_bind]. unfold date_text, year_text. cbn [tm_year tm_mon tm_mday tm_hour tm_min].
  rewrite (proj2 (Z.leb_le y 9999)) by lia.
  assert (0 <= l mod 86400 / 3600 < 24 /\ 0 <= l mod 86400 / 60 mod 60 < 60)%Z as [Hh Hmi]
    by (Z.to_euclidean_division_equations; lia).
  destruct (minute_of_date y m d (l mod 86400 / 3600) (l mod 86400 / 60 mod 60)) as [Hlen Hmin]; try lia.
  set (s := dec 4 y +:+ _) in *. exists s. unfold fits. rewrite Hlen. split; [done|]. split; [done|]. rewrite Hmin, Hdays.
  Z.to_euclidean_division_equations. lia.
Qed.

(** From then on the text does not fit. *)
Lemma length_to_string n : (10000 <= Z.of_nat n)%Z -> 5 <= String.length (to_string n).
Proof.
  intros Hn. pose proof (scan_digits_to_string n) as Hs. pose proof (to_string_digits n) as Hd.
  assert (forall s acc, sforall is_digit s = true -> (0 <= acc)%Z ->
            (scan_digits 10 acc s < (acc + 1) * 10 ^ Z.of_nat (String.length s))%Z) as Hlt.
  { induction s as [|c s IH]; intros acc Hds Hacc; [cbn; lia|]. cbn [sforall] in Hds. bool_simp.
    cbn [scan_digits String.length]. rewrite Nat2Z.inj_succ, Z.pow_succ_r by lia.
    destruct (digit_val 10 c) as [v|] eqn:Hv; [|nia].
    assert (0 <= v < 10)%Z as Hv10.
    { unfold digit_val in Hv. repeat case_match; bool_simp; simplify_eq; lia. }
    eapply Z.lt_le_trans; [apply IH; [done|lia]|]. nia. }
  specialize (Hlt (to_string n) 0%Z Hd ltac:(lia)). rewrite Hs in Hlt.
  destruct (decide (5 <= String.length (to_string n))) as [|Hsm]; [done|].
  assert (10 ^ Z.of_nat (String.length (to_string n)) <= 10 ^ 4)%Z as Hle by (apply Z.pow_le_mono_r; lia).
  change (10 ^ 4)%Z with 10000%Z in Hle. rewrite Z.add_0_l, Z.mul_1_l in Hlt.
  pose proof (Z.lt_le_trans _ _ _ Hlt Hle). lia.
Qed.

Lemma pptime_far `{TimeZone} t x :
  t <> 0%Z -> localtime t = Some x -> (10000 <= tm_year x)%Z -> pptime t = Some " - ".
Proof.
  intros Ht Hx Hy. unfold pptime. rewrite (proj2 (Z.eqb_neq _ _)), Hx by done. cbn [mbind option_bind].
  unfold fits, date_text, year_text. rewrite (proj2 (Z.leb_gt _ _)) by lia.
  pose proof (length_to_string (Z.to_nat (tm_year x)) ltac:(lia)).
  rewrite (proj2 (Nat.ltb_ge _ _)); [done|]. rewrite !slength_app, !length_dec. simpl. lia.
Qed.

(** ** Examples *)

Definition cet : TimeZone := fun _ => 3600%Z.

Lemma pptime_minute_witness :
  exists s, pptime (H := cet) 1477233540 = Some s /\ String.length s = 14
            /\ minute_of s = ((1477233540 + 3600) / 60)%Z.
Proof. apply (pptime_minute (H := cet) 1477233540); [discriminate|split; vm_compute; [discriminate|reflexivity]]. Defined.

Example pptime_example : pptime (H := cet) 1477233540 = Some "20161023 15:39".
Proof. vm_compute. reflexivity. Qed.
