(* ===== verification/Logging.v ===== *)
(** * The logger of crow (deps/crow/logging.hpp)

    A header that came with the HTTP code: levels, a line that is put together
    in a stream and written to the standard error when the object ends, and
    macros that make one.  No other file of the repository includes it; what
    the program itself logs goes through plog.  [CROW_ENABLE_LOGGING] is the
    class [LogBuild]; the current level, which any thread may set, is a
    function of the number of its readings ([level_at]). *)

From S2P Require Import Prelude CStd Fs Util Clock.

(** ** Levels *)

Inductive LogLevel := Debug | Info | Warning | Error | Critical.

Definition level_value (l : LogLevel) : Z :=
  match l with Debug => 0 | Info => 1 | Warning => 2 | Error => 3 | Critical => 4 end.

Definition LOG_DEFAULT_LEVEL : Z := 1.

(** [static_cast<LogLevel>(LOG_DEFAULT_LEVEL)]. *)
Definition currentLevel : LogLevel := Info.

(** [getCurrentLogLevel] at its [i]-th call: the last [setLogLevel] before
    it, in the list of those of the program's threads, each with the number of
    the call it comes before. *)
Definition level_at (sets : list (nat * LogLevel)) (i : nat) : LogLevel :=
  foldl (fun cur s => if s.1 <=? i then s.2 else cur) currentLevel sets.

Definition level_le (a b : LogLevel) : bool := (level_value a <=? level_value b)%Z.

(** ** The time *)

(** [gmtime_r] fills the object, or leaves it as it is when the year is none
    of [int]'s, counted from 1900. *)
Definition gmtime_r (t : Z) (myTm : tm) : tm :=
  let '(y, m, d) := civil (t / 86400) in
  let s := (t mod 86400)%Z in
  if in_sint 32 (y - 1900) then mk_tm y m d (s / 3600) (s / 60 mod 60) (s mod 60) else myTm.

(** [tm myTm{}]: all members zero, the day among them. *)
Definition zero_tm : tm := mk_tm 1900 1 0 0 0 0.

(** [%Y-%m-%d %H:%M:%S]. *)
Definition stamp_text (x : tm) : string :=
  year_text (tm_year x) +:+ ("-" +:+ (dec 2 (tm_mon x) +:+ ("-" +:+ (dec 2 (tm_mday x) +:+ (" " +:+
    (dec 2 (tm_hour x) +:+ (":" +:+ (dec 2 (tm_min x) +:+ (":" +:+ dec 2 (tm_sec x)))))))))).

(** [strftime] gives 0 when the text does not fit, and the string is cut to
    that size. *)
Definition stamp (t : Z) : string := default "" (fits 32 (stamp_text (gmtime_r t zero_tm))).

(** ** A line *)

Class LogBuild := CROW_ENABLE_LOGGING : bool.

(** [os << path] writes the path as [std::quoted] does. *)
Fixpoint escaped (s : string) : string :=
  match s with
  | "" => ""
  | String c s' =>
      if bool_decide (c = "034"%char) || bool_decide (c = "092"%char)
      then String "092" (String c (escaped s')) else String c (escaped s')
  end.

Definition quoted (s : string) : string := String "034" (escaped s +:+ String "034" "").

Definition newline : string := String "010" "".

Record Logger := mk_logger { stringstream : string; level : LogLevel }.

Section logger.
Context {build : LogBuild}.

Definition new_logger (prefix filename : string) (line now : Z) (levelIn : LogLevel) : Logger :=
  mk_logger
    (if CROW_ENABLE_LOGGING
     then "(" +:+ stamp now +:+ ") [" +:+ prefix +:+ " " +:+ quoted (path_filename filename) +:+ ":"
          +:+ to_string (Z.to_nat line) +:+ "] "
     else "") levelIn.

(** [operator<<], with the current level. *)
Definition put (cur : LogLevel) (value : string) (l : Logger) : Logger :=
  if level_le cur (level l) && CROW_ENABLE_LOGGING
  then mk_logger (stringstream l +:+ value) (level l) else l.

(** The destructor: what it writes to the standard error. *)
Definition end_logger (cur : LogLevel) (l : Logger) : string :=
  if level_le cur (level l) && CROW_ENABLE_LOGGING then stringstream l +:+ newline else "".

(** The values of a statement, the [i]-th reading of the level before each. *)
Fixpoint puts_ (cur : nat -> LogLevel) (i : nat) (values : list string) (l : Logger) : nat * Logger :=
  match values with
  | [] => (i, l)
  | v :: values' => puts_ cur (S i) values' (put (cur i) v l)
  end.

Definition level_prefix (l : LogLevel) : string :=
  match l with
  | Debug => "DEBUG" | Info => "INFO" | Warning => "WARNING" | Error => "ERROR" | Critical => "CRITICAL"
  end.

(** [CROW_LOG_...(file, line) << values;]: what it writes. *)
Definition log_statement (cur : nat -> LogLevel) (l : LogLevel) (file : string) (line now : Z) (values : list string)
  : string :=
  if level_le (cur 0) l then
    let '(i, o) := puts_ cur 1 values (new_logger (level_prefix l) file line now l) in
    end_logger (cur i) o
  else "".

(** ** What it writes *)

Definition line_of (l : LogLevel) (file : string) (line now : Z) (values : list string) : string :=
  stringstream (new_logger (level_prefix l) file line now l) +:+ (String.concat "" values +:+ newline).

Lemma puts_level cur i values o : level (puts_ cur i values o).2 = level o /\ (puts_ cur i values o).1 = i + length values.
Proof.
  revert i o. induction values as [|v values IH]; intros i o; cbn [puts_ fst snd length]; [by rewrite Nat.add_0_r|].
  destruct (IH (S i) (put (cur i) v o)) as [-> ->]. split; [unfold put; by destruct (_ && _)|lia].
Qed.

Lemma concat_cons v values : String.concat "" (v :: values) = v +:+ String.concat "" values.
Proof. destruct values; [by rewrite sapp_nil_r|done]. Qed.

(** The values that were written are some of those given, in order. *)
Lemma puts_stream cur i values o :
  CROW_ENABLE_LOGGING = true ->
  exists vs, vs `sublist_of` values
    /\ stringstream (puts_ cur i values o).2 = stringstream o +:+ String.concat "" vs
    /\ ((forall j, level_le (cur j) (level o) = true) -> vs = values).
Proof.
  intros Hb. revert i o. induction values as [|v values IH]; intros i o; cbn [puts_].
  - exists []. by rewrite sapp_nil_r.
  - destruct (IH (S i) (put (cur i) v o)) as (vs & Hvs & -> & Hall).
    assert (level (put (cur i) v o) = level o) as Hl by (unfold put; by destruct (_ && _)). rewrite Hl in Hall.
    unfold put. rewrite Hb, andb_true_r. destruct (level_le (cur i) (level o)) eqn:Hc; cbn [stringstream].
    + exists (v :: vs). split; [by constructor|]. split; [by rewrite concat_cons, sapp_assoc|].
      intros Hj. by rewrite Hall.
    + exists vs. split; [by constructor|]. split; [done|]. intros Hj. by rewrite Hj in Hc.
Qed.

(** A statement of the macros writes one line or nothing, whatever the other
    threads set the level to meanwhile: nothing when the program was built
    without logging or the level is above; else the head of the line, some of
    the values in their order, all of them while the level stays, and the end
    of the line. *)
Theorem log_statement_line cur l file line now values :
  let out := log_statement cur l file line now values in
  let head := stringstream (new_logger (level_prefix l) file line now l) in
  (CROW_ENABLE_LOGGING = false \/ level_le (cur 0) l = false -> out = "")
  /\ (out = "" \/ exists vs, vs `sublist_of` values /\ out = head +:+ (String.concat "" vs +:+ newline))
  /\ (CROW_ENABLE_LOGGING = true -> (forall j, level_le (cur j) l = true) -> out = line_of l file line now values).
Proof.
  cbv zeta. unfold log_statement, line_of. set (o := new_logger _ _ _ _ _).
  pose proof (puts_level cur 1 values o) as [Hl Hi]. destruct (puts_ cur 1 values o) as [i o'] eqn:Hp.
  cbn [fst snd] in Hl, Hi. change (level o) with l in Hl. unfold end_logger. rewrite Hl.
  destruct (level_le (cur 0) l) eqn:H0; [|split; [done|]; split; [by left|]; intros _ Hj; by rewrite Hj in H0].
  destruct CROW_ENABLE_LOGGING eqn:Hb; rewrite ?andb_true_r, ?andb_false_r; [|by split_and!; auto].
  destruct (puts_stream cur 1 values o Hb) as (vs & Hvs & Hs & Hall). rewrite Hp in Hs. cbn [snd] in Hs. rewrite Hs, sapp_assoc.
  split; [by intros [?|?]|]. split.
  - destruct (level_le (cur i) l); [right; by exists vs|by left].
  - intros _ Hj. by rewrite Hj, Hall.
Qed.
End logger.

(** The second a time in the log names. *)
Definition second_of (s : string) : Z :=
  let num (i n : nat) := scan_digits 10 0 (stake n (sdrop i s)) in
  (days_of (num 0%nat 4%nat) (num 5%nat 2%nat) (num 8%nat 2%nat) * 86400 + num 11%nat 2%nat * 3600
   + num 14%nat 2%nat * 60 + num 17%nat 2%nat)%Z.

Lemma second_of_stamp y m d h mi sec :
  (0 <= y < 10000)%Z -> (0 <= m < 100)%Z -> (0 <= d < 100)%Z -> (0 <= h < 100)%Z -> (0 <= mi < 100)%Z -> (0 <= sec < 100)%Z ->
  let s := dec 4 y +:+ ("-" +:+ (dec 2 m +:+ ("-" +:+ (dec 2 d +:+ (" " +:+ (dec 2 h +:+ (":" +:+ (dec 2 mi +:+ (":" +:+ dec 2 sec))))))))) in
  String.length s = 19 /\ second_of s = (days_of y m d * 86400 + h * 3600 + mi * 60 + sec)%Z.
Proof.
  intros Hy Hm Hd Hh Hmi Hsec s. split; [reflexivity|]. unfold second_of. cbn zeta.
  change (stake 4 (sdrop 0 s)) with (dec 4 y). change (stake 2 (sdrop 5 s)) with (dec 2 m).
  change (stake 2 (sdrop 8 s)) with (dec 2 d). change (stake 2 (sdrop 11 s)) with (dec 2 h).
  change (stake 2 (sdrop 14 s)) with (dec 2 mi). change (stake 2 (sdrop 17 s)) with (dec 2 sec).
  by rewrite !dec_value.
Qed.

(** The times in the lines can be read back: until the year 10000 each is
    nineteen characters that name its second. *)
Theorem stamp_second t :
  (0 <= t < 253402300800)%Z -> String.length (stamp t) = 19 /\ second_of (stamp t) = t.
Proof.
  intros Ht. unfold stamp, gmtime_r. pose proof (civil_spec (t / 86400)) as Hc.
  destruct (civil (t / 86400)) as [[y m] d]. destruct Hc as (Hdays & Hm & Hd).
  assert (0 <= t / 86400 < 2932897)%Z as Hb by (Z.to_euclidean_division_equations; lia).
  assert (1969 <= y < 10000)%Z as Hy by (apply (days_of_year y m d); [done..|by rewrite Hdays]).
  assert (in_sint 32 (y - 1900) = true) as -> by (apply in_sint_spec; lia).
  unfold stamp_text, year_text. cbn [tm_year tm_mon tm_mday tm_hour tm_min tm_sec].
  rewrite (proj2 (Z.leb_le y 9999)) by lia.
  assert (0 <= t mod 86400 / 3600 < 24 /\ 0 <= t mod 86400 / 60 mod 60 < 60 /\ 0 <= t mod 86400 mod 60 < 60)%Z as (Hh & Hmi & Hsec)
    by (Z.to_euclidean_division_equations; lia).
  destruct (second_of_stamp y m d (t mod 86400 / 3600) (t mod 86400 / 60 mod 60) (t mod 86400 mod 60)) as [Hlen Hs]; try lia.
  set (s := dec 4 y +:+ _) in *. unfold fits. rewrite Hlen. split; [done|]. change (default "" _) with s. rewrite Hs, Hdays.
  Z.to_euclidean_division_equations. lia.
Qed.

(** ** Examples *)

Example stamp_example : stamp 1477233540 = "2016-10-23 14:39:00".
Proof. vm_compute. reflexivity. Qed.

(** As it is built by default nothing is written for [Debug], and the level
    raised in the middle of a statement cuts its line. *)
Example debug_silent : log_statement (build := true) (level_at []) Debug "a.cpp" 1 0 ["x"] = "".
Proof. vm_compute. reflexivity. Qed.
Example line_lost : log_statement (build := true) (level_at [(2, Critical)]) Info "a.cpp" 1 0 ["x"] = "".
Proof. vm_compute. reflexivity. Qed.

(** A year that is no [int] leaves the zero date, whose day is none. *)
Example stamp_zero : stamp (2 ^ 62) = "1900-01-00 00:00:00".
Proof. vm_compute. reflexivity. Qed.

Example statement_example :
  log_statement (build := true) (fun _ => currentLevel) Warning "src/a.cpp" 12 0 ["x = "; "3"]
  = "(1970-01-01 00:00:00) [WARNING " +:+ quoted "a.cpp" +:+ ":12] x = 3" +:+ newline.
Proof. vm_compute. reflexivity. Qed.

Lemma stamp_second_witness : String.length (stamp 1477233540) = 19 /\ second_of (stamp 1477233540) = 1477233540%Z.
Proof. apply (stamp_second 1477233540). split; [discriminate|reflexivity]. Defined.
