(* ===== verification/SessionStats.v ===== *)
(** * Session counters (include/session_stats.hpp, include/session_values.hpp)

    [sessionStats] and its JSON object; [sessionValues], the two sets of
    libtorrent counters kept for computing rates.  The metric table of
    libtorrent is the class [Metrics].  Fields that C++ leaves
    indeterminate enter as arguments. *)

From S2P Require Import Prelude CStd Json JsonPatch.

Record sessionStats := mk_sessionStats {
  bytesRecv : Z; bytesSent : Z; bytesDataRecv : Z; bytesDataSent : Z;
  rateRecv : Z; rateSent : Z;
  bytesFailed : Z; bytesWasted : Z; bytesQueued : Z;
  numChecking : Z; numDownloading : Z; numSeeding : Z; numStopped : Z;
  numQueued : Z; numError : Z; numPeersConnected : Z; numPeersHalfOpen : Z;
  limitUpQueue : Z; limitDownQueue : Z; queuedTrackerAnnounces : Z;
  hasIncoming : bool; isPaused : bool;
  uptime : Z; uptimeMs : Z;
}.

Definition set_isPaused (b : bool) (s : sessionStats) : sessionStats :=
  {| bytesRecv := bytesRecv s; bytesSent := bytesSent s; bytesDataRecv := bytesDataRecv s;
     bytesDataSent := bytesDataSent s; rateRecv := rateRecv s; rateSent := rateSent s;
     bytesFailed := bytesFailed s; bytesWasted := bytesWasted s; bytesQueued := bytesQueued s;
     numChecking := numChecking s; numDownloading := numDownloading s; numSeeding := numSeeding s;
     numStopped := numStopped s; numQueued := numQueued s; numError := numError s;
     numPeersConnected := numPeersConnected s; numPeersHalfOpen := numPeersHalfOpen s;
     limitUpQueue := limitUpQueue s; limitDownQueue := limitDownQueue s;
     queuedTrackerAnnounces := queuedTrackerAnnounces s; hasIncoming := hasIncoming s;
     isPaused := b; uptime := uptime s; uptimeMs := uptimeMs s |}.

Definition activeCount (s : sessionStats) : Z := numChecking s + numDownloading s + numSeeding s.
Definition puasedCount (s : sessionStats) : Z := numQueued s + numStopped s.

(** A counter that is only written when it is positive. *)
Definition pos_entry (k : string) (z : Z) : entry := ((0 <? z)%Z, k, JInt64 z).

(** The members of [to_json_object] behind [rates], in the order of its
    [emplace] calls, each under its condition. *)
Definition stats_entries (s : sessionStats) : list entry :=
  [pos_entry "bytesRecv" (bytesRecv s);
   pos_entry "bytesSent" (bytesSent s);
   pos_entry "bytesDataRecv" (bytesDataRecv s);
   pos_entry "bytesDataSent" (bytesDataSent s);
   pos_entry "rateRecv" (rateRecv s);
   pos_entry "rateSent" (rateSent s);
   pos_entry "bytesFailed" (bytesFailed s);
   pos_entry "bytesQueued" (bytesQueued s);
   pos_entry "bytesWasted" (bytesWasted s);
   pos_entry "numChecking" (numChecking s);
   pos_entry "numDownloading" (numDownloading s);
   pos_entry "numSeeding" (numSeeding s);
   pos_entry "numStopped" (numStopped s);
   pos_entry "numQueued" (numQueued s);
   pos_entry "numError" (numError s);
   pos_entry "numPeersConnected" (numPeersConnected s);
   pos_entry "numPeersHalfOpen" (numPeersHalfOpen s);
   pos_entry "limitUpQueue" (limitUpQueue s);
   pos_entry "limitDownQueue" (limitDownQueue s);
   (hasIncoming s, "hasIncoming", JBool true);
   (isPaused s, "isPaused", JBool true);
   pos_entry "activeCount" (activeCount s);
   pos_entry "puasedCount" (puasedCount s);
   (true, "taskCount", JInt64 (activeCount s + puasedCount s));
   pos_entry "uptime" (uptime s);
   ((0 <? uptimeMs s)%Z, "uptimeMs", JUint64 (uptimeMs s))].

Definition to_json_object (s : sessionStats) : members :=
  emplace_all (stats_entries s) ["rates" ~> JInt64 (rateRecv s + rateSent s)].

(** ** [sessionValues] *)

(** libtorrent's metric table: [find_metric_idx] (-1 for an unknown name)
    and the number of [session_stats_metrics()]. *)
Class Metrics := {
  find_metric_idx : string -> Z;
  metrics_size : nat;
}.

Record sessionValues := mk_sessionValues {
  m_cnt0 : list Z;        (** the current counters *)
  m_cnt1 : list Z;        (** the previous ones *)
  m_timestamp0 : Z;       (** in microseconds *)
  m_timestamp1 : Z;
}.

(** The constructor sizes the counters and leaves the two timestamps
    indeterminate: [t0] and [t1]. *)
Definition init_sessionValues `{Metrics} (t0 t1 : Z) : sessionValues :=
  {| m_cnt0 := replicate metrics_size 0%Z; m_cnt1 := replicate metrics_size 0%Z;
     m_timestamp0 := t0; m_timestamp1 := t1 |}.

(** The time after which the previous counters are replaced. *)
Definition update_period : Z := 2000000.

Definition updateCounters (v : sessionValues) (sc : list Z) (t : Z) : sessionValues :=
  let '(cnt0, cnt1, ts1) :=
    if (update_period <? uwrap 64 (t - m_timestamp1 v))%Z
    then (m_cnt1 v, m_cnt0 v, m_timestamp0 v)      (* swap *)
    else (m_cnt0 v, m_cnt1 v, m_timestamp1 v) in
  (* [m_cnt[0].assign] discards what the swap put there *)
  {| m_cnt0 := sc; m_cnt1 := cnt1; m_timestamp0 := t; m_timestamp1 := ts1 |}.

(** [float]: IEEE binary32, rounding to nearest even. *)
Definition float_of (z : Z) : spec_float := binary_normalize 24 128 z 0 false.
Definition float_div (x y : spec_float) : spec_float := SFdiv 24 128 x y.

(** Truncation towards zero; [None] for infinities and NaN. *)
Definition float_trunc (x : spec_float) : option Z :=
  match x with
  | S754_zero _ => Some 0%Z
  | S754_finite s m e =>
      let z := if (0 <=? e)%Z then (Z.pos m * 2 ^ e)%Z else (Z.pos m / 2 ^ (- e))%Z in
      Some (if s then (- z)%Z else z)
  | _ => None
  end.

(** [int(x)] of a [float]: undefined ([None]) when no [int] is the value. *)
Definition int_of_float (x : spec_float) : option Z :=
  z ← float_trunc x; if in_sint 32 z then Some z else None.

(** [cnt[idx]]: [None] out of bounds, which C++ leaves undefined. *)
Definition at_idx (cnt : list Z) (idx : Z) : option Z :=
  if (idx <? 0)%Z then None else cnt !! Z.to_nat idx.

(** [size < idx] with the [int] index converted to [std::size_t]. *)
Definition size_lt (size : nat) (idx : Z) : bool := (Z.of_nat size <? uwrap 64 idx)%Z.

(** The constant members: the index of each metric the program names. *)
Record metric_indices := mk_indices {
  m_num_checking_idx : Z; m_num_stopped_idx : Z; m_num_upload_only_idx : Z; m_num_downloading_idx : Z;
  m_num_seeding_idx : Z; m_num_queued_seeding_idx : Z; m_num_queued_download_idx : Z; m_num_error_idx : Z;
  m_queued_bytes_idx : Z; m_wasted_bytes_idx : Z; m_failed_bytes_idx : Z; m_num_peers_connected_idx : Z;
  m_num_peers_half_open_idx : Z; m_has_incoming_idx : Z; m_recv_idx : Z; m_sent_idx : Z; m_recv_data_idx : Z;
  m_send_data_idx : Z; m_unchoked_idx : Z; m_unchoke_slots_idx : Z; m_limiter_up_queue_idx : Z;
  m_limiter_down_queue_idx : Z; m_queued_writes_idx : Z; m_queued_reads_idx : Z; m_writes_cache_idx : Z;
  m_reads_cache_idx : Z; m_pinned_idx : Z; m_num_blocks_read_idx : Z; m_cache_hit_idx : Z;
  m_blocks_in_use_idx : Z; m_blocks_written_idx : Z; m_write_ops_idx : Z; m_mfu_size_idx : Z;
  m_mfu_ghost_idx : Z; m_mru_size_idx : Z; m_mru_ghost_idx : Z; m_utp_idle : Z; m_utp_syn_sent : Z;
  m_utp_connected : Z; m_utp_fin_sent : Z; m_utp_close_wait : Z; m_queued_tracker_announces : Z;
}.

Section values.
Context `{Metrics}.

Definition indices : metric_indices := {|
  m_num_checking_idx := find_metric_idx "ses.num_checking_torrents";
  m_num_stopped_idx := find_metric_idx "ses.num_stopped_torrents";
  m_num_upload_only_idx := find_metric_idx "ses.num_upload_only_torrents";
  m_num_downloading_idx := find_metric_idx "ses.num_downloading_torrents";
  m_num_seeding_idx := find_metric_idx "ses.num_seeding_torrents";
  m_num_queued_seeding_idx := find_metric_idx "ses.num_queued_seeding_torrents";
  m_num_queued_download_idx := find_metric_idx "ses.num_queued_download_torrents";
  m_num_error_idx := find_metric_idx "ses.num_error_torrents";
  m_queued_bytes_idx := find_metric_idx "disk.queued_write_bytes";
  m_wasted_bytes_idx := find_metric_idx "net.recv_redundant_bytes";
  m_failed_bytes_idx := find_metric_idx "net.recv_failed_bytes";
  m_num_peers_connected_idx := find_metric_idx "peer.num_peers_connected";
  m_num_peers_half_open_idx := find_metric_idx "peer.num_peers_half_open";
  m_has_incoming_idx := find_metric_idx "net.has_incoming_connections";
  m_recv_idx := find_metric_idx "net.recv_bytes"; m_sent_idx := find_metric_idx "net.sent_bytes";
  m_recv_data_idx := find_metric_idx "net.recv_payload_bytes";
  m_send_data_idx := find_metric_idx "net.sent_payload_bytes";
  m_unchoked_idx := find_metric_idx "peer.num_peers_up_unchoked";
  m_unchoke_slots_idx := find_metric_idx "ses.num_unchoke_slots";
  m_limiter_up_queue_idx := find_metric_idx "net.limiter_up_queue";
  m_limiter_down_queue_idx := find_metric_idx "net.limiter_down_queue";
  m_queued_writes_idx := find_metric_idx "disk.num_write_jobs";
  m_queued_reads_idx := find_metric_idx "disk.num_read_jobs";
  m_writes_cache_idx := find_metric_idx "disk.write_cache_blocks";
  m_reads_cache_idx := find_metric_idx "disk.read_cache_blocks";
  m_pinned_idx := find_metric_idx "disk.pinned_blocks";
  m_num_blocks_read_idx := find_metric_idx "disk.num_blocks_read";
  m_cache_hit_idx := find_metric_idx "disk.num_blocks_cache_hits";
  m_blocks_in_use_idx := find_metric_idx "disk.disk_blocks_in_use";
  m_blocks_written_idx := find_metric_idx "disk.num_blocks_written";
  m_write_ops_idx := find_metric_idx "disk.num_write_ops";
  m_mfu_size_idx := find_metric_idx "disk.arc_mfu_size";
  m_mfu_ghost_idx := find_metric_idx "disk.arc_mfu_ghost_size";
  m_mru_size_idx := find_metric_idx "disk.arc_mru_size";
  m_mru_ghost_idx := find_metric_idx "disk.arc_mru_ghost_size";
  m_utp_idle := find_metric_idx "utp.num_utp_idle"; m_utp_syn_sent := find_metric_idx "utp.num_utp_syn_sent";
  m_utp_connected := find_metric_idx "utp.num_utp_connected";
  m_utp_fin_sent := find_metric_idx "utp.num_utp_fin_sent";
  m_utp_close_wait := find_metric_idx "utp.num_utp_close_wait";
  m_queued_tracker_announces := find_metric_idx "tracker.num_queued_tracker_announces";
|}.

(** The rate of one counter over the time between the two sets. *)
Definition rate (v : sessionValues) (idx : Z) : option Z :=
  let seconds := float_div (float_of (uwrap 64 (m_timestamp0 v - m_timestamp1 v))) (float_of 1000000) in
  c0 ← at_idx (m_cnt0 v) idx;
  c1 ← at_idx (m_cnt1 v) idx;
  int_of_float (float_div (float_of (c0 - c1)) seconds).

Definition int_at (cnt : list Z) (idx : Z) : option Z := swrap 32 <$> at_idx cnt idx.

Definition int64_at (cnt : list Z) (idx : Z) : option Z := (fun z => swrap 64 (uwrap 64 z)) <$> at_idx cnt idx.

(** [getSessionStats]; [s] is the default-initialized [sessionStats], whose
    members are indeterminate, [up] and [upMs] the clocks. *)
Definition getSessionStats (v : sessionValues) (up upMs : Z) (s : sessionStats)
  : option sessionStats :=
  let cnt := m_cnt0 v in
  if size_lt (length cnt) (m_queued_tracker_announces indices) then Some s
  else
    checking ← int_at cnt (m_num_checking_idx indices);
    downloading ← int_at cnt (m_num_downloading_idx indices);
    seeding ← int_at cnt (m_num_seeding_idx indices);
    stopped ← int_at cnt (m_num_stopped_idx indices);
    qs ← at_idx cnt (m_num_queued_seeding_idx indices);
    qd ← at_idx cnt (m_num_queued_download_idx indices);
    error ← int_at cnt (m_num_error_idx indices);
    recv ← int64_at cnt (m_recv_idx indices);
    sent ← int64_at cnt (m_sent_idx indices);
    dataRecv ← int64_at cnt (m_recv_data_idx indices);
    dataSent ← int64_at cnt (m_send_data_idx indices);
    rates ← (if negb (size_lt (length (m_cnt1 v)) (m_send_data_idx indices))
             then d ← rate v (m_recv_idx indices);
                  u ← rate v (m_sent_idx indices);
                  Some (d, u)
             else Some (rateRecv s, rateSent s));
    failed ← int64_at cnt (m_failed_bytes_idx indices);
    queuedBytes ← int64_at cnt (m_queued_bytes_idx indices);
    wasted ← int64_at cnt (m_wasted_bytes_idx indices);
    connected ← int_at cnt (m_num_peers_connected_idx indices);
    halfOpen ← int_at cnt (m_num_peers_half_open_idx indices);
    upQueue ← int_at cnt (m_limiter_up_queue_idx indices);
    downQueue ← int_at cnt (m_limiter_down_queue_idx indices);
    announces ← int_at cnt (m_queued_tracker_announces indices);
    incoming ← int_at cnt (m_has_incoming_idx indices);
    Some {| bytesRecv := recv; bytesSent := sent; bytesDataRecv := dataRecv; bytesDataSent := dataSent;
            rateRecv := rates.1; rateSent := rates.2;
            bytesFailed := failed; bytesWasted := wasted; bytesQueued := queuedBytes;
            numChecking := checking; numDownloading := downloading; numSeeding := seeding;
            numStopped := stopped; numQueued := swrap 32 (qs + qd); numError := error;
            numPeersConnected := connected; numPeersHalfOpen := halfOpen;
            limitUpQueue := upQueue; limitDownQueue := downQueue;
            queuedTrackerAnnounces := announces;
            hasIncoming := negb (incoming =? 0)%Z;
            isPaused := isPaused s;
            uptime := up; uptimeMs := uwrap 64 upMs |}.
End values.

(** A session of 40 metrics in the order of the source. *)
Definition demo_metrics : Metrics := {|
  find_metric_idx name :=
    if bool_decide (name = "net.recv_bytes") then 14
    else if bool_decide (name = "net.sent_bytes") then 15
    else if bool_decide (name = "net.sent_payload_bytes") then 17
    else if bool_decide (name = "tracker.num_queued_tracker_announces") then 39
    else 3;
  metrics_size := 40;
|}%Z.

Definition garbage : sessionStats :=
  mk_sessionStats 7 7 7 7 7 7 7 7 7 7 7 7 7 7 7 7 7 7 7 7 true true 7 7.

Definition demo_values : sessionValues :=
  {| m_cnt0 := <[14%nat := 3000%Z]> (replicate 40 5%Z); m_cnt1 := replicate 40 5%Z;
     m_timestamp0 := 4500000; m_timestamp1 := 3000000 |}.

(** 2995 bytes in 1.5 seconds. *)
Example rate_demo : rate demo_values 14 = Some 1996%Z.
Proof. vm_compute. reflexivity. Qed.

(** ** The JSON object *)

Lemma stats_keys_distinct s :
  NoDup (keys ["rates" ~> JInt64 (rateRecv s + rateSent s)] ++ names (stats_entries s)).
Proof. cbn. apply (bool_decide_unpack _). vm_compute. done. Qed.

Lemma to_json_object_wf s :
  json_wf (JObject (to_json_object s)) = true /\ plain (JObject (to_json_object s)) = true.
Proof.
  split.
  - apply wf_emplace_all; [apply stats_keys_distinct|by repeat constructor..].
  - apply plain_emplace_all; [apply stats_keys_distinct|by repeat constructor..].
Qed.

(** The object holds [rates], and every other member exactly when its
    condition holds, with the value of its own field: no key is emplaced
    twice, so no [emplace] is lost. *)
Theorem to_json_object_members s k v :
  obj_find k (to_json_object s) = Some v <->
  (k, v) = ("rates", JInt64 (rateRecv s + rateSent s)) \/ (true, k, v) ∈ stats_entries s.
Proof.
  unfold to_json_object. rewrite find_emplace_all by apply stats_keys_distinct.
  by rewrite list_elem_of_singleton.
Qed.

(** ** The two sets of counters *)

Notation sample := (Z * list Z)%type.

Definition run_updates (v : sessionValues) (l : list sample) : sessionValues :=
  foldl (fun v s => updateCounters v s.2 s.1) v l.

(** Samples later than [t0], each at most [g] after the one before it. *)
Fixpoint increasing (g t0 : Z) (l : list sample) : Prop :=
  match l with
  | [] => True
  | s :: l' => (t0 < s.1 <= t0 + g)%Z /\ (s.1 < 2 ^ 64)%Z /\ increasing g s.1 l'
  end.

Definition window (v : sessionValues) : Z := (m_timestamp0 v - m_timestamp1 v)%Z.

Lemma update_window v sc t g :
  (0 <= m_timestamp1 v <= m_timestamp0 v)%Z -> (m_timestamp0 v < t <= m_timestamp0 v + g)%Z ->
  (t < 2 ^ 64)%Z ->
  let v' := updateCounters v sc t in
  m_timestamp0 v' = t /\ (0 <= m_timestamp1 v' <= t)%Z
  /\ (0 < window v' <= Z.max update_period g)%Z.
Proof.
  intros Hs Ht H64. unfold updateCounters, window.
  rewrite uwrap_small by lia.
  destruct (update_period <? t - m_timestamp1 v)%Z eqn:Hu; bool_simp; simpl; lia.
Qed.

Lemma run_updates_window v l g :
  (0 <= m_timestamp1 v <= m_timestamp0 v)%Z -> increasing g (m_timestamp0 v) l ->
  let v' := run_updates v l in
  (0 <= m_timestamp1 v' <= m_timestamp0 v')%Z
  /\ (l <> [] -> 0 < window v' <= Z.max update_period g)%Z.
Proof.
  revert v. induction l as [|[t sc] l IH]; intros v Hs Hi; [done|].
  destruct Hi as (Ht & H64 & Hi). simpl in *.
  destruct (update_window v sc t g) as (Ht0 & Hs' & Hw); [done..|].
  set (v' := updateCounters v sc t) in *. rewrite <- Ht0 in Hi.
  destruct (IH v') as [Hs'' Hw'']; [lia|done|]. split; [done|]. intros _.
  destruct l as [|s l]; [done|]. by apply Hw''.
Qed.

Lemma run_updates_current v l t sc :
  let v' := run_updates v (l ++ [(t, sc)]) in m_timestamp0 v' = t /\ m_cnt0 v' = sc.
Proof. unfold run_updates. rewrite foldl_app. simpl. unfold updateCounters. by destruct (_ <? _)%Z. Qed.

(** The older set is always one that was stored before. *)
Lemma run_updates_previous v l :
  let v' := run_updates v l in
  (m_timestamp1 v', m_cnt1 v') ∈ (m_timestamp1 v, m_cnt1 v) :: (m_timestamp0 v, m_cnt0 v) :: l.
Proof.
  revert v. induction l as [|[t sc] l IH]; intros v; simpl; [set_solver|].
  specialize (IH (updateCounters v sc t)). simpl in IH.
  assert ((m_timestamp1 (updateCounters v sc t), m_cnt1 (updateCounters v sc t))
            ∈ [(m_timestamp1 v, m_cnt1 v); (m_timestamp0 v, m_cnt0 v)]
          /\ (m_timestamp0 (updateCounters v sc t), m_cnt0 (updateCounters v sc t)) = (t, sc))
    as [Hp Hc]
    by (unfold updateCounters; destruct (_ <? _)%Z; simpl; split; try done;
        rewrite !elem_of_cons; auto).
  rewrite Hc in IH. rewrite !elem_of_cons in *.
  destruct IH as [IH|[IH|IH]]; [rewrite IH; destruct Hp as [->|[->|Hp]]|..]; auto.
  by apply elem_of_nil in Hp.
Qed.

(** C33: whatever the constructor left in the two timestamps, from the second
    sample on they are ordered, and from the third on the rates are taken
    over a positive time of at most two seconds or one polling gap, between
    the latest sample and one stored before it. *)
Theorem counters_window v t1 c1 t2 c2 l t c g :
  (0 <= m_timestamp1 v < 2 ^ 64)%Z -> (0 <= m_timestamp0 v < 2 ^ 64)%Z ->
  (update_period <= t1)%Z ->
  increasing g t1 ((t2, c2) :: l ++ [(t, c)]) ->
  let v' := run_updates v ((t1, c1) :: (t2, c2) :: l ++ [(t, c)]) in
  (m_timestamp0 v' = t /\ m_cnt0 v' = c)
  /\ (0 < window v' <= Z.max update_period g)%Z
  /\ (m_timestamp1 v', m_cnt1 v')
     ∈ (m_timestamp1 v, m_cnt1 v) :: (m_timestamp0 v, m_cnt0 v)
       :: (t1, c1) :: (t2, c2) :: l ++ [(t, c)].
Proof.
  intros H1 H0 Hp Hi. cbv zeta. split; [|split].
  - apply (run_updates_current v ((t1, c1) :: (t2, c2) :: l)).
  - destruct Hi as (Ht2 & H64 & Hi). simpl in *. unfold update_period in *.
    set (v2 := updateCounters (updateCounters v c1 t1) c2 t2).
    assert (m_timestamp0 v2 = t2 /\ (0 <= m_timestamp1 v2 <= t2)%Z) as [Ht Hs].
    { unfold v2, updateCounters, update_period, uwrap. repeat case_match; simplify_eq/=; bool_simp;
        split; try done; Z.to_euclidean_division_equations; lia. }
    rewrite <- Ht in Hi, Hs.
    apply (run_updates_window v2 (l ++ [(t, c)]) g) in Hi as [_ Hw]; [|done].
    apply Hw. by destruct l.
  - apply run_updates_previous.
Qed.

Definition demo_samples : list sample := [(5200000, [1]); (5700000, [9])]%Z.

Lemma counters_window_witness :
  let v' := run_updates (mk_sessionValues [] [] 99 12345678901234)
              ((4200000, [3]) :: (4700000, [4]) :: [] ++ [(5200000, [1])])%Z in
  (m_timestamp0 v' = 5200000 /\ m_cnt0 v' = [1])%Z
  /\ (0 < window v' <= Z.max update_period 500000)%Z
  /\ (m_timestamp1 v', m_cnt1 v')
     ∈ ((12345678901234, []) :: (99, []) :: (4200000, [3]) :: (4700000, [4]) :: [] ++ [(5200000, [1])])%Z.
Proof.
  apply (counters_window (mk_sessionValues [] [] 99 12345678901234)
           4200000 [3%Z] 4700000 [4%Z] [] 5200000 [1%Z] 500000);
    vm_compute; repeat split; discriminate.
Defined.

(** ** What [getSessionStats] determines *)

(** Case analysis on the next read of a counter. *)
Ltac read_of o :=
  lazymatch o with
  | mbind _ ?o' => read_of o'
  | _ => destruct o
  end.
Ltac next_read :=
  lazymatch goal with
  | |- context [mbind _ ?o] => read_of o; cbn [mbind option_bind]
  end.

(** The definition, with the indices by their names. *)
Ltac unfold_stats :=
  unfold getSessionStats;
  cbn [indices m_failed_bytes_idx m_has_incoming_idx m_limiter_down_queue_idx m_limiter_up_queue_idx
        m_num_checking_idx m_num_downloading_idx m_num_error_idx m_num_peers_connected_idx
        m_num_peers_half_open_idx m_num_queued_download_idx m_num_queued_seeding_idx m_num_seeding_idx
        m_num_stopped_idx m_queued_bytes_idx m_queued_tracker_announces m_recv_data_idx m_recv_idx
        m_send_data_idx m_sent_idx m_wasted_bytes_idx].

Section determined.
Context `{Metrics}.

Notation announces_idx := (find_metric_idx "tracker.num_queued_tracker_announces").

(** Behind the two size tests, every member but one is computed from the
    counters and the clocks; [isPaused] alone is never assigned and keeps the
    indeterminate value it was created with.  The stats sent to the sync
    clients are serialized from this object as it is. *)
Theorem getSessionStats_isPaused_unset v up ms s s' :
  size_lt (length (m_cnt0 v)) announces_idx = false ->
  size_lt (length (m_cnt1 v)) (find_metric_idx "net.sent_payload_bytes") = false ->
  getSessionStats v up ms s' = set_isPaused (isPaused s') <$> getSessionStats v up ms s
  /\ (forall r, getSessionStats v up ms s = Some r -> isPaused r = isPaused s).
Proof.
  intros H0 H1. unfold_stats. rewrite H0, H1. cbn [negb].
  repeat (next_read; [|done]).
  split; [done|]. intros r Hr. by simplify_eq/=.
Qed.

Lemma size_lt_false size idx :
  (0 <= idx <= Z.of_nat size)%Z -> (Z.of_nat size < 2 ^ 64)%Z -> size_lt size idx = false.
Proof. intros Hi Hs. unfold size_lt. rewrite uwrap_small by lia. apply Z.ltb_ge. lia. Qed.

Lemma at_idx_in cnt idx : (0 <= idx < Z.of_nat (length cnt))%Z -> is_Some (at_idx cnt idx).
Proof.
  intros Hi. unfold at_idx. case_match; bool_simp; [lia|]. apply lookup_lt_is_Some_2. lia.
Qed.

Lemma at_idx_end cnt : at_idx cnt (Z.of_nat (length cnt)) = None.
Proof. unfold at_idx. case_match; bool_simp; [lia|]. apply lookup_ge_None_2. lia. Qed.

(** The guard of [getSessionStats] lets through the one size it must
    stop: with exactly as many counters as the index it tests, the last read
    is out of bounds; a metric libtorrent does not know (-1) makes every
    size too small, and the untouched object is returned. *)
Theorem getSessionStats_guard v up ms s :
  (Z.of_nat (length (m_cnt0 v)) < 2 ^ 64)%Z ->
  (announces_idx = Z.of_nat (length (m_cnt0 v)) -> getSessionStats v up ms s = None)
  /\ (announces_idx = (-1)%Z -> Z.of_nat (length (m_cnt0 v)) <> (2 ^ 64 - 1)%Z ->
      getSessionStats v up ms s = Some s).
Proof.
  intros Hlen. unfold_stats. split.
  - intros Hidx. rewrite size_lt_false by lia. unfold int_at. rewrite Hidx, at_idx_end.
    cbn [fmap option_fmap option_map].
    by repeat (next_read; [|done]).
  - intros -> Hne. unfold size_lt. change (uwrap 64 (-1)) with (2 ^ 64 - 1)%Z.
    case_match; bool_simp; [done|lia].
Qed.

(** When every metric has its counter, the two rates are the only reads
    that can be undefined. *)
Theorem getSessionStats_defined v up ms s :
  (Z.of_nat (length (m_cnt0 v)) < 2 ^ 64)%Z -> length (m_cnt1 v) = length (m_cnt0 v) ->
  (forall name, 0 <= find_metric_idx name < Z.of_nat (length (m_cnt0 v)))%Z ->
  is_Some (getSessionStats v up ms s) <->
  is_Some (rate v (find_metric_idx "net.recv_bytes"))
  /\ is_Some (rate v (find_metric_idx "net.sent_bytes")).
Proof.
  intros Hlen Heq Hall. unfold_stats.
  rewrite !size_lt_false
    by (rewrite ?Heq; pose proof (Hall "tracker.num_queued_tracker_announces");
        pose proof (Hall "net.sent_payload_bytes"); lia).
  cbn [negb]. unfold int_at, int64_at.
  repeat match goal with
    | |- context [at_idx (m_cnt0 v) (find_metric_idx ?n)] =>
        destruct (at_idx_in (m_cnt0 v) (find_metric_idx n) (Hall n)) as [? ->];
        cbn [mbind option_bind fmap option_fmap option_map]
    end.
  destruct (rate v (find_metric_idx "net.recv_bytes")); cbn; [|split; [by intros [? ?]|by intros [[? ?] _]]].
  destruct (rate v (find_metric_idx "net.sent_bytes")); cbn; [|split; [by intros [? ?]|by intros [_ [? ?]]]].
  split; eauto.
Qed.
End determined.

Lemma getSessionStats_isPaused_unset_witness :
  @getSessionStats demo_metrics demo_values 3 3500 garbage
  = set_isPaused true <$> @getSessionStats demo_metrics demo_values 3 3500 (set_isPaused false garbage)
  /\ (forall r, @getSessionStats demo_metrics demo_values 3 3500 (set_isPaused false garbage) = Some r ->
                isPaused r = false).
Proof.
  apply (@getSessionStats_isPaused_unset demo_metrics demo_values 3 3500 (set_isPaused false garbage) garbage);
    reflexivity.
Defined.

Definition short_values : sessionValues :=
  {| m_cnt0 := replicate 39 5%Z; m_cnt1 := replicate 39 5%Z; m_timestamp0 := 1; m_timestamp1 := 0 |}.

Lemma getSessionStats_guard_witness :
  (@find_metric_idx demo_metrics "tracker.num_queued_tracker_announces" = 39%Z ->
   @getSessionStats demo_metrics short_values 3 3500 garbage = None)
  /\ (@find_metric_idx demo_metrics "tracker.num_queued_tracker_announces" = (-1)%Z ->
      39%Z <> (2 ^ 64 - 1)%Z ->
      @getSessionStats demo_metrics short_values 3 3500 garbage = Some garbage).
Proof. apply (@getSessionStats_guard demo_metrics short_values 3 3500 garbage); reflexivity. Defined.

Lemma getSessionStats_defined_witness :
  is_Some (@getSessionStats demo_metrics demo_values 3 3500 garbage) <->
  is_Some (rate demo_values 14) /\ is_Some (rate demo_values 15).
Proof.
  apply (@getSessionStats_defined demo_metrics demo_values 3 3500 garbage); [reflexivity..|].
  intros name. unfold find_metric_idx. cbn [demo_metrics].
  change (Z.of_nat (length (m_cnt0 demo_values))) with 40%Z.
  by repeat case_bool_decide.
Defined.
