(* ===== verification/TorrentStatus.v ===== *)
(** * Torrent status objects (src/sheath.cpp, [torrent_status_to_json_obj])

    The fields of [lt::torrent_status] the program reads, and the JSON object
    it makes of them.  Times are numbers of seconds since the epoch,
    [next_announce], [last_download] and [last_upload] numbers of
    nanoseconds; [progress] is the [float] widened to [double]. *)

From S2P Require Import Prelude CStd Json JsonPatch Fs Util.

(** [lt::torrent_handle]: what the program uses of it is its identity. *)
Class Handles := {
  torrent_handle : Type;
  #[global] handle_eq_dec :: EqDecision torrent_handle;
  #[global] handle_countable :: Countable torrent_handle;
}.

Section status.
Context `{Sha1, Handles}.

Record torrent_status := mk_torrent_status {
  st_handle : torrent_handle;
  st_info_hash : sha1_hash;
  added_time : Z; completed_time : Z;
  state : Z; flags : Z;
  save_path : string; name : string; current_tracker : string;
  next_announce : Z; active_duration : Z; finished_duration : Z; seeding_duration : Z;
  is_finished : bool; progress : spec_float; progress_ppm : Z;
  total_done : Z; total_wanted : Z; total_wanted_done : Z; total : Z;
  total_download : Z; total_upload : Z; all_time_download : Z; all_time_upload : Z;
  total_payload_download : Z; total_payload_upload : Z;
  total_failed_bytes : Z; total_redundant_bytes : Z;
  last_seen_complete : Z; last_download : Z; last_upload : Z;
  download_rate : Z; upload_rate : Z; download_payload_rate : Z; upload_payload_rate : Z;
  num_seeds : Z; num_peers : Z; num_complete : Z; num_incomplete : Z;
  list_seeds : Z; list_peers : Z; connect_candidates : Z; num_pieces : Z;
  distributed_full_copies : Z; distributed_fraction : Z;
  block_size : Z; num_uploads : Z; num_connections : Z;
  moving_storage : bool; is_seeding : bool; has_metadata : bool; has_incoming : bool;
  need_save_resume : bool;
  errc : Z;
}.

(** [duration_cast<seconds>] of nanoseconds: truncation towards zero. *)
Definition seconds_of_ns (ns : Z) : Z := Z.quot ns 1000000000.

(** [high_resolution_clock::time_point::min()]. *)
Definition hr_min : Z := (- 2 ^ 63)%Z.

Definition pos_int (k : string) (z : Z) : entry := ((0 <? z)%Z, k, JInt64 z).
Definition nonzero_int (k : string) (z : Z) : entry := (negb (z =? 0)%Z, k, JInt64 z).
Definition flag (k : string) (b : bool) : entry := (b, k, JBool b).
Definition since_min (k : string) (ns : Z) : entry := ((hr_min <? ns)%Z, k, JInt64 (seconds_of_ns ns)).

(** The members of the initializer list. *)
Definition status_base (st : torrent_status) : members :=
  ["added_time" ~> JInt64 (added_time st);
   "state" ~> JInt64 (swrap 32 (state st));
   "flags" ~> JInt64 (swrap 32 (flags st));
   "save_path" ~> JString (save_path st);
   "name" ~> JString (name st);
   "info_hash" ~> JString (to_hex (st_info_hash st));
   "current_tracker" ~> JString (current_tracker st);
   "next_announce" ~> JInt64 (seconds_of_ns (next_announce st));
   "active_duration" ~> JInt64 (active_duration st);
   "is_finished" ~> JBool (is_finished st);
   "progress" ~> JDouble (progress st);
   "progress_ppm" ~> JInt64 (progress_ppm st);
   "rates" ~> JInt64 (download_payload_rate st + upload_payload_rate st);
   "total_done" ~> JInt64 (total_done st);
   "total_wanted" ~> JInt64 (total_wanted st)].

(** The conditional members, in the order of the [emplace] calls. *)
Definition status_entries (st : torrent_status) : list entry :=
  [pos_int "completed_time" (completed_time st);
   nonzero_int "finished_duration" (finished_duration st);
   nonzero_int "seeding_duration" (seeding_duration st);
   pos_int "total_download" (total_download st);
   pos_int "total_upload" (total_upload st);
   pos_int "all_time_download" (all_time_download st);
   pos_int "all_time_upload" (all_time_upload st);
   pos_int "total_payload_download" (total_payload_download st);
   pos_int "total_payload_upload" (total_payload_upload st);
   pos_int "total_failed_bytes" (total_failed_bytes st);
   pos_int "total_redundant_bytes" (total_redundant_bytes st);
   pos_int "total" (total st);
   pos_int "total_wanted_done" (total_wanted_done st);
   pos_int "last_seen_complete" (last_seen_complete st);
   since_min "last_download" (last_download st);
   since_min "last_upload" (last_upload st);
   pos_int "download_rate" (download_rate st);
   pos_int "upload_rate" (upload_rate st);
   pos_int "download_payload_rate" (download_payload_rate st);
   pos_int "upload_payload_rate" (upload_payload_rate st);
   pos_int "num_seeds" (num_seeds st);
   pos_int "num_peers" (num_peers st);
   pos_int "num_complete" (num_complete st);
   pos_int "num_incomplete" (num_incomplete st);
   pos_int "list_seeds" (list_seeds st);
   pos_int "list_peers" (list_peers st);
   pos_int "connect_candidates" (connect_candidates st);
   pos_int "num_pieces" (num_pieces st);
   pos_int "distributed_full_copies" (distributed_full_copies st);
   pos_int "distributed_fraction" (distributed_fraction st);
   pos_int "block_size" (block_size st);
   pos_int "num_uploads" (num_uploads st);
   pos_int "num_connections" (num_connections st);
   flag "moving_storage" (moving_storage st);
   flag "is_seeding" (is_seeding st);
   flag "has_metadata" (has_metadata st);
   flag "has_incoming" (has_incoming st);
   nonzero_int "errc" (errc st)].

Definition torrent_status_to_json_obj (st : torrent_status) : members :=
  emplace_all (status_entries st) (status_base st).

(** ** The object *)

Lemma status_keys_distinct st : NoDup (keys (status_base st) ++ names (status_entries st)).
Proof. cbn. apply (bool_decide_unpack _). vm_compute. done. Qed.

Lemma status_object_wf st :
  not_nan (progress st) = true ->
  json_wf (JObject (torrent_status_to_json_obj st)) = true
  /\ plain (JObject (torrent_status_to_json_obj st)) = true.
Proof.
  intros Hp. split.
  - apply wf_emplace_all; [apply status_keys_distinct|by repeat constructor..].
  - apply plain_emplace_all; [apply status_keys_distinct|by repeat constructor..].
Qed.

(** The object holds the fifteen members of the initializer list, and each
    conditional member exactly when its condition holds, with the value of
    its own field. *)
Theorem status_object_members st k v :
  obj_find k (torrent_status_to_json_obj st) = Some v <->
  (k, v) ∈ status_base st \/ (true, k, v) ∈ status_entries st.
Proof. apply find_emplace_all, status_keys_distinct. Qed.

Context `{!Sha1Laws}.

(** The object names its torrent: the hash is read back from it. *)
Lemma status_object_hash st :
  (j ← obj_find "info_hash" (torrent_status_to_json_obj st); h ← jstring j; from_hex h)
  = Some (st_info_hash st).
Proof.
  assert (obj_find "info_hash" (torrent_status_to_json_obj st)
          = Some (JString (to_hex (st_info_hash st)))) as ->.
  { apply find_emplace_all; [apply status_keys_distinct|]. left. by apply (list_elem_of_lookup_2 _ 5). }
  apply from_hex_to_hex.
Qed.
End status.
