(* ===== verification/Libtorrent.v ===== *)
(** * The libtorrent interface

    What [sheath] uses of libtorrent: the parameters of a torrent, the
    requests it makes of the session, the queries it reads, the alerts it
    receives.  libtorrent is not part of the repository: the parsers and the
    session are class members, with their documented behaviour as laws where
    a theorem needs it. *)

From S2P Require Import Prelude CStd Json JsonPatch Fs Util TorrentStatus.

Class LtData `{Sha1} := {
  torrent_info : Type;
  ti_info_hash : torrent_info -> sha1_hash;
  (** the members of [add_torrent_params] the program never looks at *)
  atp_rest : Type;
  address : Type;
  (** [boost::asio::ip::make_address], [None] on error *)
  make_address : string -> option address;
  dht_lookup : Type;
  dht_routing_bucket : Type;
}.

Inductive storage_mode := storage_mode_sparse | storage_mode_allocate.

Section params.
Context `{LtData}.

(** [lt::add_torrent_params]; of its flags, [duplicate_is_error]. *)
Record add_torrent_params := mk_atp {
  p_name : string;
  p_info_hash : sha1_hash;
  p_save_path : string;
  p_max_connections : Z;
  p_max_uploads : Z;
  p_storage_mode : storage_mode;
  p_ti : option torrent_info;
  p_duplicate_is_error : bool;
  p_rest : atp_rest;
}.

(** A TCP endpoint: address and port. *)
Record endpoint := mk_endpoint { ep_address : address; ep_port : Z }.
End params.

(** The parsers and writers of libtorrent, by the bytes they read. *)
Class LtParsers `{LtData} := {
  default_atp : add_torrent_params;
  parse_torrent : string -> option torrent_info;
  parse_magnet_uri : string -> option add_torrent_params;
  (** the parameters, and whether the error code was set *)
  read_resume_data : string -> add_torrent_params * bool;
  write_resume_data_buf : add_torrent_params -> string;
}.

(** Written resume data is read back without error. *)
Class LtParsersLaws `{LtParsers} : Prop :=
  read_write_resume p : read_resume_data (write_resume_data_buf p) = (p, false).

Section requests.
Context `{LtData, Handles}.

(** Requests: calls that return at once and take effect in the session. *)
Inductive lt_call :=
  | async_add_torrent (p : add_torrent_params)
  | save_resume_data (h : torrent_handle) (only_if_modified : bool)
  | connect_peer (h : torrent_handle) (ep : endpoint)
  | set_max_connections (h : torrent_handle) (n : Z)
  | move_storage (h : torrent_handle) (dir : string)
  | remove_torrent (h : torrent_handle) (delete_files : bool)
  | set_flags (h : torrent_handle) (flags mask : Z)
  | unset_flags (h : torrent_handle) (flags : Z)
  | pause_torrent (h : torrent_handle)
  | resume_torrent_call (h : torrent_handle)
  | pause_session
  | resume_session
  | post_torrent_updates
  | post_session_stats
  | post_dht_stats.

(** The alerts [handle_alert] tells apart, with the fields it reads. *)
Inductive alert :=
  | session_stats_alert (counters : list Z) (timestamp_ns : Z)
  | dht_stats_alert (active_requests : list dht_lookup)
      (routing_table : list dht_routing_bucket)
  | peer_connect_alert
  | incoming_connection_alert
  | peer_disconnected_alert (op_connect timed_out_no_handshake : bool)
  | metadata_received_alert (h : torrent_handle)
  | add_torrent_alert (h : torrent_handle) (error : bool)
  | torrent_finished_alert (h : torrent_handle)
  | save_resume_data_alert (params : add_torrent_params)
  | save_resume_data_failed_alert (not_modified : bool)
  | torrent_paused_alert (h : torrent_handle)
  | state_update_alert (st : list torrent_status)
  | torrent_removed_alert (h : torrent_handle)
  | other_alert.
End requests.

(** [lt::peer_info]; the address is the text [to_string] gives. *)
Record peer_info := mk_peer_info {
  pi_client : string; pi_ip : string; pi_port : Z; pi_flags : Z; pi_source : Z;
  pi_progress_ppm : Z; pi_down_speed : Z; pi_up_speed : Z; pi_num_pieces : Z;
}.

(** [lt::open_file_state] and a file of the torrent's [file_storage]. *)
Record open_file_state := mk_open_file { of_index : Z; of_mode : Z }.
Record file_info := mk_file_info { file_name : string; file_size : Z }.

(** The session: what it answers, and what a request makes of it. *)
Class Session `{LtData, Handles} := {
  session : Type;
  ses_call : lt_call -> session -> session;
  ses_is_paused : session -> bool;
  ses_find_torrent : session -> sha1_hash -> option torrent_handle;
  th_status : session -> torrent_handle -> torrent_status;
  th_flags : session -> torrent_handle -> Z;
  th_is_valid : session -> torrent_handle -> bool;
  th_peers : session -> torrent_handle -> list peer_info;
  (** the files of the torrent, and the three vectors read about them *)
  th_files : session -> torrent_handle -> list file_info;
  th_file_progress : session -> torrent_handle -> list Z;
  th_file_status : session -> torrent_handle -> list open_file_state;
  th_file_prio : session -> torrent_handle -> list Z;
  (** all torrents, and what [save_state] serializes *)
  ses_torrents : session -> list torrent_status;
  ses_state : session -> string;
  (** the bits of [torrent_flags] *)
  flag_paused : Z;
  flag_auto_managed : Z;
  (** the bit of [peer_info::flags], and the bits of [file_open_mode] *)
  flag_utp_socket : Z;
  mode_rw_mask : Z;
  mode_read_write : Z;
  mode_read_only : Z;
  mode_write_only : Z;
  mode_random_access : Z;
  mode_sparse : Z;
  (** two settings, and the version of the library *)
  ses_peer_fingerprint : session -> string;
  ses_listen_interfaces : session -> string;
  lt_version : string;
}.

(** [torrent_flags] are sets of bits: two different single bits. *)
Definition single_bit (f : Z) : Prop := exists n, (0 <= n)%Z /\ f = Z.shiftl 1 n.

(** The documented effect of the requests the theorems rely on. *)
Class SessionLaws `{Session} : Prop := {
  paused_bit : single_bit flag_paused;
  auto_managed_bit : single_bit flag_auto_managed;
  flags_distinct : flag_paused <> flag_auto_managed;
  valid_kept s h c :
    (forall d, c <> remove_torrent h d) -> th_is_valid (ses_call c s) h = th_is_valid s h;
  is_paused_pause s : ses_is_paused (ses_call pause_session s) = true;
  is_paused_resume s : ses_is_paused (ses_call resume_session s) = false;
  flags_set s h f m :
    th_flags (ses_call (set_flags h f m) s) h
    = Z.lor (Z.land f m) (Z.land (th_flags s h) (Z.lnot m));
  flags_unset s h f :
    th_flags (ses_call (unset_flags h f) s) h = Z.land (th_flags s h) (Z.lnot f);
  flags_pause s h : th_flags (ses_call (pause_torrent h) s) h = Z.lor (th_flags s h) flag_paused;
  flags_resume s h :
    th_flags (ses_call (resume_torrent_call h) s) h = Z.land (th_flags s h) (Z.lnot flag_paused);
}.
