(* ===== verification/Demo.v ===== *)
(** * A concrete libtorrent

    A small session that satisfies the laws of [Libtorrent]: torrents are
    handles with flags, resume data is the encoded parameters.  The examples
    of the development run on it; no theorem depends on it. *)

From S2P Require Import Prelude CStd Json JsonPatch Fs Util SessionStats TorrentStatus Libtorrent.

#[local] Existing Instance sha1_demo.

Definition handles_demo : Handles := {| torrent_handle := nat |}.
#[local] Existing Instance handles_demo.
Definition demo_handle : torrent_handle := 7.

Definition lt_demo : LtData := {|
  torrent_info := sha1_hash;
  ti_info_hash := id;
  atp_rest := unit;
  address := string;
  make_address s := if bool_decide (s = "") then None else Some s;
  dht_lookup := unit;
  dht_routing_bucket := unit;
|}.
#[local] Existing Instance lt_demo.

(** ** Resume data *)

Fixpoint bits (p : positive) : string :=
  match p with
  | xH => ""
  | xO p' => String "0" (bits p')
  | xI p' => String "1" (bits p')
  end.

Fixpoint of_bits (s : string) : positive :=
  match s with
  | "" => xH
  | String c s' => if bool_decide (c = "1"%char) then xI (of_bits s') else xO (of_bits s')
  end.

Lemma of_bits_bits p : of_bits (bits p) = p.
Proof.
  induction p as [p IH|p IH|]; cbn [bits of_bits]; [| |done].
  - by rewrite bool_decide_eq_true_2, IH.
  - by rewrite bool_decide_eq_false_2, IH.
Qed.

Definition mode_bit (m : storage_mode) : bool :=
  match m with storage_mode_sparse => true | storage_mode_allocate => false end.
Definition bit_mode (b : bool) : storage_mode :=
  if b then storage_mode_sparse else storage_mode_allocate.

Notation coded := ((string * string * (string * option string)) * ((Z * Z) * (bool * bool)))%type.

Definition code_atp (p : add_torrent_params) : coded :=
  ((p_name p, proj1_sig (p_info_hash p), (p_save_path p, proj1_sig <$> p_ti p)),
   ((p_max_connections p, p_max_uploads p), (mode_bit (p_storage_mode p), p_duplicate_is_error p))).

Definition decode_atp (c : coded) : option add_torrent_params :=
  let '((n, h, (sp, ti)), ((mc, mu), (sm, d))) := c in
  h ← sha1_read h;
  Some {| p_name := n; p_info_hash := h; p_save_path := sp; p_max_connections := mc;
          p_max_uploads := mu; p_storage_mode := bit_mode sm; p_ti := t ← ti; sha1_read t;
          p_duplicate_is_error := d; p_rest := tt |}.

Definition blank_atp (h : sha1_hash) : add_torrent_params :=
  {| p_name := ""; p_info_hash := h; p_save_path := ""; p_max_connections := -1; p_max_uploads := -1;
     p_storage_mode := storage_mode_allocate; p_ti := None; p_duplicate_is_error := true; p_rest := tt |}.

Definition zero_hash : sha1_hash := "0000000000000000000000000000000000000000" ↾ eq_refl.

Definition magnet_prefix : string := "magnet:?xt=urn:btih:".

Definition parsers_demo : LtParsers := {|
  default_atp := blank_atp zero_hash;
  parse_torrent := from_hex;
  parse_magnet_uri uri :=
    if String.prefix magnet_prefix uri
    then blank_atp <$> from_hex (sdrop (String.length magnet_prefix) uri) else None;
  read_resume_data b :=
    match (decode (of_bits b) : option coded) ≫= decode_atp with
    | Some p => (p, false)
    | None => (blank_atp zero_hash, true)
    end;
  write_resume_data_buf p := bits (encode (code_atp p));
|}.
#[local] Existing Instance parsers_demo.

Lemma decode_code_atp p : decode_atp (code_atp p) = Some p.
Proof.
  assert (forall h : sha1_hash, sha1_read (proj1_sig h) = Some h) as Hr
    by exact (@sha1_read_write sha1_demo sha1_demo_laws).
  destruct p as [n h sp mc mu sm ti d []]. unfold decode_atp, code_atp. cbn [p_name p_info_hash
    p_save_path p_max_connections p_max_uploads p_storage_mode p_ti p_duplicate_is_error p_rest].
  rewrite Hr. cbn [mbind option_bind]. f_equal. f_equal; [by destruct sm|].
  destruct ti as [t|]; [|done]. cbn [fmap option_fmap option_map mbind option_bind]. apply Hr.
Qed.

Lemma parsers_demo_laws : LtParsersLaws.
Proof.
  intros p. cbn [read_resume_data write_resume_data_buf parsers_demo].
  rewrite of_bits_bits, decode_encode. cbn [mbind option_bind]. by rewrite decode_code_atp.
Qed.

(** ** The session *)

Record demo_ses := mk_demo_ses {
  d_paused : bool;
  d_known : list (sha1_hash * nat);
  d_flags : gmap nat Z;
  d_statuses : list torrent_status;
}.

Definition d_flag (s : demo_ses) (h : nat) : Z := default 0%Z (d_flags s !! h).
Definition put_flag (s : demo_ses) (h : nat) (f : Z) : demo_ses :=
  {| d_paused := d_paused s; d_known := d_known s; d_flags := <[h:=f]> (d_flags s);
     d_statuses := d_statuses s |}.
Definition put_paused (b : bool) (s : demo_ses) : demo_ses :=
  {| d_paused := b; d_known := d_known s; d_flags := d_flags s; d_statuses := d_statuses s |}.

Definition demo_call (c : lt_call) (s : demo_ses) : demo_ses :=
  match c with
  | pause_session => put_paused true s
  | resume_session => put_paused false s
  | set_flags h f m => put_flag s h (Z.lor (Z.land f m) (Z.land (d_flag s h) (Z.lnot m)))
  | unset_flags h f => put_flag s h (Z.land (d_flag s h) (Z.lnot f))
  | pause_torrent h => put_flag s h (Z.lor (d_flag s h) 16)
  | resume_torrent_call h => put_flag s h (Z.land (d_flag s h) (Z.lnot 16))
  | remove_torrent h _ =>
      {| d_paused := d_paused s; d_known := filter (fun k => k.2 <> h) (d_known s);
         d_flags := d_flags s; d_statuses := filter (fun t => st_handle t <> h) (d_statuses s) |}
  | _ => s
  end.

Definition demo_status (h : nat) (ih : sha1_hash) : torrent_status :=
  {| st_handle := h : @torrent_handle handles_demo; st_info_hash := ih; added_time := 1700000000; completed_time := 0;
     state := 3; flags := 0; save_path := "/store"; name := "t"; current_tracker := "";
     next_announce := 0; active_duration := 5; finished_duration := 0; seeding_duration := 0;
     is_finished := true; progress := S754_zero false; progress_ppm := 1000000;
     total_done := 9; total_wanted := 9; total_wanted_done := 9; total := 9;
     total_download := 9; total_upload := 0; all_time_download := 9; all_time_upload := 0;
     total_payload_download := 9; total_payload_upload := 0; total_failed_bytes := 0;
     total_redundant_bytes := 0; last_seen_complete := 0; last_download := 0; last_upload := 0;
     download_rate := 0; upload_rate := 0; download_payload_rate := 0; upload_payload_rate := 0;
     num_seeds := 0; num_peers := 0; num_complete := 0; num_incomplete := 0; list_seeds := 0;
     list_peers := 0; connect_candidates := 0; num_pieces := 0; distributed_full_copies := 0;
     distributed_fraction := 0; block_size := 0; num_uploads := 0; num_connections := 0;
     moving_storage := false; is_seeding := false; has_metadata := true; has_incoming := false;
     need_save_resume := true; errc := 0 |}.

Definition session_demo : Session := {|
  session := demo_ses;
  ses_call := demo_call;
  ses_is_paused := d_paused;
  ses_find_torrent s ih := snd <$> find (fun k => bool_decide (k.1 = ih)) (d_known s);
  th_status s h := match find (fun t => bool_decide (st_handle t = h)) (d_statuses s) with
                   | Some t => t | None => demo_status h zero_hash end;
  th_flags := d_flag;
  th_is_valid s h := existsb (fun k => bool_decide (k.2 = h)) (d_known s);
  th_peers _ _ := [mk_peer_info "client" "10.0.0.1" 6881 5 1 1000000 3 4 8];
  th_files _ _ := [mk_file_info "a" 10; mk_file_info "b" 0];
  th_file_progress _ _ := [5; 0]%Z;
  th_file_status _ _ := [mk_open_file 0 18];
  th_file_prio _ _ := [4; 1]%Z;
  ses_torrents := d_statuses;
  ses_state _ := "d5:statee";
  flag_paused := 16;
  flag_auto_managed := 32;
  flag_utp_socket := 4096;
  mode_rw_mask := 3; mode_read_write := 2; mode_read_only := 0; mode_write_only := 1;
  mode_random_access := 16; mode_sparse := 4;
  ses_peer_fingerprint _ := "-LT1220-";
  ses_listen_interfaces _ := "0.0.0.0:6881";
  lt_version := "1.2.14.0";
|}.
#[local] Existing Instance session_demo.

Lemma session_demo_laws : SessionLaws.
Proof.
  split; try done.
  - by exists 4%Z.
  - by exists 5%Z.
  - intros s h c Hc. destruct c as [| | | | |h' d| | | | | | | | |]; try done. cbn.
    assert (h <> h') as Hne by (intros <-; by apply (Hc d)).
    induction (d_known s) as [|[k h0] l IH]; [done|]. rewrite filter_cons. case_decide as Hk; cbn [existsb]; rewrite IH; [done|].
    rewrite bool_decide_eq_false_2; [done|]. cbn in *. intros ->. by apply Hne.
  - intros s h f m. cbn. unfold d_flag at 1. simpl. by rewrite lookup_insert_eq.
  - intros s h f. cbn. unfold d_flag at 1. simpl. by rewrite lookup_insert_eq.
  - intros s h. cbn. unfold d_flag at 1. simpl. by rewrite lookup_insert_eq.
  - intros s h. cbn. unfold d_flag at 1. simpl. by rewrite lookup_insert_eq.
Qed.
