(* ===== verification/JsonText.v ===== *)
(** * JSON texts

    [json::serialize] of Boost.JSON and the parser of a client: a class, with
    the documented round trip as its law, and an instance for the examples.
    A text says nothing of the C++ kind of a number, so what is parsed is
    equal to what was written, not identical. *)

From S2P Require Import Prelude CStd Json Fs Util SessionStats TorrentStatus Libtorrent Demo.

Class JsonText := {
  serialize : json -> string;
  json_parse : string -> option json;
}.
Class JsonTextLaws `{JsonText} : Prop :=
  parse_serialize j : json_wf j = true -> exists j', json_parse (serialize j) = Some j' /\ j' ≡ j.

(** ** An instance *)

Notation leaf := (string + Z)%type.
Notation tree := (gen_tree leaf).

Definition float_tree (f : spec_float) : tree :=
  match f with
  | S754_zero b => GenNode (if b then 1 else 0) []
  | S754_infinity b => GenNode (if b then 3 else 2) []
  | S754_nan => GenNode 4 []
  | S754_finite b m e => GenNode (if b then 6 else 5) [GenLeaf (inr (Zpos m)); GenLeaf (inr e)]
  end.

Definition tree_float (t : tree) : spec_float :=
  match t with
  | GenNode 0 _ => S754_zero false
  | GenNode 1 _ => S754_zero true
  | GenNode 2 _ => S754_infinity false
  | GenNode 3 _ => S754_infinity true
  | GenNode n [GenLeaf (inr (Zpos m)); GenLeaf (inr e)] => S754_finite (bool_decide (n = 6)) m e
  | _ => S754_nan
  end.

Fixpoint to_tree (j : json) : tree :=
  match j with
  | JNull => GenNode 0 []
  | JBool b => GenNode (if b then 2 else 1) []
  | JInt64 z => GenNode 3 [GenLeaf (inr z)]
  | JUint64 z => GenNode 4 [GenLeaf (inr z)]
  | JDouble d => GenNode 5 [float_tree d]
  | JString s => GenLeaf (inl s)
  | JArray l => GenNode 6 (to_tree <$> l)
  | JObject o => GenNode 7 ((fun kv => GenNode 8 [GenLeaf (inl kv.1); to_tree kv.2]) <$> o)
  end.

Definition tree_member (f : tree -> json) (t : tree) : string * json :=
  match t with GenNode _ [GenLeaf (inl k); v] => (k, f v) | _ => ("", JNull) end.

Fixpoint of_tree (t : tree) : json :=
  match t with
  | GenLeaf (inl s) => JString s
  | GenLeaf (inr _) => JNull
  | GenNode 0 _ => JNull
  | GenNode 1 _ => JBool false
  | GenNode 2 _ => JBool true
  | GenNode 3 [GenLeaf (inr z)] => JInt64 z
  | GenNode 4 [GenLeaf (inr z)] => JUint64 z
  | GenNode 5 [d] => JDouble (tree_float d)
  | GenNode 6 l => JArray (of_tree <$> l)
  | GenNode 7 l => JObject (tree_member of_tree <$> l)
  | GenNode _ _ => JNull
  end.

Lemma tree_float_float f : tree_float (float_tree f) = f.
Proof. by destruct f as [[]|[]| |[] ? ?]. Qed.

Lemma of_tree_to_tree j : of_tree (to_tree j) = j.
Proof.
  induction j as [j Ha Ho|l IH|o IH] using json_nested.
  - destruct j as [|[]| | | | |l|o]; try done; simpl; by rewrite tree_float_float.
  - simpl. f_equal. rewrite <- list_fmap_compose. induction IH; simpl; [done|]. by f_equal.
  - simpl. f_equal. rewrite <- list_fmap_compose. induction IH as [|[k v] o Hv _ IHo]; simpl; [done|].
    simpl in Hv. rewrite Hv. f_equal. apply IHo.
Qed.

Definition text_demo : JsonText := {|
  serialize j := bits (encode (to_tree j));
  json_parse s := of_tree <$> decode (of_bits s);
|}.

Lemma text_demo_laws : @JsonTextLaws text_demo.
Proof.
  intros j Hj. exists j. split; [|by apply json_equiv_refl].
  cbn [json_parse serialize text_demo]. rewrite of_bits_bits, decode_encode. cbn. by rewrite of_tree_to_tree.
Qed.
