(* ===== verification/Sheath.v ===== *)
(** * The server state (src/sheath.cpp, include/sheath.hpp)

    [sheath] owns the libtorrent session: this file holds its state, the
    dispatch of alerts, and what keeps the resume files (load at start, save
    at the end).  [Torrents] has the operations on torrents.

    A function that reaches undefined behaviour or throws gives [None].
    Requests go to the session and are recorded, in order, in [calls]; the
    alerts popped from the session are arguments, one list for each
    [pop_alerts].  A request through a handle whose torrent has been removed
    meanwhile throws ([handle_call]). *)

From S2P Require Import Prelude CStd Json JsonPatch Fs Util SessionStats TorrentStatus Libtorrent Demo.

Section sheath.
Context {sha : Sha1} {ltd : LtData} {hs : Handles} {ltp : LtParsers} {lts : Session} {mt : Metrics}.

(** ** State *)

(** The members nothing assigns after the constructor. *)
Record config := mk_config {
  dir_conf : string;
  dir_moved : string;
  dir_store : string;
  dir_resumes : string;
  dir_watches : string;
  file_ses_state : string;
  max_connections_per_torrent : Z;
  allocation_mode : storage_mode;
  enable_watch : bool;
}.

(** [peer_] is a pointer: the address of an endpoint, and [frames] are the
    endpoints alive on the stack. *)
Record sheath := mk_sheath {
  cfg : config;
  ses_ : session;
  calls : list lt_call;
  files : fsys;
  peer_ : option nat;
  frames : gmap nat endpoint;
  svs : sessionValues;
  m_all_handles : gmap torrent_handle torrent_status;
  num_outstanding_resume_data : Z;
  next_dir_scan : Z;
  dht_active_requests : list dht_lookup;
  dht_routing_table : list dht_routing_bucket;
}.

Definition set_ses ses cs s :=
  mk_sheath (cfg s) ses cs (files s) (peer_ s) (frames s) (svs s) (m_all_handles s)
    (num_outstanding_resume_data s) (next_dir_scan s) (dht_active_requests s) (dht_routing_table
    s).
Definition set_files fs s :=
  mk_sheath (cfg s) (ses_ s) (calls s) fs (peer_ s) (frames s) (svs s) (m_all_handles s)
    (num_outstanding_resume_data s) (next_dir_scan s) (dht_active_requests s) (dht_routing_table
    s).
Definition set_peer_frames p fr s :=
  mk_sheath (cfg s) (ses_ s) (calls s) (files s) p fr (svs s) (m_all_handles s)
    (num_outstanding_resume_data s) (next_dir_scan s) (dht_active_requests s) (dht_routing_table
    s).
Definition set_svs v s :=
  mk_sheath (cfg s) (ses_ s) (calls s) (files s) (peer_ s) (frames s) v (m_all_handles s)
    (num_outstanding_resume_data s) (next_dir_scan s) (dht_active_requests s) (dht_routing_table
    s).
Definition set_handles m s :=
  mk_sheath (cfg s) (ses_ s) (calls s) (files s) (peer_ s) (frames s) (svs s) m
    (num_outstanding_resume_data s) (next_dir_scan s) (dht_active_requests s) (dht_routing_table
    s).
Definition set_outstanding n s :=
  mk_sheath (cfg s) (ses_ s) (calls s) (files s) (peer_ s) (frames s) (svs s) (m_all_handles s) n
    (next_dir_scan s) (dht_active_requests s) (dht_routing_table s).
Definition set_next_scan t s :=
  mk_sheath (cfg s) (ses_ s) (calls s) (files s) (peer_ s) (frames s) (svs s) (m_all_handles s)
    (num_outstanding_resume_data s) t (dht_active_requests s) (dht_routing_table s).
Definition set_dht r t s :=
  mk_sheath (cfg s) (ses_ s) (calls s) (files s) (peer_ s) (frames s) (svs s) (m_all_handles s)
    (num_outstanding_resume_data s) (next_dir_scan s) r t.

(** A request to the session. *)
Definition do_call (c : lt_call) (s : sheath) : sheath :=
  set_ses (ses_call c (ses_ s)) (calls s ++ [c]) s.

(** The constructor, in the configuration directory [conf], at time [now];
    [t0] and [t1] are what [svs] leaves indeterminate. *)
Definition new_sheath (ses : session) (store_dir moved_dir conf : string) (now t0 t1 : Z) (f : fsys)
  : sheath :=
  {| cfg := {| dir_conf := conf; dir_moved := moved_dir; dir_store := store_dir;
               dir_resumes := path_div conf RESUME_DIR; dir_watches := path_div conf WATCH_DIR;
               file_ses_state := path_div conf SESS_FILE;
               max_connections_per_torrent := 50; allocation_mode := storage_mode_sparse;
               enable_watch := true |};
     ses_ := ses; calls := []; files := f; peer_ := None; frames := ∅;
     svs := init_sessionValues t0 t1; m_all_handles := ∅; num_outstanding_resume_data := 0;
     next_dir_scan := now; dht_active_requests := []; dht_routing_table := [] |}.

Definition resume_file (c : config) (info_hash : sha1_hash) : string :=
  path_div (dir_resumes c) (to_hex info_hash +:+ RESUME_EXT).

(** ** The prepared peer *)

(** [None] where [atoi] is undefined; [Some None] is the result [false]. *)
Definition parse_endpoint (addr : string) : option (option endpoint) :=
  if bool_decide (addr = "") then Some None
  else match srfind ":" (c_str addr) with
       | None => Some None
       | Some i =>
           peer_port ← atoi (sdrop (S i) (c_str addr));
           match make_address (stake i (c_str addr)) with
           | None => Some None
           | Some host =>
               if (0 <? peer_port)%Z then Some (Some (mk_endpoint host (uwrap 16 peer_port)))
               else Some None
           end
       end.

(** [ep] lives at the address [fp] of the function's frame, which is gone
    when the function returns. *)
Definition set_peer (fp : nat) (addr : string) (s : sheath) : option (bool * sheath) :=
  r ← parse_endpoint addr;
  match r with
  | Some ep =>
      let s1 := set_peer_frames (Some fp) (<[fp:=ep]> (frames s)) s in
      Some (true, set_peer_frames (peer_ s1) (delete fp (frames s1)) s1)
  | None => Some (false, s)
  end.

(** ** All torrents *)

(** [m_all_handles] for one update: [find], then [emplace] or assignment. *)
Definition put_status (m : gmap torrent_handle torrent_status) (t : torrent_status) :=
  <[st_handle t := t]> m.

Definition set_all_torrents (st : list torrent_status) (s : sheath) : sheath :=
  set_handles (foldl put_status (m_all_handles s) st) s.

Definition remove_torrent_with_handle (h : torrent_handle) (s : sheath) : sheath :=
  set_handles (delete h (m_all_handles s)) s.

(** ** Alerts *)

(** A member function of a handle throws when the torrent is gone: the
    handle holds a weak pointer. *)
Definition handle_call (h : torrent_handle) (c : lt_call) (s : sheath) : option sheath :=
  if th_is_valid (ses_ s) h then Some (do_call c s) else None.

(** [th.save_resume_data(...); ++num_outstanding_resume_data]. *)
Definition ask_resume (h : torrent_handle) (only_if_modified : bool) (s : sheath) : option sheath :=
  s ← handle_call h (save_resume_data h only_if_modified) s;
  Some (set_outstanding (num_outstanding_resume_data s + 1) s).

Definition on_torrent_finished (th : torrent_handle) (s : sheath) : option sheath :=
  let dir := dir_moved (cfg s) in
  if bool_decide (dir = "") then Some s
  else if negb (th_is_valid (ses_ s) th) then None
  else
    let st := th_status (ses_ s) th in
    if (progress_ppm st <? PERCENT_DONE)%Z || (total_payload_download st =? 0)%Z then Some s
    else if bool_decide (save_path st = dir) then Some s
    else if fs_exists (files s) dir then handle_call th (move_storage th dir) s
    else Some s.

(** The result says whether the alert was handled (and is not logged). *)
Definition handle_alert (a : alert) (s : sheath) : option (bool * sheath) :=
  match a with
  | session_stats_alert counters ns =>
      Some (true, set_svs (updateCounters (svs s) counters (uwrap 64 (Z.quot ns 1000))) s)
  | dht_stats_alert r t => Some (true, set_dht r t s)
  | peer_connect_alert | incoming_connection_alert => Some (true, s)
  | peer_disconnected_alert op_connect no_handshake =>
      if op_connect || no_handshake then Some (true, s) else Some (false, s)
  | metadata_received_alert h => s ← ask_resume h false s; Some (false, s)
  | add_torrent_alert h error =>
      if error then Some (false, s)
      else
        s ← ask_resume h true s;
        match peer_ s with
        | None => Some (false, s)
        | Some p => ep ← frames s !! p; s ← handle_call h (connect_peer h ep) s; Some (false, s)
        end
  | torrent_finished_alert h =>
      s ← handle_call h (set_max_connections h (Z.quot (max_connections_per_torrent (cfg s)) 2)) s;
      s ← ask_resume h false s;
      s ← on_torrent_finished h s;
      Some (false, s)
  | save_resume_data_alert params =>
      let s := set_outstanding (num_outstanding_resume_data s - 1) s in
      let buf := write_resume_data_buf params in
      Some (false, set_files (save_file (files s) (resume_file (cfg s) (p_info_hash params)) buf).2 s)
  | save_resume_data_failed_alert not_modified =>
      Some (not_modified, set_outstanding (num_outstanding_resume_data s - 1) s)
  | torrent_paused_alert h => s ← ask_resume h false s; Some (false, s)
  | state_update_alert st => Some (true, set_all_torrents st s)
  | torrent_removed_alert h => Some (false, remove_torrent_with_handle h s)
  | other_alert => Some (false, s)
  end.

Fixpoint pop_alerts (alerts : list alert) (s : sheath) : option sheath :=
  match alerts with
  | [] => Some s
  | a :: alerts' => '(_, s') ← handle_alert a s; pop_alerts alerts' s'
  end.

(** ** Resume files *)

(** [load_resumes]: [listing] is what the iterator over [dir_resumes] gives,
    the names in the directory in some order, or an error. *)
Definition load_resume (name : string) (s : sheath) : sheath :=
  let f_ := path_div (dir_resumes (cfg s)) name in
  if negb (is_resume_file (path_filename f_)) then s
  else match load_file (files s) f_ default_limit with
       | None => s
       | Some resume_data =>
           let '(atp, ec) := read_resume_data resume_data in
           if ec then s else do_call (async_add_torrent atp) s
       end.

Fixpoint load_resume_loop (names : list string) (s : sheath) : sheath :=
  match names with
  | [] => s
  | n :: names' => load_resume_loop names' (load_resume n s)
  end.

Definition load_resumes (listing : option (list string)) (s : sheath) : sheath :=
  match listing with None => s | Some names => load_resume_loop names s end.

Definition start := load_resumes.

(** The torrents [save_all_resume] asks for. *)
Definition needs_saving (ses : session) (st : torrent_status) : bool :=
  negb (negb (th_is_valid ses (st_handle st)) || negb (has_metadata st) || negb (need_save_resume st)).

(** The requests; after every 32nd of them the alerts are popped: [popped]
    has the lists, by the number of the request. *)
Fixpoint ask_all (popped : nat -> list alert) (idx : nat) (temp : list torrent_status) (s : sheath)
  : option sheath :=
  match temp with
  | [] => Some s
  | st :: temp' =>
      s ← ask_resume (st_handle st) false s;
      let idx := S idx in
      s ← (if idx mod 32 =? 0 then pop_alerts (popped idx) s else Some s);
      ask_all popped idx temp' s
  end.

(** The waiting loop; each element of [waits] is one [wait_for_alert], with
    [None] for a timeout.  The result holds the state and whether the loop
    was left; it is not left when [waits] ends first. *)
Fixpoint wait_saves (waits : list (option (list alert))) (s : sheath) : option (bool * sheath) :=
  if (0 <? num_outstanding_resume_data s)%Z then
    match waits with
    | [] => Some (false, s)
    | None :: waits' => wait_saves waits' s
    | Some alerts :: waits' => s' ← pop_alerts alerts s; wait_saves waits' s'
    end
  else Some (true, s).

Definition save_all_resume (popped : nat -> list alert) (waits : list (option (list alert)))
    (s : sheath) : option (bool * sheath) :=
  s ← ask_all popped 0 (filter (fun st => needs_saving (ses_ s) st = true) (ses_torrents (ses_ s))) s;
  wait_saves waits s.

Definition save_session (s : sheath) : sheath :=
  let s := if ses_is_paused (ses_ s) then s else do_call pause_session s in
  set_files (save_file (files s) (file_ses_state (cfg s)) (ses_state (ses_ s))).2 s.

(** [end], and the destructor.  When the wait does not finish the session is
    not saved. *)
Definition end_ (popped : nat -> list alert) (waits : list (option (list alert))) (s : sheath)
  : option (bool * sheath) :=
  r ← save_all_resume popped waits s;
  match r with
  | (true, s) => Some (true, save_session s)
  | (false, s) => Some (false, s)
  end.

(** ** The number of outstanding requests *)

Definition is_ask (c : lt_call) : bool :=
  match c with save_resume_data _ _ => true | _ => false end.
Definition is_reply (a : alert) : bool :=
  match a with save_resume_data_alert _ | save_resume_data_failed_alert _ => true | _ => false end.

Definition count {A} (P : A -> bool) (l : list A) : Z := Z.of_nat (length (filter (fun x => P x = true) l)).

Lemma count_app {A} (P : A -> bool) l m : count P (l ++ m) = (count P l + count P m)%Z.
Proof. unfold count. rewrite filter_app, length_app. lia. Qed.

Lemma count_nil {A} (P : A -> bool) : count P [] = 0%Z.
Proof. done. Qed.

Lemma count_cons {A} (P : A -> bool) x l : count P (x :: l) = (count P [x] + count P l)%Z.
Proof. exact (count_app P [x] l). Qed.

Lemma count_one {A} (P : A -> bool) x : count P [x] = (if P x then 1 else 0)%Z.
Proof. unfold count. rewrite filter_cons. by destruct (P x). Qed.

(** What the counter holds besides the requests that were made. *)
Definition balance (s : sheath) : Z := (num_outstanding_resume_data s - count is_ask (calls s))%Z.

Lemma balance_call c s : balance (do_call c s) = (balance s - (if is_ask c then 1 else 0))%Z.
Proof. unfold balance. simpl. rewrite count_app, count_one. lia. Qed.

(** What the three functions that make requests through a handle change: the
    session and the number of outstanding saves. *)
Definition same_data (s s' : sheath) : Prop :=
  cfg s' = cfg s /\ files s' = files s /\ m_all_handles s' = m_all_handles s
  /\ frames s' = frames s /\ peer_ s' = peer_ s.

Lemma same_data_trans s1 s2 s3 : same_data s1 s2 -> same_data s2 s3 -> same_data s1 s3.
Proof. unfold same_data. intuition congruence. Qed.

Lemma handle_call_inv h c s s' :
  handle_call h c s = Some s' ->
  th_is_valid (ses_ s) h = true /\ s' = do_call c s /\ same_data s s'
  /\ balance s' = (balance s - (if is_ask c then 1 else 0))%Z.
Proof.
  unfold handle_call. destruct (th_is_valid _ _); [|done]. intros [= <-].
  split_and!; try done. apply balance_call.
Qed.

Lemma ask_resume_inv h m s s' : ask_resume h m s = Some s' -> same_data s s' /\ balance s' = balance s.
Proof.
  unfold ask_resume. destruct (handle_call _ _ _) as [s1|] eqn:Hc; [|done].
  apply handle_call_inv in Hc as (_ & _ & Hd & Hb). intros [= <-]. split; [exact Hd|].
  unfold balance in *. simpl in *. lia.
Qed.

Lemma on_torrent_finished_inv h s s' :
  on_torrent_finished h s = Some s' -> same_data s s' /\ balance s' = balance s.
Proof.
  unfold on_torrent_finished. cbv zeta. repeat case_match; intros Hf; simplify_eq; try done.
  apply handle_call_inv in Hf as (_ & _ & Hd & Hb). split; [done|]. simpl in Hb. lia.
Qed.

(** The cases of [handle_alert a s = Some (r, s')]. *)
Ltac alert_cases a H :=
  destruct a; simpl in H;
  repeat match type of H with
    | context [if ?b then _ else _] => destruct b eqn:?; simpl in H
    | context [match peer_ ?s with _ => _ end] => destruct (peer_ s) eqn:?; simpl in H
    | context [mbind _ ?o] => destruct o eqn:?; simpl in H
    end; simplify_eq/=;
  repeat match goal with
    | Hc : handle_call _ _ _ = Some _ |- _ => apply handle_call_inv in Hc as (_ & _ & ? & Hc); simpl in Hc
    | Hc : ask_resume _ _ _ = Some _ |- _ => apply ask_resume_inv in Hc as [? Hc]
    | Hc : on_torrent_finished _ _ = Some _ |- _ => apply on_torrent_finished_inv in Hc as [? Hc]
    end.

Lemma handle_alert_balance a s r s' :
  handle_alert a s = Some (r, s') -> balance s' = (balance s - (if is_reply a then 1 else 0))%Z.
Proof.
  intros Ha. alert_cases a Ha; simpl; try lia; unfold balance; simpl; lia.
Qed.

Lemma pop_alerts_balance l s s' :
  pop_alerts l s = Some s' -> balance s' = (balance s - count is_reply l)%Z.
Proof.
  revert s. induction l as [|a l IH]; intros s; simpl; intros Hp; [simplify_eq; unfold count; simpl; lia|].
  destruct (handle_alert a s) as [[r s1]|] eqn:Ha; simplify_eq/=.
  apply IH in Hp. apply handle_alert_balance in Ha.
  change (a :: l) with ([a] ++ l). rewrite count_app, count_one. lia.
Qed.

(** ** What an alert changes *)

Definition handles_after (a : alert) (m : gmap torrent_handle torrent_status) :=
  match a with
  | state_update_alert st => foldl put_status m st
  | torrent_removed_alert h => delete h m
  | _ => m
  end.

Definition files_after (c : config) (a : alert) (f : fsys) : fsys :=
  match a with
  | save_resume_data_alert p => (save_file f (resume_file c (p_info_hash p)) (write_resume_data_buf p)).2
  | _ => f
  end.

Lemma handle_alert_frame a s r s' :
  handle_alert a s = Some (r, s') ->
  cfg s' = cfg s /\ frames s' = frames s /\ peer_ s' = peer_ s
  /\ files s' = files_after (cfg s) a (files s) /\ m_all_handles s' = handles_after a (m_all_handles s).
Proof.
  intros Ha. alert_cases a Ha; try done; unfold same_data in *; simpl in *; intuition congruence.
Qed.

Lemma pop_alerts_app l1 l2 s : pop_alerts (l1 ++ l2) s = (s1 ← pop_alerts l1 s; pop_alerts l2 s1).
Proof.
  revert s. induction l1 as [|a l1 IH]; intros s; [done|]. simpl.
  destruct (handle_alert a s) as [[r s1]|]; simpl; [apply IH|done].
Qed.

Lemma pop_alerts_frame l s s' :
  pop_alerts l s = Some s' ->
  cfg s' = cfg s /\ frames s' = frames s /\ peer_ s' = peer_ s
  /\ files s' = foldl (fun f a => files_after (cfg s) a f) (files s) l
  /\ m_all_handles s' = foldl (fun m a => handles_after a m) (m_all_handles s) l.
Proof.
  revert s. induction l as [|a l IH]; intros s; simpl; intros Hp; [by simplify_eq|].
  destruct (handle_alert a s) as [[r s1]|] eqn:Ha; simplify_eq/=.
  apply handle_alert_frame in Ha as (Hc & Hf & Hpe & Hfi & Hm).
  apply IH in Hp as (-> & -> & -> & -> & ->). by rewrite Hc, Hf, Hpe, Hfi, Hm.
Qed.

(** The pointer to the peer is null or points to a live endpoint. *)
Definition peer_alive (s : sheath) : bool :=
  match peer_ s with None => true | Some p => bool_decide (is_Some (frames s !! p)) end.

(** The handle an alert's handler makes requests through. *)
Definition asks_through (a : alert) : option torrent_handle :=
  match a with
  | metadata_received_alert h | add_torrent_alert h false | torrent_finished_alert h | torrent_paused_alert h => Some h
  | _ => None
  end.

Definition alert_live (ses : session) (a : alert) : bool :=
  match asks_through a with Some h => th_is_valid ses h | None => true end.

Definition adds_torrent (a : alert) : bool :=
  match a with add_torrent_alert _ false => true | _ => false end.

Context {sel : SessionLaws}.

(** The handlers remove no torrent, so that all handles stay as they are. *)
Definition same_valid (s s' : sheath) : Prop := forall h, th_is_valid (ses_ s') h = th_is_valid (ses_ s) h.

Lemma same_valid_trans s1 s2 s3 : same_valid s1 s2 -> same_valid s2 s3 -> same_valid s1 s3.
Proof. intros H1 H2 h. by rewrite H2. Qed.

Definition removes (c : lt_call) : bool := match c with remove_torrent _ _ => true | _ => false end.

Lemma handle_call_live h c s :
  removes c = false ->
  match handle_call h c s with
  | Some s' => th_is_valid (ses_ s) h = true /\ same_valid s s' /\ same_data s s'
  | None => th_is_valid (ses_ s) h = false
  end.
Proof.
  intros Hc. unfold handle_call. destruct (th_is_valid _ _) eqn:Hv; [|done]. split; [done|]. split; [|done].
  intros h'. simpl. apply valid_kept. by intros d ->.
Qed.

Lemma ask_resume_live h m s :
  match ask_resume h m s with
  | Some s' => th_is_valid (ses_ s) h = true /\ same_valid s s' /\ same_data s s'
  | None => th_is_valid (ses_ s) h = false
  end.
Proof.
  unfold ask_resume. pose proof (handle_call_live h (save_resume_data h m) s eq_refl) as Hc.
  by destruct (handle_call _ _ _).
Qed.

Lemma finished_live h s :
  th_is_valid (ses_ s) h = true -> exists s', on_torrent_finished h s = Some s' /\ same_valid s s'.
Proof.
  intros Hv. unfold on_torrent_finished. rewrite Hv. cbn [negb].
  assert (exists s', Some s = Some s' /\ same_valid s s') as Hs by by exists s.
  case_bool_decide; [done|]. cbv zeta. destruct (_ || _); [done|]. case_bool_decide; [done|].
  destruct (fs_exists _ _); [|done].
  pose proof (handle_call_live h (move_storage h (dir_moved (cfg s))) s eq_refl) as Hc.
  destruct (handle_call _ _ _) as [s'|]; [exists s'; naive_solver|congruence].
Qed.

Lemma handle_alert_live a s :
  match handle_alert a s with
  | Some (_, s') => alert_live (ses_ s) a = true /\ (adds_torrent a = true -> peer_alive s = true) /\ same_valid s s'
  | None => alert_live (ses_ s) a = false \/ adds_torrent a = true /\ peer_alive s = false
  end.
Proof.
  destruct a as [| | | |op_connect no_handshake|h|h [|]|h| | |h| | |]; unfold alert_live; cbn [handle_alert asks_through adds_torrent];
    try (by split_and!); try (pose proof (ask_resume_live h false s); destruct (ask_resume _ _ _); naive_solver).
  - by destruct (_ || _).
  - pose proof (ask_resume_live h true s) as Ha. destruct (ask_resume h true s) as [s1|]; [|by left]. cbn [mbind option_bind].
    destruct Ha as (Hv & Hsv & _ & _ & _ & Hf & Hp). unfold peer_alive. rewrite <- Hf, <- Hp.
    destruct (peer_ s1) as [p|]; [|done]. destruct (frames s1 !! p) as [ep|] eqn:He; cbn [mbind option_bind].
    + pose proof (handle_call_live h (connect_peer h ep) s1 eq_refl) as Hc. destruct (handle_call _ _ _) as [s2|].
      * destruct Hc as (_ & Hsv2 & _). split; [done|]. split; [by rewrite bool_decide_eq_true_2|].
        by eapply same_valid_trans.
      * left. by rewrite <- (Hsv h).
    + right. split; [done|]. apply bool_decide_eq_false_2. intros [? ?]. congruence.
  - pose proof (handle_call_live h (set_max_connections h (Z.quot (max_connections_per_torrent (cfg s)) 2)) s eq_refl) as Hc.
    destruct (handle_call _ _ _) as [s1|]; [|by left]. destruct Hc as (Hv & Hsv & _). cbn [mbind option_bind].
    pose proof (ask_resume_live h false s1) as Ha. destruct (ask_resume _ _ _) as [s2|]; [|left; by rewrite <- (Hsv h)].
    destruct Ha as (Hv1 & Hsv1 & _). cbn [mbind option_bind].
    destruct (finished_live h s2) as (s3 & -> & Hsv2); [by rewrite (Hsv1 h)|]. cbn [mbind option_bind].
    split; [done|]. split; [done|]. by eapply same_valid_trans, same_valid_trans.
Qed.

(** C25: an alert's handler fails in two cases: its torrent has been removed
    since the alert was posted, so that a request through the handle throws;
    or a torrent was added while the pointer to the peer dangles.  In every
    other case it returns. *)
Theorem handle_alert_fails a s :
  handle_alert a s = None <->
  (exists h, asks_through a = Some h /\ th_is_valid (ses_ s) h = false)
  \/ (adds_torrent a = true /\ exists p, peer_ s = Some p /\ frames s !! p = None).
Proof.
  pose proof (handle_alert_live a s) as Ha. unfold alert_live in Ha.
  assert (peer_alive s = false <-> exists p, peer_ s = Some p /\ frames s !! p = None) as Hpeer.
  { unfold peer_alive. destruct (peer_ s) as [p|]; [|naive_solver]. rewrite bool_decide_eq_false, <- eq_None_not_Some.
    naive_solver. }
  rewrite <- Hpeer. destruct (handle_alert a s) as [[r s']|]; destruct (asks_through a) as [h|];
    destruct (adds_torrent a); destruct (peer_alive s); naive_solver.
Qed.

(** An alert whose handler returns, and a whole list of such. *)
Definition alert_safe (s : sheath) (a : alert) : bool :=
  alert_live (ses_ s) a && (negb (adds_torrent a) || peer_alive s).

(** What the handlers leave as it was, of what their success depends on. *)
Definition same_safety (s s' : sheath) : Prop := same_valid s s' /\ peer_alive s' = peer_alive s.

Lemma same_safety_refl s : same_safety s s.
Proof. done. Qed.

Lemma same_safety_trans s1 s2 s3 : same_safety s1 s2 -> same_safety s2 s3 -> same_safety s1 s3.
Proof. intros [Hv1 Hp1] [Hv2 Hp2]. split; [by eapply same_valid_trans|congruence]. Qed.

Lemma same_data_safety s s' : same_data s s' -> same_valid s s' -> same_safety s s'.
Proof. intros (_ & _ & _ & Hf & Hp) Hv. split; [done|]. unfold peer_alive. by rewrite Hf, Hp. Qed.

Lemma alerts_safe_keep s s' l :
  same_safety s s' -> Forall (fun a => alert_safe s a = true) l -> Forall (fun a => alert_safe s' a = true) l.
Proof.
  intros [Hv Hp] Hl. eapply Forall_impl; [exact Hl|]. intros a Ha. unfold alert_safe, alert_live in *. rewrite Hp.
  destruct (asks_through a); [|done]. by rewrite (Hv _).
Qed.

Lemma pop_alerts_safe l s :
  Forall (fun a => alert_safe s a = true) l -> exists s', pop_alerts l s = Some s' /\ same_safety s s'.
Proof.
  revert s. induction l as [|a l IH]; intros s Hl; simpl; [by exists s|]. inversion_clear Hl as [|? ? Ha Hl'].
  pose proof (handle_alert_live a s) as Hlive. destruct (handle_alert a s) as [[r s1]|] eqn:Hs.
  - simpl. destruct Hlive as (_ & _ & Hsv).
    apply handle_alert_frame in Hs as (_ & Hf & Hpe & _).
    assert (same_safety s s1) as Hss by (split; [done|]; unfold peer_alive; by rewrite Hf, Hpe).
    destruct (IH s1) as (s' & Hs' & Hss'); [by apply (alerts_safe_keep s)|].
    exists s'. split; [done|]. by eapply same_safety_trans.
  - unfold alert_safe in Ha. bool_simp. destruct Hlive as [?|[Had ?]]; [congruence|]. rewrite Had in *. naive_solver congruence.
Qed.

(** ** The map of all torrents *)

(** What an alert says of one torrent: new statuses, or its removal. *)
Definition status_events (h : torrent_handle) (a : alert) : list (option torrent_status) :=
  match a with
  | state_update_alert st => Some <$> filter (fun t => st_handle t = h) st
  | torrent_removed_alert h' => if decide (h' = h) then [None] else []
  | _ => []
  end.

(** The last of [l], [d] when there is none. *)
Definition last_or {A} (d : A) (l : list A) : A := default d (last l).

Lemma last_or_app {A} (d : A) l m : last_or d (l ++ m) = last_or (last_or d l) m.
Proof. unfold last_or. rewrite last_app. by destruct (last m). Qed.

Lemma put_statuses_lookup h st m :
  foldl put_status m st !! h = last_or (m !! h) (Some <$> filter (fun t => st_handle t = h) st).
Proof.
  revert m. induction st as [|t st IH]; intros m; [done|]. simpl. rewrite IH, filter_cons.
  unfold put_status. case_decide as Hh.
  - subst h. rewrite lookup_insert_eq.
    change (Some <$> t :: ?l) with ([Some t] ++ (Some <$> l)). by rewrite last_or_app.
  - by rewrite lookup_insert_ne.
Qed.

Lemma handles_after_lookup h a m :
  handles_after a m !! h = last_or (m !! h) (status_events h a).
Proof.
  destruct a; simpl; try done; [apply put_statuses_lookup|].
  case_decide; subst; [by rewrite lookup_delete_eq|by rewrite lookup_delete_ne].
Qed.

Lemma alerts_latest l m h :
  foldl (fun m a => handles_after a m) m l !! h = last_or (m !! h) (l ≫= status_events h).
Proof.
  revert m. induction l as [|a l IH]; intros m; [done|]. simpl. by rewrite IH, handles_after_lookup, last_or_app.
Qed.

(** [m_all_handles] holds for every torrent the status of its latest
    update, unless it was removed after that; whatever the alerts and their
    order. *)
Theorem all_handles_latest l s s' h :
  pop_alerts l s = Some s' ->
  m_all_handles s' !! h = last_or (m_all_handles s !! h) (l ≫= status_events h).
Proof. intros (_ & _ & _ & _ & ->)%pop_alerts_frame. apply alerts_latest. Qed.

(** ** The peer *)

(** The port of an accepted address is the number behind its last colon,
    cut to sixteen bits, and its host is what stands before. *)
Theorem parse_endpoint_value host n ep :
  no_char Ascii.zero host = true -> (Z.of_nat n < 2 ^ 31)%Z ->
  parse_endpoint (host +:+ ":" +:+ to_string n) = Some (Some ep) <->
  n <> 0 /\ (exists a, make_address host = Some a /\ ep = mk_endpoint a (Z.of_nat n mod 65536)).
Proof.
  intros Hh Hn. pose proof (to_string_digits n) as Hd. unfold parse_endpoint.
  rewrite bool_decide_eq_false_2 by (by destruct host).
  rewrite c_str_id.
  2: { unfold no_char in *. rewrite !sforall_app, Hh. cbn. by apply (digits_no_char Ascii.zero). }
  change (":" +:+ to_string n) with (String ":" (to_string n)).
  rewrite srfind_last by (by apply digits_no_char).
  assert (sdrop (S (String.length host)) (host +:+ String ":" (to_string n)) = to_string n) as ->.
  { replace (S (String.length host)) with (String.length host + 1) by lia.
    rewrite <- sdrop_sdrop, sdrop_app. done. }
  rewrite stake_app, atoi_to_string by lia. cbn [mbind option_bind].
  destruct (make_address host) as [a|]; [|naive_solver].
  destruct (0 <? Z.of_nat n)%Z eqn:Hz; bool_simp.
  - split; [intros; simplify_eq; split; [lia|eauto]|intros (_ & a' & ? & ->); by simplify_eq].
  - split; [done|]. intros [? _]. lia.
Qed.

(** The peer that [set_peer] stores is never usable: its endpoint is a
    local of the function, and the first torrent added afterwards reads it
    through a dangling pointer. *)
Theorem set_peer_dangles fp addr s s' h :
  set_peer fp addr s = Some (true, s') ->
  peer_ s' = Some fp /\ frames s' !! fp = None /\ handle_alert (add_torrent_alert h false) s' = None.
Proof.
  unfold set_peer. destruct (parse_endpoint addr) as [[ep|]|]; simpl; [|done..].
  intros Hs. simplify_eq. split; [done|]. simpl. rewrite lookup_delete_eq. split; [done|].
  destruct (ask_resume _ _ _) as [s1|] eqn:Ha; [|done]. apply ask_resume_inv in Ha as [(_ & _ & _ & Hf & Hp) _].
  simpl in *. rewrite Hp, Hf. simpl. by rewrite lookup_delete_eq.
Qed.

(** ** Waiting for resume data *)

Lemma wait_saves_left waits s b s' :
  wait_saves waits s = Some (b, s') -> b = true <-> (num_outstanding_resume_data s' <= 0)%Z.
Proof.
  revert s. induction waits as [|w waits IH]; intros s; simpl;
    destruct (0 <? num_outstanding_resume_data s)%Z eqn:Hn; bool_simp; intros Hw; simplify_eq; try (split; [lia|done]).
  - split; [done|lia].
  - destruct w as [l|]; [|by eapply IH].
    destruct (pop_alerts l s) as [s1|]; simplify_eq/=. by eapply IH.
Qed.

(** The loop is left when the alerts received pay for what is outstanding. *)
Lemma wait_saves_leaves waits s s' :
  pop_alerts (concat (omap id waits)) s = Some s' ->
  (num_outstanding_resume_data s + count is_ask (calls s') - count is_ask (calls s)
   <= count is_reply (concat (omap id waits)))%Z ->
  exists s1, wait_saves waits s = Some (true, s1) /\ (num_outstanding_resume_data s1 <= 0)%Z.
Proof.
  intros Hp Hpaid. pose proof (pop_alerts_balance _ _ _ Hp) as Hb. unfold balance in Hb.
  assert (num_outstanding_resume_data s' <= 0)%Z as Hend by lia. clear Hpaid Hb.
  enough (exists s1, wait_saves waits s = Some (true, s1)) as [s1 Hs1].
  { exists s1. split; [done|]. by eapply wait_saves_left. }
  revert s Hp. induction waits as [|w waits IH]; intros s Hp; simpl.
  - simpl in Hp. simplify_eq. case_match; bool_simp; [lia|eauto].
  - case_match; [|eauto]. destruct w as [l|]; [|by apply IH].
    simpl in Hp. rewrite pop_alerts_app in Hp. destruct (pop_alerts l s) as [s1|]; [|done].
    by apply IH.
Qed.

(** The waiting loop is left as soon as the replies received pay for the
    requests outstanding and those the alerts themselves made; timeouts in
    between do not matter.  It is left only then. *)
Theorem wait_saves_terminates waits s s' :
  pop_alerts (concat (omap id waits)) s = Some s' ->
  (num_outstanding_resume_data s + count is_ask (calls s') - count is_ask (calls s)
   <= count is_reply (concat (omap id waits)))%Z ->
  exists s1, wait_saves waits s = Some (true, s1) /\ (num_outstanding_resume_data s1 <= 0)%Z.
Proof. apply wait_saves_leaves. Qed.

(** ** Finished torrents *)

(** A finished torrent is moved exactly when a directory to move to is
    configured and exists, the torrent is complete, something was downloaded
    in this session, and it is not there already; nothing else happens. *)
Theorem on_torrent_finished_moves h s :
  th_is_valid (ses_ s) h = true ->
  let st := th_status (ses_ s) h in
  let dir := dir_moved (cfg s) in
  (dir <> "" /\ (PERCENT_DONE <= progress_ppm st)%Z /\ total_payload_download st <> 0%Z
   /\ save_path st <> dir /\ fs_exists (files s) dir = true
   /\ on_torrent_finished h s = Some (do_call (move_storage h dir) s))
  \/ ((dir = "" \/ (progress_ppm st < PERCENT_DONE)%Z \/ total_payload_download st = 0%Z
       \/ save_path st = dir \/ fs_exists (files s) dir = false)
      /\ on_torrent_finished h s = Some s).
Proof.
  intros Hv. simpl. unfold on_torrent_finished, handle_call. rewrite Hv. cbn [negb].
  case_bool_decide as Hd; [right; naive_solver|].
  destruct (progress_ppm _ <? PERCENT_DONE)%Z eqn:Hp; bool_simp; simpl; [right; naive_solver|].
  destruct (total_payload_download _ =? 0)%Z eqn:Ht; bool_simp; simpl; [right; naive_solver|].
  case_bool_decide as Hs; [right; naive_solver|].
  destruct (fs_exists (files s) _) eqn:He; [left; naive_solver|right; naive_solver].
Qed.

(** ** Resume files *)

Lemma hex_name_no_slash h : hex40 h = true -> no_char "/" (h +:+ RESUME_EXT) = true.
Proof.
  intros [_ Hh]%andb_true_iff. unfold no_char. rewrite sforall_app, (sforall_impl is_hex_digit); [done| |done].
  intros c Hc. apply negb_true_iff, bool_decide_eq_false. intros ->. by vm_compute in Hc.
Qed.

Context {shl : Sha1Laws}.

Lemma resume_file_inj c h h' : resume_file c h = resume_file c h' -> h = h'.
Proof.
  intros Hf. apply path_div_inj in Hf; [|by apply hex_name_no_slash, to_hex_hex40..].
  pose proof (from_hex_to_hex h) as Hh. pose proof (from_hex_to_hex h') as Hh'.
  apply (sapp_inj_len (to_hex h) RESUME_EXT (to_hex h')) in Hf as [Hx _]; [congruence|].
  pose proof (to_hex_hex40 h) as Ha. pose proof (to_hex_hex40 h') as Hb.
  unfold hex40 in *. bool_simp. congruence.
Qed.

(** The parameters an alert saves for the torrent [h]. *)
Definition saved_for (h : sha1_hash) (a : alert) : list add_torrent_params :=
  match a with
  | save_resume_data_alert p => if decide (p_info_hash p = h) then [p] else []
  | _ => []
  end.

Lemma files_after_read c h a f :
  writable f (resume_file c h) = true ->
  read_all (files_after c a f) (resume_file c h)
  = last_or (read_all f (resume_file c h)) ((fun p => Some (write_resume_data_buf p)) <$> saved_for h a)
  /\ writable (files_after c a f) (resume_file c h) = true.
Proof.
  intros Hw. destruct a; simpl; try done. split; [|unfold save_file; by rewrite writable_write].
  unfold save_file. case_decide as Hh; simpl.
  - subst h. by rewrite read_write_eq.
  - rewrite read_write_ne; [done|]. by intros ?%resume_file_inj.
Qed.

Lemma alerts_read c h l f :
  writable f (resume_file c h) = true ->
  read_all (foldl (fun f a => files_after c a f) f l) (resume_file c h)
  = last_or (read_all f (resume_file c h)) ((fun p => Some (write_resume_data_buf p)) <$> (l ≫= saved_for h))
  /\ writable (foldl (fun f a => files_after c a f) f l) (resume_file c h) = true.
Proof.
  revert f. induction l as [|a l IH]; intros f Hw; [done|]. simpl.
  destruct (files_after_read c h a f Hw) as [Hr Hw'].
  destruct (IH _ Hw') as [-> Hw'']. split; [|done].
  by rewrite Hr, fmap_app, last_or_app.
Qed.

Lemma pop_alerts_read l s s' h :
  pop_alerts l s = Some s' -> writable (files s) (resume_file (cfg s) h) = true ->
  read_all (files s') (resume_file (cfg s) h)
  = last_or (read_all (files s) (resume_file (cfg s) h))
      ((fun p => Some (write_resume_data_buf p)) <$> (l ≫= saved_for h))
  /\ writable (files s') (resume_file (cfg s) h) = true.
Proof. intros (_ & _ & _ & -> & _)%pop_alerts_frame. apply alerts_read. Qed.

(** What one name of the directory makes the loader request. *)
Definition resume_request (c : config) (f : fsys) (name : string) : option add_torrent_params :=
  if is_resume_file (path_filename (path_div (dir_resumes c) name)) then
    bytes ← load_file f (path_div (dir_resumes c) name) default_limit;
    match read_resume_data bytes with (p, false) => Some p | (_, true) => None end
  else None.

Lemma load_resume_loop_requests names s :
  calls (load_resume_loop names s)
  = calls s ++ (async_add_torrent <$> omap (resume_request (cfg s) (files s)) names)
  /\ cfg (load_resume_loop names s) = cfg s /\ files (load_resume_loop names s) = files s.
Proof.
  revert s. induction names as [|n names IH]; intros s; [by rewrite app_nil_r|]. simpl.
  destruct (IH (load_resume n s)) as (-> & -> & ->). unfold resume_request, load_resume.
  destruct (is_resume_file _); simpl; [|done].
  destruct (load_file _ _ _) as [bytes|]; simpl; [|done].
  destruct (read_resume_data bytes) as [p [|]]; simpl; [done|]. by rewrite <- app_assoc.
Qed.

Lemma resume_request_name c f h :
  resume_request c f (to_hex h +:+ RESUME_EXT)
  = (bytes ← load_file f (resume_file c h) default_limit;
     match read_resume_data bytes with (p, false) => Some p | (_, true) => None end).
Proof.
  unfold resume_request. rewrite path_filename_div by apply hex_name_no_slash, to_hex_hex40.
  by rewrite is_resume_file_hex by apply to_hex_hex40.
Qed.

Lemma resume_name_accepted n :
  is_resume_file n = true -> exists h, n = to_hex h +:+ RESUME_EXT.
Proof.
  unfold is_resume_file. destruct (String.length n =? 40 + 7) eqn:Hlen; [|done]. bool_simp. cbn [negb].
  case_bool_decide as Hext; [|done]. cbn [negb]. apply substr_from_spec in Hext as [_ Hext].
  rewrite substr_total by lia. intros Hd.
  destruct (sha1_read_hex (stake 40 n)) as (h & _ & Hw).
  { unfold hex40. rewrite slength_stake, Hlen. exact Hd. }
  exists h. rewrite <- (stake_sdrop 40 n) at 1. unfold to_hex. by rewrite Hext, Hw.
Qed.

(** The requests come from the resume files of the hashes, for a listing of
    the directory. *)
Lemma resume_requests_elem c f l p :
  lists_dir f (dir_resumes c) l ->
  p ∈ omap (resume_request c f) l <->
  exists h bytes, load_file f (resume_file c h) default_limit = Some bytes
                  /\ read_resume_data bytes = (p, false).
Proof.
  intros Hl. rewrite list_elem_of_omap. split.
  - intros (n & Hn & Hr). apply Hl in Hn as (_ & Hn & _).
    destruct (is_resume_file n) eqn:Hi.
    + destruct (resume_name_accepted n Hi) as [h ->]. rewrite resume_request_name in Hr.
      destruct (load_file _ _ _) as [bytes|] eqn:Hb; [|done]. simpl in Hr.
      exists h, bytes. split; [done|]. by destruct (read_resume_data bytes) as [p' [|]]; simplify_eq.
    + unfold resume_request in Hr. rewrite path_filename_div, Hi in Hr by done. done.
  - intros (h & bytes & Hb & Hr). exists (to_hex h +:+ RESUME_EXT). split.
    + apply Hl. split_and!.
      * intros He. apply (f_equal String.length) in He. rewrite slength_app in He. simpl in He. lia.
      * apply hex_name_no_slash, to_hex_hex40.
      * unfold load_file, read_all in Hb. fold (resume_file c h).
        destruct (fs_nodes f !! resume_file c h); [by eauto|done].
    + rewrite resume_request_name, Hb. simpl. by rewrite Hr.
Qed.

(** What the loader requests at a start: for a listing of the resume
    directory, exactly the torrents whose own resume file is there, is within
    the size limit and parses; no file is touched. *)
Theorem load_resumes_requests l s p :
  lists_dir (files s) (dir_resumes (cfg s)) l ->
  files (load_resumes (Some l) s) = files s
  /\ (exists ps, calls (load_resumes (Some l) s) = calls s ++ (async_add_torrent <$> ps)
      /\ (p ∈ ps <-> exists h bytes, load_file (files s) (resume_file (cfg s) h) default_limit = Some bytes
                                  /\ read_resume_data bytes = (p, false))).
Proof.
  intros Hl. destruct (load_resume_loop_requests l s) as (Hc & _ & Hf). split; [exact Hf|].
  eexists. split; [exact Hc|]. by apply resume_requests_elem.
Qed.

(** What was saved is what the next start loads: when the alerts handled
    have saved a torrent, the last parameters saved for it are requested
    again from the files they left behind. *)
Theorem saved_torrent_restarts {lpl : LtParsersLaws} alerts s s' s2 l h p :
  pop_alerts alerts s = Some s' ->
  writable (files s) (resume_file (cfg s) h) = true ->
  last (alerts ≫= saved_for h) = Some p ->
  (Z.of_nat (String.length (write_resume_data_buf p)) <= default_limit)%Z ->
  files s2 = files s' -> cfg s2 = cfg s -> calls s2 = [] ->
  lists_dir (files s2) (dir_resumes (cfg s2)) l ->
  async_add_torrent p ∈ calls (load_resumes (Some l) s2).
Proof.
  intros Hp Hw Hlast Hlim Hf Hc Hn Hl.
  destruct (pop_alerts_read _ _ _ h Hp Hw) as [Hr _].
  unfold last_or in Hr. rewrite fmap_last, Hlast in Hr. simpl in Hr.
  destruct (load_resume_loop_requests l s2) as (Hcalls & _). simpl in *. rewrite Hcalls, Hn.
  apply list_elem_of_fmap_2, resume_requests_elem; [done|].
  exists h, (write_resume_data_buf p). split; [|apply read_write_resume].
  unfold load_file. rewrite Hf, Hc, Hr. by rewrite (proj2 (Z.ltb_ge _ _)).
Qed.

(** Alerts that save nothing for [h] leave its file as it was. *)
Lemma pop_alerts_unsaved l s s' h :
  pop_alerts l s = Some s' -> l ≫= saved_for h = [] ->
  read_all (files s') (resume_file (cfg s) h) = read_all (files s) (resume_file (cfg s) h).
Proof.
  intros (_ & _ & _ & -> & _)%pop_alerts_frame. generalize (files s), (cfg s). intros f c. revert f.
  induction l as [|a l IH]; intros f; [done|]. simpl. intros [Ha Hl]%app_eq_nil.
  rewrite IH by done. destruct a; try done. simpl in *. unfold save_file.
  case_decide as Hh; [done|]. apply read_write_ne. by intros ?%resume_file_inj.
Qed.

(** A resume file holds the torrent it is named after. *)
Definition resume_owned (c : config) (f : fsys) : Prop :=
  forall h bytes p, read_all f (resume_file c h) = Some bytes -> read_resume_data bytes = (p, false) ->
                    p_info_hash p = h.

Lemma alerts_owned {lpl : LtParsersLaws} c l f :
  resume_owned c f -> resume_owned c (foldl (fun f a => files_after c a f) f l).
Proof.
  revert f. induction l as [|a l IH]; intros f Hf; [done|]. simpl. apply IH. clear IH l.
  destruct a as [| | | | | | | |q| | | | |]; try done. simpl. intros h bytes p Hr Hp.
  destruct (decide (p_info_hash q = h)) as [<-|Hh].
  - unfold save_file in Hr. destruct (writable f (resume_file c (p_info_hash q))) eqn:Hw.
    + rewrite read_write_eq in Hr by done. simplify_eq. rewrite read_write_resume in Hp. by simplify_eq.
    + rewrite write_all_spec, Hw in Hr. simpl in Hr. by eapply Hf.
  - unfold save_file in Hr. rewrite read_write_ne in Hr; [by eapply Hf|]. by intros ?%resume_file_inj.
Qed.

Lemma pop_alerts_owned {lpl : LtParsersLaws} l s s' :
  pop_alerts l s = Some s' -> resume_owned (cfg s) (files s) -> resume_owned (cfg s') (files s').
Proof. intros (-> & _ & _ & -> & _)%pop_alerts_frame. apply alerts_owned. Qed.
End sheath.

(** ** Examples *)

#[local] Existing Instance sha1_demo.
#[local] Existing Instance handles_demo.
#[local] Existing Instance lt_demo.
#[local] Existing Instance parsers_demo.
#[local] Existing Instance session_demo.
#[local] Existing Instance demo_metrics.

Definition demo_fs : fsys :=
  {| fs_nodes := <["/c" := Dir]> (<["/c/.resume" := Dir]> (<["/c/watching" := Dir]> (<["/store" := Dir]> ∅)));
     fs_denied := ∅ |}.

(** One torrent, under the handle 7, auto-managed. *)
Definition demo_session : session :=
  mk_demo_ses false [(demo_hash, 7)] {[7 := 32%Z]} [demo_status 7 demo_hash].

Definition demo_sheath : sheath := new_sheath demo_session "/store" "" "/c" 0 0 0 demo_fs.

Definition result_of (r : option sheath) : sheath := default demo_sheath r.

Definition defined {A} (r : option A) : bool := match r with Some _ => true | None => false end.

Lemma result_of_eq r : defined r = true -> r = Some (result_of r).
Proof. by destruct r. Qed.

Definition demo_alerts : list alert :=
  [metadata_received_alert demo_handle; state_update_alert [demo_status 7 demo_hash];
   save_resume_data_alert (blank_atp demo_hash)].

Definition demo_after : sheath := result_of (pop_alerts demo_alerts demo_sheath).

Lemma demo_after_eq : pop_alerts demo_alerts demo_sheath = Some demo_after.
Proof. apply result_of_eq. vm_compute. reflexivity. Qed.

Lemma all_handles_latest_witness :
  pop_alerts demo_alerts demo_sheath = Some demo_after
  /\ m_all_handles demo_after !! demo_handle
     = last_or None (demo_alerts ≫= status_events demo_handle).
Proof. split; [apply demo_after_eq|apply (all_handles_latest demo_alerts demo_sheath), demo_after_eq]. Defined.

Lemma parse_endpoint_value_witness :
  parse_endpoint ("10.0.0.1" +:+ ":" +:+ to_string 70000)
  = Some (Some (mk_endpoint ("10.0.0.1" : address) 4464))
  <-> 70000%nat <> 0%nat /\ (exists a, make_address "10.0.0.1" = Some a
                                  /\ mk_endpoint ("10.0.0.1" : address) 4464 = mk_endpoint a (Z.of_nat 70000 mod 65536)).
Proof. apply (parse_endpoint_value "10.0.0.1" 70000); [reflexivity|vm_compute; reflexivity]. Defined.

Definition demo_peer : sheath :=
  match set_peer 1000 "10.0.0.1:6881" demo_sheath with Some (_, s) => s | None => demo_sheath end.

Lemma set_peer_dangles_witness :
  peer_ demo_peer = Some 1000 /\ frames demo_peer !! 1000 = None
  /\ handle_alert (add_torrent_alert demo_handle false) demo_peer = None.
Proof.
  apply (set_peer_dangles 1000 "10.0.0.1:6881" demo_sheath demo_peer demo_handle).
  reflexivity.
Defined.

(** A torrent is paused and dropped, and then its alert is handled. *)
Definition demo_gone : sheath := do_call (remove_torrent demo_handle false) (do_call (pause_torrent demo_handle) demo_sheath).

Lemma handle_alert_fails_witness :
  handle_alert (torrent_paused_alert demo_handle) demo_gone = None
  /\ (handle_alert (torrent_paused_alert demo_handle) demo_gone = None <->
      (exists h, asks_through (torrent_paused_alert demo_handle) = Some h /\ th_is_valid (ses_ demo_gone) h = false)
      \/ (adds_torrent (torrent_paused_alert demo_handle) = true
          /\ exists p, peer_ demo_gone = Some p /\ frames demo_gone !! p = None)).
Proof.
  split; [|apply (handle_alert_fails (sel := session_demo_laws))].
  apply (proj2 (handle_alert_fails (sel := session_demo_laws) (torrent_paused_alert demo_handle) demo_gone)).
  left. by exists demo_handle.
Defined.

Definition demo_asked : sheath :=
  result_of (s ← ask_resume demo_handle false demo_sheath; ask_resume demo_handle false s).
Definition demo_waits : list (option (list alert)) :=
  [None; Some [save_resume_data_failed_alert true]; None; Some [save_resume_data_alert (blank_atp demo_hash)]].

Lemma wait_saves_terminates_witness :
  exists s1, wait_saves demo_waits demo_asked = Some (true, s1) /\ (num_outstanding_resume_data s1 <= 0)%Z.
Proof.
  apply (wait_saves_terminates demo_waits demo_asked
           (result_of (pop_alerts (concat (omap id demo_waits)) demo_asked)));
    [apply result_of_eq; vm_compute; reflexivity|vm_compute; discriminate].
Defined.

(** A restart on the files [demo_after] left. *)
Definition demo_restart : sheath := new_sheath demo_session "/store" "" "/c" 0 0 0 (files demo_after).
Definition demo_names : list string := [demo_hex +:+ RESUME_EXT].

Lemma lists_dir_map f d l :
  (forall n, n ∈ l -> n <> "" /\ no_char "/" n = true) ->
  map_Forall (fun p _ => forall n, p = path_div d n -> n <> "" -> no_char "/" n = true -> n ∈ l) (fs_nodes f) ->
  Forall (fun n => is_Some (fs_nodes f !! path_div d n)) l -> lists_dir f d l.
Proof.
  intros Hl Hm Hs n. rewrite Forall_forall in Hs. split; [intros Hn; destruct (Hl n Hn); auto|].
  intros (Hn & Hc & [x Hx]). by eapply Hm.
Qed.

(** The directories of [demo_fs] and one resume file. *)
Definition one_file (h : sha1_hash) (b : string) : fsys :=
  mk_fsys (<["/c/.resume/" +:+ (to_hex h +:+ RESUME_EXT) := File b]> (fs_nodes demo_fs)) ∅.

Lemma one_file_lookup h b :
  fs_nodes (one_file h b) !! path_div "/c/.resume" (to_hex h +:+ RESUME_EXT) = Some (File b).
Proof.
  rewrite path_div_prefix
    by (apply no_slash_prefix, hex_name_no_slash, (to_hex_hex40 (H0 := sha1_demo_laws))).
  unfold one_file. cbn [fs_nodes]. change (dir_prefix "/c/.resume") with "/c/.resume/".
  by rewrite lookup_insert_eq.
Qed.

Lemma one_file_listing h b : lists_dir (one_file h b) "/c/.resume" [to_hex h +:+ RESUME_EXT].
Proof.
  pose proof (to_hex_hex40 (H0 := sha1_demo_laws) h) as Hh. apply lists_dir_map.
  - intros n Hn. apply list_elem_of_singleton in Hn as ->. split; [|by apply hex_name_no_slash].
    intros He. apply (f_equal String.length) in He. rewrite slength_app in He. simpl in He. lia.
  - unfold one_file, demo_fs. simpl fs_nodes.
    repeat apply map_Forall_insert_2; try apply map_Forall_empty;
      intros n Heq Hne Hc; rewrite path_div_prefix in Heq by (by apply no_slash_prefix);
      unfold dir_prefix in Heq; cbn [bool_decide] in Heq; simpl in Heq; try discriminate Heq;
      injection Heq as <-; first [by left|done].
  - constructor; [|constructor]. rewrite one_file_lookup. eauto.
Qed.

Lemma demo_restart_files : files demo_restart = one_file demo_hash (write_resume_data_buf (blank_atp demo_hash)).
Proof. vm_compute. reflexivity. Qed.

Lemma demo_listing : lists_dir (files demo_restart) (dir_resumes (cfg demo_restart)) demo_names.
Proof. rewrite demo_restart_files. apply (one_file_listing demo_hash). Qed.

Lemma load_resumes_requests_witness :
  files (load_resumes (Some demo_names) demo_restart) = files demo_restart
  /\ (exists ps, calls (load_resumes (Some demo_names) demo_restart)
                = calls demo_restart ++ (async_add_torrent <$> ps)
      /\ (blank_atp demo_hash ∈ ps <->
          exists h bytes, load_file (files demo_restart) (resume_file (cfg demo_restart) h) default_limit = Some bytes
                          /\ read_resume_data bytes = (blank_atp demo_hash, false))).
Proof.
  apply (load_resumes_requests (shl := sha1_demo_laws) demo_names demo_restart). apply demo_listing.
Defined.

Lemma saved_torrent_restarts_witness :
  async_add_torrent (blank_atp demo_hash) ∈ calls (load_resumes (Some demo_names) demo_restart).
Proof.
  apply (saved_torrent_restarts (shl := sha1_demo_laws) (lpl := parsers_demo_laws)
           demo_alerts demo_sheath demo_after demo_restart demo_names demo_hash (blank_atp demo_hash)).
  - apply demo_after_eq.
  - vm_compute. reflexivity.
  - reflexivity.
  - vm_compute. discriminate.
  - reflexivity.
  - reflexivity.
  - reflexivity.
  - apply demo_listing.
Defined.
