(* ===== verification/Torrents.v ===== *)
(** * Operations on torrents (src/sheath.cpp)

    What the HTTP handlers and the main loop call on [sheath]: adding,
    querying, pausing, resuming and dropping torrents, the watched directory,
    the snapshot for the websocket clients. *)

From S2P Require Import Prelude CStd Json JsonPatch Fs Util SessionStats TorrentStatus Libtorrent Sheath Demo.

Section torrents.
Context {sha : Sha1} {ltd : LtData} {hs : Handles} {ltp : LtParsers} {lts : Session} {mt : Metrics}.

(** ** Adding *)

Definition set_torrent_params (c : config) (p : add_torrent_params) : add_torrent_params :=
  {| p_name := p_name p; p_info_hash := p_info_hash p;
     p_save_path := if bool_decide (p_save_path p = "") then dir_store c else p_save_path p;
     p_max_connections := max_connections_per_torrent c; p_max_uploads := -1;
     p_storage_mode := allocation_mode c; p_ti := p_ti p;
     p_duplicate_is_error := p_duplicate_is_error p; p_rest := p_rest p |}.

Definition set_save_path (d : string) (p : add_torrent_params) : add_torrent_params :=
  {| p_name := p_name p; p_info_hash := p_info_hash p; p_save_path := d;
     p_max_connections := p_max_connections p; p_max_uploads := p_max_uploads p;
     p_storage_mode := p_storage_mode p; p_ti := p_ti p;
     p_duplicate_is_error := p_duplicate_is_error p; p_rest := p_rest p |}.

(** [p.ti = ti; p.flags &= ~duplicate_is_error]. *)
Definition set_ti (ti : torrent_info) (p : add_torrent_params) : add_torrent_params :=
  {| p_name := p_name p; p_info_hash := p_info_hash p; p_save_path := p_save_path p;
     p_max_connections := p_max_connections p; p_max_uploads := p_max_uploads p;
     p_storage_mode := p_storage_mode p; p_ti := Some ti;
     p_duplicate_is_error := false; p_rest := p_rest p |}.

(** [if (load_file(...)) p = read_resume_data(...)]: the error is logged and
    what was read is used. *)
Definition with_resume (c : config) (f : fsys) (ih : sha1_hash) (p : add_torrent_params)
  : add_torrent_params :=
  match load_file f (resume_file c ih) default_limit with
  | Some resume_data => (read_resume_data resume_data).1
  | None => p
  end.

Definition add_magnet (uri : string) (s : sheath) : bool * sheath :=
  match parse_magnet_uri uri with
  | None => (false, s)
  | Some p =>
      let p := with_resume (cfg s) (files s) (p_info_hash p) p in
      (true, do_call (async_add_torrent (set_torrent_params (cfg s) p)) s)
  end.

Definition add_torrent_file (filename : string) (s : sheath) : bool * sheath :=
  match read_all (files s) filename ≫= parse_torrent with
  | None => (false, s)
  | Some ti =>
      let p := with_resume (cfg s) (files s) (ti_info_hash ti) default_atp in
      (true, do_call (async_add_torrent (set_ti ti (set_torrent_params (cfg s) p))) s)
  end.

Definition add_torrent_buf (buffer save_path : string) (s : sheath) : bool * sheath :=
  match parse_torrent buffer with
  | None => (false, s)
  | Some ti =>
      let '(created, ec, f) := create_directory (files s) save_path in
      let s := set_files f s in
      if negb created && negb (ec =? 0)%Z then (false, s)
      else
        let p := with_resume (cfg s) (files s) (ti_info_hash ti) default_atp in
        let p := set_torrent_params (cfg s) (set_save_path save_path p) in
        (true, do_call (async_add_torrent (set_ti ti p)) s)
  end.

(** ** The watched directory *)

(** The loop over the names of the directory; [false] when [fs::remove]
    throws, which leaves the loop. *)
Fixpoint scan_loop (dir_path : string) (names : list string) (s : sheath) : bool * sheath :=
  match names with
  | [] => (true, s)
  | n :: names' =>
      let file := path_div dir_path n in
      if negb (bool_decide (path_extension file = ".torrent")) then scan_loop dir_path names' s
      else
        let '(added, s) := add_torrent_file file s in
        if added then
          let '(removed, f) := remove_file (files s) file in
          if removed then scan_loop dir_path names' (set_files f s) else (false, s)
        else scan_loop dir_path names' s
  end.

Definition scan_dir (dir_path : string) (listing : option (list string)) (s : sheath) : bool * sheath :=
  match listing with None => (true, s) | Some names => scan_loop dir_path names s end.

(** The three requests a round begins with. *)
Definition post_requests (s : sheath) : sheath :=
  do_call post_dht_stats (do_call post_session_stats (do_call post_torrent_updates s)).

(** One round: the alerts popped after the pause, the time, and the listing
    of the watched directory. *)
Definition doLoop (alerts : list alert) (now : Z) (listing : option (list string)) (s : sheath)
  : option (bool * sheath) :=
  let s := post_requests s in
  s ← pop_alerts alerts s;
  if enable_watch (cfg s) && (next_dir_scan s <? now)%Z then
    let '(ok, s) := scan_dir (dir_watches (cfg s)) listing s in
    Some (ok, if ok then set_next_scan (now + WATCH_INTERVAL * 1000000000) s else s)
  else Some (true, s).

(** ** Queries *)

Definition getSessionInfo (up upMs : Z) (s : sheath) : option json :=
  let listenIfs := ses_listen_interfaces (ses_ s) in
  peerPort ← parse_port listenIfs;
  Some (JObject ["peerID" ~> JString (ses_peer_fingerprint (ses_ s));
                 "peerPort" ~> JInt64 peerPort;
                 "listenInterfaces" ~> JString listenIfs;
                 "uptime" ~> JInt64 up; "uptimeMs" ~> JInt64 upMs;
                 "stored" ~> JString (dir_store (cfg s));
                 "version" ~> JString lt_version]).

(** The clocks, and the indeterminate object the stats start from. *)
Record clocks := mk_clocks { clk_uptime : Z; clk_uptimeMs : Z; clk_garbage : sessionStats }.

Definition session_stats (k : clocks) (s : sheath) : option sessionStats :=
  getSessionStats (svs s) (clk_uptime k) (clk_uptimeMs k) (clk_garbage k).

Definition sheath_getSessionStats (k : clocks) (s : sheath) : option json :=
  stats ← session_stats k s;
  Some (JObject (to_json_object (set_isPaused (ses_is_paused (ses_ s)) stats))).

(** [iter] is the order in which the hash map is walked. *)
Definition getSyncStats (k : clocks) (iter : list (torrent_handle * torrent_status)) (s : sheath)
  : option json :=
  stats ← session_stats k s;
  Some (JObject ["stats" ~> JObject (to_json_object stats);
                 "torrents" ~> JArray ((fun t => JObject (torrent_status_to_json_obj t.2)) <$> iter)]).

Definition get_torrents (s : sheath) : json :=
  JArray ((fun st => JObject (torrent_status_to_json_obj st)) <$> ses_torrents (ses_ s)).

Definition exists_ (ih : sha1_hash) (s : sheath) : bool :=
  match ses_find_torrent (ses_ s) ih with Some _ => true | None => false end.

Definition query_basic : Z := 1.
Definition query_peers : Z := 2.
Definition query_files : Z := 4.

Definition has_bit (x m : Z) : bool := negb (Z.land x m =? 0)%Z.

Definition peer_obj (i : peer_info) : members :=
  emplace_all [(has_bit (pi_flags i) flag_utp_socket, "uTP", JBool true)]
    ["client" ~> JString (pi_client i); "ip" ~> JString (pi_ip i); "port" ~> JUint64 (pi_port i);
     "flag" ~> JInt64 (swrap 32 (pi_flags i)); "source" ~> JInt64 (swrap 32 (pi_source i));
     "progress" ~> JInt64 (pi_progress_ppm i); "down_speed" ~> JInt64 (pi_down_speed i);
     "up_speed" ~> JInt64 (pi_up_speed i); "num_pieces" ~> JInt64 (pi_num_pieces i)].

(** Per mille, rounded down; an empty file is complete. *)
Definition file_permille (progress size : Z) : Z :=
  if (0 <? size)%Z then swrap 32 (Z.quot (swrap 64 (progress * 1000)) size) else 1000.

Definition open_state_entries (mode : Z) : list entry :=
  let rw := Z.land mode mode_rw_mask in
  [(if (rw =? mode_read_write)%Z then (true, "state", JString "read/write")
    else if (rw =? mode_read_only)%Z then (true, "state", JString "read")
    else ((rw =? mode_write_only)%Z, "state", JString "write"));
   (has_bit mode mode_random_access, "state", JString "random_access");
   (has_bit mode mode_sparse, "state", JString "sparse")].

(** [None]: a vector is too short, or the assertion fails. *)
Definition file_obj (i progress prio : Z) (fi : file_info) : option members :=
  if (progress <=? file_size fi)%Z then
    Some ["name" ~> JString (file_name fi); "size" ~> JInt64 (file_size fi);
          "progress" ~> JInt64 (file_permille progress (file_size fi));
          "complete" ~> JBool (progress =? file_size fi)%Z;
          "priority" ~> JUint64 (uwrap 8 prio)]
  else None.

(** The loop over the files from index [i], with the cursor [f] into the
    open files. *)
Fixpoint files_loop (i : Z) (fs : list file_info) (progress prio : list Z) (f : list open_file_state)
  : option (list json) :=
  match fs with
  | [] => Some []
  | fi :: fs' =>
      p ← at_idx progress i;
      pr ← at_idx prio i;
      obj ← file_obj i p pr fi;
      let '(obj, f) :=
        match f with
        | o :: f' =>
            if (of_index o =? i)%Z then (emplace_all (open_state_entries (of_mode o)) obj, f') else (obj, f)
        | [] => (obj, f)
        end in
      data ← files_loop (i + 1) fs' progress prio f;
      Some (JObject obj :: data)
  end.

Definition get_torrent (ih : sha1_hash) (flags : Z) (s : sheath) : option json :=
  match ses_find_torrent (ses_ s) ih with
  | None => Some JNull
  | Some th =>
      if (flags =? query_basic)%Z then Some (JObject (torrent_status_to_json_obj (th_status (ses_ s) th)))
      else if (flags =? query_peers)%Z then
        Some (JArray ((fun i => JObject (peer_obj i)) <$> th_peers (ses_ s) th))
      else if (flags =? query_files)%Z then
        data ← files_loop 0 (th_files (ses_ s) th) (th_file_progress (ses_ s) th)
                 (th_file_prio (ses_ s) th) (th_file_status (ses_ s) th);
        Some (JArray data)
      else Some JNull
  end.

(** ** Pausing, resuming, dropping *)

Definition pause_resume_torrent (ih : sha1_hash) (s : sheath) : bool * sheath :=
  match ses_find_torrent (ses_ s) ih with
  | None => (false, s)
  | Some th =>
      let flags := th_flags (ses_ s) th in
      if (Z.land flags (Z.lor flag_auto_managed flag_paused) =? flag_paused)%Z then
        (true, do_call (set_flags th flag_auto_managed flag_auto_managed) s)
      else (true, do_call (pause_torrent th) (do_call (unset_flags th flag_auto_managed) s))
  end.

Definition resume_torrent (ih : sha1_hash) (s : sheath) : bool * sheath :=
  match ses_find_torrent (ses_ s) ih with
  | None => (false, s)
  | Some th =>
      let flags := th_flags (ses_ s) th in
      let s := do_call (set_flags th (Z.lnot (Z.land flags flag_auto_managed)) flag_auto_managed) s in
      if has_bit flags flag_auto_managed && has_bit flags flag_paused
      then (true, do_call (resume_torrent_call th) s) else (true, s)
  end.

Definition drop_torrent (ih : sha1_hash) (with_data : bool) (s : sheath) : bool * sheath :=
  let s := set_files (remove_file (files s) (resume_file (cfg s) ih)).2 s in
  match ses_find_torrent (ses_ s) ih with
  | Some th => (true, do_call (remove_torrent th with_data) s)
  | None => (false, s)
  end.

Definition toggle_pause_resume (s : sheath) : bool * sheath :=
  let s := if ses_is_paused (ses_ s) then do_call resume_session s else do_call pause_session s in
  (ses_is_paused (ses_ s), s).

(** ** Flags *)

Lemma single_bit_test n m : (0 <= n)%Z -> Z.testbit (Z.shiftl 1 n) m = (m =? n)%Z.
Proof.
  intros Hn. destruct (Z.eqb_spec m n) as [->|Hm].
  - rewrite Z.shiftl_1_l. by apply Z.pow2_bits_true.
  - rewrite Z.shiftl_1_l. apply Z.pow2_bits_false. lia.
Qed.

Lemma has_bit_test x n : (0 <= n)%Z -> has_bit x (Z.shiftl 1 n) = Z.testbit x n.
Proof.
  intros Hn. unfold has_bit. destruct (Z.testbit x n) eqn:Hx.
  - apply negb_true_iff, Z.eqb_neq. intros H0. apply (f_equal (fun z => Z.testbit z n)) in H0.
    rewrite Z.land_spec, single_bit_test, Hx, Z.eqb_refl, Z.bits_0 in H0 by done. done.
  - apply negb_false_iff, Z.eqb_eq, Z.bits_inj'. intros m Hm.
    rewrite Z.land_spec, single_bit_test, Z.bits_0 by done.
    destruct (Z.eqb_spec m n) as [->|]; [by rewrite Hx|apply andb_false_r].
Qed.

(** Reads the bits of both sides of an equation of flags. *)
Ltac bits_of :=
  repeat first [rewrite Z.land_spec|rewrite Z.lor_spec|rewrite Z.lnot_spec by done
               |rewrite single_bit_test by done].

(** The bits of [flags] other than the two the program works with. *)
Definition other_flags (f : Z) : Z := Z.land f (Z.lnot (Z.lor flag_auto_managed flag_paused)).

(** A torrent's flags after an operation: the two bits, the others kept. *)
Definition flags_become (f f' : Z) (auto paused : bool) : Prop :=
  has_bit f' flag_auto_managed = auto /\ has_bit f' flag_paused = paused
  /\ other_flags f' = other_flags f.

Section flag_laws.
Context {sel : SessionLaws}.

(** The two flags as bit numbers. *)
Lemma flag_bits :
  exists a p, (0 <= a)%Z /\ (0 <= p)%Z /\ a <> p
  /\ flag_auto_managed = Z.shiftl 1 a /\ flag_paused = Z.shiftl 1 p.
Proof.
  destruct auto_managed_bit as (a & Ha & Hfa), paused_bit as (p & Hp & Hfp).
  exists a, p. split_and!; [done..| |done|done]. intros ->. apply flags_distinct. congruence.
Qed.

Lemma flags_become_bits f f' a p auto paused :
  (0 <= a)%Z -> (0 <= p)%Z ->
  flag_auto_managed = Z.shiftl 1 a -> flag_paused = Z.shiftl 1 p ->
  (forall m, (0 <= m)%Z ->
     Z.testbit f' m = if (m =? a)%Z then auto else if (m =? p)%Z then paused else Z.testbit f m) ->
  a <> p -> flags_become f f' auto paused.
Proof.
  intros Ha Hp Hfa Hfp Hf Hap. unfold flags_become, other_flags. rewrite Hfa, Hfp.
  rewrite !has_bit_test, !Hf, !Z.eqb_refl by done.
  split_and!; [done| |].
  - destruct (Z.eqb_spec p a); [lia|done].
  - apply Z.bits_inj'; intros m Hm; bits_of. rewrite Hf by done. destruct (m =? a)%Z, (m =? p)%Z; simpl; by rewrite ?andb_false_r.
Qed.

Lemma land_pair_paused f a p :
  (0 <= a)%Z -> (0 <= p)%Z -> a <> p ->
  (Z.land f (Z.lor (Z.shiftl 1 a) (Z.shiftl 1 p)) =? Z.shiftl 1 p)%Z
  = negb (Z.testbit f a) && Z.testbit f p.
Proof.
  intros Ha Hp Hap. destruct (Z.eqb_spec (Z.land f (Z.lor (Z.shiftl 1 a) (Z.shiftl 1 p))) (Z.shiftl 1 p)) as [He|Hne].
  - pose proof (f_equal (fun z => Z.testbit z a) He) as H1.
    pose proof (f_equal (fun z => Z.testbit z p) He) as H2. simpl in *.
    rewrite Z.land_spec, Z.lor_spec, !single_bit_test, Z.eqb_refl in H1, H2 by done.
    destruct (Z.eqb_spec a p); [done|]. rewrite orb_true_r, andb_true_r in H2.
    simpl in H1. rewrite andb_true_r in H1. by rewrite H1, H2.
  - symmetry. apply not_true_iff_false. intros [H1 H2]%andb_true_iff. apply negb_true_iff in H1.
    apply Hne. apply Z.bits_inj'; intros m Hm; bits_of. destruct (Z.eqb_spec m p) as [->|]; [by rewrite orb_true_r, H2|].
    destruct (Z.eqb_spec m a) as [->|]; [by rewrite H1|]. apply andb_false_r.
Qed.

(** C29: pausing and resuming a torrent, by its two flags: a stopped one
    (paused, not auto-managed) is handed back to the queue, any other one is
    stopped; the paused flag is set afterwards in both cases, and no other
    flag changes.  An unknown torrent changes nothing. *)
Theorem pause_resume_torrent_flags ih s :
  match ses_find_torrent (ses_ s) ih with
  | None => pause_resume_torrent ih s = (false, s)
  | Some th =>
      let f := th_flags (ses_ s) th in
      let auto := has_bit f flag_auto_managed in
      let paused := has_bit f flag_paused in
      (pause_resume_torrent ih s).1 = true
      /\ flags_become f (th_flags (ses_ (pause_resume_torrent ih s).2) th) (negb auto && paused) true
  end.
Proof.
  unfold pause_resume_torrent. destruct (ses_find_torrent (ses_ s) ih) as [th|]; [|done].
  destruct flag_bits as (a & p & Ha & Hp & Hap & Hfa & Hfp).
  set (f := th_flags (ses_ s) th). simpl. rewrite Hfa, Hfp, !has_bit_test, land_pair_paused by done.
  destruct (Z.testbit f a) eqn:Hta; [|destruct (Z.testbit f p) eqn:Htp]; simpl; (split; [done|]);
    apply (flags_become_bits _ _ a p); try done; intros m Hm;
    rewrite ?flags_set, ?flags_pause, ?flags_unset, ?Hfa, ?Hfp; fold f;
    bits_of;
    destruct (Z.eqb_spec m a), (Z.eqb_spec m p); subst; simpl; try done;
    rewrite ?andb_false_r, ?andb_true_r, ?orb_true_r, ?orb_false_r; congruence.
Qed.

(** C30: what the force start does to the flags: it inverts auto-managed, and
    clears paused only for a torrent that was auto-managed.  A stopped
    torrent is queued and stays paused. *)
Theorem resume_torrent_flags ih s :
  match ses_find_torrent (ses_ s) ih with
  | None => resume_torrent ih s = (false, s)
  | Some th =>
      let f := th_flags (ses_ s) th in
      let auto := has_bit f flag_auto_managed in
      let paused := has_bit f flag_paused in
      (resume_torrent ih s).1 = true
      /\ flags_become f (th_flags (ses_ (resume_torrent ih s).2) th) (negb auto) (negb auto && paused)
  end.
Proof.
  unfold resume_torrent. destruct (ses_find_torrent (ses_ s) ih) as [th|]; [|done].
  destruct flag_bits as (a & p & Ha & Hp & Hap & Hfa & Hfp).
  set (f := th_flags (ses_ s) th). simpl. rewrite Hfa, Hfp, !has_bit_test by done.
  destruct (Z.testbit f a) eqn:Hta; destruct (Z.testbit f p) eqn:Htp; simpl; (split; [done|]);
    apply (flags_become_bits _ _ a p); try done; intros m Hm;
    rewrite ?flags_resume, ?flags_set, ?Hfa, ?Hfp; fold f;
    bits_of;
    destruct (Z.eqb_spec m a), (Z.eqb_spec m p); subst; simpl; try done;
    rewrite ?andb_false_r, ?andb_true_r, ?orb_true_r, ?orb_false_r, ?Hta, ?Htp; try congruence; done.
Qed.

(** Toggling the session answers with the new state: the opposite of the
    state before, and what the session then reports. *)
Theorem toggle_pause_resume_answer s :
  let '(r, s') := toggle_pause_resume s in
  r = negb (ses_is_paused (ses_ s)) /\ ses_is_paused (ses_ s') = r.
Proof.
  unfold toggle_pause_resume. destruct (ses_is_paused (ses_ s)); simpl; split; try done.
  - apply is_paused_resume.
  - apply is_paused_pause.
Qed.

End flag_laws.

(** ** Adding *)

(** What every way of adding sets, whatever the resume data held. *)
Definition prepared (c : config) (p : add_torrent_params) : Prop :=
  p_max_connections p = max_connections_per_torrent c /\ p_max_uploads p = (-1)%Z
  /\ p_storage_mode p = allocation_mode c /\ (dir_store c <> "" -> p_save_path p <> "").

Lemma set_torrent_params_prepared c p : prepared c (set_torrent_params c p).
Proof. unfold prepared. simpl. split_and!; try done. case_bool_decide; done. Qed.

(** A torrent file posted with a directory: without metainfo nothing
    happens; if the directory cannot be made there is no request; otherwise
    there is one request, for that metainfo, into that directory, which then
    exists, and a duplicate is not an error, whatever the resume file holds. *)
Theorem add_torrent_buf_request buffer save_path s :
  let '(ok, s') := add_torrent_buf buffer save_path s in
  match parse_torrent buffer with
  | None => ok = false /\ s' = s
  | Some ti =>
      (ok = false -> calls s' = calls s)
      /\ (ok = true ->
          fs_nodes (files s') !! save_path = Some Dir
          /\ exists p, calls s' = calls s ++ [async_add_torrent p] /\ prepared (cfg s) p
             /\ p_ti p = Some ti /\ p_duplicate_is_error p = false
             /\ (save_path <> "" -> p_save_path p = save_path))
  end.
Proof.
  unfold add_torrent_buf. destruct (parse_torrent buffer) as [ti|]; [|done].
  pose proof (create_directory_dir (files s) save_path) as Hd.
  destruct (create_directory (files s) save_path) as [[created ec] f].
  destruct (negb created && negb (ec =? 0)%Z) eqn:Hc; [done|]. split; [done|]. intros _.
  split; [apply Hd; by destruct created, (ec =? 0)%Z|].
  eexists. split; [done|]. simpl. split; [|split; [done|split; [done|]]].
  - apply set_torrent_params_prepared.
  - intros Hp. by rewrite bool_decide_eq_false_2.
Qed.

(** A magnet link that parses leads to one request: its own parameters
    when there is no resume file, what the resume file reads as otherwise,
    even when reading it failed. *)
Theorem add_magnet_request uri s :
  let '(ok, s') := add_magnet uri s in
  (ok = true <-> is_Some (parse_magnet_uri uri))
  /\ files s' = files s
  /\ calls s' = calls s ++
       match parse_magnet_uri uri with
       | None => []
       | Some p =>
           [async_add_torrent (set_torrent_params (cfg s)
              match load_file (files s) (resume_file (cfg s) (p_info_hash p)) default_limit with
              | None => p
              | Some bytes => (read_resume_data bytes).1
              end)]
       end.
Proof.
  unfold add_magnet. destruct (parse_magnet_uri uri) as [p|]; simpl.
  - split; [by split; eauto|done].
  - split; [split; [done|by intros [? ?]]|by rewrite app_nil_r].
Qed.

(** ** The watched directory *)

(** The metainfo a name of the directory stands for. *)
Definition torrent_of (f : fsys) (d n : string) : option torrent_info :=
  if bool_decide (path_extension (path_div d n) = ".torrent")
  then read_all f (path_div d n) ≫= parse_torrent else None.

Definition added_infos (cs : list lt_call) : list torrent_info :=
  omap (fun c => match c with async_add_torrent p => p_ti p | _ => None end) cs.

Lemma torrent_of_remove f d n m :
  no_char "/" n = true -> no_char "/" m = true -> n <> m ->
  torrent_of (remove_file f (path_div d n)).2 d m = torrent_of f d m.
Proof.
  intros Hn Hm Hne. unfold torrent_of. rewrite read_remove_ne; [done|].
  by intros ?%path_div_inj.
Qed.

Lemma omap_ext_elem {A B} (f g : A -> option B) (l : list A) : (forall x, x ∈ l -> f x = g x) -> omap f l = omap g l.
Proof.
  induction l as [|x l IH]; intros Hfg; [done|]. simpl.
  rewrite (Hfg x) by (by left). assert (omap f l = omap g l) as Hl.
  { apply IH. intros y Hy. apply Hfg. by right. }
  destruct (g x); [by f_equal|done].
Qed.

(** A scan reads and writes no file but those it is given. *)
(** The loop file by file. *)
Lemma scan_loop_cons d n names s :
  scan_loop d (n :: names) s = let '(ok, s1) := scan_loop d [n] s in if ok then scan_loop d names s1 else (false, s1).
Proof.
  cbn [scan_loop]. destruct (negb _); [done|]. destruct (add_torrent_file _ _) as [[] s1]; [|done].
  by destruct (remove_file _ _) as [[] f].
Qed.

Lemma scan_loop_other d names s q :
  (forall n, n ∈ names -> path_div d n <> q) ->
  read_all (files (scan_loop d names s).2) q = read_all (files s) q.
Proof.
  revert s. induction names as [|n names IH]; intros s Hq; cbn [scan_loop]; [done|].
  assert (forall m, m ∈ names -> path_div d m <> q) as Hq' by (intros m Hm; apply Hq; by right).
  case_bool_decide; cbn [negb]; [|by apply IH].
  unfold add_torrent_file. destruct (read_all _ _ ≫= _) as [ti|]; [|by apply IH]. simpl.
  pose proof (read_remove_ne (files s) (path_div d n) q) as Hne.
  destruct (remove_file (files s) (path_div d n)) as [[] f]; [|done].
  rewrite IH by done. apply Hne, Hq. by left.
Qed.

(** C28: a scan that no failing removal cuts short requests exactly the
    torrents the [.torrent] files of the directory parse to, once each and in
    the order of the listing; those files are gone afterwards, and every
    other entry is as before. *)
Theorem scan_dir_drains d names s s' :
  NoDup names -> Forall (fun n => no_char "/" n = true) names ->
  scan_dir d (Some names) s = (true, s') ->
  (exists cs, calls s' = calls s ++ cs /\ added_infos cs = omap (torrent_of (files s) d) names)
  /\ (forall n, n ∈ names ->
       read_all (files s') (path_div d n)
       = if torrent_of (files s) d n then None else read_all (files s) (path_div d n)).
Proof.
  cbn [scan_dir]. revert s. induction names as [|n names IH]; intros s Hnd Hns; cbn [scan_loop].
  { intros. simplify_eq. split; [|set_solver]. exists []. by rewrite app_nil_r. }
  apply NoDup_cons in Hnd as [Hnin Hnd]. apply Forall_cons in Hns as [Hn Hns].
  assert (forall m, m ∈ names -> n <> m /\ no_char "/" m = true) as Hother.
  { intros m Hm. split; [by intros ->|]. by eapply Forall_forall in Hns. }
  destruct (torrent_of (files s) d n) as [ti|] eqn:Ht; unfold torrent_of in Ht.
  - case_bool_decide as Hext; [|done]. simpl. unfold add_torrent_file. rewrite Ht. simpl.
    destruct (remove_file (files s) (path_div d n)) as [removed f] eqn:Hr. destruct removed; [|done].
    assert (f = (remove_file (files s) (path_div d n)).2) as -> by (by rewrite Hr).
    intros Hscan. pose proof Hscan as (IHc & IHr)%IH; [|done..]. simpl in IHc, IHr.
    assert (forall m, m ∈ names -> torrent_of (remove_file (files s) (path_div d n)).2 d m
                                   = torrent_of (files s) d m) as Hsame.
    { intros m Hm. destruct (Hother m Hm). by apply torrent_of_remove. }
    split.
    + destruct IHc as (cs & Hc & Hi). eexists (_ :: cs). split; [by rewrite Hc, <- app_assoc|].
      simpl. unfold torrent_of at 1. rewrite bool_decide_eq_true_2, Ht by done. f_equal. rewrite Hi.
      by apply omap_ext_elem.
    + intros m [->|Hm]%elem_of_cons.
      * pose proof (scan_loop_other d names (set_files (remove_file (files s) (path_div d n)).2
          (do_call (async_add_torrent (set_ti ti (set_torrent_params (cfg s)
            (with_resume (cfg s) (files s) (ti_info_hash ti) default_atp)))) s)) (path_div d n)) as Ho.
        rewrite Hscan in Ho. simpl in Ho. rewrite Ho.
        -- unfold torrent_of. rewrite bool_decide_eq_true_2, Ht by done. apply read_remove_eq. by rewrite Hr.
        -- intros m Hm. destruct (Hother m Hm). by intros ?%path_div_inj.
      * rewrite IHr, Hsame by done. destruct (Hother m Hm).
        rewrite read_remove_ne; [done|]. by intros ?%path_div_inj.
  - intros Hscan. assert (scan_loop d names s = (true, s')) as Hscan'.
    { case_bool_decide; cbn [negb] in Hscan; [|done]. unfold add_torrent_file in Hscan. by rewrite Ht in Hscan. }
    pose proof Hscan' as (IHc & IHr)%IH; [|done..]. split.
    + destruct IHc as (cs & Hc & Hi). exists cs. split; [done|]. simpl. unfold torrent_of at 1. by rewrite Ht.
    + intros m [->|Hm]%elem_of_cons; [|by apply IHr]. unfold torrent_of. rewrite Ht.
      pose proof (scan_loop_other d names s (path_div d n)) as Ho. rewrite Hscan' in Ho. apply Ho.
      intros m' Hm'. destruct (Hother m' Hm'). by intros ?%path_div_inj.
Qed.

(** ** Dropping *)

Section dropping.
Context {shl : Sha1Laws} {lpl : LtParsersLaws}.

Lemma drop_torrent_files ih wd s :
  files (drop_torrent ih wd s).2 = (remove_file (files s) (resume_file (cfg s) ih)).2
  /\ cfg (drop_torrent ih wd s).2 = cfg s.
Proof. unfold drop_torrent. by destruct (ses_find_torrent _ _). Qed.

Lemma read_removed f p : p ∉ fs_denied f -> read_all (remove_file f p).2 p = None.
Proof.
  intros Hp. unfold remove_file, read_all. destruct (fs_nodes f !! p) as [[?|]|] eqn:Hn; simpl; rewrite ?Hn; try done.
  rewrite bool_decide_eq_false_2 by done. simpl. by rewrite lookup_delete_eq.
Qed.

(** A dropped torrent stays dropped: as long as no later alert saves it
    again, nothing the next start requests has its hash. *)
Theorem dropped_torrent_not_reloaded ih wd s r s1 l s2 s3 names p :
  resume_owned (cfg s) (files s) -> resume_file (cfg s) ih ∉ fs_denied (files s) ->
  drop_torrent ih wd s = (r, s1) -> pop_alerts l s1 = Some s2 -> l ≫= saved_for ih = [] ->
  files s3 = files s2 -> cfg s3 = cfg s -> calls s3 = [] ->
  lists_dir (files s3) (dir_resumes (cfg s3)) names ->
  async_add_torrent p ∈ calls (load_resumes (Some names) s3) -> p_info_hash p <> ih.
Proof.
  intros Hown Hden Hd Hp Hsave Hf3 Hc3 Hn Hl Hin <-.
  destruct (drop_torrent_files (p_info_hash p) wd s) as [Hf1 Hc1]. rewrite Hd in Hf1, Hc1. simpl in Hf1, Hc1.
  assert (resume_owned (cfg s1) (files s1)) as Hown1.
  { rewrite Hf1, Hc1. intros h b q Hr. apply read_remove_sub in Hr. by eapply Hown. }
  pose proof (pop_alerts_owned _ _ _ Hp Hown1) as Hown2.
  destruct (pop_alerts_frame _ _ _ Hp) as (Hc2 & _).
  destruct (load_resume_loop_requests names s3) as (Hcalls & _).
  cbn [load_resumes] in Hin. rewrite Hcalls, Hn in Hin. simpl in Hin.
  apply list_elem_of_fmap in Hin as (q & Hq & Hin). simplify_eq.
  apply resume_requests_elem in Hin as (h & bytes & Hb & Hr); [|done].
  unfold load_file in Hb. destruct (read_all _ _) as [bytes'|] eqn:Hread; [|done].
  case_match; simplify_eq. rewrite Hf3, Hc3 in Hread.
  assert (p_info_hash q = h) as <-.
  { eapply Hown2; [|exact Hr]. rewrite Hc2, Hc1. exact Hread. }
  rewrite <- Hc1, (pop_alerts_unsaved _ _ _ _ Hp Hsave), Hf1, Hc1, read_removed in Hread; done.
Qed.

(** C38: a save that was under way when the torrent was dropped undoes the
    drop: handling its alert writes the resume file again, and the next start
    requests the torrent. *)
Theorem late_save_undoes_drop ih wd s p s2 s3 names :
  p_info_hash p = ih -> writable (files s) (resume_file (cfg s) ih) = true ->
  (Z.of_nat (String.length (write_resume_data_buf p)) <= default_limit)%Z ->
  pop_alerts [save_resume_data_alert p] (drop_torrent ih wd s).2 = Some s2 ->
  files s3 = files s2 -> cfg s3 = cfg s -> calls s3 = [] ->
  lists_dir (files s3) (dir_resumes (cfg s3)) names ->
  async_add_torrent p ∈ calls (load_resumes (Some names) s3).
Proof.
  intros Hih Hw Hlim Hp Hf3 Hc3 Hn Hl.
  destruct (drop_torrent_files ih wd s) as [Hf1 Hc1].
  destruct (pop_alerts_read _ _ _ ih Hp) as [Hr _].
  { by rewrite Hf1, Hc1, writable_remove. }
  simpl in Hr. rewrite decide_True in Hr by done. unfold last_or in Hr. simpl in Hr.
  destruct (load_resume_loop_requests names s3) as (Hcalls & _).
  cbn [load_resumes]. rewrite Hcalls, Hn.
  apply list_elem_of_fmap_2, resume_requests_elem; [done|].
  exists ih, (write_resume_data_buf p). split; [|apply read_write_resume].
  unfold load_file. rewrite Hf3, Hc3, <- Hc1, Hr. by rewrite (proj2 (Z.ltb_ge _ _)).
Qed.

End dropping.

(** ** The snapshot of the websocket clients *)

Lemma snapshot_wf stats arr :
  Forall (fun t => not_nan (progress t) = true) arr ->
  let j := JObject ["stats" ~> JObject (to_json_object stats);
                    "torrents" ~> JArray ((fun t => JObject (torrent_status_to_json_obj t)) <$> arr)] in
  json_wf j = true /\ plain j = true.
Proof.
  intros Harr j. destruct (to_json_object_wf stats) as [Hw Hp].
  assert (json_wf (JArray ((fun t => JObject (torrent_status_to_json_obj t)) <$> arr)) = true
          /\ plain (JArray ((fun t => JObject (torrent_status_to_json_obj t)) <$> arr)) = true) as [Haw Hap].
  { split; [apply json_wf_array|apply plain_array]; apply Forall_fmap;
      (eapply Forall_impl; [exact Harr|]); intros t Ht; by apply status_object_wf. }
  split.
  - apply json_wf_object. split; [apply (bool_decide_unpack _); by vm_compute|].
    intros k v. unfold j. simpl. repeat case_bool_decide; intros; by simplify_eq.
  - apply plain_object. repeat constructor; done.
Qed.

(** C31: the snapshot sent to the clients is a well-formed document whose keys
    need no escaping in a patch, and its array holds the object of every
    torrent of the map exactly once, in whatever order the map is walked. *)
Theorem getSyncStats_snapshot k iter s j :
  iter ≡ₚ map_to_list (m_all_handles s) ->
  (forall h st, m_all_handles s !! h = Some st -> not_nan (progress st) = true) ->
  getSyncStats k iter s = Some j ->
  json_wf j = true /\ plain j = true
  /\ exists stats, session_stats k s = Some stats
     /\ exists arr, j = JObject ["stats" ~> JObject (to_json_object stats); "torrents" ~> JArray arr]
        /\ length arr = size (m_all_handles s)
        /\ (forall o, o ∈ arr <-> exists h st, m_all_handles s !! h = Some st
                                           /\ o = JObject (torrent_status_to_json_obj st)).
Proof.
  intros Hi Hnan. unfold getSyncStats. destruct (session_stats k s) as [stats|]; [|done].
  simpl. intros [= <-].
  assert (forall h st, (h, st) ∈ iter <-> m_all_handles s !! h = Some st) as Hin.
  { intros h st. by rewrite Hi, elem_of_map_to_list. }
  destruct (snapshot_wf stats iter.*2) as [Hw Hp].
  { apply Forall_forall. intros t Ht. apply list_elem_of_fmap in Ht as ([h st] & -> & Hel).
    apply Hin in Hel. by eapply Hnan. }
  rewrite <- list_fmap_compose in Hw, Hp. split; [exact Hw|]. split; [exact Hp|].
  eexists. split; [done|]. eexists. split; [done|]. split.
  - rewrite length_fmap, Hi. apply length_map_to_list.
  - intros o. rewrite list_elem_of_fmap. split.
    + intros ([h st] & -> & Hel). apply Hin in Hel. eauto.
    + intros (h & st & Hm & ->). exists (h, st). split; [done|]. by apply Hin.
Qed.

(** ** The files of a torrent *)

(** The progress of a file in per mille, on files below 9 petabytes: it
    stays in range and reads 1000 exactly when the file is complete. *)
Theorem file_permille_range p size :
  (0 <= p <= size)%Z -> (size * 1000 < 2 ^ 63)%Z ->
  (0 <= file_permille p size <= 1000)%Z /\ (file_permille p size = 1000%Z <-> p = size).
Proof.
  intros Hp Hs. unfold file_permille. destruct (0 <? size)%Z eqn:Hz; bool_simp; [|lia].
  rewrite (swrap_small 64) by (change (2 ^ (64 - 1))%Z with (2 ^ 63)%Z; lia). rewrite Z.quot_div_nonneg by lia.
  assert (0 <= p * 1000 / size <= 1000)%Z as Hr.
  { split; [apply Z.div_pos; lia|]. apply Z.div_le_upper_bound; lia. }
  rewrite swrap_small by (change (2 ^ (32 - 1))%Z with 2147483648%Z; lia). split; [done|]. split; [|intros ->; rewrite Z.mul_comm; apply Z.div_mul; lia].
  intros He. pose proof (Z.mul_div_le (p * 1000) size). rewrite He in *. lia.
Qed.

(** The open state of a file: of the three access modes the one that is
    set; for such a mode the states [random_access] and [sparse] never show,
    because their [emplace] finds the key taken. *)
Theorem open_state_shown mode obj :
  obj_find "state" obj = None ->
  Z.land mode mode_rw_mask = mode_read_write
  \/ Z.land mode mode_rw_mask = mode_read_only \/ Z.land mode mode_rw_mask = mode_write_only ->
  exists v, obj_find "state" (emplace_all (open_state_entries mode) obj) = Some (JString v)
            /\ v ∈ ["read/write"; "read"; "write"].
Proof.
  intros Hobj Hmode. unfold open_state_entries, emplace_all. simpl.
  assert (exists v, v ∈ ["read/write"; "read"; "write"] /\
    (if (Z.land mode mode_rw_mask =? mode_read_write)%Z then (true, "state", JString "read/write")
     else if (Z.land mode mode_rw_mask =? mode_read_only)%Z then (true, "state", JString "read")
     else ((Z.land mode mode_rw_mask =? mode_write_only)%Z, "state", JString "write"))
    = (true, "state", JString v)) as (v & Hv & ->).
  { destruct (Z.eqb_spec (Z.land mode mode_rw_mask) mode_read_write); [exists "read/write"; set_solver|].
    destruct (Z.eqb_spec (Z.land mode mode_rw_mask) mode_read_only); [exists "read"; set_solver|].
    exists "write". split; [set_solver|]. destruct Hmode as [?|[?| ->]]; [done..|]. by rewrite Z.eqb_refl. }
  exists v. split; [|done].
  assert (forall b w o, obj_find "state" o = Some (JString v) ->
                        obj_find "state" (emplace_if b "state" w o) = Some (JString v)) as Hkeep.
  { intros b w o Ho. unfold emplace_if. destruct b; [|done]. rewrite obj_find_emplace, Ho. done. }
  simpl. do 2 apply Hkeep. unfold emplace_if. rewrite obj_find_emplace, Hobj. done.
Qed.

(** ** The main loop *)

(** The watched directory is scanned in a round exactly when it is
    enabled and the time of the last complete scan lies two seconds back, and
    the next one is due two seconds later; every round asks for the three
    updates first. *)
Theorem doLoop_round alerts now listing s s' :
  doLoop alerts now listing s = Some (true, s') ->
  exists s1, pop_alerts alerts (do_call post_dht_stats (do_call post_session_stats
               (do_call post_torrent_updates s))) = Some s1
  /\ if enable_watch (cfg s) && (next_dir_scan s1 <? now)%Z
     then next_dir_scan s' = (now + 2000000000)%Z
          /\ exists s2, scan_dir (dir_watches (cfg s)) listing s1 = (true, s2)
                        /\ calls s' = calls s2 /\ files s' = files s2
     else s' = s1.
Proof.
  unfold doLoop, post_requests. destruct (pop_alerts _ _) as [s1|] eqn:Hp; [|done]. simpl.
  pose proof (pop_alerts_frame _ _ _ Hp) as (Hc & _). simpl in Hc. rewrite Hc.
  intros Hl. exists s1. split; [done|]. destruct (enable_watch (cfg s) && _); [|by simplify_eq].
  destruct (scan_dir _ _ _) as [[] s2] eqn:Hs; simplify_eq/=. split; [done|]. by exists s2.
Qed.
End torrents.

(** ** Examples *)

#[local] Existing Instance sha1_demo.
#[local] Existing Instance handles_demo.
#[local] Existing Instance lt_demo.
#[local] Existing Instance parsers_demo.
#[local] Existing Instance session_demo.
#[local] Existing Instance demo_metrics.

Lemma pause_resume_torrent_flags_witness :
  let f := th_flags (ses_ demo_sheath) demo_handle in
  (pause_resume_torrent demo_hash demo_sheath).1 = true
  /\ flags_become f (th_flags (ses_ (pause_resume_torrent demo_hash demo_sheath).2) demo_handle)
       (negb (has_bit f flag_auto_managed) && has_bit f flag_paused) true.
Proof. apply (pause_resume_torrent_flags (sel := session_demo_laws) demo_hash demo_sheath). Defined.

Lemma resume_torrent_flags_witness :
  let f := th_flags (ses_ demo_sheath) demo_handle in
  (resume_torrent demo_hash demo_sheath).1 = true
  /\ flags_become f (th_flags (ses_ (resume_torrent demo_hash demo_sheath).2) demo_handle)
       (negb (has_bit f flag_auto_managed)) (negb (has_bit f flag_auto_managed) && has_bit f flag_paused).
Proof. apply (resume_torrent_flags (sel := session_demo_laws) demo_hash demo_sheath). Defined.

Lemma toggle_pause_resume_answer_witness :
  let '(r, s') := toggle_pause_resume demo_sheath in
  r = negb (ses_is_paused (ses_ demo_sheath)) /\ ses_is_paused (ses_ s') = r.
Proof. exact (toggle_pause_resume_answer (sel := session_demo_laws) demo_sheath). Defined.

(** Two torrent files and a text in the watched directory. *)
Definition demo_watch : sheath :=
  set_files (mk_fsys (<["/c/watching/a.torrent" := File demo_hex]>
    (<["/c/watching/b.torrent" := File "junk"]> (<["/c/watching/notes" := File demo_hex]>
       (fs_nodes demo_fs)))) ∅) demo_sheath.
Definition demo_watch_names : list string := ["notes"; "a.torrent"; "b.torrent"].
Definition demo_watched : bool * sheath := scan_dir "/c/watching" (Some demo_watch_names) demo_watch.

Lemma scan_dir_drains_witness :
  (exists cs, calls demo_watched.2 = calls demo_watch ++ cs
     /\ added_infos cs = omap (torrent_of (files demo_watch) "/c/watching") demo_watch_names)
  /\ (forall n, n ∈ demo_watch_names ->
       read_all (files demo_watched.2) (path_div "/c/watching" n)
       = if torrent_of (files demo_watch) "/c/watching" n then None
         else read_all (files demo_watch) (path_div "/c/watching" n)).
Proof.
  apply (scan_dir_drains "/c/watching" demo_watch_names demo_watch demo_watched.2).
  - apply (bool_decide_unpack _). vm_compute. done.
  - by repeat constructor.
  - assert (demo_watched.1 = true) as <- by (vm_compute; reflexivity).
    unfold demo_watched. by destruct (scan_dir _ _ _).
Defined.

(** The torrent of [demo_restart] is dropped; another one is saved later. *)
Definition demo_dropped : sheath := (drop_torrent demo_hash true demo_restart).2.
Definition demo_dropped_after : sheath := result_of (pop_alerts [save_resume_data_alert (blank_atp zero_hash)] demo_dropped).
Definition demo_second : sheath := new_sheath demo_session "/store" "" "/c" 0 0 0 (files demo_dropped_after).
Definition demo_second_names : list string := [proj1_sig zero_hash +:+ RESUME_EXT].

Lemma demo_second_files : files demo_second = one_file zero_hash (write_resume_data_buf (blank_atp zero_hash)).
Proof. vm_compute. reflexivity. Qed.

Lemma demo_owned : resume_owned (cfg demo_restart) (files demo_restart).
Proof.
  intros h bytes p Hr Hp. rewrite demo_restart_files in Hr.
  unfold read_all, one_file in Hr. cbn [fs_nodes] in Hr.
  destruct (decide (resume_file (cfg demo_restart) h = resume_file (cfg demo_restart) demo_hash)) as [He|Hne].
  - apply (resume_file_inj (shl := sha1_demo_laws)) in He as ->.
    change (resume_file (cfg demo_restart) demo_hash) with ("/c/.resume/" +:+ (to_hex demo_hash +:+ RESUME_EXT)) in Hr.
    rewrite lookup_insert_eq in Hr. simplify_eq.
    rewrite (read_write_resume (LtParsersLaws := parsers_demo_laws)) in Hp. by simplify_eq.
  - rewrite lookup_insert_ne in Hr by (intros He; apply Hne; by rewrite <- He).
    assert (map_Forall (fun _ n => n = Dir) (fs_nodes demo_fs)) as Hd.
    { unfold demo_fs. simpl. repeat apply map_Forall_insert_2; try done. }
    destruct (fs_nodes demo_fs !! _) as [[b|]|] eqn:Hn; try done. by apply Hd in Hn.
Qed.

(** On the files [one_file] that one torrent is requested. *)
Lemma one_file_requests s h p :
  files s = one_file h (write_resume_data_buf p) -> dir_resumes (cfg s) = "/c/.resume" ->
  (Z.of_nat (String.length (write_resume_data_buf p)) <= default_limit)%Z ->
  async_add_torrent p ∈ calls (load_resumes (Some [to_hex h +:+ RESUME_EXT]) s).
Proof.
  intros Hf Hd Hlim. cbn [load_resumes].
  destruct (load_resume_loop_requests [to_hex h +:+ RESUME_EXT] s) as (-> & _).
  apply elem_of_app. right. apply list_elem_of_fmap_2.
  apply (resume_requests_elem (shl := sha1_demo_laws)); [rewrite Hf, Hd; apply one_file_listing|].
  exists h, (write_resume_data_buf p). split; [|apply (read_write_resume (LtParsersLaws := parsers_demo_laws))].
  unfold load_file, read_all, resume_file. rewrite Hf, Hd, one_file_lookup. cbv beta iota.
  by rewrite (proj2 (Z.ltb_ge _ _)).
Qed.

Lemma demo_drop_eq : drop_torrent demo_hash true demo_restart = (true, demo_dropped).
Proof.
  assert ((drop_torrent demo_hash true demo_restart).1 = true) as <- by (vm_compute; reflexivity).
  unfold demo_dropped. by destruct (drop_torrent _ _ _).
Qed.

Lemma demo_second_requests :
  async_add_torrent (blank_atp zero_hash) ∈ calls (load_resumes (Some demo_second_names) demo_second).
Proof.
  apply (one_file_requests demo_second zero_hash (blank_atp zero_hash));
    [apply demo_second_files|reflexivity|vm_compute; discriminate].
Qed.

Lemma dropped_torrent_not_reloaded_witness :
  async_add_torrent (blank_atp zero_hash) ∈ calls (load_resumes (Some demo_second_names) demo_second)
  /\ p_info_hash (blank_atp zero_hash) <> demo_hash.
Proof.
  split; [apply demo_second_requests|].
  apply (dropped_torrent_not_reloaded (shl := sha1_demo_laws) (lpl := parsers_demo_laws)
           demo_hash true demo_restart true demo_dropped [save_resume_data_alert (blank_atp zero_hash)]
           demo_dropped_after demo_second demo_second_names (blank_atp zero_hash)).
  - apply demo_owned.
  - by rewrite demo_restart_files.
  - apply demo_drop_eq.
  - apply result_of_eq. vm_compute. reflexivity.
  - reflexivity.
  - reflexivity.
  - reflexivity.
  - reflexivity.
  - rewrite demo_second_files. apply (one_file_listing zero_hash).
  - apply demo_second_requests.
Defined.

Definition demo_undone : sheath :=
  result_of (pop_alerts [save_resume_data_alert (blank_atp demo_hash)] demo_dropped).
Definition demo_third : sheath := new_sheath demo_session "/store" "" "/c" 0 0 0 (files demo_undone).

Lemma late_save_undoes_drop_witness :
  async_add_torrent (blank_atp demo_hash) ∈ calls (load_resumes (Some demo_names) demo_third).
Proof.
  apply (late_save_undoes_drop (shl := sha1_demo_laws) (lpl := parsers_demo_laws)
           demo_hash true demo_restart (blank_atp demo_hash) demo_undone demo_third demo_names).
  - reflexivity.
  - vm_compute. reflexivity.
  - vm_compute. discriminate.
  - apply result_of_eq. vm_compute. reflexivity.
  - reflexivity.
  - reflexivity.
  - reflexivity.
  - assert (files demo_third = one_file demo_hash (write_resume_data_buf (blank_atp demo_hash))) as ->
      by (vm_compute; reflexivity).
    apply (one_file_listing demo_hash).
Defined.

(** A snapshot of [demo_after], with garbage in the stats. *)
Definition demo_clocks : clocks := mk_clocks 3 3500 garbage.
Definition demo_snap_state : sheath := set_svs demo_values demo_after.
Definition demo_iter : list (torrent_handle * torrent_status) := map_to_list (m_all_handles demo_snap_state).
Definition demo_snapshot : json := default JNull (getSyncStats demo_clocks demo_iter demo_snap_state).

Lemma getSyncStats_snapshot_witness :
  json_wf demo_snapshot = true /\ plain demo_snapshot = true
  /\ exists stats, session_stats demo_clocks demo_snap_state = Some stats
     /\ exists arr, demo_snapshot = JObject ["stats" ~> JObject (to_json_object stats); "torrents" ~> JArray arr]
        /\ length arr = size (m_all_handles demo_snap_state)
        /\ (forall o, o ∈ arr <-> exists h st, m_all_handles demo_snap_state !! h = Some st
                                           /\ o = JObject (torrent_status_to_json_obj st)).
Proof.
  apply (getSyncStats_snapshot demo_clocks demo_iter demo_snap_state).
  - reflexivity.
  - assert (map_Forall (fun _ st => not_nan (progress st) = true) (m_all_handles demo_snap_state)) as Hn.
    { apply map_Forall_to_list, Forall_forall. intros kv Hkv.
      assert (forallb (fun kv => not_nan (progress kv.2)) demo_iter = true) as Hf by (vm_compute; reflexivity).
      apply forallb_Forall in Hf. rewrite Forall_forall in Hf. by apply Hf in Hkv; destruct kv. }
    intros h st Hst. by apply Hn in Hst.
  - vm_compute. reflexivity.
Defined.

Lemma file_permille_range_witness :
  (0 <= file_permille 5 9 <= 1000)%Z /\ (file_permille 5 9 = 1000%Z <-> 5%Z = 9%Z).
Proof. apply (file_permille_range 5 9); [lia|vm_compute; reflexivity]. Defined.

Lemma open_state_shown_witness :
  exists v, obj_find "state" (emplace_all (open_state_entries 18) []) = Some (JString v)
            /\ v ∈ ["read/write"; "read"; "write"].
Proof. apply (open_state_shown 18 []); [reflexivity|left; reflexivity]. Defined.

Definition demo_looped : bool * sheath :=
  default (false, demo_sheath) (doLoop demo_alerts 500 (Some demo_watch_names) demo_watch).

Lemma doLoop_round_witness :
  exists s1, pop_alerts demo_alerts (do_call post_dht_stats (do_call post_session_stats
               (do_call post_torrent_updates demo_watch))) = Some s1
  /\ if enable_watch (cfg demo_watch) && (next_dir_scan s1 <? 500)%Z
     then next_dir_scan demo_looped.2 = (500 + 2000000000)%Z
          /\ exists s2, scan_dir (dir_watches (cfg demo_watch)) (Some demo_watch_names) s1 = (true, s2)
                        /\ calls demo_looped.2 = calls s2 /\ files demo_looped.2 = files s2
     else demo_looped.2 = s1.
Proof.
  apply (doLoop_round demo_alerts 500 (Some demo_watch_names) demo_watch demo_looped.2).
  assert (demo_looped.1 = true) as <- by (vm_compute; reflexivity).
  assert (defined (doLoop demo_alerts 500 (Some demo_watch_names) demo_watch) = true) as Hd
    by (vm_compute; reflexivity).
  unfold demo_looped. by destruct (doLoop _ _ _ _) as [[b s]|].
Defined.
