(* ===== verification/Accounting.v ===== *)
(** * Runs of operations, and the count of outstanding resume data

    [num_outstanding_resume_data] decides when the program may end: this file
    follows it through any sequence of operations of [Sheath] and [Torrents],
    between which libtorrent's session may become any other. *)

From S2P Require Import Prelude CStd Json JsonPatch Fs Util SessionStats TorrentStatus Libtorrent Demo Sheath Torrents.

Section accounting.
Context {sha : Sha1} {ltd : LtData} {hs : Handles} {ltp : LtParsers} {lts : Session} {mt : Metrics}.

(** ** Runs *)

(** One operation of the object, with what it meets outside; or the session
    changes on its own. *)
Inductive op :=
  | op_load (listing : option (list string))
  | op_set_peer (fp : nat) (addr : string)
  | op_loop (alerts : list alert) (now : Z) (listing : option (list string))
  | op_magnet (uri : string)
  | op_add (buffer save_path : string)
  | op_pause_resume (ih : sha1_hash)
  | op_resume (ih : sha1_hash)
  | op_drop (ih : sha1_hash) (with_data : bool)
  | op_toggle
  | op_save_all (popped : nat -> list alert) (waits : list (option (list alert)))
  | op_save_session
  | op_libtorrent (ses : session)
  | op_post                                  (* the parts of a round *)
  | op_alert (a : alert)
  | op_scan (name : string)
  | op_scanned (now : Z).

Definition exec (o : op) (s : sheath) : option sheath :=
  match o with
  | op_load l => Some (load_resumes l s)
  | op_set_peer fp a => snd <$> set_peer fp a s
  | op_loop al now l => snd <$> doLoop al now l s
  | op_magnet uri => Some (add_magnet uri s).2
  | op_add b d => Some (add_torrent_buf b d s).2
  | op_pause_resume ih => Some (pause_resume_torrent ih s).2
  | op_resume ih => Some (resume_torrent ih s).2
  | op_drop ih wd => Some (drop_torrent ih wd s).2
  | op_toggle => Some (toggle_pause_resume s).2
  | op_save_all popped waits => snd <$> save_all_resume popped waits s
  | op_save_session => Some (save_session s)
  | op_libtorrent ses => Some (set_ses ses (calls s) s)
  | op_post => Some (post_requests s)
  | op_alert a => snd <$> handle_alert a s
  | op_scan n => Some (scan_loop (dir_watches (cfg s)) [n] s).2
  | op_scanned now => Some (set_next_scan (now + WATCH_INTERVAL * 1000000000) s)
  end.

(** The alerts the waiting loop handles: it ends where the counter reaches
    zero. *)
Fixpoint waits_alerts (waits : list (option (list alert))) (s : sheath) : list alert :=
  if (0 <? num_outstanding_resume_data s)%Z then
    match waits with
    | [] => []
    | None :: waits' => waits_alerts waits' s
    | Some alerts :: waits' =>
        match pop_alerts alerts s with
        | Some s' => alerts ++ waits_alerts waits' s'
        | None => []
        end
    end
  else [].

(** Those of the requests' loop. *)
Fixpoint ask_alerts (popped : nat -> list alert) (idx : nat) (temp : list torrent_status) (s : sheath) : list alert :=
  match temp with
  | [] => []
  | st :: temp' =>
      match ask_resume (st_handle st) false s with
      | None => []
      | Some s =>
          if S idx mod 32 =? 0 then
            match pop_alerts (popped (S idx)) s with
            | Some s' => popped (S idx) ++ ask_alerts popped (S idx) temp' s'
            | None => []
            end
          else ask_alerts popped (S idx) temp' s
      end
  end.

Definition to_save (s : sheath) : list torrent_status :=
  filter (fun st => needs_saving (ses_ s) st = true) (ses_torrents (ses_ s)).

(** The alerts an operation handles. *)
Definition op_alerts (o : op) (s : sheath) : list alert :=
  match o with
  | op_loop al _ _ => al
  | op_alert a => [a]
  | op_save_all popped w =>
      ask_alerts popped 0 (to_save s) s
      ++ match ask_all popped 0 (to_save s) s with Some s' => waits_alerts w s' | None => [] end
  | _ => []
  end.

(** A run, with the alerts it handles. *)
Fixpoint run (os : list op) (s : sheath) : option (sheath * list alert) :=
  match os with
  | [] => Some (s, [])
  | o :: os' => s1 ← exec o s; r ← run os' s1; Some (r.1, op_alerts o s ++ r.2)
  end.

Lemma ops_run_app os1 os2 s s1 l1 s2 l2 :
  run os1 s = Some (s1, l1) -> run os2 s1 = Some (s2, l2) -> run (os1 ++ os2) s = Some (s2, l1 ++ l2).
Proof.
  revert s l1. induction os1 as [|o os1 IH]; intros s l1; cbn [app run]; [by intros [= <- <-]|].
  destruct (exec o s) as [s'|]; [|done]. cbn [mbind option_bind].
  destruct (run os1 s') as [[s0 l0]|] eqn:Hr; [|done]. cbn [mbind option_bind fst snd]. intros [= <- <-] H2.
  rewrite (IH _ _ Hr H2). cbn [mbind option_bind fst snd]. by rewrite app_assoc.
Qed.

Lemma wait_saves_balance w s b s' :
  wait_saves w s = Some (b, s') -> balance s' = (balance s - count is_reply (waits_alerts w s))%Z.
Proof.
  revert s. induction w as [|[l|] w IH]; intros s; simpl;
    destruct (0 <? num_outstanding_resume_data s)%Z; intros Hw; simplify_eq; try (unfold count; simpl; lia).
  - destruct (pop_alerts l s) as [s1|] eqn:Hp; [|done]. simpl in Hw. rewrite count_app.
    apply IH in Hw. apply pop_alerts_balance in Hp. lia.
  - by apply IH.
Qed.

Lemma ask_all_balance popped idx temp s s' :
  ask_all popped idx temp s = Some s' -> balance s' = (balance s - count is_reply (ask_alerts popped idx temp s))%Z.
Proof.
  revert idx s. induction temp as [|st temp IH]; intros idx s; cbn [ask_all ask_alerts].
  - intros. simplify_eq. unfold count. simpl. lia.
  - destruct (ask_resume (st_handle st) false s) as [s0|] eqn:Hs; [|done]. cbn [mbind option_bind].
    apply ask_resume_inv in Hs as [_ Hb]. cbv zeta. destruct (S idx mod 32 =? 0); cbn [mbind option_bind]; [|intros Ha%IH; lia].
    destruct (pop_alerts _ _) as [s1|] eqn:Hp; [|done]. cbn [mbind option_bind].
    rewrite count_app. apply pop_alerts_balance in Hp. intros Ha%IH. lia.
Qed.

Lemma load_resumes_balance l s : balance (load_resumes l s) = balance s.
Proof.
  destruct l as [names|]; [|done]. simpl. revert s.
  induction names as [|n names IH]; intros s; [done|]. simpl. rewrite IH. unfold load_resume.
  destruct (is_resume_file _); simpl; [|done]. destruct (load_file _ _ _); [|done].
  destruct (read_resume_data _) as [p []]; [done|]. rewrite balance_call. simpl. lia.
Qed.

Lemma add_torrent_file_balance fn s : balance (add_torrent_file fn s).2 = balance s.
Proof. unfold add_torrent_file. destruct (_ ≫= _); [|done]. simpl. rewrite balance_call. simpl. lia. Qed.

Lemma scan_dir_balance d l s : balance (scan_dir d l s).2 = balance s.
Proof.
  destruct l as [names|]; [|done]. simpl. revert s.
  induction names as [|n names IH]; intros s; [done|]. cbn [scan_loop].
  case_bool_decide; cbn [negb]; [|apply IH].
  pose proof (add_torrent_file_balance (path_div d n) s) as Ha.
  destruct (add_torrent_file _ _) as [[] s1]; simpl in Ha; [|by rewrite IH].
  destruct (remove_file _ _) as [[] f]; [rewrite IH|]; exact Ha.
Qed.

Lemma doLoop_balance al now l s b s' :
  doLoop al now l s = Some (b, s') -> balance s' = (balance s - count is_reply al)%Z.
Proof.
  unfold doLoop, post_requests. destruct (pop_alerts _ _) as [s1|] eqn:Hp; [|done]. simpl.
  apply pop_alerts_balance in Hp. rewrite !balance_call in Hp. simpl in Hp.
  pose proof (scan_dir_balance (dir_watches (cfg s1)) l s1) as Hs.
  destruct (enable_watch (cfg s1) && _); [|intros; simplify_eq; lia].
  destruct (scan_dir _ _ _) as [[] s2]; simpl in Hs; intros; simplify_eq/=; unfold balance in *; simpl; lia.
Qed.

Lemma exec_balance o s s' : exec o s = Some s' -> balance s' = (balance s - count is_reply (op_alerts o s))%Z.
Proof.
  destruct o as [l|fp a|al now l|uri|b d|ih|ih|ih wd| |popped w| |ses| |a|n|now]; simpl; intros He; simplify_eq/=; rewrite ?count_nil.
  - rewrite load_resumes_balance. lia.
  - unfold set_peer in He. destruct (parse_endpoint a) as [[ep|]|]; simplify_eq/=; unfold balance; simpl; lia.
  - destruct (doLoop al now l s) as [[b s1]|] eqn:Hl; simplify_eq/=. by eapply doLoop_balance.
  - unfold add_magnet. destruct (parse_magnet_uri _); simpl; rewrite ?balance_call; simpl; lia.
  - unfold add_torrent_buf. destruct (parse_torrent _); [|simpl; lia].
    destruct (create_directory _ _) as [[c ec] f]. destruct (negb c && _); simpl; rewrite ?balance_call;
      unfold balance; simpl; lia.
  - unfold pause_resume_torrent. destruct (ses_find_torrent _ _); [|simpl; lia].
    destruct (_ =? _)%Z; simpl; rewrite !balance_call; simpl; lia.
  - unfold resume_torrent. destruct (ses_find_torrent _ _); [|simpl; lia].
    destruct (has_bit _ _ && _); simpl; rewrite !balance_call; simpl; lia.
  - unfold drop_torrent. destruct (ses_find_torrent _ _); simpl; rewrite ?balance_call;
      unfold balance; simpl; lia.
  - unfold toggle_pause_resume. destruct (ses_is_paused _); simpl; rewrite balance_call; simpl; lia.
  - unfold save_all_resume in He. fold (to_save s) in He.
    destruct (ask_all popped 0 (to_save s) s) as [s1|] eqn:Ha; [|done]. simpl in He.
    destruct (wait_saves w s1) as [[b s2]|] eqn:Hw; simplify_eq/=.
    rewrite count_app. apply ask_all_balance in Ha. apply wait_saves_balance in Hw. lia.
  - unfold save_session. destruct (ses_is_paused _); unfold balance; simpl;
      rewrite ?count_app, ?count_one; simpl; lia.
  - unfold balance. simpl. lia.
  - unfold post_requests. rewrite !balance_call. simpl. lia.
  - destruct (handle_alert a s) as [[r s1]|] eqn:Ha; simplify_eq/=. assert (pop_alerts [a] s = Some s') as Hp by (cbn; by rewrite Ha).
    by apply pop_alerts_balance in Hp.
  - pose proof (scan_dir_balance (dir_watches (cfg s)) (Some [n]) s) as Hs. etrans; [exact Hs|lia].
  - unfold balance. simpl. lia.
Qed.

Lemma run_balance os s s' al : run os s = Some (s', al) -> balance s' = (balance s - count is_reply al)%Z.
Proof.
  revert s al. induction os as [|o os IH]; intros s al; simpl.
  - intros. simplify_eq. rewrite count_nil. lia.
  - destruct (exec o s) as [s1|] eqn:He; [|done]. simpl.
    destruct (run os s1) as [[s2 r2]|] eqn:Hr; simpl; intros; simplify_eq. rewrite count_app.
    apply IH in Hr. apply exec_balance in He. lia.
Qed.

(** After any run of operations the counter of outstanding resume data is
    the number of requests made of the session less the number of replies
    taken in, so it is what the comment in the class declares. *)
Theorem outstanding_accounting os s s' al :
  run os s = Some (s', al) -> calls s = [] -> num_outstanding_resume_data s = 0%Z ->
  num_outstanding_resume_data s' = (count is_ask (calls s') - count is_reply al)%Z.
Proof.
  intros Hb%run_balance Hc Hn. unfold balance in Hb. rewrite Hc, Hn, count_nil in Hb. lia.
Qed.

(** ** The configuration *)

Lemma add_torrent_file_cfg fn s : cfg (add_torrent_file fn s).2 = cfg s.
Proof. unfold add_torrent_file. by destruct (_ ≫= _). Qed.

Lemma scan_dir_cfg d l s : cfg (scan_dir d l s).2 = cfg s.
Proof.
  destruct l as [names|]; [|done]. simpl. revert s.
  induction names as [|n names IH]; intros s; [done|]. cbn [scan_loop].
  case_bool_decide; cbn [negb]; [|apply IH].
  pose proof (add_torrent_file_cfg (path_div d n) s) as Ha.
  destruct (add_torrent_file _ _) as [[] s1]; simpl in Ha; [|by rewrite IH].
  destruct (remove_file _ _) as [[] f]; [rewrite IH|]; exact Ha.
Qed.

(** The two loops of [save_all_resume] do to the data what the alerts they
    handle do. *)
Definition alerts_frame (al : list alert) (s s' : sheath) : Prop :=
  cfg s' = cfg s /\ files s' = foldl (fun f a => files_after (cfg s) a f) (files s) al
  /\ m_all_handles s' = foldl (fun m a => handles_after a m) (m_all_handles s) al.

Lemma alerts_frame_app l1 l2 s s1 s2 : alerts_frame l1 s s1 -> alerts_frame l2 s1 s2 -> alerts_frame (l1 ++ l2) s s2.
Proof. intros (Hc & Hf & Hm) (Hc2 & Hf2 & Hm2). unfold alerts_frame. rewrite !foldl_app. by rewrite Hc2, Hf2, Hm2, Hc, Hf, Hm. Qed.

Lemma pop_alerts_data l s s' : pop_alerts l s = Some s' -> alerts_frame l s s'.
Proof. by intros (? & _ & _ & ? & ?)%pop_alerts_frame. Qed.

Lemma ask_all_data popped idx temp s s' :
  ask_all popped idx temp s = Some s' -> alerts_frame (ask_alerts popped idx temp s) s s'.
Proof.
  revert idx s. induction temp as [|st temp IH]; intros idx s; cbn [ask_all ask_alerts]; [by intros [= <-]|].
  destruct (ask_resume _ _ _) as [s0|] eqn:Hs; [|done]. cbn [mbind option_bind]. apply ask_resume_inv in Hs as [(Hc & Hf & Hm & _) _].
  assert (forall l s1, alerts_frame l s0 s1 -> alerts_frame l s s1) as H0 by (unfold alerts_frame; by rewrite Hc, Hf, Hm).
  cbv zeta. destruct (S idx mod 32 =? 0); cbn [mbind option_bind]; [|intros Ha%IH; by apply H0].
  destruct (pop_alerts _ _) as [s1|] eqn:Hp; [|done]. cbn [mbind option_bind].
  intros Ha%IH. apply H0. eapply alerts_frame_app; [|exact Ha]. by apply pop_alerts_data.
Qed.

Lemma wait_saves_data w s b s' : wait_saves w s = Some (b, s') -> alerts_frame (waits_alerts w s) s s'.
Proof.
  revert s. induction w as [|[l|] w IH]; intros s; simpl;
    destruct (0 <? num_outstanding_resume_data s)%Z; intros Hw; simplify_eq; try done.
  - destruct (pop_alerts l s) as [s1|] eqn:Hp; [|done]. simpl in Hw.
    eapply alerts_frame_app; [by apply pop_alerts_data|by apply IH].
  - by apply IH.
Qed.

Lemma save_all_data popped w s b s' :
  save_all_resume popped w s = Some (b, s') -> alerts_frame (op_alerts (op_save_all popped w) s) s s'.
Proof.
  unfold save_all_resume. fold (to_save s). cbn [op_alerts]. destruct (ask_all _ _ _ _) as [s1|] eqn:Ha; [|done].
  cbn [mbind option_bind]. intros Hw%wait_saves_data. eapply alerts_frame_app; [by apply ask_all_data|done].
Qed.

(** No operation changes the configuration. *)
Lemma exec_cfg o s s' : exec o s = Some s' -> cfg s' = cfg s.
Proof.
  destruct o as [l|fp a|al now l|uri|b d|ih|ih|ih wd| |popped w| |ses| |a|n|now]; simpl; intros He; simplify_eq/=; try done.
  - destruct l as [names|]; [|done]. apply load_resume_loop_requests.
  - unfold set_peer in He. by destruct (parse_endpoint a) as [[ep|]|]; simplify_eq/=.
  - unfold Torrents.doLoop in He. destruct (pop_alerts _ _) as [s1|] eqn:Hp; simplify_eq/=.
    apply pop_alerts_frame in Hp as (Hc & _). simpl in Hc. rewrite <- Hc.
    destruct (enable_watch _ && _); [|by simplify_eq/=].
    pose proof (scan_dir_cfg (dir_watches (cfg s1)) l s1) as Hs.
    by destruct (scan_dir _ _ _) as [[] s2]; simplify_eq/=.
  - unfold add_magnet. by destruct (parse_magnet_uri _).
  - unfold add_torrent_buf. destruct (parse_torrent _); [|done].
    destruct (create_directory _ _) as [[c ec] f]. by destruct (negb c && _).
  - unfold pause_resume_torrent. destruct (ses_find_torrent _ _); [|done]. by destruct (_ =? _)%Z.
  - unfold resume_torrent. destruct (ses_find_torrent _ _); [|done]. by destruct (has_bit _ _ && _).
  - unfold drop_torrent. by destruct (ses_find_torrent _ _).
  - by destruct (ses_is_paused _).
  - destruct (save_all_resume popped w s) as [[b s1]|] eqn:Hs; simplify_eq/=. by apply save_all_data in Hs as [Hc _].
  - unfold save_session. by destruct (ses_is_paused _).
  - destruct (handle_alert a s) as [[r s1]|] eqn:Ha; simplify_eq/=. by apply handle_alert_frame in Ha as (Hc & _).
  - exact (scan_dir_cfg (dir_watches (cfg s)) (Some [n]) s).
Qed.

Lemma run_cfg os s s' al : run os s = Some (s', al) -> cfg s' = cfg s.
Proof.
  revert s al. induction os as [|o os IH]; intros s al; cbn [run]; [by intros [= <- _]|].
  destruct (exec o s) as [s1|] eqn:He; [|done]. cbn [mbind option_bind].
  destruct (run os s1) as [[s2 r2]|] eqn:Hr; cbn [mbind option_bind fst snd]; [|done]. intros [= <- _].
  rewrite (IH _ _ Hr). by eapply exec_cfg.
Qed.

(** ** The torrents *)

Lemma load_resume_loop_handles names s : m_all_handles (load_resume_loop names s) = m_all_handles s.
Proof.
  revert s. induction names as [|n names IH]; intros s; [done|]. simpl. rewrite IH. unfold load_resume.
  destruct (is_resume_file _); simpl; [|done]. destruct (load_file _ _ _); [|done]. by destruct (read_resume_data _) as [p []].
Qed.

Lemma add_torrent_file_handles fn s : m_all_handles (add_torrent_file fn s).2 = m_all_handles s.
Proof. unfold add_torrent_file. by destruct (_ ≫= _). Qed.

Lemma scan_loop_handles d names s : m_all_handles (scan_loop d names s).2 = m_all_handles s.
Proof.
  revert s. induction names as [|n names IH]; intros s; [done|]. cbn [scan_loop].
  case_bool_decide; cbn [negb]; [|apply IH].
  pose proof (add_torrent_file_handles (path_div d n) s) as Ha.
  destruct (add_torrent_file _ _) as [[] s1]; simpl in Ha; [|by rewrite IH].
  destruct (remove_file _ _) as [[] f]; [rewrite IH|]; exact Ha.
Qed.

(** Only alerts change the map of the torrents. *)
Lemma exec_handles o s s' :
  exec o s = Some s' -> m_all_handles s' = foldl (fun m a => handles_after a m) (m_all_handles s) (op_alerts o s).
Proof.
  destruct o as [l|fp a|al now l|uri|b d|ih|ih|ih wd| |popped w| |ses| |a|n|now]; simpl; intros He; simplify_eq/=; try done.
  - destruct l as [names|]; [|done]. apply load_resume_loop_handles.
  - unfold set_peer in He. by destruct (parse_endpoint a) as [[ep|]|]; simplify_eq/=.
  - unfold Torrents.doLoop in He. destruct (pop_alerts _ _) as [s1|] eqn:Hp; simplify_eq/=.
    apply pop_alerts_data in Hp as (_ & _ & Hm). simpl in Hm. rewrite <- Hm.
    destruct (enable_watch _ && _); [|by simplify_eq/=]. destruct l as [names|]; [|by simplify_eq/=].
    cbn [scan_dir] in He. pose proof (scan_loop_handles (dir_watches (cfg s1)) names s1) as Hs.
    by destruct (scan_loop _ _ _) as [[] s2]; simplify_eq/=.
  - unfold add_magnet. by destruct (parse_magnet_uri _).
  - unfold add_torrent_buf. destruct (parse_torrent _); [|done].
    destruct (create_directory _ _) as [[c ec] f]. by destruct (negb c && _).
  - unfold pause_resume_torrent. destruct (ses_find_torrent _ _); [|done]. by destruct (_ =? _)%Z.
  - unfold resume_torrent. destruct (ses_find_torrent _ _); [|done]. by destruct (has_bit _ _ && _).
  - unfold drop_torrent. by destruct (ses_find_torrent _ _).
  - by destruct (ses_is_paused _).
  - destruct (save_all_resume popped w s) as [[b s1]|] eqn:Hs; simplify_eq/=. by apply save_all_data in Hs as (_ & _ & Hm).
  - unfold save_session. by destruct (ses_is_paused _).
  - destruct (handle_alert a s) as [[r s1]|] eqn:Ha; simplify_eq/=. by apply handle_alert_frame in Ha as (_ & _ & _ & _ & Hm).
  - exact (scan_loop_handles (dir_watches (cfg s)) [n] s).
Qed.

Lemma run_handles os s s' al h :
  run os s = Some (s', al) -> m_all_handles s' !! h = last_or (m_all_handles s !! h) (al ≫= status_events h).
Proof.
  intros Hr. rewrite <- alerts_latest. revert s al Hr. induction os as [|o os IH]; intros s al; cbn [run]; [by intros [= <- <-]|].
  destruct (exec o s) as [s1|] eqn:He; [|done]. cbn [mbind option_bind].
  destruct (run os s1) as [[s2 r2]|] eqn:Hr; cbn [mbind option_bind fst snd]; [|done]. intros [= <- <-].
  rewrite (IH _ _ Hr), foldl_app. by rewrite (exec_handles _ _ _ He).
Qed.

(** ** The end *)

Context {sel : SessionLaws}.

(** The requests' loop does not fail on torrents that are there and alerts
    whose handlers return. *)
Lemma ask_all_total popped idx temp s :
  Forall (fun st => th_is_valid (ses_ s) (st_handle st) = true) temp ->
  (forall i, Forall (fun a => alert_safe s a = true) (popped i)) ->
  exists s', ask_all popped idx temp s = Some s' /\ same_safety s s'.
Proof.
  intros Ht. revert idx s Ht. induction temp as [|st temp IH]; intros idx s Ht Hp; [by exists s|].
  cbn [ask_all]. inversion_clear Ht as [|? ? Hst Htemp]. pose proof (ask_resume_live (st_handle st) false s) as Ha.
  destruct (ask_resume _ _ _) as [s1|]; [|congruence]. destruct Ha as (_ & Hsv & Hd). cbn [mbind option_bind]. cbv zeta.
  pose proof (same_data_safety _ _ Hd Hsv) as Hs1.
  assert (exists s2, (if S idx mod 32 =? 0 then pop_alerts (popped (S idx)) s1 else Some s1) = Some s2
            /\ same_safety s s2) as (s2 & -> & Hs2).
  { destruct (_ =? 0); [|by exists s1]. destruct (pop_alerts_safe (popped (S idx)) s1) as (s2 & Hs2 & Hss).
    - by apply (alerts_safe_keep s).
    - exists s2. split; [done|]. by eapply same_safety_trans. }
  cbn [mbind option_bind]. destruct (IH (S idx) s2) as (s3 & Hs3 & Hss3).
  - eapply Forall_impl; [exact Htemp|]. intros x Hx. destruct Hs2 as [Hv2 _]. by rewrite (Hv2 _).
  - intros i. by apply (alerts_safe_keep s).
  - exists s3. split; [done|]. by eapply same_safety_trans.
Qed.

Lemma to_save_valid s : Forall (fun st => th_is_valid (ses_ s) (st_handle st) = true) (to_save s).
Proof.
  apply Forall_forall. intros st Hst. unfold to_save in Hst. apply list_elem_of_filter in Hst as [Hn _].
  unfold needs_saving in Hn. by destruct (th_is_valid _ _).
Qed.

Lemma save_session_spec s :
  ses_is_paused (ses_ (save_session s)) = true
  /\ num_outstanding_resume_data (save_session s) = num_outstanding_resume_data s
  /\ (writable (files (save_session s)) (file_ses_state (cfg (save_session s))) = true ->
      read_all (files (save_session s)) (file_ses_state (cfg (save_session s))) = Some (ses_state (ses_ (save_session s)))).
Proof.
  unfold save_session. destruct (ses_is_paused (ses_ s)) eqn:Hp; (split; [|split; [done|]]).
  1: exact Hp. 2: apply is_paused_pause.
  all: cbn [set_files files cfg ses_ do_call set_ses]; unfold save_file; rewrite writable_write; apply read_write_eq.
Qed.

Lemma failed_alerts_pop n s :
  exists s', pop_alerts (replicate n (save_resume_data_failed_alert true)) s = Some s' /\ calls s' = calls s.
Proof.
  revert s. induction n as [|n IH]; intros s; [by exists s|]. cbn [replicate pop_alerts handle_alert mbind option_bind].
  destruct (IH (set_outstanding (num_outstanding_resume_data s - 1) s)) as (s' & ? & ?). by exists s'.
Qed.

(** With the answers it waits for the end can always be reached. *)
Lemma end_possible s : exists popped waits s', end_ popped waits s = Some (true, s').
Proof.
  destruct (ask_all_total (fun _ => []) 0 (to_save s) s (to_save_valid s)) as (s1 & Ha & _); [intros i; constructor|].
  set (n := Z.to_nat (num_outstanding_resume_data s1)).
  destruct (failed_alerts_pop n s1) as (s2 & Hp & Hc).
  assert (concat (omap id [Some (replicate n (@save_resume_data_failed_alert _ _ _ true))])
          = replicate n (save_resume_data_failed_alert true)) as Hcat by apply app_nil_r.
  destruct (wait_saves_leaves [Some (replicate n (save_resume_data_failed_alert true))] s1 s2) as (s3 & Hw & _).
  - by rewrite Hcat.
  - rewrite Hcat, Hc. assert (count is_reply (replicate n (@save_resume_data_failed_alert _ _ _ true)) = Z.of_nat n) as ->.
    { unfold count. f_equal. generalize n. intros m. induction m as [|m IH]; [done|]. cbn [replicate].
      rewrite filter_cons. case_decide; [cbn [length]; by rewrite IH|done]. }
    lia.
  - exists (fun _ => []), [Some (replicate n (save_resume_data_failed_alert true))], (save_session s3).
    unfold end_, save_all_resume. fold (to_save s). rewrite Ha. cbn [mbind option_bind]. by rewrite Hw.
Qed.

Lemma end_saved popped waits s s' :
  end_ popped waits s = Some (true, s') ->
  (num_outstanding_resume_data s' <= 0)%Z /\ ses_is_paused (ses_ s') = true
  /\ (writable (files s') (file_ses_state (cfg s')) = true ->
      read_all (files s') (file_ses_state (cfg s')) = Some (ses_state (ses_ s'))).
Proof.
  unfold end_. destruct (save_all_resume popped waits s) as [[[] s1]|] eqn:Hs; try done. intros [= <-].
  unfold save_all_resume in Hs. destruct (ask_all _ _ _ _) as [s2|]; [|done]. cbn [mbind option_bind] in Hs.
  assert (num_outstanding_resume_data s1 <= 0)%Z as Hn by (by eapply wait_saves_left).
  destruct (save_session_spec s1) as (Hp & -> & Hf). done.
Qed.


(** The program's end comes: after any run of operations, if every request
    for resume data made so far and until the end of the wait is answered, the
    wait for resume data is left and the session is paused and saved, provided
    the alerts' torrents are there and none is added while the pointer to the
    peer dangles. *)
Theorem end_returns os s0 s al popped waits :
  run os s0 = Some (s, al) -> calls s0 = [] -> num_outstanding_resume_data s0 = 0%Z ->
  (forall i, Forall (fun a => alert_safe s a = true) (popped i)) ->
  Forall (fun a => alert_safe s a = true) (concat (omap id waits)) ->
  (forall s1 s2, ask_all popped 0 (to_save s) s = Some s1 -> pop_alerts (concat (omap id waits)) s1 = Some s2 ->
     (count is_ask (calls s2)
      <= count is_reply al + count is_reply (ask_alerts popped 0 (to_save s) s) + count is_reply (concat (omap id waits)))%Z) ->
  exists s', end_ popped waits s = Some (true, s')
    /\ (num_outstanding_resume_data s' <= 0)%Z /\ ses_is_paused (ses_ s') = true
    /\ (writable (files s') (file_ses_state (cfg s')) = true ->
        read_all (files s') (file_ses_state (cfg s')) = Some (ses_state (ses_ s'))).
Proof.
  intros Hrun Hc0 Hn0 Hpop Hw Hans.
  destruct (ask_all_total popped 0 (to_save s) s (to_save_valid s) Hpop) as (s1 & Ha & Hss).
  destruct (pop_alerts_safe (concat (omap id waits)) s1) as (s2 & Hs2 & _); [by apply (alerts_safe_keep s)|].
  specialize (Hans s1 s2 Ha Hs2). pose proof (run_balance _ _ _ _ Hrun) as Hb.
  pose proof (ask_all_balance _ _ _ _ _ Ha) as Hb1.
  destruct (wait_saves_leaves waits s1 s2 Hs2) as (s3 & Hw3 & Hle).
  { unfold balance in *. rewrite Hc0, Hn0 in Hb. change (count is_ask []) with 0%Z in Hb. lia. }
  exists (save_session s3). destruct (save_session_spec s3) as (Hpaused & Hn3 & Hfile).
  split; [|split_and!; [by rewrite Hn3|done..]].
  unfold end_, save_all_resume. fold (to_save s). rewrite Ha. cbn [mbind option_bind]. by rewrite Hw3.
Qed.
End accounting.

(** ** Examples *)

#[local] Existing Instance sha1_demo.
#[local] Existing Instance handles_demo.
#[local] Existing Instance lt_demo.
#[local] Existing Instance parsers_demo.
#[local] Existing Instance session_demo.
#[local] Existing Instance demo_metrics.

Definition demo_ops : list op :=
  [op_load None; op_magnet (magnet_prefix +:+ demo_hex); op_loop demo_alerts 500 (Some []);
   op_pause_resume demo_hash; op_loop [torrent_paused_alert demo_handle; metadata_received_alert demo_handle] 600 None;
   op_save_all (fun _ => []) [None; Some [save_resume_data_failed_alert true; save_resume_data_failed_alert true;
                                     save_resume_data_failed_alert true]];
   op_save_session].

Definition demo_run : sheath * list alert := default (demo_sheath, []) (run demo_ops demo_sheath).

Lemma outstanding_accounting_witness :
  num_outstanding_resume_data demo_run.1 = (count is_ask (calls demo_run.1) - count is_reply demo_run.2)%Z.
Proof.
  apply (outstanding_accounting demo_ops demo_sheath demo_run.1 demo_run.2); [|reflexivity..].
  assert (defined (run demo_ops demo_sheath) = true) as Hd by (vm_compute; reflexivity).
  unfold demo_run. by destruct (run _ _) as [[s r]|].
Defined.

(** The end after two alerts: one request is outstanding, one more is made. *)
Definition demo_life : list op :=
  [op_load None; op_loop [metadata_received_alert demo_handle; state_update_alert [demo_status 7 demo_hash]] 500 None].
Definition demo_lived : sheath * list alert := default (demo_sheath, []) (run demo_life demo_sheath).
Definition demo_answers : list (option (list alert)) :=
  [Some [save_resume_data_alert (blank_atp demo_hash)]; None; Some [save_resume_data_failed_alert true]].

Lemma end_returns_witness :
  exists s', end_ (fun _ => []) demo_answers demo_lived.1 = Some (true, s')
    /\ (num_outstanding_resume_data s' <= 0)%Z /\ ses_is_paused (ses_ s') = true
    /\ (writable (files s') (file_ses_state (cfg s')) = true ->
        read_all (files s') (file_ses_state (cfg s')) = Some (ses_state (ses_ s'))).
Proof.
  apply (end_returns (sel := session_demo_laws) demo_life demo_sheath demo_lived.1 demo_lived.2).
  - assert (defined (run demo_life demo_sheath) = true) as Hd by (vm_compute; reflexivity).
    unfold demo_lived. by destruct (run _ _) as [[s r]|].
  - reflexivity.
  - reflexivity.
  - intros i. constructor.
  - repeat constructor.
  - intros s1 s2 H1 H2.
    assert (s1 = result_of (ask_all (fun _ => []) 0 (to_save demo_lived.1) demo_lived.1)) as -> by by rewrite H1.
    assert (s2 = result_of (pop_alerts (concat (omap id demo_answers))
              (result_of (ask_all (fun _ => []) 0 (to_save demo_lived.1) demo_lived.1)))) as -> by by rewrite H2.
    vm_compute. discriminate.
Defined.
