(* ===== verification/Handlers.v ===== *)
(** * The REST handlers (src/handlers.cpp)

    [httpCaller::sbCall] and the handlers it routes to, written against the
    interface [SheathApi]: what the handlers call of [sheath].  [Sheath]'s
    operations implement it ([sheath_api]).  [None] is an exception or
    undefined behaviour; [Some (None, s)] is [std::nullopt], a target that is
    none of the API's. *)

From S2P Require Import Prelude CStd Json JsonPatch Fs Util HttpUtil SessionStats TorrentStatus Libtorrent.
From S2P Require Import Demo JsonText Sheath Torrents.

(** ** What the handlers need of the server state *)

Class SheathApi `{Sha1} := {
  api_state : Type;
  api_getSessionInfo : api_state -> option json;
  api_getSessionStats : api_state -> option json;
  api_getSyncStats : api_state -> option json;
  api_get_torrents : api_state -> json;
  api_get_torrent : sha1_hash -> Z -> api_state -> option json;
  api_exists : sha1_hash -> api_state -> bool;
  api_drop_torrent : sha1_hash -> bool -> api_state -> bool * api_state;
  api_pause_resume_torrent : sha1_hash -> api_state -> bool * api_state;
  api_resume_torrent : sha1_hash -> api_state -> bool * api_state;
  api_toggle_pause_resume : api_state -> bool * api_state;
  api_add_torrent : string -> string -> api_state -> bool * api_state;
  api_add_magnet : string -> api_state -> bool * api_state;
  api_dir_store : api_state -> string;
}.

(** What it promises them: a query answers null for an unknown torrent and
    for no other, and operations on an unknown one say so. *)
Class SheathApiLaws `{SheathApi} : Prop := {
  api_get_null ih q s j :
    q ∈ [query_basic; query_peers; query_files] ->
    api_get_torrent ih q s = Some j -> (j = JNull <-> api_exists ih s = false);
  api_drop_found ih wd s : (api_drop_torrent ih wd s).1 = api_exists ih s;
  api_pause_found ih s : (api_pause_resume_torrent ih s).1 = api_exists ih s;
  api_resume_found ih s : (api_resume_torrent ih s).1 = api_exists ih s;
  api_pause_unknown ih s : api_exists ih s = false -> (api_pause_resume_torrent ih s).2 = s;
  api_resume_unknown ih s : api_exists ih s = false -> (api_resume_torrent ih s).2 = s;
}.

Section handlers.
Context {sha : Sha1} {api : SheathApi} {beast : Beast} {text : JsonText}.

Notation answer := (option (option response * api_state)).

Definition json_resp (req : request) (j : json) : response :=
  make_resp req (serialize j) ctJSON status.ok.

Definition handleSessionInfo (req : request) (s : api_state) : answer :=
  j ← api_getSessionInfo s; Some (Some (json_resp req j), s).

Definition handleSessionStats (req : request) (s : api_state) : answer :=
  j ← api_getSessionStats s; Some (Some (json_resp req j), s).

Definition handleSessionToggle (req : request) (s : api_state) : answer :=
  let '(paused, s) := api_toggle_pause_resume s in
  Some (Some (json_resp req (JObject ["isPaused" ~> JBool paused])), s).

Definition handleSyncStats (req : request) (s : api_state) : answer :=
  j ← api_getSyncStats s; Some (Some (json_resp req j), s).

(** The log line of a post reads the [Content-Length] field through an
    iterator it does not test; [main] opens the log at the level that writes
    the line. *)
Definition handleTorrents (req : request) (s : api_state) : answer :=
  match req_method req with
  | verb.get => Some (Some (json_resp req (api_get_torrents s)), s)
  | verb.post =>
      _ ← req_find req "Content-Length";
      let dir := match req_find req "x-save-path" with Some d => d | None => api_dir_store s end in
      if bool_decide (default "" (req_find req "Content-Type") = ctTorrent) then
        let '(ok, s) := api_add_torrent (req_body req) dir s in
        Some (Some (if ok then make_resp_204 req
                    else make_resp_500 req "failed to add with metainfo"), s)
      else
        let '(ok, s) := api_add_magnet (req_body req) s in
        Some (Some (if ok then make_resp_204 req
                    else make_resp_500 req "failed to add with magnet"), s)
  | _ => Some (Some (make_resp_400 req "Unsupported method"), s)
  end.

(** [target.substr(0, target.find('?'))], the whole without one. *)
Definition strip_query (target : string) : option string :=
  match sfind target "?" 0 with
  | Some query_pos => substr target 0 query_pos
  | None => Some target
  end.

Definition handleTorrent (req : request) (offset : nat) (st : api_state) : answer :=
  s ← strip_query (req_target req);
  let ih_size := 40 in
  let min_size := offset + ih_size in
  if String.length s <? min_size then Some (Some (make_resp_404 req), st)
  else
    hash ← substr s offset ih_size;
    match from_hex hash with
    | None => Some (Some (make_resp_400 req "invalid hash string"), st)
    | Some ih =>
        if bool_decide (req_method req = verb.head) then
          Some (Some (if api_exists ih st then make_resp_204 req else make_resp_404 req), st)
        else
          act ← (if min_size + 1 <? String.length s then substr_from s (min_size + 1) else Some "");
          match req_method req with
          | verb.get =>
              let flag := if bool_decide (act = "peers") then query_peers
                          else if bool_decide (act = "files") then query_files else query_basic in
              jv ← api_get_torrent ih flag st;
              match jv with
              | JNull => Some (Some (make_resp_404 req), st)
              | _ => Some (Some (json_resp req jv), st)
              end
          | verb.delete_ =>
              let '(_, st) := api_drop_torrent ih (bool_decide (act = "yes") || bool_decide (act = "with_data")) st in
              Some (Some (make_resp_204 req), st)
          | verb.put =>
              let st :=
                if bool_decide (act = "toggle") || bool_decide (act = "pause")
                then (api_pause_resume_torrent ih st).2
                else if bool_decide (act = "start") || bool_decide (act = "resume")
                then (api_resume_torrent ih st).2 else st in
              Some (Some (make_resp_204 req), st)
          | _ => Some (Some (make_resp_400 req "Unsupported method"), st)
          end
    end.

Definition sbCall (req : request) (s : api_state) : answer :=
  match sfind (req_target req) "/api/" 0 with
  | None => Some (None, s)
  | Some _ =>
      uri ← substr_from (req_target req) 4;
      uri ← strip_query uri;
      if bool_decide (req_method req = verb.get) && bool_decide (uri = "/session") then handleSessionInfo req s
      else if bool_decide (req_method req = verb.get) && bool_decide (uri = "/session/stats")
      then handleSessionStats req s
      else if bool_decide (req_method req = verb.get) && bool_decide (uri = "/sync/stats")
      then handleSyncStats req s
      else if bool_decide (uri = "/torrents") then handleTorrents req s
      else if bool_decide (sfind uri "/torrent/" 0 = Some 0) then handleTorrent req 13 s
      else if bool_decide (req_method req = verb.put) && bool_decide (uri = "/session/toggle")
      then handleSessionToggle req s
      else Some (None, s)
  end.

(** ** Routing *)

Lemma sfind_prefix n s : sfind (n +:+ s) n 0 = Some 0.
Proof.
  unfold sfind. cbn [sdrop]. rewrite (proj2 (Nat.leb_le _ _)) by lia.
  destruct (n +:+ s) eqn:Hs; cbn [sfind_at]; rewrite <- Hs, prefix_app; done.
Qed.

Lemma sfind_at_middle i n a b : is_Some (sfind_at i n (a +:+ (n +:+ b))).
Proof.
  revert i. induction a as [|c a IH]; intros i.
  - change ("" +:+ ?x) with x. destruct (n +:+ b) eqn:Hs; cbn [sfind_at]; rewrite <- Hs, prefix_app; eauto.
  - change (String c a +:+ ?x) with (String c (a +:+ x)). cbn [sfind_at].
    destruct (String.prefix _ _); eauto.
Qed.

Lemma sfind_middle n a b : is_Some (sfind (a +:+ (n +:+ b)) n 0).
Proof. unfold sfind. cbn [sdrop]. rewrite (proj2 (Nat.leb_le _ _)) by lia. apply sfind_at_middle. Qed.

(** A query string: nothing, or a question mark and what follows. *)
Definition is_query (q : string) : Prop := q = "" \/ exists q', q = String "?" q'.

Lemma strip_query_app p q : no_char "?" p = true -> is_query q -> strip_query (p +:+ q) = Some p.
Proof.
  intros Hp Hq. unfold strip_query. destruct Hq as [->|[q' ->]].
  - rewrite sapp_nil_r. pose proof (sfind_char_none "" "?" p Hp) as Hf.
    cbn [String.append String.length] in Hf. by rewrite Hf.
  - pose proof (sfind_char "" "?" p q' Hp) as Hf. cbn [String.append String.length Nat.add] in Hf.
    rewrite Hf. rewrite substr_total by (rewrite slength_app; lia). cbn [sdrop]. by rewrite stake_app.
Qed.

Lemma hex_no_query h : hex40 h = true -> no_char "?" h = true.
Proof.
  intros [_ Hh]%andb_true_iff. eapply sforall_impl; [|exact Hh].
  intros c Hc. apply negb_true_iff, bool_decide_eq_false. intros ->. by vm_compute in Hc.
Qed.

Lemma no_char_app c s t : no_char c (s +:+ t) = no_char c s && no_char c t.
Proof. apply sforall_app. Qed.

(** The routing of a target without its query. *)
Lemma sbCall_route path query req s :
  req_target req = "/api" +:+ (path +:+ query) -> no_char "?" path = true -> is_query query ->
  String.prefix "/" path = true ->
  sbCall req s
  = if bool_decide (req_method req = verb.get) && bool_decide (path = "/session") then handleSessionInfo req s
    else if bool_decide (req_method req = verb.get) && bool_decide (path = "/session/stats")
    then handleSessionStats req s
    else if bool_decide (req_method req = verb.get) && bool_decide (path = "/sync/stats")
    then handleSyncStats req s
    else if bool_decide (path = "/torrents") then handleTorrents req s
    else if bool_decide (sfind path "/torrent/" 0 = Some 0) then handleTorrent req 13 s
    else if bool_decide (req_method req = verb.put) && bool_decide (path = "/session/toggle")
    then handleSessionToggle req s
    else Some (None, s).
Proof.
  intros Ht Hp Hq Hs. unfold sbCall. rewrite Ht.
  assert (exists r, "/api" +:+ (path +:+ query) = "/api/" +:+ r) as [r Hr].
  { apply prefix_spec in Hs as [r ->]. by exists (r +:+ query). }
  rewrite Hr, sfind_prefix, <- Hr.
  destruct (substr_app "/api" (path +:+ query) 4 eq_refl) as [_ ->]. cbn [mbind option_bind].
  rewrite strip_query_app by done. done.
Qed.

Context {bel : BeastLaws}.

Lemma make_resp_status req body ct sc :
  res_status (make_resp req body ct sc) = sc
  /\ (sc <> status.no_content -> res_body (make_resp req body ct sc) = body).
Proof.
  unfold make_resp. match goal with |- context [prepare_payload ?r] =>
    destruct (prepare_payload_framing r) as [n ->] end.
  split; [done|]. simpl. intros. by rewrite bool_decide_eq_false_2.
Qed.

(** What a request for one torrent answers and leaves, as the API table of
    the README has it, with the act behind the hash. *)
Definition torrent_answers (ih : sha1_hash) (act : string) (m : verb.t) (s : api_state)
    (r : response) (s' : api_state) : Prop :=
  match m with
  | verb.get =>
      s' = s /\ res_status r = (if api_exists ih s then status.ok else status.not_found)
      /\ (api_exists ih s = true -> exists j,
            api_get_torrent ih (if bool_decide (act = "peers") then query_peers
                                else if bool_decide (act = "files") then query_files else query_basic) s = Some j
            /\ res_body r = serialize j)
  | verb.head => s' = s /\ res_status r = if api_exists ih s then status.no_content else status.not_found
  | verb.delete_ =>
      res_status r = status.no_content
      /\ s' = (api_drop_torrent ih (bool_decide (act = "yes") || bool_decide (act = "with_data")) s).2
  | verb.put =>
      res_status r = status.no_content
      /\ s' = (if bool_decide (act = "toggle") || bool_decide (act = "pause") then (api_pause_resume_torrent ih s).2
               else if bool_decide (act = "start") || bool_decide (act = "resume") then (api_resume_torrent ih s).2
               else s)
  | _ => s' = s /\ res_status r = status.bad_request
  end.

Lemma act_of_suffix head suffix n :
  String.length head = n ->
  (if n + 1 <? String.length (head +:+ suffix) then substr_from (head +:+ suffix) (n + 1) else Some "")
  = Some (sdrop 1 suffix).
Proof.
  intros Hn. rewrite slength_app, Hn. destruct (n + 1 <? n + String.length suffix) eqn:Hl; bool_simp.
  - unfold substr_from. rewrite slength_app, Hn, (proj2 (Nat.leb_le _ _)) by lia.
    by rewrite <- Hn, <- sdrop_sdrop, sdrop_app.
  - destruct suffix as [|c [|c' r]]; simpl in *; [done..|lia].
Qed.

Context {shl : Sha1Laws} {apl : SheathApiLaws}.

Lemma get_answers ih q req s j :
  q ∈ [query_basic; query_peers; query_files] -> api_get_torrent ih q s = Some j ->
  exists r,
    match j with JNull => Some (Some (make_resp_404 req), s) | _ => Some (Some (json_resp req j), s) end
    = Some (Some r, s)
    /\ res_status r = (if api_exists ih s then status.ok else status.not_found)
    /\ (api_exists ih s = true -> exists j, api_get_torrent ih q s = Some j /\ res_body r = serialize j).
Proof.
  intros Hin Hj. pose proof (api_get_null _ _ _ _ Hin Hj) as Hnull.
  destruct (api_exists ih s).
  - exists (json_resp req j). split; [by destruct j; try done; naive_solver|].
    destruct (make_resp_status req (serialize j) ctJSON status.ok) as [Hst Hb].
    split; [exact Hst|]. intros _. exists j. split; [done|]. by apply Hb.
  - destruct Hnull as [_ ->]; [|done]. eexists. split; [done|]. split; [|done]. apply make_resp_status.
Qed.

Lemma handleTorrent_answers ih suffix query req s :
  req_target req = ("/api/torrent/" +:+ (to_hex ih +:+ suffix)) +:+ query ->
  no_char "?" suffix = true -> is_query query ->
  (forall q, q ∈ [query_basic; query_peers; query_files] -> is_Some (api_get_torrent ih q s)) ->
  exists r s', handleTorrent req 13 s = Some (Some r, s')
               /\ torrent_answers ih (sdrop 1 suffix) (req_method req) s r s'.
Proof.
  intros Ht Hs Hq Hget. pose proof (to_hex_hex40 ih) as Hh.
  assert (String.length (to_hex ih) = 40) as Hlen.
  { unfold hex40 in Hh. apply andb_true_iff in Hh as [Hlen _]. by apply Nat.eqb_eq. }
  unfold handleTorrent. rewrite Ht, strip_query_app; [cbn [mbind option_bind]| |done].
  2: { rewrite !no_char_app, Hs, (hex_no_query _ Hh). done. }
  rewrite <- sapp_assoc. set (head := "/api/torrent/" +:+ to_hex ih).
  assert (String.length head = 53) as Hhead by (unfold head; rewrite slength_app, Hlen; done).
  assert (String.length (head +:+ suffix) <? 13 + 40 = false) as ->.
  { apply Nat.ltb_ge. rewrite slength_app. lia. }
  assert (substr (head +:+ suffix) 13 40 = Some (to_hex ih)) as ->.
  { rewrite substr_total by (rewrite slength_app; lia). unfold head. rewrite sapp_assoc.
    change (sdrop 13 ("/api/torrent/" +:+ (to_hex ih +:+ suffix))) with (to_hex ih +:+ suffix).
    by rewrite <- Hlen, stake_app. }
  cbn [mbind option_bind]. rewrite from_hex_to_hex.
  change (13 + 40 + 1) with (53 + 1). rewrite act_of_suffix by done.
  generalize (sdrop 1 suffix). intros act.
  destruct (req_method req) eqn:Hm; rewrite ?bool_decide_eq_true_2, ?bool_decide_eq_false_2 by done;
    cbn [mbind option_bind].
  - set (q := if bool_decide (act = "peers") then query_peers
              else if bool_decide (act = "files") then query_files else query_basic).
    assert (q ∈ [query_basic; query_peers; query_files]) as Hin
      by (unfold q; repeat case_bool_decide; rewrite !elem_of_cons; auto).
    destruct (Hget q Hin) as [j Hj].
    destruct (get_answers ih q req s j Hin Hj) as (r & He & Hr).
    exists r, s. rewrite Hj. split; [exact He|]. split; [done|exact Hr].
  - eexists _, s. split; [done|]. split; [done|]. destruct (api_exists ih s); apply make_resp_status.
  - eexists _, s. split; [done|]. split; [done|]. apply make_resp_status.
  - eexists _, _. split; [done|]. split; [apply make_resp_status|done].
  - destruct (api_drop_torrent _ _ _) as [b s1] eqn:Hd. eexists _, s1. split; [done|].
    split; [apply make_resp_status|by rewrite Hd].
  - eexists _, s. split; [done|]. split; [done|]. apply make_resp_status.
Qed.


(** A target outside the API is served as if it were inside: of a target
    that has [/api/] anywhere, even in its query, the first four characters
    are dropped unseen.  Here a session is paused or resumed. *)
Theorem sbCall_misroutes prefix q req s paused s' :
  String.length prefix = 4 -> is_Some (sfind q "/api/" 0) ->
  req_method req = verb.put -> req_target req = prefix +:+ ("/session/toggle" +:+ String "?" q) ->
  api_toggle_pause_resume s = (paused, s') ->
  exists r, sbCall req s = Some (Some r, s') /\ res_status r = status.ok
            /\ res_body r = serialize (JObject ["isPaused" ~> JBool paused]).
Proof.
  intros Hlen [i Hi] Hm Ht Htog. apply sfind_split in Hi as (a & b & -> & _ & _). unfold sbCall.
  assert (is_Some (sfind (req_target req) "/api/" 0)) as [j ->].
  { rewrite Ht. change (String "?" (a +:+ "/api/" +:+ b)) with (String "?" a +:+ ("/api/" +:+ b)).
    rewrite <- (sapp_assoc "/session/toggle"), <- (sapp_assoc prefix). apply sfind_middle. }
  rewrite Ht. destruct (substr_app prefix ("/session/toggle" +:+ String "?" (a +:+ "/api/" +:+ b)) 4 Hlen) as [_ ->].
  cbn [mbind option_bind]. rewrite strip_query_app by (try done; right; eauto).
  rewrite Hm. cbn [mbind option_bind]. unfold handleSessionToggle. rewrite Htog.
  eexists. split; [reflexivity|]. unfold json_resp.
  destruct (make_resp_status req (serialize (JObject ["isPaused" ~> JBool paused])) ctJSON status.ok) as [Hst Hb].
  split; [exact Hst|]. by apply Hb.
Qed.

(** A post is answered from its result: 204 when the torrent was added,
    500 otherwise, the body read as metainfo or as a magnet link by its
    content type, into the directory of the [x-save-path] field.  A post
    without [Content-Length] dereferences the end of the fields. *)
Theorem torrents_post query req s :
  req_target req = "/api" +:+ ("/torrents" +:+ query) -> is_query query -> req_method req = verb.post ->
  let dir := default (api_dir_store s) (req_find req "x-save-path") in
  let '(ok, s') :=
    if decide (req_find req "Content-Type" = Some ctTorrent)
    then api_add_torrent (req_body req) dir s else api_add_magnet (req_body req) s in
  match req_find req "Content-Length" with
  | None => sbCall req s = None
  | Some _ => exists r, sbCall req s = Some (Some r, s')
                        /\ res_status r = if ok then status.no_content else status.internal_server_error
  end.
Proof.
  intros Ht Hq Hm. rewrite (sbCall_route "/torrents" query) by done. rewrite Hm. cbn [mbind option_bind].
  unfold handleTorrents. rewrite Hm. cbv zeta.
  assert (bool_decide (default "" (req_find req "Content-Type") = ctTorrent)
          = bool_decide (req_find req "Content-Type" = Some ctTorrent)) as ->.
  { apply bool_decide_ext. destruct (req_find req "Content-Type"); simpl; [split; congruence|done]. }
  rewrite decide_bool_decide.
  change (match req_find req "x-save-path" with Some d => d | None => api_dir_store s end)
    with (default (api_dir_store s) (req_find req "x-save-path")).
  destruct (bool_decide _).
  - destruct (api_add_torrent _ _ _) as [ok s'].
    destruct (req_find req "Content-Length"); [|done]. eexists. split; [done|].
    destruct ok; apply make_resp_status.
  - destruct (api_add_magnet _ _) as [ok s'].
    destruct (req_find req "Content-Length"); [|done]. eexists. split; [done|].
    destruct ok; apply make_resp_status.
Qed.

Lemma strip_query_total t : exists u, strip_query t = Some u.
Proof.
  unfold strip_query. destruct (sfind t "?" 0) as [i|] eqn:Hi; [|eauto].
  apply sfind_split in Hi as (a & b & -> & -> & _). rewrite substr_total by (rewrite slength_app; lia). eauto.
Qed.

Lemma handleTorrent_total req s :
  (forall ih q, is_Some (api_get_torrent ih q s)) -> is_Some (handleTorrent req 13 s).
Proof.
  intros Hget. unfold handleTorrent. destruct (strip_query_total (req_target req)) as [u ->].
  cbn [mbind option_bind]. destruct (String.length u <? 13 + 40) eqn:Hl; bool_simp; [by eauto|].
  rewrite substr_total by lia. cbn [mbind option_bind].
  destruct (from_hex _) as [ih|]; [|by eauto]. case_bool_decide; [by eauto|].
  assert (is_Some (if 13 + 40 + 1 <? String.length u then substr_from u (13 + 40 + 1) else Some "")) as [act ->].
  { destruct (13 + 40 + 1 <? String.length u) eqn:Ha; bool_simp; [|by eauto].
    unfold substr_from. rewrite (proj2 (Nat.leb_le _ _)) by lia. by eauto. }
  cbn [mbind option_bind]. destruct (req_method req); try by eauto.
  - match goal with |- context [api_get_torrent ih ?q s] => destruct (Hget ih q) as [j ->] end.
    cbn [mbind option_bind]. destruct j; by eauto.
  - destruct (api_drop_torrent _ _ _). by eauto.
Qed.

(** C21: whatever the target of a request, no handler runs out of its bounds:
    the only way not to get an answer is a post without its length, or a
    query of the session that fails. *)
Theorem sbCall_total req s :
  (req_method req = verb.post -> is_Some (req_find req "Content-Length")) ->
  is_Some (api_getSessionInfo s) -> is_Some (api_getSessionStats s) -> is_Some (api_getSyncStats s) ->
  (forall ih q, is_Some (api_get_torrent ih q s)) ->
  is_Some (sbCall req s).
Proof.
  intros Hlen [ji Hi] [js Hst] [jy Hy] Hget. unfold sbCall.
  destruct (sfind (req_target req) "/api/" 0) as [i|] eqn:Hf; [|by eauto].
  apply sfind_split in Hf as (a & b & Ht & _ & _).
  assert (is_Some (substr_from (req_target req) 4)) as [u ->].
  { unfold substr_from. rewrite (proj2 (Nat.leb_le _ _)); [by eauto|].
    rewrite Ht, !slength_app. simpl. lia. }
  cbn [mbind option_bind]. destruct (strip_query_total u) as [v ->]. cbn [mbind option_bind].
  unfold handleSessionInfo, handleSessionStats, handleSyncStats, handleSessionToggle.
  destruct (_ && _); [rewrite Hi; by eexists|]. destruct (_ && _); [rewrite Hst; by eexists|].
  destruct (_ && _); [rewrite Hy; by eexists|]. destruct (bool_decide _).
  - unfold handleTorrents. destruct (req_method req); try by eauto.
    destruct (Hlen eq_refl) as [n ->]. cbn [mbind option_bind].
    destruct (bool_decide _); [destruct (api_add_torrent _ _ _)|destruct (api_add_magnet _ _)]; by eauto.
  - destruct (bool_decide _); [by apply handleTorrent_total|].
    destruct (_ && _); [destruct (api_toggle_pause_resume s)|]; by eauto.
Qed.
End handlers.

(** ** [sheath] implements the interface *)

Section implementation.
Context {sha : Sha1} {ltd : LtData} {hs : Handles} {ltp : LtParsers} {lts : Session} {mt : Metrics}.

(** The clocks of the moment, and the order the hash map is walked in. *)
Context (k : clocks) (order : gmap torrent_handle torrent_status -> list (torrent_handle * torrent_status)).

Definition sheath_api : SheathApi := {|
  api_state := sheath;
  api_getSessionInfo := getSessionInfo (clk_uptime k) (clk_uptimeMs k);
  api_getSessionStats := sheath_getSessionStats k;
  api_getSyncStats s := getSyncStats k (order (m_all_handles s)) s;
  api_get_torrents := get_torrents;
  api_get_torrent := get_torrent;
  api_exists := exists_;
  api_drop_torrent := drop_torrent;
  api_pause_resume_torrent := pause_resume_torrent;
  api_resume_torrent := resume_torrent;
  api_toggle_pause_resume := toggle_pause_resume;
  api_add_torrent := add_torrent_buf;
  api_add_magnet := add_magnet;
  api_dir_store s := dir_store (cfg s);
|}.

(** The operations of the server state keep what the handlers are proved
    against. *)
Lemma sheath_api_laws : @SheathApiLaws _ sheath_api.
Proof.
  split; cbn [sheath_api api_get_torrent api_exists api_drop_torrent api_pause_resume_torrent
    api_resume_torrent]; unfold exists_.
  - intros ih q s j Hq. unfold get_torrent. destruct (ses_find_torrent (ses_ s) ih) as [th|]; [|naive_solver].
    rewrite !elem_of_cons in Hq.
    destruct Hq as [->|[->|[->|Hq]]]; [| | |by apply elem_of_nil in Hq]; simpl; intros Hj; simplify_eq; try done.
    destruct (files_loop _ _ _ _ _); by simplify_eq/=.
  - intros ih wd s. unfold drop_torrent. simpl. by destruct (ses_find_torrent _ _).
  - intros ih s. unfold pause_resume_torrent. destruct (ses_find_torrent _ _); [|done]. by destruct (_ =? _)%Z.
  - intros ih s. unfold resume_torrent. destruct (ses_find_torrent _ _); [|done]. simpl. by destruct (_ && _).
  - intros ih s. unfold pause_resume_torrent. by destruct (ses_find_torrent _ _).
  - intros ih s. unfold resume_torrent. by destruct (ses_find_torrent _ _).
Qed.
End implementation.

(** ** Examples *)

#[local] Existing Instance sha1_demo.
#[local] Existing Instance handles_demo.
#[local] Existing Instance lt_demo.
#[local] Existing Instance parsers_demo.
#[local] Existing Instance session_demo.
#[local] Existing Instance demo_metrics.
#[local] Existing Instance text_demo.
#[local] Existing Instance beast_demo.

Definition demo_api : SheathApi := sheath_api demo_clocks map_to_list.
#[local] Existing Instance demo_api.

Definition demo_state : api_state := demo_sheath.
Definition demo_state2 : api_state := demo_snap_state.

Definition demo_request (m : verb.t) (target : string) : request :=
  {| req_method := m; req_target := target; req_version := 11; req_keep_alive := true;
     req_find name := if bool_decide (name = "Content-Length") then Some "60" else None;
     req_body := magnet_prefix +:+ demo_hex |}.


Lemma sbCall_misroutes_witness :
  exists r, sbCall (demo_request verb.put "/any/session/toggle?/api/") demo_state
            = Some (Some r, (toggle_pause_resume demo_state).2)
            /\ res_status r = status.ok
            /\ res_body r = serialize (JObject ["isPaused" ~> JBool true]).
Proof.
  apply (sbCall_misroutes (bel := beast_demo_laws) "/any" "/api/"
           (demo_request verb.put "/any/session/toggle?/api/") demo_state true
           (toggle_pause_resume demo_state).2); try reflexivity.
  by eexists.
Defined.

Lemma torrents_post_witness :
  let req := demo_request verb.post "/api/torrents" in
  exists r, sbCall req demo_state = Some (Some r, (add_magnet (req_body req) demo_state).2)
            /\ res_status r = status.no_content.
Proof.
  intros req. pose proof (torrents_post (bel := beast_demo_laws) "" req demo_state eq_refl (or_introl eq_refl) eq_refl) as Hp.
  exact Hp.
Defined.

Lemma sbCall_total_witness :
  is_Some (sbCall (demo_request verb.delete_ "/a?/api/torrent/") demo_state2).
Proof.
  apply sbCall_total; [done|by eexists|by eexists|by eexists|].
  intros ih q. cbn [api_get_torrent demo_api sheath_api]. unfold get_torrent.
  destruct (ses_find_torrent _ _); [|by eexists].
  destruct (q =? query_basic)%Z; [by eexists|]. destruct (q =? query_peers)%Z; [by eexists|].
  destruct (q =? query_files)%Z; by eexists.
Defined.
