(* ===== verification/HttpSession.v ===== *)
(** * HTTP connections (src/http_session.cpp, src/listener.cpp)

    [handle_request]: the API, or a file below the web UI directory; the
    state machine of one connection; the accept loop.  Opening a file and
    [need_eof] belong to Boost.Beast: they are the class [Files].  [None] is
    an exception that leaves the handler. *)

From S2P Require Import Prelude CStd Json JsonPatch Fs Util HttpUtil SessionStats TorrentStatus Libtorrent.
From S2P Require Import Demo JsonText Sheath Torrents Handlers.

(** [file_body::value_type::open]: the file, that there is none, or another
    error with its message. *)
Inductive opened := opened_file (bytes : string) | no_such_file | open_error (message : string).

Class Files := { file_open : fsys -> string -> opened }.

(** A response of one of the three bodies. *)
Record file_head := mk_head {
  fh_version : nat; fh_server : string; fh_content_type : string; fh_length : nat; fh_keep_alive : bool;
}.

Inductive reply :=
  | string_reply (r : response)
  | empty_reply (h : file_head)
  | file_reply (h : file_head) (bytes : string).

Class NeedEof := { need_eof : reply -> bool }.

Section http.
Context {sha : Sha1} {api : SheathApi} {beast : Beast} {text : JsonText} {fls : Files}.

(** [back] of a non-empty text. *)
Fixpoint sback (s : string) : option ascii :=
  match s with
  | "" => None
  | String c "" => Some c
  | String _ s' => sback s'
  end.

(** The path of the file for a target. *)
Definition static_path (ui_root target : string) : string :=
  let path := path_cat ui_root target in
  if bool_decide (sback target = Some "/"%char) then path +:+ "index.html" else path.

Definition illegal_target (target : string) : bool :=
  bool_decide (target = "") || negb (String.prefix "/" target) || bool_decide (is_Some (sfind target ".." 0)).

Definition handle_request (req : request) (ui_root : string) (f : fsys) (s : api_state)
  : option (reply * api_state) :=
  let bad_request why := make_resp req why ctText status.bad_request in
  let not_found target :=
    make_resp req ("The resource '" +:+ target +:+ "' was not found.") ctText status.not_found in
  let server_error what :=
    make_resp req ("An error occurred: '" +:+ what +:+ "'") ctText status.internal_server_error in
  if illegal_target (req_target req) then Some (string_reply (bad_request "Illegal request-target"), s)
  else
    '(opt_resp, s) ← sbCall req s;
    match opt_resp with
    | Some r => Some (string_reply r, s)
    | None =>
        let path := static_path ui_root (req_target req) in
        match file_open f (c_str path) with
        | no_such_file => Some (string_reply (not_found (req_target req)), s)
        | open_error m => Some (string_reply (server_error m), s)
        | opened_file bytes =>
            let h := mk_head (req_version req) SERVER_SIGNATURE (mime_type path) (String.length bytes)
                       (req_keep_alive req) in
            Some (if bool_decide (req_method req = verb.head) then empty_reply h else file_reply h bytes, s)
        end
    end.

(** ** Which files are reached *)

Lemma sdrop_app_le k a b : k <= String.length a -> sdrop k (a +:+ b) = sdrop k a +:+ b.
Proof.
  revert a. induction k as [|k IH]; intros a Hk; [by destruct a|].
  destruct a as [|c a]; simpl in *; [lia|]. apply IH. lia.
Qed.

Lemma sback_last t c : sback t = Some c -> exists t', t = t' +:+ String c "".
Proof.
  induction t as [|d t IH]; [done|]. destruct t as [|e t].
  - cbn. intros [= ->]. by exists "".
  - intros Hb. destruct (IH Hb) as [t' Ht]. exists (String d t'). by rewrite Ht.
Qed.

Lemma no_dots_middle s a b : sfind s ".." 0 = None -> s <> a +:+ (".." +:+ b).
Proof. intros Hs ->. destruct (sfind_middle ".." a b) as [i Hi]. congruence. Qed.

Lemma c_str_no_dots s : sfind s ".." 0 = None -> sfind (c_str s) ".." 0 = None.
Proof.
  intros Hs. destruct (sfind (c_str s) ".." 0) as [i|] eqn:Hi; [|done].
  apply sfind_split in Hi as (a & b & He & _ & _). destruct (c_str_prefix s) as [t Ht].
  destruct (no_dots_middle s a (b +:+ t) Hs). rewrite Ht at 1. rewrite He, !sapp_assoc. done.
Qed.

(** Behind a slash the index file brings in no dots. *)
Lemma index_no_dots t :
  sfind t ".." 0 = None -> sback t = Some "/"%char -> sfind (t +:+ "index.html") ".." 0 = None.
Proof.
  intros Ht [t' Hs]%sback_last. destruct (sfind (t +:+ "index.html") ".." 0) as [i|] eqn:Hi; [|done].
  apply sfind_split in Hi as (a & b & He & _ & _). exfalso.
  destruct (decide (String.length a <= String.length t')) as [Hle|Hgt].
  - destruct (decide (String.length a + 2 <= String.length t)) as [Hin|Hout].
    + apply (no_dots_middle t a (stake (String.length t - String.length a - 2) b) Ht).
      assert (stake (String.length t) (a +:+ (".." +:+ b)) = t) as Htk by (rewrite <- He; apply stake_app).
      etrans; [symmetry; exact Htk|].
      replace (String.length t) with (String.length a + (2 + (String.length t - String.length a - 2))) at 1 by lia.
      rewrite stake_plus. done.
    + assert (String.length a = String.length t') as Hlen.
      { rewrite Hs, slength_app in Hout. simpl in Hout. lia. }
      rewrite Hs, sapp_assoc in He. apply sapp_inj_len in He as [_ He]; [|done]. done.
  - assert (sdrop (String.length t') (t +:+ "index.html") = "/index.html") as Hd.
    { rewrite Hs, sapp_assoc. apply sdrop_app. }
    rewrite He, sdrop_app_le in Hd by lia.
    destruct (sfind_middle ".." (sdrop (String.length t') a) b) as [k Hk]. rewrite Hd in Hk. done.
Qed.

(** C27: a file is read only below the web UI directory: its path is that
    directory followed by a slash and a rest without [..]; any other target
  is refused before anything is looked at.  The query is part of the path. *)
Theorem static_files_confined req ui_root f s r s' :
  no_char Ascii.zero ui_root = true ->
  handle_request req ui_root f s = Some (r, s') ->
  (illegal_target (req_target req) = true -> s' = s /\ exists m, r = string_reply m)
  /\ (forall h, r = empty_reply h \/ (exists b, r = file_reply h b) ->
      exists rest bytes, file_open f (ui_root +:+ String "/" rest) = opened_file bytes
                         /\ sfind (String "/" rest) ".." 0 = None
                         /\ fh_length h = String.length bytes
                         /\ (forall b, r = file_reply h b -> b = bytes)).
Proof.
  intros Hroot. unfold handle_request. destruct (illegal_target (req_target req)) eqn:Hill.
  { intros [= <- <-]. split; [by eauto|]. by intros h [?|[? ?]]. }
  unfold illegal_target in Hill. bool_simp. rename H into Hne, H0 into Hdots, H1 into Hslash.
  intros Hh. split; [done|]. intros h Hr.
  destruct (sbCall req s) as [[[m|] s1]|]; [|idtac|done]; cbn [mbind option_bind] in Hh.
  { simplify_eq. by destruct Hr as [?|[? ?]]. }
  assert (exists rest, c_str (static_path ui_root (req_target req)) = ui_root +:+ String "/" rest
                       /\ sfind (String "/" rest) ".." 0 = None) as (rest & Hpath & Hrest).
  { apply eq_None_not_Some in Hdots. apply prefix_spec in Hslash as [rest Hrest].
    change ("/" +:+ rest) with (String "/" rest) in Hrest. rewrite Hrest in Hdots |- *.
    unfold static_path, path_cat.
    assert (forall x, sfind (String "/" x) ".." 0 = None ->
              exists y, c_str (ui_root +:+ String "/" x) = ui_root +:+ String "/" y
                        /\ sfind (String "/" y) ".." 0 = None) as Hcut.
    { intros x Hx. exists (c_str x). rewrite c_str_app by done. split; [done|]. exact (c_str_no_dots _ Hx). }
    destruct (bool_decide (sback (String "/" rest) = _)) eqn:Hb; bool_simp; [|by apply Hcut].
    rewrite sapp_assoc. apply (Hcut (rest +:+ "index.html")). exact (index_no_dots _ Hdots Hb). }
  rewrite Hpath in Hh. exists rest.
  destruct (file_open f (ui_root +:+ String "/" rest)) as [bytes| |e] eqn:Ho; simplify_eq;
    try (by destruct Hr as [?|[? ?]]).
  exists bytes. split; [done|]. split; [done|].
  destruct (bool_decide (req_method req = verb.head)); destruct Hr as [Hr|[b Hr]]; simplify_eq; (split; [done|]);
    intros b' Hb'; by simplify_eq.
Qed.

(** ** One connection *)

(** The asynchronous operation under way. *)
Inductive io := reading | writing (r : reply).

(** [written] and [log] are ghosts: the replies whose write is complete, and
    the requests answered with their replies. *)
Record http_session := mk_session {
  pending : option io;
  upgraded : option request;
  shut : bool;
  written : list reply;
  log : list (request * reply);
}.

(** What [on_read] is told. *)
Inductive read_result :=
  | read_end_of_stream | read_timeout | read_error
  | read_request (req : request) (is_upgrade : bool).

Context {eof : NeedEof}.

Definition do_read (h : http_session) : http_session :=
  mk_session (Some reading) (upgraded h) (shut h) (written h) (log h).

Definition run_session : http_session := do_read (mk_session None None false [] []).

Definition on_read (ui_root : string) (f : fsys) (res : read_result) (h : http_session) (s : api_state)
  : option (http_session * api_state) :=
  match res with
  | read_end_of_stream | read_timeout => Some (mk_session None (upgraded h) true (written h) (log h), s)
  | read_error => Some (mk_session None (upgraded h) (shut h) (written h) (log h), s)
  | read_request req true => Some (mk_session None (Some req) (shut h) (written h) (log h), s)
  | read_request req false =>
      '(r, s) ← handle_request req ui_root f s;
      Some (mk_session (Some (writing r)) (upgraded h) (shut h) (written h) (log h ++ [(req, r)]), s)
  end.

(** [ok]: the write succeeded. *)
Definition on_write (ok : bool) (r : reply) (h : http_session) : http_session :=
  if negb ok then mk_session None (upgraded h) (shut h) (written h) (log h)
  else
    let h := mk_session None (upgraded h) (shut h) (written h ++ [r]) (log h) in
    if need_eof r then mk_session None (upgraded h) true (written h) (log h) else do_read h.

(** The connection, with the server state it shares with all others. *)
Inductive conn_step (ui_root : string) (f : fsys)
  : http_session * api_state -> http_session * api_state -> Prop :=
  | conn_read res h s h' s' :
      pending h = Some reading -> on_read ui_root f res h s = Some (h', s') ->
      conn_step ui_root f (h, s) (h', s')
  | conn_write ok r h s :
      pending h = Some (writing r) -> conn_step ui_root f (h, s) (on_write ok r h, s)
  | conn_other h s s' : conn_step ui_root f (h, s) (h, s').

(** The replies not yet written are at most the one being written. *)
Definition conn_shape (h : http_session) : Prop :=
  match pending h with
  | Some reading => (log h).*2 = written h /\ upgraded h = None /\ shut h = false
  | Some (writing r) => (log h).*2 = written h ++ [r] /\ upgraded h = None /\ shut h = false
  | None => (log h).*2 = written h \/ exists r, (log h).*2 = written h ++ [r]
  end.

(** Every reply is [handle_request]'s for its request. *)
Definition conn_inv (ui_root : string) (f : fsys) (h : http_session) : Prop :=
  Forall (fun l => exists s s', handle_request l.1 ui_root f s = Some (l.2, s')) (log h) /\ conn_shape h.

(** What [on_read] adds to the log. *)
Lemma on_read_log ui_root f res h s h' s' :
  on_read ui_root f res h s = Some (h', s') ->
  log h' = log h \/ exists req r, res = read_request req false /\ handle_request req ui_root f s = Some (r, s')
                                /\ log h' = log h ++ [(req, r)].
Proof.
  destruct res as [| | |req [|]]; cbn [on_read]; try (intros [= <- _]; by left).
  destruct (handle_request req ui_root f s) as [[r s1]|] eqn:Hh; [|done]. cbn [mbind option_bind]. intros [= <- <-].
  right. by exists req, r.
Qed.

Lemma on_read_shape ui_root f res h s h' s' :
  pending h = Some reading -> on_read ui_root f res h s = Some (h', s') -> conn_shape h -> conn_shape h'.
Proof.
  intros Hp Hr Hi. unfold conn_shape in *. rewrite Hp in Hi. destruct Hi as (Hi & Hu & Hs).
  destruct res as [| | |req [|]]; simpl in Hr; simplify_eq; try (simpl; by left).
  destruct (handle_request req ui_root f s) as [[r s1]|] eqn:Hh; simplify_eq/=. by rewrite fmap_app, Hi.
Qed.

Lemma on_read_inv ui_root f res h s h' s' :
  pending h = Some reading -> on_read ui_root f res h s = Some (h', s') ->
  conn_inv ui_root f h -> conn_inv ui_root f h'.
Proof.
  intros Hp Hr [Hlog Hi]. split; [|by eapply on_read_shape].
  destruct (on_read_log _ _ _ _ _ _ _ Hr) as [->|(req & r & _ & Hh & ->)]; [done|].
  apply Forall_app. split; [done|]. constructor; [|done]. simpl. eauto.
Qed.

Lemma on_write_shape ok r h :
  pending h = Some (writing r) -> conn_shape h -> conn_shape (on_write ok r h) /\ log (on_write ok r h) = log h.
Proof.
  intros Hp Hi. unfold conn_shape in Hi. rewrite Hp in Hi. destruct Hi as (Hi & Hu & Hs).
  unfold on_write, conn_shape. destruct ok; simpl; [destruct (need_eof r)|]; split; simpl; try done.
  - by left.
  - right. eauto.
Qed.

Lemma on_write_inv ui_root f ok r h :
  pending h = Some (writing r) -> conn_inv ui_root f h -> conn_inv ui_root f (on_write ok r h).
Proof.
  intros Hp [Hlog Hi]. destruct (on_write_shape ok r h Hp Hi) as [Hs Hl]. split; [by rewrite Hl|done].
Qed.

Lemma conn_shape_says h :
  conn_shape h ->
  ((log h).*2 = written h \/ exists r, (log h).*2 = written h ++ [r])
  /\ (pending h = Some reading -> (log h).*2 = written h)
  /\ (upgraded h <> None \/ shut h = true -> pending h = None).
Proof.
  unfold conn_shape. destruct (pending h) as [[|r]|].
  - intros (? & -> & ->). split; [by left|]. split; [done|]. by intros [?|?].
  - intros (? & -> & ->). split; [by right; eauto|]. split; [done|]. by intros [?|?].
  - intros Hi. split; [done|]. done.
Qed.

(** A connection answers its requests one at a time and in order: the
    next request is read only when the reply before is written completely, so
    the replies written are those of the requests, in their order, the last
    one missing at most; once upgraded or shut, it does nothing more. *)
Theorem connection_in_order ui_root f s0 h s :
  rtc (conn_step ui_root f) (run_session, s0) (h, s) ->
  Forall (fun l => exists s s', handle_request l.1 ui_root f s = Some (l.2, s')) (log h)
  /\ ((log h).*2 = written h \/ exists r, (log h).*2 = written h ++ [r])
  /\ (pending h = Some reading -> (log h).*2 = written h)
  /\ (upgraded h <> None \/ shut h = true -> pending h = None).
Proof.
  intros Hr. assert (conn_inv ui_root f h) as [Hlog Hi].
  { change h with (h, s).1. assert (conn_inv ui_root f (run_session, s0).1) as H0 by (by split).
    revert H0. generalize dependent (h, s). generalize (run_session, s0).
    intros c c' Hr. induction Hr as [c|c1 c2 c3 Hs Hr IH]; [done|]. intros H0. apply IH.
    destruct Hs; [by eapply on_read_inv|by apply on_write_inv|done]. }
  split; [done|]. by apply conn_shape_says.
Qed.
End http.

(** ** The accept loop *)

Record listener := mk_listener { listening : bool; accepting : bool; sessions : nat }.

(** The constructor: [open], [set_option], [bind] and [listen] in this order,
    up to the first that fails. *)
Definition new_listener (results : list bool) : listener := mk_listener (forallb id results) false 0.

Definition run_listener (l : listener) : listener := mk_listener (listening l) true (sessions l).

Definition on_accept (ok : bool) (l : listener) : listener :=
  if negb ok then mk_listener (listening l) false (sessions l)
  else mk_listener (listening l) true (S (sessions l)).

(** Completions, as long as an accept is under way. *)
Fixpoint accept_loop (results : list bool) (l : listener) : listener :=
  match results with
  | [] => l
  | ok :: results' => if accepting l then accept_loop results' (on_accept ok l) else l
  end.

(** The successes before the first failure. *)
Fixpoint successes (results : list bool) : nat :=
  match results with
  | true :: results' => S (successes results')
  | _ => 0
  end.

(** One session is launched for each connection up to the first accept
    that fails; after that the listener accepts nothing more, and the process
    goes on without it. *)
Theorem accept_loop_stops results l :
  accepting l = true ->
  sessions (accept_loop results l) = sessions l + successes results
  /\ (accepting (accept_loop results l) = true <-> Forall (fun ok => ok = true) results).
Proof.
  revert l. induction results as [|ok results IH]; intros l Ha; simpl; [rewrite Ha; by split; [lia|]|].
  rewrite Ha. unfold on_accept. destruct ok; simpl.
  - destruct (IH (mk_listener (listening l) true (S (sessions l)))) as [-> ->]; [done|].
    simpl. split; [lia|]. by rewrite Forall_cons; naive_solver.
  - assert (accept_loop results (mk_listener (listening l) false (sessions l))
            = mk_listener (listening l) false (sessions l)) as -> by (by destruct results).
    simpl. split; [lia|]. split; [done|]. intros Hf. by inversion Hf.
Qed.

(** ** Examples *)

#[local] Existing Instance sha1_demo.
#[local] Existing Instance handles_demo.
#[local] Existing Instance lt_demo.
#[local] Existing Instance parsers_demo.
#[local] Existing Instance session_demo.
#[local] Existing Instance demo_metrics.
#[local] Existing Instance text_demo.
#[local] Existing Instance beast_demo.
#[local] Existing Instance demo_api.

Definition files_demo : Files := {|
  file_open f p := match read_all f p with Some b => opened_file b | None => no_such_file end;
|}.
#[local] Existing Instance files_demo.

Definition eof_demo : NeedEof := {|
  need_eof r := match r with string_reply r => negb (res_keep_alive r) | _ => false end;
|}.
#[local] Existing Instance eof_demo.

Definition demo_web : fsys := mk_fsys (<["/ui/app/index.html" := File "hello"]> ∅) ∅.
Definition demo_get : request := demo_request verb.get "/app/".
Definition demo_head : file_head := mk_head 11 SERVER_SIGNATURE "text/html" 5 true.

Lemma static_files_confined_witness :
  exists rest bytes, file_open demo_web ("/ui" +:+ String "/" rest) = opened_file bytes
                     /\ sfind (String "/" rest) ".." 0 = None
                     /\ fh_length demo_head = String.length bytes
                     /\ (forall b, file_reply demo_head "hello" = file_reply demo_head b -> b = bytes).
Proof.
  assert (handle_request demo_get "/ui" demo_web demo_state = Some (file_reply demo_head "hello", demo_state)) as Hh
    by reflexivity.
  destruct (static_files_confined _ "/ui" _ _ _ _ eq_refl Hh) as [_ Hf]. apply (Hf demo_head). right. by eexists.
Defined.

Definition demo_conn : http_session :=
  on_write true (file_reply demo_head "hello")
    (mk_session (Some (writing (file_reply demo_head "hello"))) None false []
       [(demo_get, file_reply demo_head "hello")]).

Lemma connection_in_order_witness :
  Forall (fun l => exists s s', handle_request l.1 "/ui" demo_web s = Some (l.2, s')) (HttpSession.log demo_conn)
  /\ ((HttpSession.log demo_conn).*2 = written demo_conn
      \/ exists r, (HttpSession.log demo_conn).*2 = written demo_conn ++ [r])
  /\ (pending demo_conn = Some reading -> (HttpSession.log demo_conn).*2 = written demo_conn)
  /\ (upgraded demo_conn <> None \/ shut demo_conn = true -> pending demo_conn = None).
Proof.
  apply (connection_in_order "/ui" demo_web demo_state demo_conn demo_state).
  eapply rtc_l; [apply (conn_read "/ui" demo_web (read_request demo_get false)); reflexivity|].
  apply rtc_once. by apply conn_write.
Defined.

Lemma accept_loop_stops_witness :
  let l := run_listener (new_listener [true; true; true; true]) in
  sessions (accept_loop [true; true; false; true] l) = 2
  /\ (accepting (accept_loop [true; true; false; true] l) = true
      <-> Forall (fun ok => ok = true) [true; true; false; true]).
Proof. exact (accept_loop_stops [true; true; false; true] (run_listener (new_listener [true; true; true; true])) eq_refl). Defined.
