(* ===== verification/Commands.v ===== *)
(** * The API as a language of commands (src/handlers.cpp, src/http_session.cpp)

    Whatever a request does to the server state is one operation of [sheath],
    or none, and which one can be read off the request alone: method, target,
    two header fields and the body.  [request_command] is that reading;
    [request_is_command] says that [handle_request] runs exactly it. *)

From S2P Require Import Prelude CStd Json JsonPatch Fs Util SessionStats TorrentStatus Libtorrent.
From S2P Require Import HttpUtil Demo JsonText Sheath Torrents Accounting Handlers HttpSession.

Section commands.
Context {sha : Sha1} {ltd : LtData} {hs : Handles} {ltp : LtParsers} {lts : Session} {mt : Metrics}.
Context {beast : Beast} {text : JsonText} {fls : Files} {eof : NeedEof}.

(** ** The commands *)

(** Of a post to [/api/torrents], with the directory for torrents that name
    none. *)
Definition torrents_command (req : request) (store : string) : option op :=
  match req_method req with
  | verb.post =>
      Some (if bool_decide (default "" (req_find req "Content-Type") = ctTorrent)
            then op_add (req_body req) (default store (req_find req "x-save-path"))
            else op_magnet (req_body req))
  | _ => None
  end.

(** Of a request for one torrent: forty digits from the fourteenth character
    on, and what follows the character behind them. *)
Definition torrent_command (req : request) : option op :=
  t ← strip_query (req_target req);
  ih ← from_hex (stake 40 (sdrop 13 t));
  let act := sdrop 54 t in
  match req_method req with
  | verb.delete_ => Some (op_drop ih (bool_decide (act ∈ ["yes"; "with_data"])))
  | verb.put =>
      if bool_decide (act ∈ ["toggle"; "pause"]) then Some (op_pause_resume ih)
      else if bool_decide (act ∈ ["start"; "resume"]) then Some (op_resume ih) else None
  | _ => None
  end.

Definition request_command (req : request) (store : string) : option op :=
  if illegal_target (req_target req) then None
  else
    _ ← sfind (req_target req) "/api/" 0;
    uri ← strip_query (sdrop 4 (req_target req));
    if bool_decide (req_method req = verb.get) && bool_decide (uri ∈ ["/session"; "/session/stats"; "/sync/stats"]) then None
    else if bool_decide (uri = "/torrents") then torrents_command req store
    else if bool_decide (sfind uri "/torrent/" 0 = Some 0) then torrent_command req
    else if bool_decide (req_method req = verb.put) && bool_decide (uri = "/session/toggle") then Some op_toggle
    else None.

Definition obey (c : option op) (s : sheath) : option sheath :=
  match c with Some o => exec o s | None => Some s end.

(** ** Every request is its command *)

#[local] Notation api k order := (sheath_api k order).

Lemma handleTorrents_command k order req (s : sheath) r (s' : sheath) :
  @handleTorrents _ (api k order) _ _ req s = Some (r, s') -> obey (torrents_command req (dir_store (cfg s))) s = Some s'.
Proof.
  unfold handleTorrents, torrents_command. destruct (req_method req); try by intros [= _ <-].
  destruct (req_find req "Content-Length"); [|done]. cbn [mbind option_bind]. case_bool_decide; cbn [obey exec].
  - change (default _ (req_find req "x-save-path"))
      with match req_find req "x-save-path" with Some d => d | None => dir_store (cfg s) end.
    cbn [api_add_torrent api_dir_store sheath_api]. destruct (add_torrent_buf _ _ s) as [ok s1]. by intros [= _ <-].
  - cbn [api_add_magnet sheath_api]. destruct (add_magnet _ s) as [ok s1]. by intros [= _ <-].
Qed.

Lemma elem_of_two (x a b : string) : bool_decide (x ∈ [a; b]) = bool_decide (x = a) || bool_decide (x = b).
Proof. rewrite <- bool_decide_or. apply bool_decide_ext. set_solver. Qed.

Lemma handleTorrent_command k order req (s : sheath) r (s' : sheath) :
  @handleTorrent _ (api k order) _ _ req 13 s = Some (r, s') -> obey (torrent_command req) s = Some s'.
Proof.
  unfold handleTorrent, torrent_command. destruct (strip_query _) as [t|]; [|done]. cbn [mbind option_bind Nat.add].
  destruct (String.length t <? 53) eqn:Hlen; bool_simp.
  { intros [= _ <-]. unfold from_hex. rewrite (proj2 (Nat.eqb_neq (String.length (stake 40 (sdrop 13 t))) 40)); [done|].
    rewrite slength_stake, slength_sdrop. lia. }
  rewrite substr_total by lia. cbn [mbind option_bind]. destruct (from_hex _) as [ih|]; [|by intros [= _ <-]]. cbn [mbind option_bind].
  case_bool_decide as Hhead; [rewrite Hhead; by intros [= _ <-]|].
  assert ((if 54 <? String.length t then substr_from t 54 else Some "") = Some (sdrop 54 t)) as ->.
  { destruct (54 <? String.length t) eqn:Ht; bool_simp; [apply substr_from_total; lia|by rewrite sdrop_ge]. }
  cbn [mbind option_bind]. rewrite !elem_of_two. destruct (req_method req); try by intros [= _ <-].
  - destruct (api_get_torrent _ _ _) as [j|]; [|done]. cbn [mbind option_bind]. by destruct j; intros [= _ <-].
  - intros [= _ <-]. destruct (_ || _); [done|]. by destruct (_ || _).
  - cbn [api_drop_torrent sheath_api obey exec]. destruct (drop_torrent _ _ _) as [ok s1]. by intros [= _ <-].
Qed.

Lemma sbCall_command k order req (s : sheath) r (s' : sheath) :
  illegal_target (req_target req) = false ->
  @sbCall _ (api k order) _ _ req s = Some (r, s') -> obey (request_command req (dir_store (cfg s))) s = Some s'.
Proof.
  unfold sbCall, request_command. intros ->. destruct (sfind _ "/api/" 0) as [i|] eqn:Hf; [|by intros [= _ <-]].
  cbn [mbind option_bind]. assert (4 <= String.length (req_target req)) as Hlen.
  { apply sfind_split in Hf as (a & b & -> & _ & _). rewrite !slength_app. simpl. lia. }
  rewrite substr_from_total by done. cbn [mbind option_bind]. destruct (strip_query _) as [uri|]; [|done]. cbn [mbind option_bind].
  destruct (decide (req_method req = verb.get /\ uri ∈ ["/session"; "/session/stats"; "/sync/stats"])) as [[Hg Hu]|Hn].
  - rewrite Hg, (bool_decide_eq_true_2 (uri ∈ _)), bool_decide_eq_true_2 by done. cbn [andb].
    repeat case_bool_decide; try set_solver; unfold handleSessionInfo, handleSessionStats, handleSyncStats;
      match goal with |- context [mbind _ ?o] => destruct o; [|done] end; by intros [= _ <-].
  - assert (bool_decide (req_method req = verb.get) && bool_decide (uri ∈ ["/session"; "/session/stats"; "/sync/stats"]) = false) as ->.
    { apply andb_false_iff. repeat case_bool_decide; naive_solver. }
    assert (forall u, u ∈ ["/session"; "/session/stats"; "/sync/stats"] ->
              bool_decide (req_method req = verb.get) && bool_decide (uri = u) = false) as Hu.
    { intros u Hin. apply andb_false_iff. repeat case_bool_decide; naive_solver. }
    rewrite (Hu "/session"), (Hu "/session/stats"), (Hu "/sync/stats") by set_solver.
    destruct (bool_decide (uri = "/torrents")); [apply handleTorrents_command|].
    destruct (bool_decide (sfind uri _ 0 = _)); [apply handleTorrent_command|].
    destruct (_ && _); [|by intros [= _ <-]].
    unfold handleSessionToggle. cbn [api_toggle_pause_resume sheath_api obey exec].
    destruct (toggle_pause_resume s) as [b sx]. by intros [= _ <-].
Qed.

Lemma handle_request_command k order req ui (s : sheath) r (s' : sheath) :
  handle_request (api := api k order) req ui (files s) s = Some (r, s') ->
  obey (request_command req (dir_store (cfg s))) s = Some s'.
Proof.
  unfold handle_request. destruct (illegal_target _) eqn:Hi; [intros [= _ <-]; unfold request_command; by rewrite Hi|].
  destruct (@sbCall _ (api k order) _ _ req s) as [[o s1]|] eqn:Hs; [|done].
  apply sbCall_command in Hs; [|done]. cbn [mbind option_bind].
  destruct o; [by intros [= _ <-]|]. by destruct (file_open _ _); intros [= _ <-].
Qed.

Lemma safe_command req store : req_method req ∈ [verb.get; verb.head] -> request_command req store = None.
Proof.
  intros Hm. unfold request_command. destruct (illegal_target _); [done|].
  destruct (sfind _ "/api/" 0); [|done]. cbn [mbind option_bind]. destruct (strip_query _); [|done]. cbn [mbind option_bind].
  unfold torrents_command, torrent_command. destruct (strip_query (req_target req)) as [t|]; cbn [mbind option_bind];
    [destruct (from_hex _); cbn [mbind option_bind]|]; set_unfold in Hm; destruct Hm as [->|[->|[]]]; by repeat case_match.
Qed.

(** No command handles alerts. *)
Lemma request_op_alerts req store o s : request_command req store = Some o -> op_alerts o s = [].
Proof.
  unfold request_command, torrents_command, torrent_command. intros Hc.
  repeat match type of Hc with
    | context [if ?b then _ else _] => destruct b; try done
    | context [mbind _ ?o] => destruct o; try done; cbn [mbind option_bind] in Hc
    | context [match ?m with _ => _ end] => destruct m; try done
    end; by simplify_eq.
Qed.

(** C17: the API is a language of commands: what a request does to the server
    state is one operation of [sheath], or none, that is read off the method,
    the target, two fields and the body, whatever the state; a request that is
    a [GET] or a [HEAD] changes nothing. *)
Theorem request_is_command k order req ui s r s' :
  handle_request (api := api k order) req ui (files s) s = Some (r, s') ->
  match request_command req (dir_store (cfg s)) with Some o => exec o s = Some s' | None => s' = s end
  /\ (req_method req ∈ [verb.get; verb.head] -> s' = s).
Proof.
  intros Hr%handle_request_command. split.
  - by destruct (request_command _ _) as [o|]; [|injection Hr].
  - intros Hm. rewrite safe_command in Hr by done. by injection Hr.
Qed.
End commands.

(** ** Examples *)

#[local] Existing Instance sha1_demo.
#[local] Existing Instance handles_demo.
#[local] Existing Instance lt_demo.
#[local] Existing Instance parsers_demo.
#[local] Existing Instance session_demo.
#[local] Existing Instance demo_metrics.
#[local] Existing Instance beast_demo.
#[local] Existing Instance text_demo.
#[local] Existing Instance files_demo.
#[local] Existing Instance eof_demo.

(** Requests as commands. *)
Example commands_read :
  (fun mt => request_command (demo_request mt.1 mt.2) "/store") <$>
    [(verb.put, "/api/torrent/" +:+ (demo_hex +:+ "/resume")); (verb.delete_, "/api/torrent/" +:+ (demo_hex +:+ "/yes?x=1"));
     (verb.delete_, "/api/torrent/" +:+ demo_hex); (verb.put, "/api/session/toggle"); (verb.get, "/api/torrents");
     (verb.put, "/../api/session/toggle"); (verb.put, "/api/torrent/00")]
  = [Some (op_resume demo_hash); Some (op_drop demo_hash true); Some (op_drop demo_hash false); Some op_toggle; None; None; None].
Proof. reflexivity. Qed.

Definition demo_command : request := demo_request verb.put ("/api/torrent/" +:+ (demo_hex +:+ "/pause")).

Definition demo_handled : sheath :=
  match handle_request (api := sheath_api demo_clocks map_to_list) demo_command "/ui" (files demo_sheath) demo_sheath with
  | Some (_, s) => s
  | None => demo_sheath
  end.

Lemma request_is_command_witness :
  exec (op_pause_resume demo_hash) demo_sheath = Some demo_handled
  /\ (req_method demo_command ∈ [verb.get; verb.head] -> demo_handled = demo_sheath).
Proof.
  assert (exists r, handle_request (api := sheath_api demo_clocks map_to_list) demo_command "/ui" (files demo_sheath) demo_sheath
                    = Some (r, demo_handled)) as [r Hr].
  { assert (defined (handle_request (api := sheath_api demo_clocks map_to_list) demo_command "/ui" (files demo_sheath) demo_sheath)
            = true) as Hd by (vm_compute; reflexivity).
    unfold demo_handled. destruct (handle_request _ _ _ _) as [[r s]|]; [by exists r|done]. }
  destruct (request_is_command _ _ _ _ _ _ _ Hr) as [Hc Hsafe]. split; [|exact Hsafe].
  assert (request_command demo_command (dir_store (cfg demo_sheath)) = Some (op_pause_resume demo_hash)) as He
    by reflexivity.
  rewrite He in Hc. exact Hc.
Defined.
