(* ===== verification/Sync.v ===== *)
(** * The sync channel (src/handlers.cpp, [httpCaller])

    Joining, leaving, broadcasting, and the loop that sends every second the
    difference between two snapshots to all websocket clients.  What is sent
    to a session is appended to its [outbox], in order ([WebSocket] is about
    the delivery).  [snap] is what [sheath::getSyncStats] answers at the
    moment of the call. *)

From S2P Require Import Prelude CStd Json JsonPatch JsonDiff Fs Util SessionStats TorrentStatus Libtorrent.
From S2P Require Import Demo JsonText.

Section sync.
Context {jeq : JsonEq} {text : JsonText}.

(** Sessions are the pointers of the set, as numbers. *)
Record httpCaller := mk_caller {
  sessions_ : gset nat;
  prev_stats : json;
  curr_stats : json;
  sync_ver : Z;
  outbox : gmap nat (list string);
}.

Definition new_caller : httpCaller :=
  {| sessions_ := ∅; prev_stats := JNull; curr_stats := JNull; sync_ver := 0; outbox := ∅ |}.

(** [wss->send(ss)]. *)
Definition send (m : string) (id : nat) (c : httpCaller) : httpCaller :=
  {| sessions_ := sessions_ c; prev_stats := prev_stats c; curr_stats := curr_stats c;
     sync_ver := sync_ver c; outbox := alter (fun l => l ++ [m]) id (outbox c) |}.

(** The message of a join: the whole snapshot. *)
Definition join_msg (ver : Z) (qid : string) (body : json) : json :=
  JObject ["version" ~> JUint64 ver; "id" ~> JString qid; "body" ~> body].

(** The message of a round: the difference. *)
Definition delta_msg (ver : Z) (prev curr : json) : json :=
  JObject ["version" ~> JUint64 ver; "delta" ~> JBool true; "body" ~> json_diff_root prev curr].

(** [join]; [qid] is the session's id argument, [rnd] the random number. *)
Definition join (id : nat) (qid : string) (rnd : Z) (snap : json) (c : httpCaller) : httpCaller :=
  let ver := uwrap 64 (sync_ver c + 1) in
  let qid := if bool_decide (qid = "") then n2hex 4 rnd else qid in
  let curr := match curr_stats c with JNull => snap | j => j end in
  send (serialize (join_msg ver qid curr)) id
    {| sessions_ := {[id]} ∪ sessions_ c; prev_stats := prev_stats c; curr_stats := curr;
       sync_ver := ver; outbox := outbox c |}.

Definition leave (id : nat) (c : httpCaller) : httpCaller :=
  {| sessions_ := sessions_ c ∖ {[id]}; prev_stats := prev_stats c; curr_stats := curr_stats c;
     sync_ver := sync_ver c; outbox := outbox c |}.

(** To every session of the list copied from the set. *)
Definition broadcast (m : string) (c : httpCaller) : httpCaller :=
  foldr (send m) c (elements (sessions_ c)).

(** A session whose handshake was accepted: it starts with an empty queue. *)
Definition connect (id : nat) (c : httpCaller) : httpCaller :=
  {| sessions_ := sessions_ c; prev_stats := prev_stats c; curr_stats := curr_stats c;
     sync_ver := sync_ver c; outbox := <[id := []]> (outbox c) |}.

(** The three parts of a round of [doLoop]; no lock is held over them. *)
Definition round_fetch (snap : json) (c : httpCaller) : httpCaller :=
  {| sessions_ := sessions_ c; prev_stats := prev_stats c; curr_stats := snap;
     sync_ver := uwrap 64 (sync_ver c + 1); outbox := outbox c |}.

Definition round_send (c : httpCaller) : httpCaller :=
  broadcast (serialize (delta_msg (sync_ver c) (prev_stats c) (curr_stats c))) c.

Definition round_keep (c : httpCaller) : httpCaller :=
  {| sessions_ := sessions_ c; prev_stats := curr_stats c; curr_stats := curr_stats c;
     sync_ver := sync_ver c; outbox := outbox c |}.

Definition doLoop (snap : json) (c : httpCaller) : httpCaller :=
  if bool_decide (sessions_ c = ∅) then c else round_keep (round_send (round_fetch snap c)).

(** ** A client *)

(** What a message does to the client's document: a delta patches it, any
    other body replaces it; a patch that fails leaves the client without. *)
Definition client_step (doc : option json) (m : string) : option json :=
  match json_parse m with
  | Some (JObject o) =>
      match obj_find "body" o with
      | None => doc
      | Some body =>
          match obj_find "delta" o with
          | Some (JBool true) => doc ≫= patch_json body
          | _ => Some body
          end
      end
  | _ => doc
  end.

Definition replica (ms : list string) : option json := foldl client_step None ms.

(** ** The messages a session gets *)

Lemma send_lookup m id c id' :
  outbox (send m id c) !! id'
  = if decide (id = id') then (fun l => l ++ [m]) <$> outbox c !! id' else outbox c !! id'.
Proof.
  simpl. case_decide; subst; [by rewrite lookup_alter_eq|by rewrite lookup_alter_ne].
Qed.

Lemma broadcast_frame m c :
  sessions_ (broadcast m c) = sessions_ c /\ prev_stats (broadcast m c) = prev_stats c
  /\ curr_stats (broadcast m c) = curr_stats c /\ sync_ver (broadcast m c) = sync_ver c.
Proof. unfold broadcast. generalize (elements (sessions_ c)). intros l. by induction l. Qed.

(** Each connected session gets a broadcast message once, no other does. *)
Lemma broadcast_outbox m c id :
  outbox (broadcast m c) !! id
  = if decide (id ∈ sessions_ c) then (fun l => l ++ [m]) <$> outbox c !! id else outbox c !! id.
Proof.
  unfold broadcast. pose proof (NoDup_elements (sessions_ c)) as Hnd.
  assert (id ∈ sessions_ c <-> id ∈ elements (sessions_ c)) as Hin by (symmetry; apply elem_of_elements).
  assert ((if decide (id ∈ sessions_ c) then (fun l => l ++ [m]) <$> outbox c !! id else outbox c !! id)
          = if decide (id ∈ elements (sessions_ c)) then (fun l => l ++ [m]) <$> outbox c !! id else outbox c !! id) as ->
    by (repeat case_decide; tauto).
  clear Hin. revert Hnd. generalize (elements (sessions_ c)). intros l.
  induction 1 as [|x l Hx Hnd IH]; [done|]. cbn [foldr]. rewrite send_lookup, IH.
  destruct (decide (x = id)) as [->|Hne].
  - rewrite (decide_False (P := id ∈ l)) by done. by rewrite decide_True by (by left).
  - assert (id ∈ x :: l <-> id ∈ l) as Hiff by (rewrite elem_of_cons; naive_solver).
    by destruct (decide (id ∈ l)), (decide (id ∈ x :: l)); tauto.
Qed.

Lemma replica_snoc l m : replica (l ++ [m]) = client_step (replica l) m.
Proof. unfold replica. by rewrite foldl_app. Qed.

Context {jel : JsonEqLaws} {txl : JsonTextLaws}.

(** What a client reads of a message object: its members up to equality. *)
Lemma parse_message o :
  json_wf (JObject o) = true ->
  exists p, json_parse (serialize (JObject o)) = Some (JObject p)
            /\ forall k, option_Forall2 (≡) (obj_find k p) (obj_find k o).
Proof.
  intros Hwf. destruct (parse_serialize _ Hwf) as (j & Hp & He). exists (match j with JObject p => p | _ => [] end).
  destruct j; try (by destruct He as (_&_&?)). split; [done|].
  by apply json_equiv_object in He as (_ & _ & Hf).
Qed.

Lemma client_step_body o body doc :
  json_wf (JObject o) = true -> obj_find "body" o = Some body -> obj_find "delta" o = None ->
  exists d, client_step doc (serialize (JObject o)) = Some d /\ d ≡ body.
Proof.
  intros Hwf Hb Hd. destruct (parse_message o Hwf) as (p & Hp & Hf). unfold client_step. rewrite Hp.
  pose proof (Hf "body") as Hfb. rewrite Hb in Hfb. inversion Hfb as [b b' Hbb|]; subst.
  pose proof (Hf "delta") as Hfd. rewrite Hd in Hfd. inversion Hfd. eauto.
Qed.

Lemma jbool_equiv b j : j ≡ JBool b -> j = JBool b.
Proof. intros (_ & _ & Hs). destruct j; try done. simpl in Hs. by destruct b0, b. Qed.

(** A delta patches the client's document as it would an equal one. *)
Lemma client_step_patch o body doc d :
  json_wf (JObject o) = true -> obj_find "body" o = Some body -> obj_find "delta" o = Some (JBool true) ->
  d ≡ doc -> option_Forall2 (≡) (client_step (Some d) (serialize (JObject o))) (patch_json body doc).
Proof.
  intros Hwf Hb Hd Hdoc. destruct (parse_message o Hwf) as (p & Hp & Hf). unfold client_step. rewrite Hp.
  pose proof (Hf "body") as Hfb. rewrite Hb in Hfb. inversion Hfb as [b b' Hbb|]; subst.
  pose proof (Hf "delta") as Hfd. rewrite Hd in Hfd. inversion Hfd as [x x' Hx|]; subst.
  apply jbool_equiv in Hx as ->. by apply patch_json_proper.
Qed.

Lemma client_step_delta o body doc d r :
  json_wf (JObject o) = true -> obj_find "body" o = Some body -> obj_find "delta" o = Some (JBool true) ->
  patch_json body doc = Some r -> d ≡ doc ->
  exists r', client_step (Some d) (serialize (JObject o)) = Some r' /\ r' ≡ r.
Proof.
  intros Hwf Hb Hd Hr Hdoc. pose proof (client_step_patch o body doc d Hwf Hb Hd Hdoc) as Hp.
  rewrite Hr in Hp. inversion Hp; subst. eauto.
Qed.

(** ** Every client holds the current snapshot *)

(** A snapshot: an object whose keys need no escaping. *)
Definition snapshot_ok (j : json) : Prop :=
  json_wf j = true /\ plain j = true /\ json_kind j = KObject.

Inductive sync_op :=
  | op_join (id : nat) (qid : string) (rnd : Z) (snap : json)
  | op_leave (id : nat)
  | op_round (snap : json).

Definition sync_exec (c : httpCaller) (o : sync_op) : httpCaller :=
  match o with
  | op_join id qid rnd snap => join id qid rnd snap (connect id c)
  | op_leave id => leave id c
  | op_round snap => doLoop snap c
  end.

(** What is asked of the snapshots of a run: that a round's is one, and that
    no array of it grew by more than one element since the last round. *)
Definition op_ok (c : httpCaller) (o : sync_op) : Prop :=
  match o with
  | op_join _ _ _ snap => snapshot_ok snap
  | op_leave _ => True
  | op_round snap => snapshot_ok snap /\ grows_by_one (prev_stats c) snap = true
  end.

Fixpoint run_ok (c : httpCaller) (os : list sync_op) : Prop :=
  match os with
  | [] => True
  | o :: os' => op_ok c o /\ run_ok (sync_exec c o) os'
  end.

Definition sync_inv (c : httpCaller) : Prop :=
  (curr_stats c = JNull /\ prev_stats c = JNull /\ sessions_ c = ∅
   \/ snapshot_ok (curr_stats c) /\ (prev_stats c = JNull \/ prev_stats c = curr_stats c))
  /\ forall id, id ∈ sessions_ c ->
       exists ms d, outbox c !! id = Some ms /\ replica ms = Some d /\ d ≡ curr_stats c.

Lemma join_msg_wf ver qid body : json_wf body = true -> json_wf (join_msg ver qid body) = true.
Proof. intros Hb. cbn. by rewrite Hb. Qed.

Lemma delta_msg_wf ver prev curr : json_wf curr = true -> json_wf (delta_msg ver prev curr) = true.
Proof.
  intros Hc. pose proof (json_diff_wf prev curr "" Hc) as Hw. unfold delta_msg, json_diff_root.
  apply json_wf_object. split; [apply (bool_decide_unpack _); by vm_compute|].
  intros k v. cbn [obj_find]. repeat case_bool_decide; intros; by simplify_eq.
Qed.

Lemma snapshot_not_null j : snapshot_ok j -> j <> JNull /\ json_eqb JNull j = false.
Proof.
  intros (Hw & _ & Hk). split; [by intros ->|]. apply not_true_iff_false. intros He.
  apply json_eqb_spec in He; [|done..]. apply json_equiv_kind in He as [He|(z & ? & _)]; [|done].
  by rewrite Hk in He.
Qed.

(** The patch of a round turns the last snapshot into the new one. *)
Lemma round_patch prev curr snap :
  snapshot_ok curr -> snapshot_ok snap -> prev = JNull \/ prev = curr -> grows_by_one prev snap = true ->
  exists r, patch_json (json_diff_root prev snap) curr = Some r /\ r ≡ snap.
Proof.
  intros (Hcw & Hcp & _) Hs Hprev Hg. destruct (snapshot_not_null snap Hs) as [Hn He].
  destruct Hs as (Hsw & Hsp & _). unfold json_diff_root. cbn [patch_json].
  destruct Hprev as [->| ->].
  - exists snap. split; [by apply apply_json_diff_null|by apply json_equiv_refl].
  - destruct (apply_json_diff_replica curr snap curr) as (d & Hd & Heq); [done..|by apply json_equiv_refl|].
    exists d. split; [done|]. etrans; [done|]. by apply patched_equiv.
Qed.

Lemma join_inv id qid rnd snap c :
  sync_inv c -> snapshot_ok snap -> sync_inv (join id qid rnd snap (connect id c)).
Proof.
  intros [Hst Hcl] Hsnap. set (curr := match curr_stats c with JNull => snap | j => j end).
  assert (snapshot_ok curr /\ (prev_stats c = JNull \/ prev_stats c = curr)
          /\ (sessions_ c <> ∅ -> curr = curr_stats c)) as (Hok & Hp & Hsame).
  { unfold curr. destruct Hst as [(-> & Hp & Hemp)|(Hok & Hp)]; [by split_and!; auto|].
    destruct (snapshot_not_null _ Hok). by destruct (curr_stats c). }
  split; [right; by split|]. intros id' Hid'. cbn [join connect curr_stats] in *. unfold join in *.
  rewrite send_lookup. cbn [outbox connect]. cbn [sessions_ send] in Hid'.
  destruct (decide (id = id')) as [<-|Hne].
  - rewrite lookup_insert_eq. cbn [fmap option_fmap option_map].
    destruct (client_step_body ["version" ~> JUint64 (uwrap 64 (sync_ver c + 1));
        "id" ~> JString (if bool_decide (qid = "") then n2hex 4 rnd else qid); "body" ~> curr] curr None)
      as (d & Hd & Heq); [by apply join_msg_wf; destruct Hok|done..|].
    eexists _, d. split; [done|]. split; [exact Hd|exact Heq].
  - rewrite lookup_insert_ne by done.
    assert (id' ∈ sessions_ c) as Hin by set_solver.
    destruct (Hcl id' Hin) as (ms & d & Ho & Hr & Heq). exists ms, d. split; [done|]. split; [done|].
    change (d ≡ curr). rewrite Hsame; [done|]. intros He. rewrite He in Hin. by apply elem_of_empty in Hin.
Qed.

Lemma round_inv snap c :
  sync_inv c -> snapshot_ok snap -> grows_by_one (prev_stats c) snap = true -> sync_inv (doLoop snap c).
Proof.
  intros [Hst Hcl] Hsnap Hg. unfold doLoop. case_bool_decide as Hemp; [by split|].
  destruct Hst as [(_ & _ & He)|(Hok & Hp)]; [done|].
  destruct (round_patch _ _ _ Hok Hsnap Hp Hg) as (r & Hr & Hreq).
  set (m := serialize (delta_msg (sync_ver (round_fetch snap c)) (prev_stats c) snap)).
  destruct (broadcast_frame m (round_fetch snap c)) as (Hs & _ & Hc & _).
  split.
  - right. cbn [round_keep curr_stats prev_stats]. unfold round_send.
    cbn [round_fetch curr_stats prev_stats] in *. fold m. rewrite Hc. auto.
  - cbn [round_keep sessions_ outbox curr_stats]. unfold round_send.
    change (curr_stats (round_fetch snap c)) with snap.
    change (prev_stats (round_fetch snap c)) with (prev_stats c). fold m.
    rewrite Hs, Hc. intros id Hin. rewrite broadcast_outbox, decide_True by done.
    destruct (Hcl id Hin) as (ms & d & Ho & Hrep & Heq). cbn [round_fetch outbox curr_stats].
    rewrite Ho. destruct (client_step_delta ["version" ~> JUint64 (sync_ver (round_fetch snap c));
        "delta" ~> JBool true; "body" ~> json_diff_root (prev_stats c) snap]
        (json_diff_root (prev_stats c) snap) (curr_stats c) d r) as (r' & Hr' & Hreq');
      [by apply delta_msg_wf; destruct Hsnap|done..|].
    exists (ms ++ [m]), r'. split; [done|]. rewrite replica_snoc, Hrep. split; [exact Hr'|].
    etrans; [done|]. exact Hreq.
Qed.

Lemma sync_exec_inv c o : sync_inv c -> op_ok c o -> sync_inv (sync_exec c o).
Proof.
  intros Hinv. destruct o as [id qid rnd snap|id|snap]; simpl; intros Hok.
  - by apply join_inv.
  - destruct Hinv as [Hst Hcl]. split.
    + destruct Hst as [(? & ? & He)|Hst]; [left|by right]. cbn. rewrite He. by split_and!; [..|set_solver].
    + intros id' Hin. apply Hcl. cbn in Hin. set_solver.
  - destruct Hok. by apply round_inv.
Qed.

Lemma sync_run_inv os id :
  run_ok new_caller os -> id ∈ sessions_ (foldl sync_exec new_caller os) ->
  exists ms d, outbox (foldl sync_exec new_caller os) !! id = Some ms /\ replica ms = Some d
               /\ d ≡ curr_stats (foldl sync_exec new_caller os).
Proof.
  intros Hrun. assert (sync_inv new_caller) as Hinv by (split; [left; done|intros ? []%elem_of_empty]).
  revert Hrun Hinv. generalize new_caller.
  induction os as [|o os IH]; intros c Hrun Hinv; [intros Hin; by apply Hinv|]. destruct Hrun as [Ho Hrun].
  by apply (IH (sync_exec c o)), sync_exec_inv.
Qed.

(** Whenever rounds do not overlap with joins, every connected client
    that applies the messages sent to it holds the current snapshot, through
    any sequence of joins, leaves and rounds, as long as no array of a
    snapshot grows by two or more elements between rounds. *)
Theorem sync_clients_current os id :
  run_ok new_caller os ->
  let c := foldl sync_exec new_caller os in
  id ∈ sessions_ c ->
  exists ms d, outbox c !! id = Some ms /\ replica ms = Some d /\ d ≡ curr_stats c.
Proof.
  intros Hrun c Hin. by apply sync_run_inv.
Qed.

(** What one client sends goes to every client as it is: a text that
    looks like a message of the server replaces the document of all of them,
    whatever they held. *)
Theorem client_text_injected body c id ms :
  json_wf body = true -> id ∈ sessions_ c -> outbox c !! id = Some ms ->
  exists ms' d, outbox (broadcast (serialize (JObject ["body" ~> body])) c) !! id = Some ms'
                /\ replica ms' = Some d /\ d ≡ body.
Proof.
  intros Hb Hin Ho. rewrite broadcast_outbox, decide_True, Ho by done.
  destruct (client_step_body ["body" ~> body] body (replica ms)) as (d & Hd & Heq); [|done..|].
  { cbn. by rewrite Hb. }
  eexists _, d. split; [done|]. rewrite replica_snoc. done.
Qed.

(** The difference when the only torrent goes. *)
Lemma diff_last_removed x :
  json_wf x = true ->
  json_diff_root (JObject ["torrents" ~> JArray [x]]) (JObject ["torrents" ~> JArray []])
  = JArray [op_remove "/torrents/0"].
Proof.
  intros Hx. unfold json_diff_root. f_equal. cbn [json_diff].
  assert (json_eqb (JArray [x]) (JArray []) = false) as Ha.
  { apply not_true_iff_false. rewrite json_eqb_spec by (cbn; by rewrite ?Hx).
    rewrite json_equiv_array. intros Hf. by inversion Hf. }
  assert (json_eqb (JObject ["torrents" ~> JArray [x]]) (JObject ["torrents" ~> JArray []]) = false) as ->.
  { apply not_true_iff_false. rewrite json_eqb_spec by (cbn; by rewrite ?Hx).
    rewrite json_equiv_object. intros (_ & _ & Hf). specialize (Hf "torrents"). cbn in Hf.
    inversion Hf as [a b Hab|]; subst. apply json_equiv_array in Hab. by inversion Hab. }
  assert (json_diff (JArray [x]) (JArray []) "/torrents" = [op_remove "/torrents/0"]) as Hd
    by (cbn [json_diff]; rewrite Ha; reflexivity).
  change ((json_diff (JArray [x]) (JArray []) "/torrents" ++ []) ++ [] = [op_remove "/torrents/0"]).
  by rewrite !app_nil_r.
Qed.

End sync.

(** ** Examples *)

#[local] Existing Instance documented_eq.
#[local] Existing Instance text_demo.

Definition demo_stats (n : Z) (l : list json) : json :=
  JObject ["stats" ~> JObject ["rates" ~> JInt64 n]; "torrents" ~> JArray l].

Definition demo_sync_ops : list sync_op :=
  [op_join 1 "" 1234 (demo_stats 0 []); op_round (demo_stats 1 [JInt64 5]);
   op_join 2 "ab" 1000 (demo_stats 9 []); op_round (demo_stats 2 [JInt64 6; JNull]); op_leave 1;
   op_round (demo_stats 2 [JInt64 6])].

Lemma sync_clients_current_witness :
  let c := foldl sync_exec new_caller demo_sync_ops in
  exists ms d, outbox c !! 2 = Some ms /\ replica ms = Some d /\ d ≡ curr_stats c.
Proof.
  apply (sync_clients_current (jel := documented_eq_laws) (txl := text_demo_laws)).
  - repeat split; vm_compute; reflexivity.
  - apply (bool_decide_unpack _). vm_compute. done.
Defined.

Definition demo_caller : httpCaller := foldl sync_exec new_caller demo_sync_ops.
Definition demo_outbox : list string := default [] (outbox demo_caller !! 2).

Lemma client_text_injected_witness :
  exists ms' d, outbox (broadcast (serialize (JObject ["body" ~> JNull])) demo_caller) !! 2 = Some ms'
                /\ replica ms' = Some d /\ d ≡ JNull.
Proof.
  apply (client_text_injected (txl := text_demo_laws) JNull demo_caller 2 demo_outbox).
  - reflexivity.
  - apply (bool_decide_unpack _). vm_compute. done.
  - vm_compute. reflexivity.
Defined.

(** One client, one torrent. *)
Definition demo_last : httpCaller :=
  {| sessions_ := {[1]}; prev_stats := JObject ["torrents" ~> JArray [JInt64 5]];
     curr_stats := JObject ["torrents" ~> JArray [JInt64 5]]; sync_ver := 4; outbox := {[1 := []]} |}.

