(* ===== verification/WebSocket.v ===== *)
(** * Websocket sessions (src/http_websocket.cpp, include/http_websocket.hpp)

    The write queue of one session as a state machine.  [send] posts to the
    session's strand, which runs the posted handlers one at a time and in
    order; Beast allows one [async_write] at a time, and its completion runs
    [on_write].  [given], [written] and [sent] are ghosts: what [send] was
    called with, what the writes under way carry, what was written. *)

From S2P Require Import Prelude CStd Util HttpUtil.

(** The error codes the handlers tell apart. *)
Inductive errc := ec_ok | ec_closed | ec_aborted | ec_other.

Record websocket_session := mk_ws {
  posted : list string;
  queue_ : list string;
  written : list string;
  sent : list string;
  given : list string;
  closed : bool;
  uri_ : string;
  qid_ : string;
}.

Definition new_ws : websocket_session := mk_ws [] [] [] [] [] false "" "".

(** [run] on the upgrade request; [None] where [query_arg_one] throws. *)
Definition run (target : string) (w : websocket_session) : option websocket_session :=
  arg ← query_arg_one target "id=";
  Some (mk_ws (posted w) (queue_ w) (written w) (sent w) (given w) (closed w) target (url_decode arg)).

Definition send (m : string) (w : websocket_session) : websocket_session :=
  mk_ws (posted w ++ [m]) (queue_ w) (written w) (sent w) (given w ++ [m]) (closed w) (uri_ w) (qid_ w).

(** [async_write] of the message at the front of the queue. *)
Definition start_write (w : websocket_session) : websocket_session :=
  match queue_ w with
  | m :: _ => mk_ws (posted w) (queue_ w) (written w ++ [m]) (sent w) (given w) (closed w) (uri_ w) (qid_ w)
  | [] => w
  end.

Definition on_send (m : string) (w : websocket_session) : websocket_session :=
  let w := mk_ws (posted w) (queue_ w ++ [m]) (written w) (sent w) (given w) (closed w) (uri_ w) (qid_ w) in
  if 1 <? length (queue_ w) then w else start_write w.

Definition close (w : websocket_session) : websocket_session :=
  mk_ws (posted w) (queue_ w) (written w) (sent w) (given w) true (uri_ w) (qid_ w).

Definition on_write (ec : errc) (w : websocket_session) : websocket_session :=
  match ec with
  | ec_closed => close w
  | ec_aborted | ec_other => w
  | ec_ok =>
      let w := mk_ws (posted w) (tail (queue_ w)) (written w) (sent w) (given w) (closed w) (uri_ w) (qid_ w) in
      match queue_ w with [] => w | _ => start_write w end
  end.

(** What [on_read] and [on_accept] do besides: nothing, or the calls. *)
Inductive effect := joined | broadcasted (m : string) | read_more.

Definition on_accept (ec : errc) : list effect :=
  match ec with ec_ok => [joined; read_more] | _ => [] end.

Definition on_read (ec : errc) (data : string) (w : websocket_session) : list effect * websocket_session :=
  let w := match ec with ec_closed => close w | _ => w end in
  match ec with
  | ec_ok => if closed w then ([], w) else ([broadcasted data; read_more], w)
  | _ => ([], w)
  end.

(** ** Steps *)

(** A write under way ends: what it carried is written if it succeeded, and
    [on_write] runs. *)
Definition complete (ec : errc) (m : string) (rest : list string) (w : websocket_session) : websocket_session :=
  on_write ec (mk_ws (posted w) (queue_ w) rest (match ec with ec_ok => sent w ++ [m] | _ => sent w end)
                 (given w) (closed w) (uri_ w) (qid_ w)).

Definition run_posted (m : string) (rest : list string) (w : websocket_session) : websocket_session :=
  on_send m (mk_ws rest (queue_ w) (written w) (sent w) (given w) (closed w) (uri_ w) (qid_ w)).

Inductive step : websocket_session -> websocket_session -> Prop :=
  | step_send m w : step w (send m w)
  | step_strand m rest w : posted w = m :: rest -> step w (run_posted m rest w)
  | step_write ec m rest w : written w = m :: rest -> step w (complete ec m rest w)
  | step_read ec data w : step w (on_read ec data w).2
  | step_close w : step w (close w).

(** Steps in which every write succeeds. *)
Inductive good_step : websocket_session -> websocket_session -> Prop :=
  | good_send m w : good_step w (send m w)
  | good_strand m rest w : posted w = m :: rest -> good_step w (run_posted m rest w)
  | good_write m rest w : written w = m :: rest -> good_step w (complete ec_ok m rest w)
  | good_read ec data w : good_step w (on_read ec data w).2
  | good_close w : good_step w (close w).

(** Nothing is lost, doubled or reordered, and a write under way carries the
    front of the queue. *)
Definition ws_inv (w : websocket_session) : Prop :=
  given w = sent w ++ queue_ w ++ posted w
  /\ (written w = [] \/ exists m rest, written w = [m] /\ queue_ w = m :: rest).

Lemma on_send_inv m rest w : posted w = m :: rest -> ws_inv w -> ws_inv (run_posted m rest w).
Proof.
  intros Hp [Hg Hw]. unfold run_posted, on_send, start_write. simpl. rewrite Hp in Hg.
  destruct (queue_ w) as [|x q] eqn:Hq; simpl in *.
  - destruct Hw as [Hw|(m' & r & _ & ?)]; [|done]. split; simpl; [done|]. rewrite Hw. right. by exists m, [].
  - rewrite length_app. replace (1 <? S (length q + length [m])) with true
      by (symmetry; apply Nat.ltb_lt; simpl; lia). split; simpl.
    + by rewrite Hg, <- app_assoc.
    + destruct Hw as [Hw|(m' & r & Hw & Hr)]; [by left|right]. simplify_eq. by eexists _, _.
Qed.

Lemma complete_inv ec m rest w : written w = m :: rest -> ws_inv w -> ws_inv (complete ec m rest w).
Proof.
  intros Hw [Hg Hi]. destruct Hi as [Hi|(m' & q & Hm & Hq)]; [congruence|].
  rewrite Hw in Hm. injection Hm as -> ->. unfold complete.
  destruct ec; simpl; try (split; simpl; [done|by left]).
  rewrite Hq. simpl. destruct q as [|x q]; simpl; (split; simpl; [rewrite Hg, Hq, <- app_assoc; done|]).
  - by left.
  - right. by eexists _, _.
Qed.

(** What was sent to the session is the callers' business. *)
Lemma run_posted_given m rest w : given (run_posted m rest w) = given w.
Proof.
  unfold run_posted, on_send, start_write. simpl. case_match; [done|]. by destruct (queue_ w ++ [m]).
Qed.

Lemma complete_given ec m rest w : given (complete ec m rest w) = given w.
Proof.
  unfold complete, on_write, start_write. destruct ec; try done. simpl.
  by destruct (tail (queue_ w)) eqn:Ht; simpl; rewrite ?Ht.
Qed.

Lemma on_read_given ec data w : given (on_read ec data w).2 = given w.
Proof. unfold on_read. destruct ec; simpl; try done. by destruct (closed w). Qed.

Lemma step_inv w w' : step w w' -> ws_inv w -> ws_inv w'.
Proof.
  intros [m w0|m rest w0 Hp|ec m rest w0 Hw|ec data w0|w0] Hi.
  - destruct Hi as [Hg Hw]. split; [|done]. simpl. by rewrite Hg, <- !app_assoc.
  - by apply on_send_inv.
  - by apply complete_inv.
  - unfold on_read. destruct ec; simpl; try done. by destruct (closed w0).
  - done.
Qed.

(** C22: in every state a session can reach, whatever fails and whenever it
    is closed, at most one write is under way, it carries the front of the
    queue, and what was written, what is queued and what waits on the strand
    are together, in order, exactly what was sent. *)
Theorem ws_fifo_one_write w :
  rtc step new_ws w ->
  length (written w) <= 1 /\ given w = sent w ++ queue_ w ++ posted w
  /\ (forall m, m ∈ written w -> head (queue_ w) = Some m).
Proof.
  intros Hr. assert (ws_inv w) as [Hg Hw].
  { assert (ws_inv new_ws) as Hi by (split; [done|by left]).
    revert Hi. induction Hr; [done|]. intros Hi. by eapply IHHr, step_inv. }
  split; [|split; [exact Hg|]]; destruct Hw as [Hw|(m & rest & Hw & Hq)];
    rewrite ?Hw, ?Hq; simpl; try lia.
  - intros m Hm. by apply elem_of_nil in Hm.
  - by intros m' ->%list_elem_of_singleton.
Qed.

(** ** Without failures *)

(** While no write has failed, a non-empty queue is being written. *)
Definition flowing (w : websocket_session) : Prop :=
  given w = sent w ++ queue_ w ++ posted w /\ written w = take 1 (queue_ w).

Lemma good_step_flowing w w' : good_step w w' -> flowing w -> flowing w'.
Proof.
  intros [m w0|m rest w0 Hp|m rest w0 Hw|ec data w0|w0] [Hg Hfl].
  - split; [|done]. simpl. by rewrite Hg, <- !app_assoc.
  - destruct (on_send_inv m rest w0 Hp) as [Hg' _].
    { split; [done|]. rewrite Hfl. destruct (queue_ w0) as [|x q]; [by left|right; by exists x, q]. }
    split; [done|]. unfold run_posted, on_send, start_write. simpl.
    destruct (queue_ w0) as [|x q]; simpl in *; [by rewrite Hfl|].
    rewrite length_app. replace (1 <? S (length q + length [m])) with true
      by (symmetry; apply Nat.ltb_lt; simpl; lia). simpl. by rewrite Hfl.
  - rewrite Hw in Hfl. destruct (queue_ w0) as [|x q] eqn:Hq; [done|]. simpl in Hfl. injection Hfl as -> ->.
    unfold complete. simpl. rewrite Hq. simpl. destruct q; (split; simpl; [by rewrite Hg, <- app_assoc|done]).
  - unfold on_read. destruct ec; simpl; try done. by destruct (closed w0).
  - done.
Qed.

Lemma flowing_reachable w : rtc good_step new_ws w -> flowing w.
Proof.
  intros Hr. assert (flowing new_ws) as Hi by done. revert Hi.
  induction Hr; [done|]. intros Hi. by eapply IHHr, good_step_flowing.
Qed.

(** The steps left until everything sent is written. *)
Definition pending (w : websocket_session) : nat := 2 * length (posted w) + length (queue_ w).

Lemma run_posted_pending m rest w : posted w = m :: rest -> pending (run_posted m rest w) < pending w.
Proof.
  intros Hp. unfold run_posted, on_send, start_write, pending. simpl. rewrite Hp, length_app.
  destruct (queue_ w) as [|x q]; simpl; [lia|].
  rewrite (proj2 (Nat.ltb_lt 1 (S (length q + 1)))) by lia. simpl. rewrite length_app. simpl. lia.
Qed.

Lemma complete_pending m rest w :
  flowing w -> written w = m :: rest -> pending (complete ec_ok m rest w) < pending w.
Proof.
  intros [_ Hfl] Hw. rewrite Hw in Hfl. destruct (queue_ w) as [|x q] eqn:Hq; [done|].
  unfold complete, pending. simpl. rewrite Hq. simpl. destruct q; simpl; lia.
Qed.

Lemma flowing_progress w :
  flowing w -> pending w <> 0 ->
  exists w', good_step w w' /\ pending w' < pending w /\ given w' = given w.
Proof.
  intros Hf Hp. destruct (posted w) as [|m rest] eqn:Hpo.
  - destruct (queue_ w) as [|x q] eqn:Hq; [by unfold pending in Hp; rewrite Hpo, Hq in Hp|].
    assert (written w = x :: []) as Hw by (destruct Hf as [_ ->]; by rewrite Hq).
    exists (complete ec_ok x [] w). split; [by constructor|]. split; [by apply complete_pending|apply complete_given].
  - exists (run_posted m rest w). split; [by constructor|]. split; [by apply run_posted_pending|apply run_posted_given].
Qed.

(** While no write fails, everything sent gets written: from every
    reachable state some steps of the strand and the socket alone, at most
    two for each message that waits, lead to a state that has written all of
    it. *)
Theorem ws_drains w :
  rtc good_step new_ws w ->
  exists n w', n <= pending w /\ nsteps good_step n w w'
               /\ given w' = given w /\ sent w' = given w.
Proof.
  intros Hr. pose proof (flowing_reachable w Hr) as Hfl. clear Hr.
  remember (pending w) as n eqn:Hn. assert (pending w <= n) as Hle by lia. clear Hn. revert w Hfl Hle.
  induction n as [|n IH]; intros w Hfl Hle.
  - exists 0, w. split; [done|]. split; [constructor|]. split; [done|].
    destruct Hfl as [Hg _]. unfold pending in Hle.
    destruct (posted w); [|simpl in Hle; lia]. destruct (queue_ w); [|simpl in Hle; lia].
    by rewrite Hg, !app_nil_r.
  - destruct (decide (pending w = 0)) as [H0|H0].
    { destruct (IH w Hfl) as (k & w' & Hk & ?); [lia|]. exists k, w'. split; [lia|done]. }
    destruct (flowing_progress w Hfl H0) as (w1 & Hs & Hlt & Hg).
    destruct (IH w1) as (k & w' & Hk & Hsteps & Hg' & Hs'); [by eapply good_step_flowing|lia|].
    exists (S k), w'. split; [lia|]. split; [by econstructor|]. split; congruence.
Qed.

(** ** After a failure *)

(** No write is under way and the queue still holds the message that
    failed. *)
Definition stuck (w : websocket_session) : Prop := written w = [] /\ queue_ w <> [].

(** A write that fails is the last one: its message stays at the front
    of the queue, so every later message is queued behind it and none is
    ever written. *)
Theorem ws_error_stops w ec m rest w' :
  rtc step new_ws w -> written w = m :: rest -> ec <> ec_ok -> rtc step (complete ec m rest w) w' ->
  sent w' = sent w /\ written w' = [] /\ queue_ w `prefix_of` queue_ w'.
Proof.
  intros Hr Hw Hec Hr'.
  assert (ws_inv w) as [_ Hi].
  { assert (ws_inv new_ws) as Hi by (split; [done|by left]).
    clear -Hr Hi. revert Hi. induction Hr; [done|]. intros Hi. by eapply IHHr, step_inv. }
  destruct Hi as [Hi|(m' & q & Hm & Hq)]; [congruence|]. rewrite Hw in Hm. injection Hm as -> ->.
  assert (sent (complete ec m' [] w) = sent w /\ written (complete ec m' [] w) = []
          /\ queue_ w `prefix_of` queue_ (complete ec m' [] w)) as Hstart by (by destruct ec).
  revert Hstart. induction Hr' as [w1|w1 w2 w3 Hs Hr' IH]; [done|].
  intros (H1 & H2 & H3). apply IH. clear IH Hr' w3.
  destruct Hs as [x w1|x r w1 Hp|e x r w1 Hx|e d w1|w1]; try done.
  - unfold run_posted, on_send, start_write. simpl. rewrite Hq in *. destruct H3 as [k H3]. rewrite H3. simpl.
    rewrite !length_app. simpl. rewrite (proj2 (Nat.ltb_lt _ _)) by lia. simpl. split_and!; [done..|].
    exists (k ++ [x]). by rewrite app_assoc.
  - congruence.
  - unfold on_read. destruct e; simpl; try done. by destruct (closed w1).
Qed.

(** ** Examples *)

(** Two messages sent, the first under way. *)
Definition demo_ws : websocket_session := run_posted "a" ["b"] (send "b" (send "a" new_ws)).

Lemma demo_ws_good : rtc good_step new_ws demo_ws.
Proof.
  eapply rtc_l; [apply (good_send "a")|]. eapply rtc_l; [apply (good_send "b")|].
  apply rtc_once. by apply good_strand.
Qed.

Lemma demo_ws_reached : rtc step new_ws demo_ws.
Proof.
  eapply rtc_l; [apply (step_send "a")|]. eapply rtc_l; [apply (step_send "b")|].
  apply rtc_once. by apply step_strand.
Qed.

Lemma ws_fifo_one_write_witness :
  length (written demo_ws) <= 1 /\ given demo_ws = sent demo_ws ++ queue_ demo_ws ++ posted demo_ws
  /\ (forall m, m ∈ written demo_ws -> head (queue_ demo_ws) = Some m).
Proof. apply (ws_fifo_one_write demo_ws), demo_ws_reached. Defined.

Lemma ws_drains_witness :
  exists n w', n <= pending demo_ws /\ nsteps good_step n demo_ws w'
               /\ given w' = given demo_ws /\ sent w' = given demo_ws.
Proof. apply (ws_drains demo_ws), demo_ws_good. Defined.

Lemma ws_error_stops_witness :
  let w' := run_posted "b" [] (complete ec_other "a" [] demo_ws) in
  sent w' = sent demo_ws /\ written w' = [] /\ queue_ demo_ws `prefix_of` queue_ w'.
Proof.
  apply (ws_error_stops demo_ws ec_other "a" []).
  - apply demo_ws_reached.
  - reflexivity.
  - discriminate.
  - apply rtc_once. by apply step_strand.
Defined.
