(* ===== verification/Rounds.v ===== *)
(** * The rounds of the sync channel among other threads (src/handlers.cpp)

    [Sync] runs a join, a leave and a round of [httpCaller::doLoop] each as
    one step.  Here every access to what the threads share is a step of its
    own: [join] holds the mutex over three of them, a round takes it only to
    copy the set of sessions, and a session that is being destroyed is still
    in the set until its destructor has called [leave]. *)

From S2P Require Import Prelude CStd Json JsonPatch JsonDiff Fs Util SessionStats TorrentStatus Libtorrent.
From S2P Require Import Demo JsonText Sync.

Section rounds.
Context {jeq : JsonEq} {text : JsonText}.

(** ** State *)

(** Where the thread of [doLoop] is: outside; [sessions_] seen non-empty;
    [sync_ver] incremented; [curr_stats] assigned; the message made, not yet
    given to the copied sessions; sending it to those of [todo]. *)
Inductive phase :=
  | idle
  | checked
  | bumped
  | fetched
  | built (m : string)
  | sending (m : string) (todo : list nat).

(** Who has the mutex: nobody between steps, or a [join] that inserted its
    session, or one that has read the body of its message too. *)
Inductive holder :=
  | unlocked
  | inserted (id : nat) (qid : string)
  | has_body (id : nat) (qid : string) (body : json).

(** [alive] are the sessions whose reference count is not zero, those a
    [weak_ptr] can lock. *)
Record chan := mk_chan {
  caller : httpCaller;
  loop : phase;
  mutex : holder;
  alive : gset nat;
}.

Definition new_chan : chan := mk_chan new_caller idle unlocked ∅.

(** The parts of [join] and [doLoop] that [Sync] has in one. *)
Definition join_insert (id : nat) (c : httpCaller) : httpCaller :=
  {| sessions_ := {[id]} ∪ sessions_ c; prev_stats := prev_stats c; curr_stats := curr_stats c;
     sync_ver := uwrap 64 (sync_ver c + 1); outbox := outbox c |}.

Definition join_body (snap : json) (c : httpCaller) : json :=
  match curr_stats c with JNull => snap | j => j end.

Definition set_curr (j : json) (c : httpCaller) : httpCaller :=
  {| sessions_ := sessions_ c; prev_stats := prev_stats c; curr_stats := j;
     sync_ver := sync_ver c; outbox := outbox c |}.

Definition round_bump (c : httpCaller) : httpCaller :=
  {| sessions_ := sessions_ c; prev_stats := prev_stats c; curr_stats := curr_stats c;
     sync_ver := uwrap 64 (sync_ver c + 1); outbox := outbox c |}.

Definition round_message (c : httpCaller) : string :=
  serialize (delta_msg (sync_ver c) (prev_stats c) (curr_stats c)).

(** ** Steps *)

Inductive event :=
  | ev_connect (id : nat)                      (* a session is created *)
  | ev_join_insert (id : nat) (qid : string) (rnd : Z)
  | ev_join_read (snap : json)
  | ev_join_send
  | ev_check
  | ev_bump
  | ev_fetch (snap : json)
  | ev_build
  | ev_copy (order : list nat)                 (* the set, in the order it is walked *)
  | ev_send
  | ev_keep
  | ev_text (m : string) (id : nat)            (* a send of another thread's broadcast *)
  | ev_expire (id : nat)                       (* the last owner of a session is gone *)
  | ev_leave (id : nat).

Definition holds (h : holder) (id : nat) : bool :=
  match h with unlocked => false | inserted i _ | has_body i _ _ => bool_decide (i = id) end.

Definition is_unlocked (h : holder) : bool := match h with unlocked => true | _ => false end.

Definition with_caller (c : httpCaller) (s : chan) : chan := mk_chan c (loop s) (mutex s) (alive s).
Definition with_loop (p : phase) (s : chan) : chan := mk_chan (caller s) p (mutex s) (alive s).
Definition with_mutex (h : holder) (s : chan) : chan := mk_chan (caller s) (loop s) h (alive s).
Definition with_alive (a : gset nat) (s : chan) : chan := mk_chan (caller s) (loop s) (mutex s) a.

(** [None]: the step is not possible. *)
Definition chan_exec (e : event) (s : chan) : option chan :=
  let c := caller s in
  match e, loop s, mutex s with
  | ev_connect id, _, _ =>
      if bool_decide (outbox c !! id = None)
      then Some (with_alive ({[id]} ∪ alive s) (with_caller (connect id c) s)) else None
  | ev_join_insert id qid rnd, _, unlocked =>
      if bool_decide (id ∈ alive s /\ id ∉ sessions_ c)
      then Some (with_mutex (inserted id (if bool_decide (qid = "") then n2hex 4 rnd else qid))
                   (with_caller (join_insert id c) s)) else None
  | ev_join_read snap, _, inserted id qid =>
      Some (with_mutex (has_body id qid (join_body snap c)) (with_caller (set_curr (join_body snap c) c) s))
  | ev_join_send, _, has_body id qid body =>
      Some (with_mutex unlocked (with_caller (send (serialize (join_msg (sync_ver c) qid body)) id c) s))
  | ev_check, idle, _ => Some (if bool_decide (sessions_ c = ∅) then s else with_loop checked s)
  | ev_bump, checked, _ => Some (with_loop bumped (with_caller (round_bump c) s))
  | ev_fetch snap, bumped, _ => Some (with_loop fetched (with_caller (set_curr snap c) s))
  | ev_build, fetched, _ => Some (with_loop (built (round_message c)) s)
  | ev_copy order, built m, unlocked =>
      if bool_decide (NoDup order /\ list_to_set order = sessions_ c)
      then Some (with_loop (sending m order) s) else None
  | ev_send, sending m (id :: todo), _ =>
      Some (with_loop (sending m todo) (if bool_decide (id ∈ alive s) then with_caller (send m id c) s else s))
  | ev_keep, sending m [], _ => Some (with_loop idle (with_caller (round_keep c) s))
  | ev_text m id, _, _ =>
      if bool_decide (id ∈ alive s) then Some (with_caller (send m id c) s) else None
  | ev_expire id, _, _ =>
      if bool_decide (id ∈ alive s) && negb (holds (mutex s) id)
      then Some (with_alive (alive s ∖ {[id]}) s) else None
  | ev_leave id, _, unlocked =>
      if bool_decide (id ∉ alive s) then Some (with_caller (leave id c) s) else None
  | _, _, _ => None
  end.

Fixpoint chan_run (es : list event) (s : chan) : option chan :=
  match es with
  | [] => Some s
  | e :: es' => s' ← chan_exec e s; chan_run es' s'
  end.

(** [Sync]'s operations are runs of these steps without others between. *)
Lemma join_steps id qid rnd snap c p a :
  id ∈ a -> id ∉ sessions_ c ->
  chan_run [ev_join_insert id qid rnd; ev_join_read snap; ev_join_send] (mk_chan c p unlocked a)
  = Some (mk_chan (join id qid rnd snap c) p unlocked a).
Proof.
  intros Ha Hs. cbn -[bool_decide n2hex union]. rewrite bool_decide_eq_true_2 by done. reflexivity.
Qed.

Lemma send_all_steps m todo s :
  loop s = sending m todo ->
  chan_run ((fun _ => ev_send) <$> todo) s
  = Some (with_loop (sending m [])
            (with_caller (foldl (fun c id => if bool_decide (id ∈ alive s) then send m id c else c) (caller s) todo) s)).
Proof.
  revert s. induction todo as [|id todo IH]; intros s Hl; [by destruct s; simpl in *; subst|].
  cbn [fmap list_fmap chan_run]. unfold chan_exec. rewrite Hl. cbn [mbind option_bind].
  rewrite IH by done. cbn [foldl]. by case_bool_decide.
Qed.

Lemma chan_run_app es1 es2 s : chan_run (es1 ++ es2) s = (s1 ← chan_run es1 s; chan_run es2 s1).
Proof. revert s. induction es1 as [|e es1 IH]; intros s; [done|]. simpl. by destruct (chan_exec e s); simpl. Qed.

Lemma foldl_reverse_alive m (l : list nat) (a : gset nat) c :
  (forall id, id ∈ l -> id ∈ a) ->
  foldl (fun c id => if bool_decide (id ∈ a) then send m id c else c) c (reverse l) = foldr (send m) c l.
Proof.
  revert c. induction l as [|x l IH]; intros c Hl; [done|]. rewrite reverse_cons, foldl_app. cbn [foldl foldr].
  rewrite bool_decide_eq_true_2 by (apply Hl; by left). rewrite IH; [done|]. intros id Hid. apply Hl. by right.
Qed.

(** A round, to sessions that are all alive, is [Sync]'s. *)
Lemma round_steps snap c a :
  sessions_ c <> ∅ -> sessions_ c ⊆ a ->
  let order := reverse (elements (sessions_ c)) in
  chan_run ([ev_check; ev_bump; ev_fetch snap; ev_build; ev_copy order]
            ++ ((fun _ => ev_send) <$> order) ++ [ev_keep]) (mk_chan c idle unlocked a)
  = Some (mk_chan (doLoop snap c) idle unlocked a).
Proof.
  intros Hne Hsub order.
  assert (NoDup order /\ list_to_set order = sessions_ c) as Ho.
  { unfold order. split; [rewrite reverse_Permutation; apply NoDup_elements|].
    apply set_eq. intros x. by rewrite elem_of_list_to_set, elem_of_reverse, elem_of_elements. }
  cbn [app chan_run chan_exec loop mutex caller mbind option_bind].
  rewrite bool_decide_eq_false_2 by done.
  cbn [app chan_run chan_exec loop mutex caller with_loop with_caller mbind option_bind].
  rewrite bool_decide_eq_true_2 by done. cbn [mbind option_bind].
  rewrite chan_run_app, (send_all_steps (round_message (set_curr snap (round_bump c))) order) by done.
  cbn [mbind option_bind chan_run chan_exec loop mutex caller with_loop with_caller alive].
  unfold doLoop. rewrite bool_decide_eq_false_2 by done. repeat f_equal.
  unfold round_send, broadcast. change (round_message (set_curr snap (round_bump c))) with
    (serialize (delta_msg (sync_ver (round_fetch snap c)) (prev_stats (round_fetch snap c)) (curr_stats (round_fetch snap c)))).
  change (set_curr snap (round_bump c)) with (round_fetch snap c).
  change (sessions_ (round_fetch snap c)) with (sessions_ c).
  set (m := serialize _). unfold order. rewrite foldl_reverse_alive; [done|].
  intros id Hid. apply Hsub. by apply elem_of_elements.
Qed.

End rounds.

(** The cases of [chan_exec e s = Some s']. *)
Ltac exec_cases He :=
  cbn [chan_exec] in He;
  repeat match type of He with
    | context [match loop ?s with _ => _ end] => destruct (loop s) as [| | | |?m|?m [|?id ?todo]] eqn:Hl; try done
    | context [match mutex ?s with _ => _ end] => destruct (mutex s) eqn:Hm; try done
    | context [if ?b then _ else None] => destruct b eqn:?; try done
    end;
  bool_simp; simplify_eq.

Section settled.
Context {jeq : JsonEq} {text : JsonText}.

(** ** What is asked of a run *)

(** A text that is none of the server's messages to a client. *)
Definition harmless (m : string) : Prop := forall doc, client_step doc m = doc.

(** Snapshots are well-formed and no array of one grows by more than one
    element from one round to the next; clients send harmless texts; and no
    [join] reads [curr_stats] between the assignment of a round and the copy
    of the sessions, unless the round sends whole documents. *)
Definition event_ok (e : event) (s : chan) : Prop :=
  match e with
  | ev_join_read snap =>
      snapshot_ok snap
      /\ match loop s with fetched | built _ => prev_stats (caller s) = JNull | _ => True end
  | ev_fetch snap => snapshot_ok snap /\ grows_by_one (prev_stats (caller s)) snap = true
  | ev_text m _ => harmless m
  | _ => True
  end.

Fixpoint events_ok (es : list event) (s : chan) : Prop :=
  match es with
  | [] => True
  | e :: es' => event_ok e s /\ match chan_exec e s with Some s' => events_ok es' s' | None => True end
  end.

(** The messages of the round under way that a session will still get. *)
Definition to_come (s : chan) (id : nat) : list string :=
  match loop s with
  | fetched => [round_message (caller s)]
  | built m => [m]
  | sending m todo => if bool_decide (id ∈ todo) then [m] else []
  | _ => []
  end.

(** ** Every client is settled *)

Definition awaits (p : phase) (id : nat) : bool :=
  match p with
  | fetched | built _ => true
  | sending _ todo => bool_decide (id ∈ todo)
  | _ => false
  end.

(** A document that is the current snapshot, or becomes it by the patch of
    the round under way. *)
Definition settles (p : phase) (c : httpCaller) (id : nat) (d : json) : Prop :=
  if awaits p id
  then exists r, patch_json (json_diff_root (prev_stats c) (curr_stats c)) d = Some r /\ r ≡ curr_stats c
  else d ≡ curr_stats c.

Definition todo_of (p : phase) : list nat := match p with sending _ todo => todo | _ => [] end.

Definition stats_inv (p : phase) (c : httpCaller) : Prop :=
  match p with
  | idle | checked | bumped =>
      curr_stats c = JNull /\ prev_stats c = JNull
      \/ snapshot_ok (curr_stats c) /\ (prev_stats c = JNull \/ prev_stats c = curr_stats c)
  | fetched => snapshot_ok (curr_stats c)
  | built m | sending m _ =>
      snapshot_ok (curr_stats c)
      /\ exists ver, m = serialize (delta_msg ver (prev_stats c) (curr_stats c))
  end.

Record chan_inv (s : chan) : Prop := {
  inv_stats : stats_inv (loop s) (caller s);
  inv_known id :
    id ∈ alive s \/ id ∈ sessions_ (caller s) \/ id ∈ todo_of (loop s) -> is_Some (outbox (caller s) !! id);
  inv_todo : NoDup (todo_of (loop s))
             /\ forall id, id ∈ todo_of (loop s) -> id ∈ sessions_ (caller s) \/ id ∉ alive s;
  inv_mutex id :
    holds (mutex s) id = true ->
    id ∈ sessions_ (caller s) /\ id ∈ alive s /\ id ∉ todo_of (loop s);
  inv_body id qid body :
    mutex s = has_body id qid body -> snapshot_ok body /\ settles (loop s) (caller s) id body;
  inv_clients id :
    id ∈ sessions_ (caller s) -> id ∈ alive s -> holds (mutex s) id = false ->
    curr_stats (caller s) <> JNull
    /\ exists ms d, outbox (caller s) !! id = Some ms /\ replica ms = Some d
                    /\ json_wf d = true /\ settles (loop s) (caller s) id d;
}.

Context {jel : JsonEqLaws} {txl : JsonTextLaws}.

Lemma settles_proper p c id d d' :
  json_wf (curr_stats c) = true -> d' ≡ d -> settles p c id d -> settles p c id d'.
Proof.
  intros Hw Hd. unfold settles. destruct (awaits p id); [|intros; by etrans].
  intros (r & Hr & Heq).
  assert (json_diff_root (prev_stats c) (curr_stats c) ≡ json_diff_root (prev_stats c) (curr_stats c)) as Hp.
  { apply json_equiv_refl. by apply json_diff_wf. }
  pose proof (patch_json_proper _ _ d' d Hp Hd) as Hpp. rewrite Hr in Hpp. inversion Hpp as [r' ? Hrr|]; subst.
  exists r'. split; [done|]. by etrans.
Qed.

(** A document settles by the message itself. *)
Lemma settles_step ver c d r :
  json_wf (curr_stats c) = true -> json_wf d = true ->
  patch_json (json_diff_root (prev_stats c) (curr_stats c)) d = Some r ->
  exists r', client_step (Some d) (serialize (delta_msg ver (prev_stats c) (curr_stats c))) = Some r' /\ r' ≡ r.
Proof.
  intros Hw Hd Hr. eapply (client_step_delta _ _ d d r); [by apply delta_msg_wf|done|done|done|].
  by apply json_equiv_refl.
Qed.

Lemma stats_wf p c :
  stats_inv p c -> curr_stats c <> JNull -> snapshot_ok (curr_stats c).
Proof. destruct p; simpl; naive_solver. Qed.

Lemma null_or_not j : j = JNull \/ j <> JNull.
Proof. destruct j; auto. Qed.

Lemma snapshot_not_equiv_null b : snapshot_ok b -> ~ b ≡ JNull.
Proof.
  intros Hb Heq. destruct (snapshot_not_null b Hb) as [_ He]. destruct Hb as (Hw & _).
  assert (json_eqb JNull b = true) as Ht; [|congruence].
  apply json_eqb_spec; [done..|]. by symmetry.
Qed.

(** Before the first snapshot no round is under way. *)
Lemma stats_null p c :
  stats_inv p c -> curr_stats c = JNull ->
  (p = idle \/ p = checked \/ p = bumped) /\ prev_stats c = JNull.
Proof.
  intros Hst Hn. destruct p; simpl in Hst; rewrite Hn in Hst;
    try (destruct Hst as [[_ ?]|[(_ & _ & ?) _]]; [auto|done]);
    try (by destruct Hst as (_ & _ & ?)); by destruct Hst as [(_ & _ & ?) _].
Qed.

(** ** Preservation *)

Lemma inv_new : chan_inv new_chan.
Proof.
  split; cbn.
  - by left.
  - intros id Hid. exfalso. set_solver.
  - split; [constructor|]. set_solver.
  - done.
  - done.
  - intros id Hid. set_solver.
Qed.

Ltac inv_fields H := destruct H as [Hstats Hknown [Hnd Htodo] Hmutex Hbody Hclients].

Lemma connect_keeps id s :
  outbox (caller s) !! id = None -> chan_inv s ->
  chan_inv (with_alive ({[id]} ∪ alive s) (with_caller (connect id (caller s)) s)).
Proof.
  intros Hnew Hi. inv_fields Hi.
  assert (forall i, i ∈ sessions_ (caller s) \/ i ∈ todo_of (loop s) -> i <> id) as Hne.
  { intros i Hi ->. destruct (Hknown id) as [? ?]; [tauto|congruence]. }
  split; cbn [with_alive with_caller caller loop mutex alive connect sessions_ outbox prev_stats curr_stats].
  - exact Hstats.
  - intros i Hi. destruct (decide (id = i)) as [<-|]; [rewrite lookup_insert_eq; eauto|].
    rewrite lookup_insert_ne by done. apply Hknown. set_solver.
  - split; [done|]. intros i Hi. destruct (Htodo i Hi); [by left|right].
    pose proof (Hne i (or_intror Hi)). set_solver.
  - intros i Hi. destruct (Hmutex i Hi) as (? & ? & ?). set_solver.
  - exact Hbody.
  - intros i Hs Ha Hh. pose proof (Hne i (or_introl Hs)) as Hi. rewrite lookup_insert_ne by done.
    apply Hclients; [done|set_solver|done].
Qed.

Lemma join_insert_keeps id qid s :
  mutex s = unlocked -> id ∈ alive s -> id ∉ sessions_ (caller s) -> chan_inv s ->
  chan_inv (with_mutex (inserted id qid) (with_caller (join_insert id (caller s)) s)).
Proof.
  intros Hm Ha Hs Hi. inv_fields Hi.
  split; cbn [with_mutex with_caller caller loop mutex alive join_insert sessions_ outbox prev_stats curr_stats].
  - exact Hstats.
  - intros i Hi. apply Hknown. set_solver.
  - split; [done|]. intros i Hi. destruct (Htodo i Hi); set_solver.
  - intros i Hi. cbn in Hi. bool_simp. subst i. split; [set_solver|]. split; [done|].
    intros Hin. by destruct (Htodo id Hin).
  - done.
  - intros i Hin Hal Hh. cbn in Hh. bool_simp.
    apply (Hclients i); [set_solver|done|by rewrite Hm].
Qed.

Lemma set_curr_id c : set_curr (curr_stats c) c = c.
Proof. by destruct c. Qed.

Lemma join_body_curr snap c : curr_stats c <> JNull -> join_body snap c = curr_stats c.
Proof. unfold join_body. by destruct (curr_stats c). Qed.

(** A patch from null replaces whatever is there. *)
Lemma patch_null d t :
  snapshot_ok t -> exists r, patch_json (json_diff_root JNull t) d = Some r /\ r ≡ t.
Proof.
  intros Ht. destruct (snapshot_not_null t Ht) as [Hn He]. destruct Ht as (Hw & Hp & _).
  exists t. split; [by apply apply_json_diff_null|by apply json_equiv_refl].
Qed.

Lemma join_read_keeps id qid snap s :
  mutex s = inserted id qid -> event_ok (ev_join_read snap) s -> chan_inv s ->
  chan_inv (with_mutex (has_body id qid (join_body snap (caller s)))
              (with_caller (set_curr (join_body snap (caller s)) (caller s)) s)).
Proof.
  intros Hm [Hsnap Hok] Hi. inv_fields Hi. rewrite Hm in Hmutex, Hclients.
  destruct (Hmutex id (bool_decide_eq_true_2 _ eq_refl)) as (Hs & Ha & Hnt).
  destruct (null_or_not (curr_stats (caller s))) as [Hn|Hn].
  - (* the first one: nobody has a document yet *)
    destruct (stats_null _ _ Hstats Hn) as (Hph & Hp).
    assert (awaits (loop s) id = false) as Haw by (by destruct Hph as [->|[->| ->]]).
    assert (stats_inv (loop s) (set_curr snap (caller s))) as Hst.
    { destruct Hph as [->|[->| ->]]; (right; split; [done|by left]). }
    assert (join_body snap (caller s) = snap) as -> by (unfold join_body; by rewrite Hn).
    split; cbn [with_mutex with_caller caller loop mutex alive set_curr sessions_ outbox]; try done.
    + intros i' q b [= <- <- <-]. split; [done|]. unfold settles. rewrite Haw.
      apply json_equiv_refl. by destruct Hsnap.
    + intros i Hin Hal Hh. by destruct (Hclients i Hin Hal Hh) as [? _].
  - rewrite join_body_curr, set_curr_id by done. pose proof (stats_wf _ _ Hstats Hn) as Hcur.
    split; cbn [with_mutex with_caller caller loop mutex alive]; try done.
    + intros i' q b [= <- <- <-]. split; [done|]. unfold settles.
      destruct (awaits (loop s) id) eqn:Haw; [|apply json_equiv_refl; by destruct Hcur].
      assert (prev_stats (caller s) = JNull) as ->; [|by apply patch_null].
      destruct (loop s); try done. cbn in Haw. bool_simp. done.
Qed.

Lemma join_send_keeps id qid body s :
  mutex s = has_body id qid body -> chan_inv s ->
  chan_inv (with_mutex unlocked
              (with_caller (send (serialize (join_msg (sync_ver (caller s)) qid body)) id (caller s)) s)).
Proof.
  intros Hm Hi. inv_fields Hi.
  assert (holds (mutex s) id = true) as Hh by (rewrite Hm; apply (bool_decide_eq_true_2 _ eq_refl)).
  destruct (Hmutex id Hh) as (Hs & Ha & Hnt). destruct (Hbody id qid body Hm) as [Hb Hset].
  assert (curr_stats (caller s) <> JNull) as Hn.
  { intros Hn. destruct (stats_null _ _ Hstats Hn) as (Hph & _). unfold settles in Hset.
    assert (awaits (loop s) id = false) as Haw by (by destruct Hph as [->|[->| ->]]).
    rewrite Haw, Hn in Hset. by apply (snapshot_not_equiv_null body). }
  split; cbn [with_mutex with_caller caller loop mutex alive]; try done.
  - intros i Hi. rewrite send_lookup. destruct (Hknown i Hi) as [ms Hms]. rewrite Hms. case_decide; eauto.
  - intros i Hin Hal _. split; [done|]. rewrite send_lookup.
    destruct (decide (id = i)) as [<-|Hne].
    + destruct (Hknown id (or_introl Ha)) as [ms Hms]. rewrite Hms. cbn [fmap option_fmap option_map].
      destruct (client_step_body ["version" ~> JUint64 (sync_ver (caller s)); "id" ~> JString qid; "body" ~> body]
                  body (replica ms)) as (d & Hd & Heq); [apply join_msg_wf; by destruct Hb|done..|].
      eexists _, d. split; [done|]. rewrite replica_snoc. split; [exact Hd|].
      split; [by eapply json_equiv_wf_l|]. change (settles (loop s) (caller s) id d).
      eapply settles_proper; [|done|exact Hset]. apply (stats_wf _ _ Hstats Hn).
    + apply Hclients; [done..|]. rewrite Hm. by apply bool_decide_eq_false_2.
Qed.

(** Events that leave the documents and the awaited message alone. *)
Lemma with_loop_keeps p s :
  (forall id, awaits p id = awaits (loop s) id) -> todo_of p = todo_of (loop s) ->
  (stats_inv (loop s) (caller s) -> stats_inv p (caller s)) -> chan_inv s -> chan_inv (with_loop p s).
Proof.
  intros Haw Htd Hst Hi. inv_fields Hi. assert (forall c id d, settles (loop s) c id d -> settles p c id d) as Hse.
  { intros c id d. unfold settles. by rewrite Haw. }
  split; cbn [with_loop caller loop mutex alive]; rewrite ?Htd; eauto.
  - intros id q b Hm. destruct (Hbody id q b Hm). eauto.
  - intros id Hs Ha Hh. destruct (Hclients id Hs Ha Hh) as (? & ms & d & ? & ? & ? & ?). split; [done|].
    exists ms, d. eauto.
Qed.

Lemma bump_keeps s : loop s = checked -> chan_inv s -> chan_inv (with_loop bumped (with_caller (round_bump (caller s)) s)).
Proof.
  intros Hl Hi. inv_fields Hi. rewrite Hl in *.
  by split.
Qed.

Lemma fetch_keeps snap s :
  loop s = bumped -> event_ok (ev_fetch snap) s -> chan_inv s ->
  chan_inv (with_loop fetched (with_caller (set_curr snap (caller s)) s)).
Proof.
  intros Hl [Hsnap Hgrow] Hi. inv_fields Hi. rewrite Hl in *. cbn in Hstats.
  assert (forall id d, snapshot_ok (curr_stats (caller s)) -> d ≡ curr_stats (caller s) ->
            settles fetched (set_curr snap (caller s)) id d) as Hset.
  { intros id d Hc Hd.
    assert (prev_stats (caller s) = JNull \/ prev_stats (caller s) = curr_stats (caller s)) as Hp.
    { destruct Hstats as [[Hn _]|[_ ?]]; [|done]. rewrite Hn in Hc. by destruct Hc as (_ & _ & ?). }
    eapply (settles_proper fetched (set_curr snap (caller s)) id); [by destruct Hsnap|exact Hd|].
    exact (round_patch _ _ _ Hc Hsnap Hp Hgrow). }
  split; cbn [with_loop with_caller set_curr caller loop mutex alive todo_of sessions_ outbox]; try done.
  - intros id q b Hm. destruct (Hbody id q b Hm) as [Hb Hse]. split; [done|].
    destruct Hstats as [[Hn _]|[Hc _]]; [|by apply Hset].
    unfold settles in Hse. cbn in Hse. rewrite Hn in Hse. by apply snapshot_not_equiv_null in Hse.
  - intros id Hs Ha Hh. destruct (Hclients id Hs Ha Hh) as (Hn & ms & d & Ho & Hr & Hw & Hse).
    split; [by destruct (snapshot_not_null _ Hsnap)|]. exists ms, d. split_and!; [done..|].
    apply Hset; [|done]. by destruct Hstats as [[? _]|[? _]].
Qed.

Lemma copy_keeps m order s :
  loop s = built m -> mutex s = unlocked -> NoDup order -> list_to_set order = sessions_ (caller s) ->
  chan_inv s -> chan_inv (with_loop (sending m order) s).
Proof.
  intros Hl Hm Hno Horder Hi. inv_fields Hi. rewrite Hl, Hm in *.
  assert (forall id, id ∈ order <-> id ∈ sessions_ (caller s)) as Hin.
  { intros id. by rewrite <- Horder, elem_of_list_to_set. }
  split; cbn [with_loop with_caller caller loop mutex alive todo_of]; try (by rewrite ?Hm).
  - intros id [?|[?|?%Hin]]; apply Hknown; tauto.
  - split; [done|]. intros id ?%Hin. by left.
  - intros id Hs Ha Hh. destruct (Hclients id Hs Ha eq_refl) as (Hn & ms & d & Ho & Hr & Hw & Hse).
    split; [done|]. exists ms, d. split_and!; [done..|]. unfold settles. cbn [awaits].
    rewrite bool_decide_eq_true_2 by (by apply Hin). exact Hse.
Qed.

(** A send to one session: the others' outboxes stay. *)
Lemma known_send m id c i : is_Some (outbox c !! i) -> is_Some (outbox (send m id c) !! i).
Proof. intros [ms Hms]. rewrite send_lookup, Hms. case_decide; eauto. Qed.

Lemma send_keeps m id todo s :
  loop s = sending m (id :: todo) -> chan_inv s ->
  chan_inv (with_loop (sending m todo)
              (if bool_decide (id ∈ alive s) then with_caller (send m id (caller s)) s else s)).
Proof.
  intros Hl Hi. inv_fields Hi. rewrite Hl in *. cbn [todo_of] in *.
  apply NoDup_cons in Hnd as [Hni Hnd].
  assert (forall i c d, i <> id -> settles (sending m (id :: todo)) c i d -> settles (sending m todo) c i d) as Hother.
  { intros i c d Hne. unfold settles. cbn [awaits].
    by rewrite (bool_decide_ext (i ∈ id :: todo) (i ∈ todo)) by (rewrite elem_of_cons; naive_solver). }
  assert (forall i, holds (mutex s) i = true -> i <> id) as Hh.
  { intros i Hhold ->. destruct (Hmutex id Hhold) as (_ & _ & Hn). apply Hn. by left. }
  assert (forall s', s' = s \/ s' = with_caller (send m id (caller s)) s ->
            mutex s' = mutex s /\ alive s' = alive s /\ sessions_ (caller s') = sessions_ (caller s)
            /\ curr_stats (caller s') = curr_stats (caller s) /\ prev_stats (caller s') = prev_stats (caller s)
            /\ forall i, is_Some (outbox (caller s) !! i) -> is_Some (outbox (caller s') !! i)) as Hframe.
  { intros s' [->| ->]; split_and!; try done. intros i. apply known_send. }
  set (s' := if bool_decide _ then _ else _).
  destruct (Hframe s') as (Hm' & Ha' & Hs' & Hc' & Hp' & Hk'); [unfold s'; case_bool_decide; auto|].
  assert (forall p i d, settles p (caller s') i d = settles p (caller s) i d) as Hse'.
  { intros p i d. unfold settles. by rewrite Hc', Hp'. }
  split; cbn [with_loop caller loop mutex alive todo_of]; rewrite ?Hm', ?Ha', ?Hs'.
  - cbn in *. by rewrite Hc', Hp'.
  - intros i Hi. apply Hk', Hknown. rewrite elem_of_cons. tauto.
  - split; [done|]. intros i Hi. apply Htodo. by right.
  - intros i Hhold. destruct (Hmutex i Hhold) as (? & ? & Hn). rewrite elem_of_cons in Hn. tauto.
  - intros i q b Hm. destruct (Hbody i q b Hm) as [Hb Hse]. split; [done|]. rewrite Hse'.
    apply Hother; [|done]. apply Hh. rewrite Hm. by apply bool_decide_eq_true_2.
  - intros i Hs Ha Hhold. rewrite Hc'. destruct (Hclients i Hs Ha Hhold) as (Hn & ms & d & Ho & Hr & Hw & Hse).
    split; [done|]. destruct (decide (i = id)) as [->|Hne].
    + assert (s' = with_caller (send m id (caller s)) s) as -> by (unfold s'; by rewrite bool_decide_eq_true_2).
      unfold settles in Hse. cbn [awaits] in Hse. rewrite bool_decide_eq_true_2 in Hse by by left.
      destruct Hse as (r & Hpatch & Heq). destruct Hstats as [Hsnap [ver Hmsg]].
      destruct (settles_step ver (caller s) d r) as (r' & Hr' & Heq'); [by destruct Hsnap|done|done|].
      exists (ms ++ [m]), r'. cbn [with_caller caller]. rewrite send_lookup, decide_True, Ho by done.
      split; [done|]. rewrite replica_snoc, Hr, Hmsg. split; [exact Hr'|].
      assert (r' ≡ curr_stats (caller s)) as Hfin by by etrans.
      split; [by eapply json_equiv_wf_l|]. unfold settles. cbn [awaits]. by rewrite bool_decide_eq_false_2.
    + exists ms, d. split; [|split; [done|split; [done|]]].
      * unfold s'. case_bool_decide; [|done]. cbn [with_caller caller]. rewrite send_lookup, decide_False by congruence. done.
      * rewrite Hse'. by apply Hother.
Qed.

Lemma keep_keeps m s : loop s = sending m [] -> chan_inv s -> chan_inv (with_loop idle (with_caller (round_keep (caller s)) s)).
Proof.
  intros Hl Hi. inv_fields Hi. rewrite Hl in *. cbn [todo_of stats_inv] in *. destruct Hstats as [Hsnap _].
  split; cbn [with_loop with_caller round_keep caller loop mutex alive sessions_ outbox todo_of]; try done.
  right. split; [done|]. by right.
Qed.

Lemma text_keeps m id s : harmless m -> chan_inv s -> chan_inv (with_caller (send m id (caller s)) s).
Proof.
  intros Hm Hi. inv_fields Hi. split; cbn [with_caller caller loop mutex alive]; try done.
  - intros i Hi. by apply known_send, Hknown.
  - intros i Hs Ha Hh. destruct (Hclients i Hs Ha Hh) as (Hn & ms & d & Ho & Hr & Hw & Hse).
    split; [done|]. rewrite send_lookup, Ho. case_decide; [|by exists ms, d].
    exists (ms ++ [m]), d. split; [done|]. by rewrite replica_snoc, Hm.
Qed.

Lemma expire_keeps id s :
  holds (mutex s) id = false -> chan_inv s -> chan_inv (with_alive (alive s ∖ {[id]}) s).
Proof.
  intros Hh Hi. inv_fields Hi. split; cbn [with_alive caller loop mutex alive]; try done.
  - intros i Hi. apply Hknown. set_solver.
  - split; [done|]. intros i Hi. destruct (Htodo i Hi); [by left|right; set_solver].
  - intros i Hi. destruct (Hmutex i Hi) as (? & ? & ?). split; [done|]. split; [|done].
    apply elem_of_difference. split; [done|]. intros ->%elem_of_singleton. congruence.
  - intros i Hs Ha. apply Hclients; [done|set_solver].
Qed.

Lemma leave_keeps id s :
  mutex s = unlocked -> id ∉ alive s -> chan_inv s -> chan_inv (with_caller (leave id (caller s)) s).
Proof.
  intros Hm Ha Hi. inv_fields Hi. rewrite Hm in *.
  split; cbn [with_caller caller loop mutex alive leave sessions_ outbox curr_stats]; rewrite ?Hm; try done.
  - intros i Hi. apply Hknown. set_solver.
  - split; [done|]. intros i Hi. destruct (decide (i = id)) as [->|]; [by right|].
    destruct (Htodo i Hi); [left; set_solver|by right].
  - intros i Hs Hal Hh. apply Hclients; [set_solver|done|done].
Qed.

Lemma chan_exec_keeps e s s' : chan_exec e s = Some s' -> event_ok e s -> chan_inv s -> chan_inv s'.
Proof.
  intros He Hok Hi. destruct e as [id|id qid rnd|snap| | | |snap| |order| | |m id|id|id]; exec_cases He.
  - by apply connect_keeps.
  - apply join_insert_keeps; tauto.
  - by apply join_read_keeps.
  - by apply join_send_keeps.
  - case_bool_decide; [done|]. apply with_loop_keeps; [by rewrite Hl..| |done]. by rewrite Hl.
  - by apply bump_keeps.
  - by apply fetch_keeps.
  - apply with_loop_keeps; [by rewrite Hl..| |done]. rewrite Hl. intros Hst. split; [exact Hst|]. by eexists.
  - apply (copy_keeps m); tauto.
  - by apply send_keeps.
  - by apply (keep_keeps m).
  - by apply text_keeps.
  - by apply expire_keeps.
  - by apply leave_keeps.
Qed.

Lemma chan_run_inv es s s' : chan_run es s = Some s' -> events_ok es s -> chan_inv s -> chan_inv s'.
Proof.
  revert s. induction es as [|e es IH]; intros s Hr; [by simplify_eq/=|]. intros [He Hes] Hi.
  simpl in Hr. destruct (chan_exec e s) as [s1|] eqn:Hx; [|done]. simpl in Hr.
  eapply IH; [done..|]. by eapply chan_exec_keeps.
Qed.

(** What has come and what is to come give the current snapshot. *)
Lemma inv_settled s id :
  chan_inv s -> id ∈ sessions_ (caller s) -> id ∈ alive s -> holds (mutex s) id = false ->
  exists ms d, outbox (caller s) !! id = Some ms /\ replica (ms ++ to_come s id) = Some d
               /\ d ≡ curr_stats (caller s).
Proof.
  intros Hi Hs Ha Hh. pose proof (inv_stats _ Hi) as Hstats.
  destruct (inv_clients _ Hi id Hs Ha Hh) as (Hn & ms & d & Ho & Hr & Hw & Hse).
  exists ms. pose proof (stats_wf _ _ Hstats Hn) as (Hcw & _ & _).
  assert (forall ver, awaits (loop s) id = true ->
            exists d', replica (ms ++ [serialize (delta_msg ver (prev_stats (caller s)) (curr_stats (caller s)))]) = Some d'
                       /\ d' ≡ curr_stats (caller s)) as Hlast.
  { intros ver Haw. unfold settles in Hse. rewrite Haw in Hse. destruct Hse as (r & Hp & Heq).
    destruct (settles_step ver (caller s) d r Hcw Hw Hp) as (r' & Hr' & Heq').
    exists r'. rewrite replica_snoc, Hr. split; [exact Hr'|by etrans]. }
  unfold to_come. unfold settles in Hse. destruct (loop s) as [| | | |m|m todo]; cbn [awaits] in *;
    try (exists d; rewrite app_nil_r; done).
  - destruct (Hlast (sync_ver (caller s)) eq_refl) as (d' & ? & ?). by exists d'.
  - destruct Hstats as [_ [ver ->]]. destruct (Hlast ver eq_refl) as (d' & ? & ?). by exists d'.
  - destruct (bool_decide (id ∈ todo)); [|exists d; rewrite app_nil_r; done].
    destruct Hstats as [_ [ver ->]]. destruct (Hlast ver eq_refl) as (d' & ? & ?). by exists d'.
Qed.



(** A decision of [events_ok], for runs without texts. *)
Definition snapshot_okb (j : json) : bool :=
  json_wf j && plain j && bool_decide (json_kind j = KObject).

Definition event_okb (e : event) (s : chan) : bool :=
  match e with
  | ev_join_read snap =>
      snapshot_okb snap && match loop s with fetched | built _ => false | _ => true end
  | ev_fetch snap => snapshot_okb snap && grows_by_one (prev_stats (caller s)) snap
  | ev_text _ _ => false
  | _ => true
  end.

Fixpoint events_okb (es : list event) (s : chan) : bool :=
  match es with
  | [] => true
  | e :: es' => event_okb e s && match chan_exec e s with Some s' => events_okb es' s' | None => true end
  end.

Lemma snapshot_okb_ok j : snapshot_okb j = true -> snapshot_ok j.
Proof. unfold snapshot_okb. intros H. by bool_simp. Qed.

Lemma event_okb_ok e s : event_okb e s = true -> event_ok e s.
Proof.
  destruct e; simpl; intros Hb; bool_simp; try done;
    (split; [by apply snapshot_okb_ok|]); [by destruct (loop s)|done].
Qed.

Lemma events_okb_ok es s : events_okb es s = true -> events_ok es s.
Proof.
  revert s. induction es as [|e es IH]; intros s Hb; [done|]. simpl in *. bool_simp. split; [by apply event_okb_ok|].
  by destruct (chan_exec e s); [apply IH|].
Qed.
End settled.

(** ** Examples *)

#[local] Existing Instance documented_eq.
#[local] Existing Instance text_demo.

(** A second client joins while a round is being sent to the first, and the
    first goes while the next round is under way. *)
Definition demo_events : list event :=
  [ev_connect 1; ev_join_insert 1 "" 1234; ev_join_read (demo_stats 0 []); ev_join_send;
   ev_check; ev_bump; ev_connect 2; ev_fetch (demo_stats 1 [JInt64 5]); ev_build; ev_copy [1];
   ev_join_insert 2 "ab" 1000; ev_join_read (demo_stats 9 []); ev_send; ev_join_send; ev_keep;
   ev_check; ev_bump; ev_fetch (demo_stats 2 [JInt64 6; JNull]); ev_build; ev_copy [2; 1];
   ev_expire 1; ev_send; ev_send; ev_leave 1].

Definition demo_chan : chan := default new_chan (chan_run demo_events new_chan).

Lemma demo_events_ok : events_ok demo_events new_chan.
Proof. apply events_okb_ok. vm_compute. reflexivity. Qed.

Lemma demo_chan_run : chan_run demo_events new_chan = Some demo_chan.
Proof.
  assert (match chan_run demo_events new_chan with Some _ => true | None => false end = true) as Hd
    by (vm_compute; reflexivity).
  unfold demo_chan. by destruct (chan_run demo_events new_chan).
Qed.


