(* ===== verification/Versions.v ===== *)
(** * The numbers of the sync messages (src/handlers.cpp, [sync_ver])

    Every message of the server carries the value of an atomic counter that
    joins and rounds increment.  On the steps of [Rounds]: what a client may
    conclude from the numbers. *)

From S2P Require Import Prelude CStd Json JsonPatch JsonDiff Fs Util SessionStats TorrentStatus Libtorrent.
From S2P Require Import Demo JsonText Sync Rounds.
From Stdlib Require Import Sorted.

Section versions.
Context {jeq : JsonEq} {text : JsonText}.

(** The number a client reads in a message. *)
Definition msg_version (m : string) : option Z :=
  match json_parse m with
  | Some (JObject o) => obj_find "version" o ≫= integral
  | _ => None
  end.

Notation versions := (omap msg_version).

(** No join reads the snapshot inside a round, and texts of clients carry no
    number. *)
Definition stamp_ok (e : event) (s : chan) : Prop :=
  match e with
  | ev_join_read _ => match loop s with fetched | built _ => False | _ => True end
  | ev_text m _ => msg_version m = None
  | _ => True
  end.

Fixpoint stamps_ok (es : list event) (s : chan) : Prop :=
  match es with
  | [] => True
  | e :: es' => stamp_ok e s /\ match chan_exec e s with Some s' => stamps_ok es' s' | None => True end
  end.

Definition has_read (h : holder) : bool := match h with has_body _ _ _ => true | _ => false end.

(** The message of the round under way, and who still gets it. *)
Definition round_stamp (p : phase) : option string :=
  match p with built m | sending m _ => Some m | _ => None end.

Definition will_get (p : phase) (id : nat) : bool :=
  match p with built _ => true | sending _ todo => bool_decide (id ∈ todo) | _ => false end.

Record stamp_inv (s : chan) : Prop := {
  stamp_sorted id ms : outbox (caller s) !! id = Some ms -> StronglySorted Z.le (versions ms);
  stamp_bound id ms : outbox (caller s) !! id = Some ms -> Forall (fun v => v <= sync_ver (caller s))%Z (versions ms);
  stamp_round m :
    round_stamp (loop s) = Some m ->
    exists v, msg_version m = Some v /\ (v <= sync_ver (caller s))%Z
              /\ (has_read (mutex s) = true -> match loop s with built _ => v = sync_ver (caller s) | _ => True end)
              /\ forall id ms, will_get (loop s) id = true -> outbox (caller s) !! id = Some ms ->
                               Forall (fun x => x <= v)%Z (versions ms);
}.

Context {jel : JsonEqLaws} {txl : JsonTextLaws}.

Lemma integral_equiv j z : integral j = Some z -> forall j', j' ≡ j -> integral j' = Some z.
Proof.
  intros Hz j' (_ & _ & Hs). destruct j; simplify_eq/=; destruct j'; simpl in Hs; try done; bool_simp; by subst.
Qed.

Lemma msg_version_object o v :
  json_wf (JObject o) = true -> obj_find "version" o = Some (JUint64 v) ->
  msg_version (serialize (JObject o)) = Some v.
Proof.
  intros Hw Hv. destruct (parse_message o Hw) as (p & Hp & Hf). unfold msg_version. rewrite Hp.
  pose proof (Hf "version") as Hfv. rewrite Hv in Hfv. inversion Hfv as [x y Hxy|]; subst. simpl.
  by eapply (integral_equiv (JUint64 v)).
Qed.

Lemma join_version v qid body : json_wf body = true -> msg_version (serialize (join_msg v qid body)) = Some v.
Proof. intros Hb. apply msg_version_object; [by apply join_msg_wf|done]. Qed.

Lemma delta_version v p c : json_wf c = true -> msg_version (serialize (delta_msg v p c)) = Some v.
Proof. intros Hc. apply msg_version_object; [by apply delta_msg_wf|done]. Qed.

(** One more number, not below the others. *)
Lemma sorted_snoc l v : StronglySorted Z.le l -> Forall (fun x => x <= v)%Z l -> StronglySorted Z.le (l ++ [v]).
Proof.
  induction 1 as [|x l Hs IH Hx]; intros Hf; [repeat constructor|]. inversion Hf; subst.
  constructor; [by apply IH|]. apply Forall_app. by repeat constructor.
Qed.

Lemma versions_snoc ms m :
  versions (ms ++ [m]) = versions ms ++ match msg_version m with Some v => [v] | None => [] end.
Proof. rewrite omap_app. simpl. by destruct (msg_version m). Qed.

(** [sync_ver] never goes back, short of its wrap-around. *)
Lemma exec_version e s s' :
  chan_exec e s = Some s' -> (0 <= sync_ver (caller s) < 2 ^ 64 - 1)%Z ->
  (sync_ver (caller s) <= sync_ver (caller s') <= sync_ver (caller s) + 1)%Z.
Proof.
  intros He Hv. destruct e; exec_cases He;
    cbn [with_caller with_mutex with_loop with_alive caller connect join_insert set_curr send round_bump round_keep
         leave sync_ver]; try case_bool_decide; rewrite ?uwrap_small by lia; simpl; lia.
Qed.

(** One outbox gets a message. *)
Lemma send_versions m id c i ms' :
  outbox (send m id c) !! i = Some ms' ->
  exists ms, outbox c !! i = Some ms
             /\ versions ms' = versions ms ++ (if decide (id = i) then match msg_version m with Some v => [v] | None => [] end else []).
Proof.
  rewrite send_lookup. case_decide.
  - intros (ms & -> & ->)%fmap_Some. exists ms. by rewrite versions_snoc.
  - intros ->. exists ms'. by rewrite app_nil_r.
Qed.

Lemma Forall_le_trans (l : list Z) v w : (v <= w)%Z -> Forall (fun x => x <= v)%Z l -> Forall (fun x => x <= w)%Z l.
Proof. intros Hvw Hl. eapply Forall_impl; [exact Hl|]. simpl. lia. Qed.

Lemma stamp_join_send id qid body s :
  mutex s = has_body id qid body -> chan_inv s -> stamp_inv s ->
  stamp_inv (with_mutex unlocked
               (with_caller (send (serialize (join_msg (sync_ver (caller s)) qid body)) id (caller s)) s)).
Proof.
  intros Hm Hi [Hsorted Hbound Hround].
  destruct (inv_body _ Hi id qid body Hm) as [(Hw & _) _].
  destruct (inv_mutex _ Hi id) as (_ & _ & Hnt); [rewrite Hm; by apply bool_decide_eq_true_2|].
  pose proof (join_version (sync_ver (caller s)) qid body Hw) as Hv.
  split; cbn [with_mutex with_caller caller loop mutex].
  - intros i ms' (ms & Ho & ->)%send_versions. rewrite Hv. case_decide; [|rewrite app_nil_r; eauto].
    apply sorted_snoc; eauto.
  - intros i ms' (ms & Ho & ->)%send_versions. rewrite Hv. apply Forall_app. split; [by eapply Hbound|].
    case_decide; repeat constructor. cbn. lia.
  - intros m Hrs. destruct (Hround m Hrs) as (v & Hmv & Hle & Hread & Hall). exists v.
    split; [done|]. split; [done|]. split; [done|].
    intros i ms' Hget (ms & Ho & ->)%send_versions. rewrite Hv. apply Forall_app. split; [by eapply Hall|].
    case_decide as Heq; [|constructor]. subst i. rewrite Hm in Hread. specialize (Hread eq_refl).
    destruct (loop s); try done; [rewrite Hread; repeat constructor; lia|]. cbn in Hget, Hnt. by bool_simp.
Qed.

Lemma stamp_send m id todo s :
  loop s = sending m (id :: todo) -> chan_inv s -> stamp_inv s ->
  stamp_inv (with_loop (sending m todo)
               (if bool_decide (id ∈ alive s) then with_caller (send m id (caller s)) s else s)).
Proof.
  intros Hl Hi [Hsorted Hbound Hround]. rewrite Hl in Hround.
  destruct (Hround m eq_refl) as (v & Hmv & Hle & _ & Hall).
  destruct (inv_todo _ Hi) as [Hnd _]. rewrite Hl in Hnd. cbn [todo_of] in Hnd. apply NoDup_cons in Hnd as [Hni _].
  assert (forall i, i ∈ id :: todo -> forall ms, outbox (caller s) !! i = Some ms -> Forall (fun x => x <= v)%Z (versions ms)) as Hget.
  { intros i Hin ms. apply Hall. cbn [will_get]. by apply bool_decide_eq_true_2. }
  case_bool_decide; split; cbn [with_loop with_caller caller loop mutex].
  - intros i ms' (ms & Ho & ->)%send_versions. rewrite Hmv. case_decide; [|rewrite app_nil_r; eauto]. subst i.
    apply sorted_snoc; [eauto|]. eapply Hget; [by left|done].
  - intros i ms' (ms & Ho & ->)%send_versions. rewrite Hmv. apply Forall_app. split; [by eapply Hbound|].
    case_decide; repeat constructor. exact Hle.
  - intros m' [= <-]. exists v. split; [done|]. split; [exact Hle|]. split; [done|].
    intros i ms' Hg (ms & Ho & ->)%send_versions. cbn [will_get] in Hg. bool_simp. rewrite Hmv.
    rewrite decide_False by (intros ->; done). rewrite app_nil_r. eapply Hget; [by right|done].
  - exact Hsorted.
  - exact Hbound.
  - intros m' [= <-]. exists v. split; [done|]. split; [exact Hle|]. split; [done|].
    intros i ms Hg Ho. cbn [will_get] in Hg. bool_simp. eapply Hget; [by right|done].
Qed.

(** A later number, the same messages. *)
Lemma stamp_later c h s :
  outbox c = outbox (caller s) -> (sync_ver (caller s) <= sync_ver c)%Z -> has_read h = false ->
  stamp_inv s -> stamp_inv (with_mutex h (with_caller c s)).
Proof.
  intros Ho Hv Hh [Hsorted Hbound Hround]. split; cbn [with_mutex with_caller caller loop mutex]; rewrite Ho.
  - exact Hsorted.
  - intros i ms Hi. eapply Forall_le_trans; [exact Hv|eauto].
  - intros m Hm. destruct (Hround m Hm) as (v & ? & ? & _ & Hall). exists v. split; [done|]. split; [lia|].
    split; [by rewrite Hh|exact Hall].
Qed.

(** The loop moves, the messages stay, and nobody new awaits one. *)
Lemma stamp_move p c s :
  outbox c = outbox (caller s) -> (sync_ver (caller s) <= sync_ver c)%Z -> round_stamp p = None ->
  stamp_inv s -> stamp_inv (with_loop p (with_caller c s)).
Proof.
  intros Ho Hv Hp [Hsorted Hbound Hround]. split; cbn [with_loop with_caller caller loop mutex]; rewrite Ho.
  - exact Hsorted.
  - intros i ms Hi. eapply Forall_le_trans; [exact Hv|eauto].
  - intros m Hm. congruence.
Qed.

Lemma stamp_keeps e s s' :
  chan_exec e s = Some s' -> event_ok e s -> stamp_ok e s -> (0 <= sync_ver (caller s) < 2 ^ 64 - 1)%Z ->
  chan_inv s -> stamp_inv s -> stamp_inv s'.
Proof.
  intros He Hok Hst Hv Hi Hs. pose proof Hs as [Hsorted Hbound Hround].
  destruct e as [id|id qid rnd|snap| | | |snap| |order| | |m id|id|id]; exec_cases He.
  - split; cbn [with_alive with_caller connect caller loop mutex sync_ver outbox].
    1, 2: intros i ms [[<- <-]|[_ Ho]]%lookup_insert_Some; [constructor|eauto].
    intros m Hm. destruct (Hround m Hm) as (v & ? & ? & ? & Hall). exists v. split_and!; [done..|].
    intros i ms Hg [[<- <-]|[_ Ho]]%lookup_insert_Some; [constructor|eauto].
  - apply stamp_later; [done|cbn; rewrite uwrap_small by lia; lia|done|done].
  - split; cbn [with_mutex with_caller set_curr caller loop mutex]; [exact Hsorted|exact Hbound|].
    intros m Hm'. destruct (Hround m Hm') as (v & ? & ? & _ & Hall). exists v. split; [done|]. split; [done|].
    split; [|exact Hall]. intros _. cbn [stamp_ok] in Hst. by destruct (loop s).
  - by apply stamp_join_send.
  - case_bool_decide; [done|]. by apply (stamp_move checked (caller s) s).
  - apply stamp_move; [done|cbn; rewrite uwrap_small by lia; lia|done|done].
  - by apply (stamp_move fetched (set_curr snap (caller s)) s).
  - split; cbn [with_loop caller loop mutex]; [exact Hsorted|exact Hbound|].
    intros m [= <-]. exists (sync_ver (caller s)). pose proof (inv_stats _ Hi) as Hstats. rewrite Hl in Hstats.
    split; [apply delta_version; by destruct Hstats|]. split; [lia|]. split; [done|]. intros i ms _. apply Hbound.
  - split; cbn [with_loop caller loop mutex]; [exact Hsorted|exact Hbound|].
    intros m' [= <-]. destruct (Hround m eq_refl) as (v & ? & ? & _ & Hall). exists v. split_and!; [done..|].
    intros i ms _. by apply Hall.
  - by apply stamp_send.
  - by apply (stamp_move idle (round_keep (caller s)) s).
  - cbn [stamp_ok] in Hst. split; cbn [with_caller caller loop mutex].
    + intros i ms' (ms & Ho & ->)%send_versions. rewrite Hst. case_decide; rewrite app_nil_r; eauto.
    + intros i ms' (ms & Ho & ->)%send_versions. rewrite Hst. case_decide; rewrite app_nil_r; by eapply Hbound.
    + intros m' Hm'. destruct (Hround m' Hm') as (v & ? & ? & ? & Hall). exists v. split_and!; [done..|].
      intros i ms' Hg (ms & Ho & ->)%send_versions. rewrite Hst. case_decide; rewrite app_nil_r; by eapply Hall.
  - split; [exact Hsorted|exact Hbound|exact Hround].
  - split; cbn [with_caller caller loop mutex leave outbox sync_ver]; [exact Hsorted|exact Hbound|]. rewrite Hm. exact Hround.
Qed.

Lemma stamp_new : stamp_inv new_chan.
Proof. split; cbn; [intros id ms Ho; by rewrite lookup_empty in Ho..|done]. Qed.

Lemma run_stamped es s s' :
  chan_run es s = Some s' -> events_ok es s -> stamps_ok es s ->
  (0 <= sync_ver (caller s))%Z -> (sync_ver (caller s) + Z.of_nat (length es) < 2 ^ 64)%Z ->
  chan_inv s -> stamp_inv s -> stamp_inv s'.
Proof.
  revert s. induction es as [|e es IH]; intros s Hr; [by simplify_eq/=|]. intros [He Hes] [Hst Hsts] Hv Hlen Hi Hs.
  simpl in Hr, Hlen. destruct (chan_exec e s) as [s1|] eqn:Hx; [|done]. simpl in Hr.
  pose proof (exec_version _ _ _ Hx ltac:(lia)) as Hv1.
  apply (IH s1); [done..|lia|lia|by eapply chan_exec_keeps|]. by eapply stamp_keeps; [|done|done|lia|..].
Qed.

End versions.

(** ** Examples *)

#[local] Existing Instance documented_eq.
#[local] Existing Instance text_demo.

Lemma demo_stamps_ok : stamps_ok demo_events new_chan.
Proof.
  assert (forall es s, (fix ok es s := match es with
                        | [] => true
                        | e :: es' =>
                            match e with ev_join_read _ => match loop s with fetched | built _ => false | _ => true end
                                       | ev_text _ _ => false | _ => true end
                            && match chan_exec e s with Some s' => ok es' s' | None => true end
                        end) es s = true -> stamps_ok es s) as Hok.
  { induction es as [|e es IH]; intros s H; [done|]. bool_simp. split.
    - destruct e; try done. simpl. by destruct (loop s).
    - destruct (chan_exec e s); [by apply IH|done]. }
  apply Hok. vm_compute. reflexivity.
Qed.


(** Two messages of one session with one number: a round increments the
    counter while a join is between its own increment and its message. *)
Definition shared_events : list event :=
  [ev_connect 1; ev_join_insert 1 "" 1234; ev_check; ev_bump; ev_join_read (demo_stats 0 []); ev_join_send;
   ev_fetch (demo_stats 1 []); ev_build; ev_copy [1]; ev_send; ev_keep].

Example version_shared :
  omap msg_version (default [] (outbox (caller (default new_chan (chan_run shared_events new_chan))) !! 1))
  = [2%Z; 2%Z].
Proof. vm_compute. reflexivity. Qed.
