(* ===== verification/Locks.v ===== *)
(** * The two mutexes and what they guard (src/sheath.cpp, src/handlers.cpp)

    Everywhere else a function of [sheath] or a part of [join] is one step.
    Here the functions that threads share run instruction by instruction,
    each instruction the accesses of about one line: taking and releasing
    [httpCaller::mutex_] and [sheath::mutex_], the turns of the loops over
    [m_all_handles], the assignments of [updateCounters], the accesses to the
    set of sessions and to the two snapshots.  Two threads about to access
    one member, one of them writing, are a data race, which is undefined in
    C++. *)

From S2P Require Import Prelude CStd Json JsonPatch JsonDiff Fs Util SessionStats TorrentStatus Libtorrent.
From S2P Require Import Demo JsonText Sheath Torrents Sync.

(** [httpCaller::mutex_] and [sheath::mutex_]. *)
Inductive mutex := caller_mutex | sheath_mutex.

#[global] Instance mutex_eq_dec : EqDecision mutex.
Proof. solve_decision. Defined.

(** The members threads share. *)
Inductive place := m_all_handles_ | svs_ | the_sessions | the_prev_stats | the_curr_stats.

#[global] Instance place_eq_dec : EqDecision place.
Proof. solve_decision. Defined.

(** What [wp.lock()] and the send of a broadcast come to for one session: it
    is gone; it gets the message; it gets it and [sp] was its last owner. *)
Inductive delivery := gone | sent | sent_last.

Section locks.
Context {sha : Sha1} {ltd : LtData} {hs : Handles} {ltp : LtParsers} {lts : Session} {mt : Metrics}.
Context {jeq : JsonEq} {text : JsonText}.

(** ** Instructions *)

Inductive instr :=
  | i_lock (m : mutex)
  | i_unlock (m : mutex)
  (* [set_all_torrents], [remove_torrent_with_handle] *)
  | i_put (t : torrent_status)              (* a turn of the loop *)
  | i_erase (h : torrent_handle)
  (* [sheath::getSyncStats] *)
  | i_begin                                 (* the loop over the map begins *)
  | i_entries                               (* its turns *)
  | i_value (k : clocks)                    (* the result, with [svs.getSessionStats()] *)
  (* [sheath::getSessionStats] *)
  | i_stats (k : clocks)
  (* [updateCounters] *)
  | i_test (t : Z)
  | i_swap
  | i_older
  | i_assign (sc : list Z)
  | i_newer (t : Z)
  (* [join], [leave], [closeWS] *)
  | i_insert (id : nat)
  | i_fill (k : clocks)
  | i_body
  | i_greet (id : nat) (qid : string)
  | i_leave (id : nat)
  | i_each
  (* [httpCaller::doLoop], [broadcast] *)
  | i_check (k : clocks)
  | i_bump
  | i_set_curr
  | i_build
  | i_text (m : string)
  | i_copy
  | i_sends
  | i_keep.

Definition getSyncStats_code (k : clocks) : list instr :=
  [i_lock sheath_mutex; i_begin; i_entries; i_value k; i_unlock sheath_mutex].

Definition leave_code (id : nat) : list instr := [i_lock caller_mutex; i_leave id; i_unlock caller_mutex].

Definition broadcast_code : list instr := [i_lock caller_mutex; i_copy; i_unlock caller_mutex; i_sends].

(** [doLoop] behind the test of [sessions_.empty()]. *)
Definition round_code (k : clocks) : list instr :=
  i_bump :: getSyncStats_code k ++ [i_set_curr; i_build] ++ broadcast_code ++ [i_keep].

(** What a thread calls. *)
Inductive call :=
  | set_all_call (st : list torrent_status)
  | remove_call (h : torrent_handle)
  | update_call (sc : list Z) (t : Z)
  | sync_stats_call (k : clocks)
  | session_stats_call (k : clocks)
  | join_call (id : nat) (qid : string) (k : clocks)
  | leave_call (id : nat)
  | text_call (m : string)
  | close_call
  | round_call (k : clocks).

Definition code_of (c : call) : list instr :=
  match c with
  | set_all_call st => i_lock sheath_mutex :: (i_put <$> st) ++ [i_unlock sheath_mutex]
  | remove_call h => [i_lock sheath_mutex; i_erase h; i_unlock sheath_mutex]
  | update_call sc t => [i_test t; i_assign sc; i_newer t]
  | sync_stats_call k => getSyncStats_code k
  | session_stats_call k => [i_stats k]
  | join_call id qid k =>
      [i_lock caller_mutex; i_insert id; i_fill k; i_body; i_greet id qid; i_unlock caller_mutex]
  | leave_call id => leave_code id
  | text_call m => i_text m :: broadcast_code
  | close_call => [i_lock caller_mutex; i_each; i_unlock caller_mutex]
  | round_call k => [i_check k]
  end.

(** The thread of [sheath::doLoop] is thread 0, that of [httpCaller::doLoop]
    thread 1; the others serve connections.  The last owner of a session may
    be in any of them, see [i_sends]. *)
Definition session_tid : nat := 0.
Definition caller_tid : nat := 1.

Definition may_call (tid : nat) (c : call) : bool :=
  match c with
  | set_all_call _ | remove_call _ | update_call _ _ => bool_decide (tid = session_tid)
  | round_call _ => bool_decide (tid = caller_tid)
  | _ => bool_decide (tid <> session_tid /\ tid <> caller_tid)
  end.

(** ** State *)

(** The variables of the functions: the handles the loop over the map has
    not come to, [allstats], the value [getSyncStats] returned or [join]
    sends, [vws], and the message of a broadcast. *)
Record frame := mk_frame {
  l_iter : list torrent_handle;
  l_allstats : list json;
  l_value : json;
  l_vws : list nat;
  l_text : string;
}.

Definition new_frame : frame := mk_frame [] [] JNull [] "".

Record thread := mk_thread { t_call : call; t_code : list instr; t_frame : frame }.

Record memory := mk_memory { mem_sheath : sheath; mem_caller : httpCaller }.

Record state := mk_state {
  threads : list thread;
  owner_of_caller : option nat;
  owner_of_sheath : option nat;
  mem : memory;
}.

Definition owner (m : mutex) (s : state) : option nat :=
  match m with caller_mutex => owner_of_caller s | sheath_mutex => owner_of_sheath s end.

Definition set_owner (m : mutex) (o : option nat) (s : state) : state :=
  match m with
  | caller_mutex => mk_state (threads s) o (owner_of_sheath s) (mem s)
  | sheath_mutex => mk_state (threads s) (owner_of_caller s) o (mem s)
  end.

Definition set_thread (tid : nat) (th : thread) (s : state) : state :=
  mk_state (<[tid := th]> (threads s)) (owner_of_caller s) (owner_of_sheath s) (mem s).

Definition set_mem (w : memory) (s : state) : state :=
  mk_state (threads s) (owner_of_caller s) (owner_of_sheath s) w.

(** ** Steps *)

(** What the program does not determine: the order of a hash map and of a
    hash set, and whether a [weak_ptr] can be locked. *)
Record choice := mk_choice {
  ch_handles : list torrent_handle;
  ch_sessions : list nat;
  ch_delivery : delivery;
}.

Definition set_iter it arr l := mk_frame it arr (l_value l) (l_vws l) (l_text l).
Definition set_value v l := mk_frame (l_iter l) (l_allstats l) v (l_vws l) (l_text l).
Definition set_vws vws l := mk_frame (l_iter l) (l_allstats l) (l_value l) vws (l_text l).
Definition set_text m l := mk_frame (l_iter l) (l_allstats l) (l_value l) (l_vws l) m.

Definition on_sheath (f : sheath -> sheath) (w : memory) : memory := mk_memory (f (mem_sheath w)) (mem_caller w).
Definition on_caller (f : httpCaller -> httpCaller) (w : memory) : memory := mk_memory (mem_sheath w) (f (mem_caller w)).
Definition on_counters (f : sessionValues -> sessionValues) : memory -> memory :=
  on_sheath (fun s => set_svs (f (svs s)) s).

Definition with_sessions (f : gset nat -> gset nat) (c : httpCaller) : httpCaller :=
  {| sessions_ := f (sessions_ c); prev_stats := prev_stats c; curr_stats := curr_stats c;
     sync_ver := sync_ver c; outbox := outbox c |}.

Definition with_curr (j : json) (c : httpCaller) : httpCaller :=
  {| sessions_ := sessions_ c; prev_stats := prev_stats c; curr_stats := j;
     sync_ver := sync_ver c; outbox := outbox c |}.

(** [sync_ver ++], an atomic. *)
Definition bump (c : httpCaller) : httpCaller :=
  {| sessions_ := sessions_ c; prev_stats := prev_stats c; curr_stats := curr_stats c;
     sync_ver := uwrap 64 (sync_ver c + 1); outbox := outbox c |}.

(** The object [getSyncStats] returns. *)
Definition sync_value (stats : sessionStats) (allstats : list json) : json :=
  JObject ["stats" ~> JObject (to_json_object stats); "torrents" ~> JArray allstats].

(** One instruction that is no lock: what is to be run before the rest of the
    code, the frame and the memory after it.  [None]: undefined, or not a
    choice there is. *)
Definition exec_instr (i : instr) (ch : choice) (l : frame) (w : memory)
  : option (list instr * frame * memory) :=
  let s := mem_sheath w in
  let c := mem_caller w in
  let v := svs s in
  match i with
  | i_lock _ | i_unlock _ => None
  | i_put t => Some ([], l, on_sheath (fun s => set_handles (put_status (m_all_handles s) t) s) w)
  | i_erase h => Some ([], l, on_sheath (remove_torrent_with_handle h) w)
  | i_begin =>
      if bool_decide (NoDup (ch_handles ch) /\ list_to_set (ch_handles ch) = dom (m_all_handles s))
      then Some ([], set_iter (ch_handles ch) [] l, w) else None
  | i_entries =>
      match l_iter l with
      | [] => Some ([], l, w)
      | h :: it =>
          t ← m_all_handles s !! h;
          Some ([i_entries], set_iter it (l_allstats l ++ [JObject (torrent_status_to_json_obj t)]) l, w)
      end
  | i_value k => stats ← session_stats k s; Some ([], set_value (sync_value stats (l_allstats l)) l, w)
  | i_stats k => j ← sheath_getSessionStats k s; Some ([], set_value j l, w)
  | i_test t =>
      Some (if (update_period <? uwrap 64 (t - m_timestamp1 v))%Z then [i_swap; i_older] else [], l, w)
  | i_swap =>
      Some ([], l, on_counters (fun v => mk_sessionValues (m_cnt1 v) (m_cnt0 v) (m_timestamp0 v) (m_timestamp1 v)) w)
  | i_older =>
      Some ([], l, on_counters (fun v => mk_sessionValues (m_cnt0 v) (m_cnt1 v) (m_timestamp0 v) (m_timestamp0 v)) w)
  | i_assign sc =>
      Some ([], l, on_counters (fun v => mk_sessionValues sc (m_cnt1 v) (m_timestamp0 v) (m_timestamp1 v)) w)
  | i_newer t =>
      Some ([], l, on_counters (fun v => mk_sessionValues (m_cnt0 v) (m_cnt1 v) t (m_timestamp1 v)) w)
  | i_insert id => Some ([], l, on_caller (fun c => bump (with_sessions (fun x => {[id]} ∪ x) c)) w)
  | i_fill k =>
      Some (match curr_stats c with JNull => getSyncStats_code k ++ [i_set_curr] | _ => [] end, l, w)
  | i_body => Some ([], set_value (curr_stats c) l, w)
  | i_greet id qid =>
      Some ([], l, on_caller (fun c => send (serialize (join_msg (sync_ver c) qid (l_value l))) id c) w)
  | i_leave id => Some ([], l, on_caller (leave id) w)
  | i_each => Some ([], l, w)
  | i_check k => Some (if bool_decide (sessions_ c = ∅) then [] else round_code k, l, w)
  | i_bump => Some ([], l, on_caller bump w)
  | i_set_curr => Some ([], l, on_caller (with_curr (l_value l)) w)
  | i_build => Some ([], set_text (serialize (delta_msg (sync_ver c) (prev_stats c) (curr_stats c))) l, w)
  | i_text m => Some ([], set_text m l, w)
  | i_copy =>
      if bool_decide (NoDup (ch_sessions ch) /\ list_to_set (ch_sessions ch) = sessions_ c)
      then Some ([], set_vws (ch_sessions ch) l, w) else None
  | i_sends =>
      match l_vws l with
      | [] => Some ([], l, w)
      | id :: vws =>
          let w' := on_caller (send (l_text l) id) w in
          match ch_delivery ch with
          | gone => Some ([i_sends], set_vws vws l, w)
          | sent => Some ([i_sends], set_vws vws l, w')
          | sent_last => Some (leave_code id ++ [i_sends], set_vws vws l, w')
          end
      end
  | i_keep => Some ([], l, on_caller round_keep w)
  end.

Inductive event :=
  | ev_call (tid : nat) (c : call)
  | ev_run (tid : nat) (ch : choice).

Definition step (e : event) (s : state) : option state :=
  match e with
  | ev_call tid c =>
      th ← threads s !! tid;
      match t_code th with
      | [] => if may_call tid c then Some (set_thread tid (mk_thread c (code_of c) new_frame) s) else None
      | _ => None
      end
  | ev_run tid ch =>
      th ← threads s !! tid;
      match t_code th with
      | [] => None
      | i_lock m :: r =>
          match owner m s with
          | None => Some (set_owner m (Some tid) (set_thread tid (mk_thread (t_call th) r (t_frame th)) s))
          | Some _ => None
          end
      | i_unlock m :: r => Some (set_owner m None (set_thread tid (mk_thread (t_call th) r (t_frame th)) s))
      | i :: r =>
          '(pre, l, w) ← exec_instr i ch (t_frame th) (mem s);
          Some (set_mem w (set_thread tid (mk_thread (t_call th) (pre ++ r) l) s))
      end
  end.

Fixpoint run (es : list event) (s : state) : option state :=
  match es with
  | [] => Some s
  | e :: es' => s' ← step e s; run es' s'
  end.

(** [n] threads, none of them in a call. *)
Definition idle_thread : thread := mk_thread close_call [] new_frame.
Definition start (n : nat) (w : memory) : state := mk_state (replicate n idle_thread) None None w.

Definition reachable (n : nat) (w : memory) (s : state) : Prop := exists es, run es (start n w) = Some s.

(** ** Accesses and races *)

Definition writes (i : instr) : list place :=
  match i with
  | i_put _ | i_erase _ => [m_all_handles_]
  | i_swap | i_older | i_assign _ | i_newer _ => [svs_]
  | i_insert _ | i_leave _ => [the_sessions]
  | i_set_curr => [the_curr_stats]
  | i_keep => [the_prev_stats]
  | _ => []
  end.

Definition reads (i : instr) : list place :=
  match i with
  | i_begin | i_entries => [m_all_handles_]
  | i_value _ | i_stats _ | i_test _ => [svs_]
  | i_each | i_check _ | i_copy => [the_sessions]
  | i_fill _ | i_body => [the_curr_stats]
  | i_build => [the_prev_stats; the_curr_stats]
  | i_keep => [the_curr_stats]
  | _ => []
  end.

Definition next_instr (s : state) (tid : nat) : option instr := th ← threads s !! tid; head (t_code th).

(** Two threads about to access [x], the first of them writing. *)
Definition racing (s : state) (t1 t2 : nat) (x : place) : Prop :=
  t1 <> t2
  /\ exists i j, next_instr s t1 = Some i /\ next_instr s t2 = Some j
                 /\ x ∈ writes i /\ x ∈ writes j ++ reads j.

(** What is at a place is the same in two memories. *)
Definition same_at (x : place) (w w' : memory) : Prop :=
  match x with
  | m_all_handles_ => m_all_handles (mem_sheath w) = m_all_handles (mem_sheath w')
  | svs_ => svs (mem_sheath w) = svs (mem_sheath w')
  | the_sessions => sessions_ (mem_caller w) = sessions_ (mem_caller w')
  | the_prev_stats => prev_stats (mem_caller w) = prev_stats (mem_caller w')
  | the_curr_stats => curr_stats (mem_caller w) = curr_stats (mem_caller w')
  end.

(** An instruction changes only what it writes, and what it does to the
    thread depends only on what it reads, the atomic version and the
    session of libtorrent, which has locks of its own. *)
Lemma exec_writes i ch l w r x :
  exec_instr i ch l w = Some r -> x ∉ writes i -> same_at x r.2 w.
Proof.
  intros He Hx. destruct i, x; simpl in He;
    repeat match type of He with
      | context [if ?b then _ else _] => destruct b
      | context [match ?o with _ => _ end] => destruct o
      | context [?o ≫= _] => destruct o eqn:?; cbn [mbind option_bind] in He
      end; simplify_eq/=; try done; by destruct Hx; constructor.
Qed.

Lemma exec_reads i ch l w w' r :
  ses_ (mem_sheath w) = ses_ (mem_sheath w') -> sync_ver (mem_caller w) = sync_ver (mem_caller w') ->
  (forall x, x ∈ reads i -> same_at x w w') ->
  exec_instr i ch l w = Some r ->
  exists r', exec_instr i ch l w' = Some r' /\ r'.1 = r.1.
Proof.
  intros Hses Hver Hx He.
  assert (Forall (fun x => same_at x w w') (reads i)) as Hf by (by apply Forall_forall).
  clear Hx. destruct i; simpl in He, Hf; repeat (apply Forall_cons in Hf as [? Hf]); simpl in *;
    unfold sheath_getSessionStats, session_stats in *; simpl in *;
    rewrite ?Hses, ?Hver in *;
    repeat match goal with H : @eq (gmap _ _) _ _ |- _ => rewrite H in *; clear H
                         | H : @eq (gset _) _ _ |- _ => rewrite H in *; clear H
                         | H : @eq sessionValues _ _ |- _ => rewrite H in *; clear H
                         | H : @eq json _ _ |- _ => rewrite H in *; clear H end;
    repeat match type of He with
      | context [if ?b then _ else _] => destruct b
      | context [match ?o with _ => _ end] => destruct o
      | context [?o ≫= _] => destruct o eqn:?; cbn [mbind option_bind] in He
      end; simplify_eq/=; try (by eexists; split; [reflexivity|]).
Qed.

(** ** The discipline of the locks *)

(** Whether a thread with this code to run has the mutex: its next use of it
    is the release. *)
Fixpoint holding (m : mutex) (code : list instr) : bool :=
  match code with
  | [] => false
  | i_unlock m' :: r => bool_decide (m = m') || holding m r
  | i_lock m' :: r => negb (bool_decide (m = m')) && holding m r
  | _ :: r => holding m r
  end.

(** What an instruction needs, when the code behind it holds [hc] and [hs]. *)
Definition allowed (tid : nat) (i : instr) (hc hs : bool) : bool :=
  match i with
  | i_lock caller_mutex => hc && negb hs
  | i_lock sheath_mutex => hs
  | i_unlock caller_mutex => negb hc
  | i_unlock sheath_mutex => negb hs
  | i_put _ | i_erase _ => hs && bool_decide (tid = session_tid)
  | i_begin | i_entries | i_value _ => hs
  | i_test _ | i_swap | i_older | i_assign _ | i_newer _ => bool_decide (tid = session_tid)
  | i_insert _ | i_leave _ | i_each | i_copy | i_body => hc
  | i_fill _ => hc && negb hs
  | i_set_curr => hc || bool_decide (tid = caller_tid)
  | i_check _ => bool_decide (tid = caller_tid) && negb hc && negb hs
  | i_build | i_keep => bool_decide (tid = caller_tid)
  | i_sends => negb hc && negb hs
  | _ => true
  end.

(** The turns of the loop follow its begin, the value follows the loop, and
    the release the value. *)
Definition follows (i : instr) (r : list instr) : bool :=
  match i, r with
  | i_begin, i_entries :: _ | i_entries, i_value _ :: _ | i_value _, i_unlock sheath_mutex :: _ => true
  | i_value _, _ => false
  | _, i_entries :: _ | _, i_value _ :: _ => false
  | _, _ => true
  end.

Fixpoint disciplined (tid : nat) (code : list instr) : bool :=
  match code with
  | [] => true
  | i :: r => allowed tid i (holding caller_mutex r) (holding sheath_mutex r) && follows i r && disciplined tid r
  end.

Lemma puts_held m st r : holding m ((i_put <$> st) ++ r) = holding m r.
Proof. by induction st. Qed.

Lemma puts_disciplined st :
  disciplined session_tid ((i_put <$> st) ++ [i_unlock sheath_mutex]) = true.
Proof.
  induction st as [|t st IH]; [reflexivity|]. cbn [fmap list_fmap app disciplined allowed].
  change (map i_put st) with (i_put <$> st). rewrite IH, !puts_held. by destruct st.
Qed.

Lemma code_of_disciplined tid c :
  may_call tid c = true ->
  disciplined tid (code_of c) = true /\ forall m, holding m (code_of c) = false.
Proof.
  intros Hc. destruct c as [st|h|sc t|k|k|id qid k|id|m|k|]; simpl in Hc; bool_simp; subst;
    try (split; [reflexivity|by intros []]).
  cbn [code_of disciplined allowed holding]. rewrite puts_disciplined, puts_held. split; [by destruct st|].
  intros []; [|done]. cbn. by rewrite puts_held.
Qed.

(** ** The invariant *)

(** The map as a critical section of [sheath] leaves it. *)
Fixpoint after_section (code : list instr) (m : gmap torrent_handle torrent_status)
  : gmap torrent_handle torrent_status :=
  match code with
  | i_put t :: r => after_section r (put_status m t)
  | i_erase h :: r => after_section r (delete h m)
  | i_unlock sheath_mutex :: _ => m
  | _ :: r => after_section r m
  | [] => m
  end.

Definition is_write (i : instr) : bool := match i with i_put _ | i_erase _ => true | _ => false end.
Definition takes_sheath (i : instr) : bool :=
  match i with i_lock sheath_mutex | i_fill _ | i_check _ => true | _ => false end.

(** Only the calls that change the map have instructions that do, and they
    take the mutex once, first. *)
Definition fits (c : call) (code : list instr) : Prop :=
  match c with
  | set_all_call _ | remove_call _ => code = code_of c \/ Forall (fun i => takes_sheath i = false) code
  | _ => Forall (fun i => is_write i = false) code
  end.

Definition entries_of (ps : list (torrent_handle * torrent_status)) : list json :=
  (fun p => JObject (torrent_status_to_json_obj p.2)) <$> ps.

(** The loop over the map is at [ps], with the handles of [rest] to come. *)
Definition walked (m : gmap torrent_handle torrent_status) (rest : list torrent_handle) (arr : list json) : Prop :=
  exists ps, arr = entries_of ps /\ (forall p, p ∈ ps -> m !! p.1 = Some p.2)
             /\ NoDup (ps.*1 ++ rest) /\ list_to_set (ps.*1 ++ rest) = dom m.

Definition walk_inv (m : gmap torrent_handle torrent_status) (code : list instr) (l : frame) : Prop :=
  match code with
  | i_entries :: _ => walked m (l_iter l) (l_allstats l)
  | i_value _ :: _ => walked m [] (l_allstats l)
  | _ => True
  end.

Record inv (s : state) : Prop := {
  inv_code tid th : threads s !! tid = Some th -> disciplined tid (t_code th) = true;
  inv_held tid th m :
    threads s !! tid = Some th -> holding m (t_code th) = true <-> owner m s = Some tid;
  inv_owner m tid : owner m s = Some tid -> is_Some (threads s !! tid);
  inv_fits tid th : threads s !! tid = Some th -> fits (t_call th) (t_code th);
  inv_walk tid th :
    threads s !! tid = Some th -> walk_inv (m_all_handles (mem_sheath (mem s))) (t_code th) (t_frame th);
}.

Lemma step_run_cases tid ch s s' :
  step (ev_run tid ch) s = Some s' ->
  exists c i r l, threads s !! tid = Some (mk_thread c (i :: r) l)
  /\ ((exists m, i = i_lock m /\ owner m s = None
                 /\ s' = set_owner m (Some tid) (set_thread tid (mk_thread c r l) s))
      \/ (exists m, i = i_unlock m /\ s' = set_owner m None (set_thread tid (mk_thread c r l) s))
      \/ (exists pre l' w, exec_instr i ch l (mem s) = Some (pre, l', w)
                           /\ s' = set_mem w (set_thread tid (mk_thread c (pre ++ r) l') s))).
Proof.
  intros Hs. unfold step in Hs. destruct (threads s !! tid) as [[c code l]|]; [|done].
  cbn [mbind option_bind t_code t_call t_frame] in Hs. destruct code as [|i r]; [done|].
  exists c, i, r, l. split; [done|].
  destruct i;
    try (right; right; match type of Hs with context [exec_instr ?i _ _ _] =>
           destruct (exec_instr i ch l (mem s)) as [[[pre l'] w]|] eqn:He end; [|done];
         exists pre, l', w; split; [done|]; by injection Hs).
  - left. destruct (owner m s) eqn:Ho; [done|]. simplify_eq. eauto.
  - right; left. simplify_eq. eauto.
Qed.

End locks.

(** The cases of an instruction's execution. *)
Ltac exec_instr_cases He :=
  cbn [exec_instr] in He;
  repeat match type of He with
    | context [if ?b then _ else _] => destruct b eqn:?
    | context [match ?o with _ => _ end] => destruct o eqn:?
    | context [?o ≫= _] => destruct o eqn:?; cbn [mbind option_bind] in He
    end; simplify_eq.

Section discipline.
Context {sha : Sha1} {ltd : LtData} {hs : Handles} {ltp : LtParsers} {lts : Session} {mt : Metrics}.
Context {jeq : JsonEq} {text : JsonText}.

Definition plain_instr (i : instr) : bool := match i with i_begin | i_entries | i_value _ => false | _ => true end.

Lemma follows_value k r : follows (i_value k) r = true -> exists r', r = i_unlock sheath_mutex :: r'.
Proof. destruct r as [|i r]; [done|]. destruct i; try done. destruct m; [done|]. eauto. Qed.

Lemma follows_plain i j r : plain_instr i = true -> plain_instr j = true -> follows i r = follows j r.
Proof. by destruct r as [|[]]; destruct i, j. Qed.

Lemma exec_disciplined tid i r ch l w pre l' w' :
  disciplined tid (i :: r) = true -> exec_instr i ch l w = Some (pre, l', w') ->
  disciplined tid (pre ++ r) = true /\ forall m, holding m (pre ++ r) = holding m (i :: r).
Proof.
  intros Hd He. pose proof Hd as Hd0. cbn [disciplined] in Hd. bool_simp.
  destruct i; exec_instr_cases He; cbn [app getSyncStats_code leave_code broadcast_code round_code allowed] in *;
    bool_simp; try (split; [done|by intros []]);
    match goal with Hf : follows ?i r = true |- _ =>
      assert (plain_instr i = true -> forall j, plain_instr j = true -> follows j r = true) as Hp
        by (intros ? j ?; by rewrite (follows_plain j i)) end;
    (split; [|intros []; cbn; try congruence]);
    subst tid || idtac; cbn [disciplined allowed holding];
    repeat match goal with H : _ = _ |- _ => rewrite H end.
  all: rewrite ?Hp by done; reflexivity.
Qed.

Lemma exec_fits c i r ch l w pre l' w' :
  fits c (i :: r) -> exec_instr i ch l w = Some (pre, l', w') -> fits c (pre ++ r).
Proof.
  intros Hf He.
  assert (Forall (fun i => is_write i = false) pre /\ (takes_sheath i = false -> Forall (fun i => takes_sheath i = false) pre))
    as [Hw Ht] by (destruct i; exec_instr_cases He; split; by repeat constructor).
  destruct c; cbn [fits] in *;
    try (apply Forall_app; split; [done|]; by inversion Hf);
    (destruct Hf as [Hf|Hf]; [cbn [code_of] in Hf; simplify_eq; done|]; right; inversion Hf; subst;
     apply Forall_app; split; auto).
Qed.

(** Only [i_put] and [i_erase] change the map. *)
Lemma exec_instr_handles i ch l w pre l' w' :
  exec_instr i ch l w = Some (pre, l', w') -> is_write i = false ->
  m_all_handles (mem_sheath w') = m_all_handles (mem_sheath w).
Proof.
  intros He Hi. apply (exec_writes i ch l w (pre, l', w') m_all_handles_ He).
  destruct i; simpl in *; try done; by apply not_elem_of_nil || by (rewrite list_elem_of_singleton).
Qed.

Lemma exec_walk tid i r ch l w pre l' w' :
  disciplined tid (i :: r) = true -> walk_inv (m_all_handles (mem_sheath w)) (i :: r) l ->
  exec_instr i ch l w = Some (pre, l', w') ->
  walk_inv (m_all_handles (mem_sheath w')) (pre ++ r) l'.
Proof.
  intros Hd Hw He. cbn [disciplined] in Hd. bool_simp.
  assert (plain_instr i = true -> walk_inv (m_all_handles (mem_sheath w')) (pre ++ r) l') as Hp.
  { intros Hi. destruct i; try done; exec_instr_cases He; try done; cbn [app];
      destruct r as [|[]]; done. }
  destruct i; try (by apply Hp); clear Hp; exec_instr_cases He; cbn [app].
  - destruct r as [|[]]; try done. cbn [walk_inv set_iter l_iter l_allstats]. bool_simp.
    match goal with H : NoDup _ /\ _ |- _ => destruct H as [Hnd Hdom] end.
    exists []. split; [done|]. split; [by intros ? ?%elem_of_nil|]. done.
  - destruct r as [|[]]; try done. cbn [walk_inv] in *. by rewrite Heql0 in Hw.
  - cbn [walk_inv] in *. rewrite Heql0 in Hw. cbn [set_iter l_iter l_allstats].
    destruct Hw as (ps & Harr & Hps & Hnd & Hdom). eexists (ps ++ [(_, _)]).
    unfold entries_of. rewrite !fmap_app, Harr, <- (assoc (++)). cbn.
    split; [done|]. split; [|done]. intros p [Hp|Hp]%elem_of_app; [by auto|].
    apply list_elem_of_singleton in Hp. by subst.
  - by destruct r as [|[]].
Qed.

(** ** Its preservation *)

Lemma owner_set m m' o s : owner m (set_owner m' o s) = if decide (m = m') then o else owner m s.
Proof. by destruct m, m'. Qed.

Lemma threads_set_owner m o s : threads (set_owner m o s) = threads s.
Proof. by destruct m. Qed.

Lemma mem_set_owner m o s : mem (set_owner m o s) = mem s.
Proof. by destruct m. Qed.

Lemma owner_set_thread m tid th s : owner m (set_thread tid th s) = owner m s.
Proof. by destruct m. Qed.

Lemma owner_set_mem m w s : owner m (set_mem w s) = owner m s.
Proof. by destruct m. Qed.

Lemma set_thread_lookup tid tid' th th' s :
  threads (set_thread tid th s) !! tid' = Some th' ->
  tid' = tid /\ th' = th /\ is_Some (threads s !! tid) \/ tid' <> tid /\ threads s !! tid' = Some th'.
Proof.
  cbn [set_thread threads]. intros H. destruct (decide (tid' = tid)) as [->|Hne]; [left|right].
  - apply list_lookup_insert_Some in H as [(_ & <- & Hl)|[? _]]; [|done].
    split; [done|]. split; [done|]. by apply lookup_lt_is_Some.
  - by rewrite list_lookup_insert_ne in H.
Qed.

(** A thread walks the map only with its mutex. *)
Lemma walk_holds tid code l :
  disciplined tid code = true -> holding sheath_mutex code = true \/ forall m, walk_inv m code l.
Proof.
  intros Hd. destruct code as [|i r]; [by right|]. cbn [disciplined] in Hd. bool_simp.
  destruct i; try (by right); left; done.
Qed.

(** One thread has moved, and the map is as it was unless that thread had its
    mutex. *)
Lemma inv_moved s s' tid th th' :
  inv s -> threads s !! tid = Some th -> threads s' = <[tid := th']> (threads s) ->
  disciplined tid (t_code th') = true -> fits (t_call th') (t_code th') ->
  (forall m, holding m (t_code th') = true <-> owner m s' = Some tid) ->
  (forall m tid', tid' <> tid -> owner m s' = Some tid' <-> owner m s = Some tid') ->
  walk_inv (m_all_handles (mem_sheath (mem s'))) (t_code th') (t_frame th') ->
  (holding sheath_mutex (t_code th) = true
   \/ m_all_handles (mem_sheath (mem s')) = m_all_handles (mem_sheath (mem s))) ->
  inv s'.
Proof.
  intros Hinv Hth Hths Hd Hf Hh Ho Hw Hm.
  assert (forall tid1 th1, threads s' !! tid1 = Some th1 ->
            tid1 = tid /\ th1 = th' \/ tid1 <> tid /\ threads s !! tid1 = Some th1) as Hl.
  { intros tid1 th1 H1. rewrite Hths in H1.
    destruct (set_thread_lookup tid tid1 th' th1 s H1) as [(? & ? & _)|?]; auto. }
  split.
  - intros tid1 th1 [[-> ->]|[_ H1]]%Hl; [done|]. by eapply inv_code.
  - intros tid1 th1 m [[-> ->]|[Hne H1]]%Hl; [done|]. rewrite Ho by done. by apply inv_held.
  - intros m tid1 H1. rewrite Hths. destruct (decide (tid1 = tid)) as [->|Hne].
    + exists th'. apply list_lookup_insert_eq. by apply lookup_lt_Some in Hth.
    + rewrite Ho in H1 by done. apply inv_owner in H1; [|done]. by rewrite list_lookup_insert_ne.
  - intros tid1 th1 [[-> ->]|[_ H1]]%Hl; [done|]. by eapply inv_fits.
  - intros tid1 th1 [[-> ->]|[Hne H1]]%Hl; [done|]. pose proof (inv_walk s Hinv tid1 th1 H1) as Hw1.
    destruct Hm as [Hm| ->]; [|done].
    destruct (walk_holds tid1 (t_code th1) (t_frame th1)) as [Hh1|Hany]; [by eapply inv_code| |by apply Hany].
    apply (inv_held s Hinv tid1 th1 sheath_mutex H1) in Hh1.
    apply (inv_held s Hinv tid th sheath_mutex Hth) in Hm. congruence.
Qed.

Lemma fits_tail c i r : fits c (i :: r) -> fits c r.
Proof.
  destruct c; cbn [fits code_of];
    try (by inversion 1); (intros [Hf|Hf]; right; [|by inversion Hf]); simplify_eq; [|by repeat constructor].
  apply Forall_app. split; [by apply Forall_fmap, Forall_true|by repeat constructor].
Qed.

Lemma walk_plain i r m l : plain_instr i = true -> follows i r = true -> walk_inv m r l.
Proof. by destruct r as [|[]]; destruct i. Qed.

(** Taking or releasing a mutex: [o] is its owner after, and the code behind
    says so. *)
Lemma inv_mutex s tid c i r l m o :
  inv s -> threads s !! tid = Some (mk_thread c (i :: r) l) -> (i = i_lock m \/ i = i_unlock m) ->
  (holding m r = true <-> o = Some tid) -> o = Some tid \/ o = None ->
  (forall t, owner m s = Some t -> t = tid) ->
  inv (set_owner m o (set_thread tid (mk_thread c r l) s)).
Proof.
  intros Hinv Hth Hi Ho Hto Hfrom. pose proof (inv_code s Hinv _ _ Hth) as Hd. pose proof (inv_fits s Hinv _ _ Hth) as Hf.
  pose proof (fun m => inv_held s Hinv _ _ m Hth) as Hh. cbn [t_code t_call disciplined] in *. bool_simp.
  apply (inv_moved s _ tid _ (mk_thread c r l) Hinv Hth);
    [by rewrite threads_set_owner|done|by eapply fits_tail| | | |right; by rewrite mem_set_owner].
  - intros m'. rewrite owner_set, owner_set_thread. cbn [t_code]. case_decide as Hm; [by subst m'|].
    rewrite <- Hh. destruct Hi as [-> | ->]; cbn [holding]; by rewrite bool_decide_eq_false_2.
  - intros m' tid' Hne. rewrite owner_set, owner_set_thread. case_decide; subst; [|done].
    split; [destruct Hto as [-> | ->]; congruence|]. intros Ht%Hfrom. congruence.
  - apply (walk_plain i); [by destruct Hi as [-> | ->]|done].
Qed.

Lemma inv_step e s s' : inv s -> step e s = Some s' -> inv s'.
Proof.
  intros Hinv Hs. destruct e as [tid c|tid ch].
  - cbn [step] in Hs. destruct (threads s !! tid) as [th|] eqn:Hth; [|done]. cbn [mbind option_bind] in Hs.
    destruct (t_code th) eqn:Hc; [|done]. destruct (may_call tid c) eqn:Hmc; [|done]. simplify_eq.
    destruct (code_of_disciplined tid c Hmc) as [Hd Hh].
    eapply (inv_moved s _ tid th); [done|done|reflexivity|done| | | | |by right].
    + destruct c; cbn [fits t_call t_code]; auto; by repeat constructor.
    + intros m. rewrite owner_set_thread. cbn [t_code]. rewrite Hh, <- (inv_held s Hinv tid th m Hth), Hc. done.
    + intros m tid' _. by rewrite owner_set_thread.
    + by destruct c as [[]| | | | | | | | |].
  - apply step_run_cases in Hs as (c & i & r & l & Hth & Hs).
    pose proof (inv_code s Hinv _ _ Hth) as Hd. pose proof (fun m => inv_held s Hinv _ _ m Hth) as Hh.
    cbn [t_code t_frame] in *.
    destruct Hs as [(m & -> & Ho & ->)|[(m & -> & ->)|(pre & l' & w & He & ->)]].
    + apply (inv_mutex s tid c (i_lock m)); [done..|by left| |by left|by rewrite Ho].
      cbn [disciplined] in Hd. bool_simp. split; [done|]. intros _. destruct m; cbn in *; by bool_simp.
    + apply (inv_mutex s tid c (i_unlock m)); [done..|by right| |by right|].
      * cbn [disciplined] in Hd. bool_simp. split; [|done]. destruct m; cbn in *; bool_simp; congruence.
      * intros t Ht. assert (owner m s = Some tid); [|congruence]. apply Hh. cbn. by rewrite bool_decide_eq_true_2.
    + destruct (exec_disciplined _ _ _ _ _ _ _ _ _ Hd He) as [Hd' Hh'].
      apply (inv_moved s _ tid _ (mk_thread c (pre ++ r) l') Hinv Hth);
        [done|done|by eapply exec_fits, He; apply (inv_fits s Hinv _ _ Hth)| | |by eapply exec_walk, He; [|apply (inv_walk s Hinv _ _ Hth)]|].
      * intros m. rewrite owner_set_mem, owner_set_thread. cbn [t_code]. by rewrite Hh', Hh.
      * intros m tid' _. by rewrite owner_set_mem, owner_set_thread.
      * cbn [t_code mem set_mem]. destruct (is_write i) eqn:Hi; [left|right; by eapply exec_instr_handles].
        cbn [disciplined] in Hd. bool_simp. destruct i; try done; simpl in *; by bool_simp.
Qed.

Lemma inv_start n w : inv (start n w).
Proof.
  assert (forall tid th, threads (start n w) !! tid = Some th -> th = idle_thread) as Hi.
  { intros tid th H. by apply lookup_replicate_1 in H as [-> _]. }
  split.
  - by intros tid th ->%Hi.
  - intros tid th m ->%Hi. by destruct m.
  - by intros [].
  - intros tid th ->%Hi. by constructor.
  - by intros tid th ->%Hi.
Qed.

Lemma inv_run es s s' : inv s -> run es s = Some s' -> inv s'.
Proof.
  revert s. induction es as [|e es IH]; intros s Hi Hr; cbn [run] in Hr; [by simplify_eq|].
  destruct (step e s) as [s1|] eqn:Hs; [|done]. eapply IH; [by eapply inv_step|done].
Qed.

Lemma reachable_inv n w s : reachable n w s -> inv s.
Proof. intros [es Hr]. eapply inv_run; [apply inv_start|done]. Qed.

(** ** Races *)

(** What a thread needs to hold at an access. *)
Lemma guarded tid i r x :
  disciplined tid (i :: r) = true -> x ∈ writes i ++ reads i ->
  match x with
  | m_all_handles_ => holding sheath_mutex (i :: r) = true
  | svs_ => svs_ ∈ writes i -> tid = session_tid
  | the_sessions => holding caller_mutex (i :: r) = true \/ tid = caller_tid /\ exists k, i = i_check k
  | the_prev_stats => tid = caller_tid
  | the_curr_stats => holding caller_mutex (i :: r) = true \/ tid = caller_tid
  end.
Proof.
  intros Hd Hx. cbn [disciplined] in Hd. bool_simp.
  destruct i; simpl in Hx; rewrite ?elem_of_cons, ?elem_of_nil in Hx; intuition subst; simpl in *;
    rewrite ?orb_true_iff in *; bool_simp; try done; eauto.
  all: rewrite ?elem_of_nil in *; bool_simp; intuition (bool_simp; auto).
Qed.

Lemma next_instr_code s tid i :
  next_instr s tid = Some i -> exists th r, threads s !! tid = Some th /\ t_code th = i :: r.
Proof.
  unfold next_instr. destruct (threads s !! tid) as [th|]; [|done]. cbn [mbind option_bind].
  destruct (t_code th) as [|j r] eqn:Hc; [done|]. intros [= ->]. eauto.
Qed.

(** Two threads cannot have one mutex. *)
Lemma holds_excl s t1 t2 th1 th2 m :
  inv s -> threads s !! t1 = Some th1 -> threads s !! t2 = Some th2 ->
  holding m (t_code th1) = true -> holding m (t_code th2) = true -> t1 = t2.
Proof.
  intros Hinv H1 H2 Hh1%(inv_held s Hinv t1 th1 m H1) Hh2%(inv_held s Hinv t2 th2 m H2). congruence.
Qed.


(** ** Deadlock *)

(** A thread whose next instruction takes a mutex that is taken. *)
Definition waits (s : state) (tid : nat) : Prop :=
  exists m, next_instr s tid = Some (i_lock m) /\ owner m s <> None.

Definition busy (s : state) (tid : nat) : Prop := is_Some (next_instr s tid).

(** Who waits for [sheath::mutex_] waits for a thread that does not wait. *)
Lemma sheath_owner_runs s tid :
  inv s -> owner sheath_mutex s = Some tid -> busy s tid /\ ~ waits s tid.
Proof.
  intros Hinv Ho. destruct (inv_owner s Hinv _ _ Ho) as [th Hth].
  pose proof (proj2 (inv_held s Hinv _ _ _ Hth) Ho) as Hh. pose proof (inv_code s Hinv _ _ Hth) as Hd.
  unfold busy, waits, next_instr. rewrite Hth. cbn [mbind option_bind].
  destruct (t_code th) as [|i r]; [done|]. split; [done|]. intros (m & [= ->] & _).
  cbn [holding disciplined] in *. bool_simp. destruct m; cbn [allowed] in *; bool_simp; [|done].
  congruence.
Qed.

(** When some thread is in a call, some thread in a call does not wait. *)
Lemma never_stuck_thread n w s tid :
  reachable n w s -> busy s tid -> exists tid', busy s tid' /\ ~ waits s tid'.
Proof.
  intros Hinv%reachable_inv Hb.
  destruct (owner sheath_mutex s) as [t|] eqn:Ho; [exists t; by apply sheath_owner_runs|].
  destruct (owner caller_mutex s) as [t|] eqn:Hoc.
  - destruct (inv_owner s Hinv _ _ Hoc) as [th Hth].
    pose proof (proj2 (inv_held s Hinv _ _ _ Hth) Hoc) as Hh. pose proof (inv_code s Hinv _ _ Hth) as Hd.
    exists t. unfold busy, waits, next_instr. rewrite Hth. cbn [mbind option_bind].
    destruct (t_code th) as [|i r]; [done|]. split; [done|]. intros (m & [= ->] & Hm).
    destruct m; [|by rewrite Ho in Hm]. cbn in Hh. done.
  - exists tid. split; [done|]. intros (m & _ & Hm). by destruct m.
Qed.

End discipline.

(** ** Examples *)

#[local] Existing Instance sha1_demo.
#[local] Existing Instance handles_demo.
#[local] Existing Instance lt_demo.
#[local] Existing Instance parsers_demo.
#[local] Existing Instance session_demo.
#[local] Existing Instance demo_metrics.
#[local] Existing Instance documented_eq.
#[local] Existing Instance text_demo.

(** A connected session 5, counters 1.5 seconds apart. *)
Definition demo_memory : memory :=
  mk_memory (set_handles ∅ (set_svs demo_values demo_sheath)) (with_sessions (fun _ => {[5]}) (connect 5 new_caller)).

Definition once : choice := mk_choice [] [] sent.

(** The session's thread stops between [m_timestamp[1] = m_timestamp[0]] and
    the rest, while a connection asks for the stats. *)
Definition demo_update : list event :=
  [ev_call 0 (update_call (replicate 40 9%Z) 5200000); ev_run 0 once; ev_run 0 once].

Definition state_of (es : list event) : state := default (start 3 demo_memory) (run es (start 3 demo_memory)).

(** A request asks for the stats while the session's thread is at the update. *)
Definition race_svs : list event := demo_update ++ [ev_call 2 (session_stats_call demo_clocks)].

