(* ===== verification/Atomic.v ===== *)
(** * What the locks give, and what they do not (src/sheath.cpp, src/handlers.cpp)

    The functions of [Locks], run by any threads: each does alone what the
    rest of the library takes it to do; the changes of the map and the
    snapshots are those of operations done at one moment; every call ends;
    and what a reader of the counters gets in the middle of an update. *)

From S2P Require Import Prelude CStd Json JsonPatch JsonDiff Fs Util SessionStats TorrentStatus Libtorrent.
From S2P Require Import Demo JsonText Sheath Torrents Sync Locks.

Section atomic.
Context {sha : Sha1} {ltd : LtData} {hs : Handles} {ltp : LtParsers} {lts : Session} {mt : Metrics}.
Context {jeq : JsonEq} {text : JsonText}.

(** ** One thread alone *)

(** The code of a thread with no others, and the mutexes free to it. *)
Fixpoint alone (chs : list choice) (code : list instr) (l : frame) (w : memory)
  : option (list instr * frame * memory) :=
  match chs with
  | [] => Some (code, l, w)
  | ch :: chs' =>
      match code with
      | [] => None
      | i_lock _ :: r | i_unlock _ :: r => alone chs' r l w
      | i :: r => '(pre, l', w') ← exec_instr i ch l w; alone chs' (pre ++ r) l' w'
      end
  end.

Lemma alone_then chs1 chs2 code l w code1 l1 w1 :
  alone chs1 code l w = Some (code1, l1, w1) -> alone (chs1 ++ chs2) code l w = alone chs2 code1 l1 w1.
Proof.
  revert code l w. induction chs1 as [|ch chs IH]; intros code l w Ha; cbn [alone app] in *; [by simplify_eq|].
  destruct code as [|i r]; [done|].
  destruct i; try (by apply IH);
    match type of Ha with context [exec_instr ?i ?ch ?l ?w] =>
      destruct (exec_instr i ch l w) as [[[pre l'] w']|]; [|done] end;
    cbn [mbind option_bind] in *; by apply IH.
Qed.

(** Its steps among idle threads. *)
Lemma alone_run tid c chs code l s l' w' :
  threads s !! tid = Some (mk_thread c code l) -> disciplined tid code = true ->
  (forall m, owner m s = if holding m code then Some tid else None) ->
  alone chs code l (mem s) = Some ([], l', w') ->
  run (ev_run tid <$> chs) s
  = Some (mk_state (<[tid := mk_thread c [] l']> (threads s)) None None w').
Proof.
  revert code l s. induction chs as [|ch chs IH]; intros code l s Hth Hd Ho Ha; cbn [alone] in Ha.
  - simplify_eq. destruct s as [ths oc os w]. pose proof (Ho caller_mutex) as Hc. pose proof (Ho sheath_mutex) as Hs.
    cbn in *. subst. by rewrite list_insert_id.
  - destruct code as [|i r]; [done|].
    assert (forall pre l1 s1, threads s1 = <[tid := mk_thread c (pre ++ r) l1]> (threads s) ->
              disciplined tid (pre ++ r) = true ->
              (forall m, owner m s1 = if holding m (pre ++ r) then Some tid else None) ->
              alone chs (pre ++ r) l1 (mem s1) = Some ([], l', w') ->
              run (ev_run tid <$> chs) s1
              = Some (mk_state (<[tid := mk_thread c [] l']> (threads s)) None None w')) as Hnext.
    { intros pre l1 s1 Hs1 Hd1 Ho1 Ha1. rewrite (IH (pre ++ r) l1 s1); [|rewrite Hs1|done..].
      - by rewrite Hs1, list_insert_insert_eq.
      - apply list_lookup_insert_eq. by apply lookup_lt_Some in Hth. }
    cbn [fmap list_fmap run]. unfold step. rewrite Hth. cbn [mbind option_bind t_code t_call t_frame].
    cbn [disciplined] in Hd.
    destruct i; try (match type of Ha with context [exec_instr ?i ?ch ?l ?w] =>
      destruct (exec_instr i ch l w) as [[[pre l1] w1]|] eqn:He; [|done] end;
      cbn [mbind option_bind] in *;
      destruct (exec_disciplined tid _ r _ _ _ _ _ _ ltac:(cbn [disciplined]; exact Hd) He) as [Hd1 Hh1];
      apply (Hnext pre l1); [done|done|intros m'; rewrite owner_set_mem, owner_set_thread, Ho; by rewrite Hh1|done]).
    + rewrite Ho. cbn [holding]. bool_simp.
      assert (negb (bool_decide (m = m)) = false) as -> by (by rewrite bool_decide_eq_true_2).
      cbn [andb mbind option_bind].
      apply (Hnext [] l); [by rewrite threads_set_owner|done| |by rewrite mem_set_owner].
      intros m'. rewrite owner_set, owner_set_thread, Ho. cbn [app holding].
      case_decide as Hm; [subst m'|by rewrite bool_decide_eq_false_2].
      destruct m; cbn [allowed] in *; bool_simp; by match goal with H : holding _ r = true |- _ => rewrite H end.
    + cbn [mbind option_bind]. bool_simp.
      apply (Hnext [] l); [by rewrite threads_set_owner|done| |by rewrite mem_set_owner].
      intros m'. rewrite owner_set, owner_set_thread, Ho. cbn [app holding].
      case_decide as Hm; [subst m'|by rewrite bool_decide_eq_false_2].
      destruct m; cbn [allowed] in *; bool_simp; by match goal with H : holding _ r = false |- _ => rewrite H end.
Qed.

(** What each call does as one operation; [snap] is what [getSyncStats]
    answers. *)
Definition call_effect (c : call) (snap : json) (w : memory) : memory :=
  match c with
  | set_all_call st => on_sheath (set_all_torrents st) w
  | remove_call h => on_sheath (remove_torrent_with_handle h) w
  | update_call sc t => on_counters (fun v => updateCounters v sc t) w
  | join_call id qid _ => on_caller (join id qid 0 snap) w
  | leave_call id => on_caller (leave id) w
  | text_call m => on_caller (broadcast m) w
  | round_call _ => on_caller (doLoop snap) w
  | sync_stats_call _ | session_stats_call _ | close_call => w
  end.

Definition any_choice : choice := mk_choice [] [] sent.

Lemma alone_puts st r l w :
  alone (replicate (length st) any_choice) ((i_put <$> st) ++ r) l w
  = Some (r, l, on_sheath (fun s => set_handles (foldl put_status (m_all_handles s) st) s) w).
Proof.
  revert w. induction st as [|t st IH]; intros w; [by destruct w as [[] ?]|].
  cbn [length replicate fmap list_fmap app alone exec_instr mbind option_bind].
  change (map i_put st) with (i_put <$> st). by rewrite IH.
Qed.

Lemma alone_entries k ps arr l r w :
  (forall p, p ∈ ps -> m_all_handles (mem_sheath w) !! p.1 = Some p.2) ->
  l_iter l = ps.*1 -> l_allstats l = arr ->
  alone (replicate (S (length ps)) any_choice) (i_entries :: i_value k :: r) l w
  = Some (i_value k :: r, set_iter [] (arr ++ entries_of ps) l, w).
Proof.
  revert l arr. induction ps as [|[h t] ps IH]; intros l arr Hps Hit Harr; subst arr.
  - cbn [length replicate alone exec_instr]. rewrite Hit. cbn. rewrite app_nil_r. by destruct l; simpl in *; subst.
  - rewrite length_cons. change (replicate (S (S (length ps))) any_choice) with
      (any_choice :: replicate (S (length ps)) any_choice).
    cbn [alone exec_instr]. rewrite Hit. cbn [fmap list_fmap fst].
    pose proof (Hps (h, t) ltac:(by left)) as Hh. cbn [fst snd] in Hh. rewrite Hh. cbn [mbind option_bind app].
    rewrite (IH _ (l_allstats l ++ [JObject (torrent_status_to_json_obj t)])); [|by intros p Hp; apply Hps; right|done..].
    cbn [set_iter]. by rewrite <- (assoc (++)).
Qed.

Lemma alone_getSyncStats k iter l w j r :
  iter ≡ₚ map_to_list (m_all_handles (mem_sheath w)) ->
  getSyncStats k iter (mem_sheath w) = Some j ->
  exists chs l', alone chs (getSyncStats_code k ++ r) l w = Some (r, l', w)
                 /\ l_value l' = j /\ l_vws l' = l_vws l /\ l_text l' = l_text l.
Proof.
  intros Hp Hj. unfold getSyncStats in Hj. destruct (session_stats k (mem_sheath w)) as [stats|] eqn:Hs; [|done].
  cbn [mbind option_bind] in Hj. simplify_eq.
  exists (any_choice :: mk_choice iter.*1 [] sent :: replicate (S (length iter)) any_choice ++ [any_choice; any_choice]).
  eexists. cbn [app getSyncStats_code alone exec_instr].
  assert (NoDup iter.*1 /\ list_to_set iter.*1 = dom (m_all_handles (mem_sheath w))) as Ho.
  { split; [rewrite Hp; apply NoDup_fst_map_to_list|]. apply set_eq. intros h.
    rewrite elem_of_list_to_set, Hp, elem_of_dom, list_elem_of_fmap. split.
    - intros ([h' t] & -> & Hin%elem_of_map_to_list). eauto.
    - intros [t Ht]. exists (h, t). split; [done|]. by apply elem_of_map_to_list. }
  assert (forall p, p ∈ iter -> m_all_handles (mem_sheath w) !! p.1 = Some p.2) as Hin.
  { intros p Hin. rewrite Hp in Hin. destruct p. by apply elem_of_map_to_list in Hin. }
  cbn [ch_handles]. rewrite bool_decide_eq_true_2 by done. cbn [mbind option_bind app].
  rewrite (alone_then _ _ _ _ _ _ _ _ (alone_entries k iter [] (set_iter iter.*1 [] l) _ w Hin eq_refl eq_refl)).
  cbn [alone exec_instr]. rewrite Hs. cbn [mbind option_bind]. split; [reflexivity|done].
Qed.

Lemma alone_sends ids l r w :
  l_vws l = ids ->
  alone (replicate (S (length ids)) any_choice) (i_sends :: r) l w
  = Some (r, set_vws [] l, on_caller (fun c => foldl (fun c id => send (l_text l) id c) c ids) w).
Proof.
  revert l w. induction ids as [|id ids IH]; intros l w Hl.
  - cbn [length replicate alone exec_instr]. rewrite Hl. cbn. destruct l, w; simpl in *; by subst.
  - rewrite length_cons. change (replicate (S (S (length ids))) any_choice) with
      (any_choice :: replicate (S (length ids)) any_choice).
    cbn [alone exec_instr]. rewrite Hl. cbn [ch_delivery any_choice mbind option_bind app].
    by rewrite (IH (set_vws ids l)).
Qed.

Lemma foldl_reverse_sends m ids c :
  foldl (fun c id => send m id c) c (reverse ids) = foldr (send m) c ids.
Proof. induction ids as [|id ids IH]; [done|]. rewrite reverse_cons, foldl_app, IH. done. Qed.

Lemma alone_broadcast l r w :
  exists chs, alone chs (broadcast_code ++ r) l w = Some (r, set_vws [] l, on_caller (broadcast (l_text l)) w).
Proof.
  set (ids := reverse (elements (sessions_ (mem_caller w)))).
  exists (any_choice :: mk_choice [] ids sent :: any_choice :: replicate (S (length ids)) any_choice).
  unfold broadcast_code. cbn [app alone exec_instr ch_sessions].
  assert (NoDup ids /\ list_to_set ids = sessions_ (mem_caller w)) as Ho.
  { unfold ids. split; [rewrite reverse_Permutation; apply NoDup_elements|].
    apply set_eq. intros x. by rewrite elem_of_list_to_set, elem_of_reverse, elem_of_elements. }
  rewrite bool_decide_eq_true_2 by done. cbn [mbind option_bind app].
  rewrite alone_sends by done. cbn [set_vws l_text]. unfold broadcast, on_caller. cbn.
  unfold ids. by rewrite foldl_reverse_sends.
Qed.

Definition with_clocks (c : call) (k : clocks) : Prop :=
  match c with
  | join_call _ qid k' => qid <> "" /\ k' = k
  | round_call k' | sync_stats_call k' | session_stats_call k' => k' = k
  | _ => True
  end.

Lemma alone_round k iter snap l w :
  iter ≡ₚ map_to_list (m_all_handles (mem_sheath w)) -> getSyncStats k iter (mem_sheath w) = Some snap ->
  exists chs l', alone chs [i_check k] l w = Some ([], l', on_caller (doLoop snap) w).
Proof.
  intros Hp Hj. destruct (decide (sessions_ (mem_caller w) = ∅)) as [He|He].
  { exists [any_choice], l. cbn [alone exec_instr]. unfold on_caller, doLoop.
    rewrite !bool_decide_eq_true_2 by done. by destruct w. }
  set (w1 := on_caller bump w). destruct (alone_getSyncStats k iter l w1 snap
    ([i_set_curr; i_build] ++ broadcast_code ++ [i_keep]) Hp Hj) as (chs1 & l1 & H1 & Hv & _).
  set (w2 := on_caller (with_curr snap) w1).
  set (m := serialize (delta_msg (sync_ver (mem_caller w2)) (prev_stats (mem_caller w2)) (curr_stats (mem_caller w2)))).
  destruct (alone_broadcast (set_text m l1) [i_keep] w2) as (chs2 & H2).
  exists (any_choice :: any_choice :: chs1 ++ any_choice :: any_choice :: chs2 ++ [any_choice]). eexists.
  cbn [alone exec_instr]. rewrite bool_decide_eq_false_2 by done. cbn [mbind option_bind round_code app].
  cbn [alone exec_instr mbind option_bind]. fold w1. rewrite app_nil_l, (alone_then _ _ _ _ _ _ _ _ H1).
  cbn [app alone exec_instr mbind option_bind]. rewrite Hv. fold w2. fold m.
  rewrite (alone_then _ _ _ _ _ _ _ _ H2). cbn [alone exec_instr mbind option_bind app].
  unfold doLoop, on_caller. rewrite bool_decide_eq_false_2 by done. reflexivity.
Qed.

Lemma alone_fill k iter snap rest l w :
  iter ≡ₚ map_to_list (m_all_handles (mem_sheath w)) -> getSyncStats k iter (mem_sheath w) = Some snap ->
  exists chs l', alone chs (i_fill k :: rest) l w
    = Some (rest, l', on_caller (with_curr (match curr_stats (mem_caller w) with JNull => snap | j => j end)) w).
Proof.
  intros Hp Hj. destruct (curr_stats (mem_caller w)) eqn:Hc;
    try (exists [any_choice], l; cbn [alone exec_instr]; rewrite Hc; cbn [mbind option_bind app];
         unfold on_caller, with_curr; rewrite <- Hc; by destruct w as [? []]).
  destruct (alone_getSyncStats k iter l w snap (i_set_curr :: rest) Hp Hj) as (chs & l1 & H1 & Hv & _).
  exists (any_choice :: chs ++ [any_choice]), l1. cbn [alone exec_instr]. rewrite Hc. cbn [mbind option_bind].
  rewrite <- (assoc (++)). cbn [app]. rewrite (alone_then _ _ _ _ _ _ _ _ H1).
  cbn [alone exec_instr mbind option_bind app]. by rewrite Hv.
Qed.

Lemma alone_join id qid k iter snap l w :
  qid <> "" ->
  iter ≡ₚ map_to_list (m_all_handles (mem_sheath w)) -> getSyncStats k iter (mem_sheath w) = Some snap ->
  exists chs l', alone chs (code_of (join_call id qid k)) l w = Some ([], l', on_caller (join id qid 0 snap) w).
Proof.
  intros Hq Hp Hj. set (w1 := on_caller (fun c => bump (with_sessions (fun x => {[id]} ∪ x) c)) w).
  destruct (alone_fill k iter snap [i_body; i_greet id qid; i_unlock caller_mutex] l w1 Hp Hj) as (chs & l1 & H1).
  exists (any_choice :: any_choice :: chs ++ [any_choice; any_choice; any_choice]). eexists.
  cbn [code_of alone exec_instr mbind option_bind app]. fold w1.
  rewrite (alone_then _ _ _ _ _ _ _ _ H1). cbn [alone exec_instr mbind option_bind app].
  unfold join, w1, on_caller, with_curr, bump, with_sessions.
  rewrite (bool_decide_eq_false_2 (qid = "")) by exact Hq.
  cbn [mem_sheath mem_caller sessions_ prev_stats curr_stats sync_ver outbox set_value l_value]. reflexivity.
Qed.

Lemma alone_update sc t l w :
  exists chs, alone chs (code_of (update_call sc t)) l w = Some ([], l, on_counters (fun v => updateCounters v sc t) w).
Proof.
  assert (forall r, alone [any_choice] (i_test t :: r) l w
    = Some ((if (update_period <? uwrap 64 (t - m_timestamp1 (svs (mem_sheath w))))%Z then [i_swap; i_older] else []) ++ r, l, w))
    as Ht by reflexivity.
  unfold on_counters, on_sheath, updateCounters.
  destruct (update_period <? uwrap 64 (t - m_timestamp1 (svs (mem_sheath w))))%Z.
  - exists ([any_choice] ++ replicate 4 any_choice). cbn [code_of].
    by rewrite (alone_then _ _ _ _ _ _ _ _ (Ht [i_assign sc; i_newer t])).
  - exists ([any_choice] ++ replicate 2 any_choice). cbn [code_of].
    by rewrite (alone_then _ _ _ _ _ _ _ _ (Ht [i_assign sc; i_newer t])).
Qed.

Lemma alone_call c k iter snap l w :
  iter ≡ₚ map_to_list (m_all_handles (mem_sheath w)) -> getSyncStats k iter (mem_sheath w) = Some snap ->
  with_clocks c k ->
  exists chs l', alone chs (code_of c) l w = Some ([], l', call_effect c snap w)
                 /\ match c with sync_stats_call _ => l_value l' = snap | _ => True end.
Proof.
  intros Hp Hj Hc. destruct c as [st|h|sc t|k'|k'|id qid k'|id|m| |k']; cbn [with_clocks call_effect] in *; subst.
  - exists (any_choice :: replicate (length st) any_choice ++ [any_choice]), l. split; [|done].
    cbn [code_of alone]. by rewrite (alone_then _ _ _ _ _ _ _ _ (alone_puts st _ l w)).
  - by exists [any_choice; any_choice; any_choice], l.
  - destruct (alone_update sc t l w) as [chs H]. eauto.
  - destruct (alone_getSyncStats k iter l w snap [] Hp Hj) as (chs & l' & H & Hv & _). rewrite app_nil_r in H. eauto.
  - exists [any_choice]. unfold getSyncStats in Hj. destruct (session_stats k (mem_sheath w)) as [stats|] eqn:Hs; [|done].
    eexists. split; [|done]. cbn [code_of alone exec_instr]. unfold sheath_getSessionStats. rewrite Hs. reflexivity.
  - destruct Hc as [Hq ->]. destruct (alone_join id qid k iter snap l w Hq Hp Hj) as (chs & l' & H). eauto.
  - by exists (replicate 3 any_choice), l.
  - destruct (alone_broadcast (set_text m l) [] w) as (chs & H). rewrite app_nil_r in H.
    exists (any_choice :: chs). eexists. split; [|done]. cbn [code_of alone exec_instr mbind option_bind app]. exact H.
  - exists (replicate 3 any_choice), l. by destruct w.
  - destruct (alone_round k iter snap l w Hp Hj) as (chs & l' & H). eauto.
Qed.

(** C14: among idle threads each call comes to its end with the one effect the
    rest of the library takes it to have: the loops under the mutex are
    [set_all_torrents] and [remove_torrent_with_handle], the assignments of
    the counters are [updateCounters], and [join], [leave], the broadcast and
    the round are [Sync]'s. *)
Theorem calls_alone c s tid th k iter snap :
  owner_of_caller s = None -> owner_of_sheath s = None ->
  threads s !! tid = Some th -> t_code th = [] -> may_call tid c = true ->
  iter ≡ₚ map_to_list (m_all_handles (mem_sheath (mem s))) ->
  getSyncStats k iter (mem_sheath (mem s)) = Some snap ->
  with_clocks c k ->
  exists chs l, run (ev_call tid c :: (ev_run tid <$> chs)) s
                = Some (mk_state (<[tid := mk_thread c [] l]> (threads s)) None None
                          (call_effect c snap (mem s)))
    /\ match c with sync_stats_call _ => l_value l = snap | _ => True end.
Proof.
  intros Hoc Hos Hth Hcode Hmay Hp Hj Hc.
  destruct (alone_call c k iter snap new_frame (mem s) Hp Hj Hc) as (chs & l & Ha & Hv).
  exists chs, l. split; [|done]. cbn [run]. unfold step. rewrite Hth. cbn [mbind option_bind].
  rewrite Hcode, Hmay. cbn [mbind option_bind].
  destruct (code_of_disciplined tid c Hmay) as [Hd Hh].
  rewrite (alone_run tid c chs (code_of c) new_frame _ l (call_effect c snap (mem s))); [|..|done].
  - cbn [set_thread threads]. by rewrite list_insert_insert_eq.
  - cbn [set_thread threads]. apply list_lookup_insert_eq. by apply lookup_lt_Some in Hth.
  - done.
  - intros m. rewrite owner_set_thread, Hh. by destruct m.
Qed.

(** ** Any threads: the map changes at one moment *)

Notation handles s := (m_all_handles (mem_sheath (mem s))).

(** The map as it is when the critical section under way is done. *)
Definition committed (s : state) : gmap torrent_handle torrent_status :=
  match owner_of_sheath s ≫= fun tid => threads s !! tid with
  | Some th => after_section (t_code th) (handles s)
  | None => handles s
  end.

Definition call_update (c : call) (m : gmap torrent_handle torrent_status) : gmap torrent_handle torrent_status :=
  match c with
  | set_all_call st => foldl put_status m st
  | remove_call h => delete h m
  | _ => m
  end.

(** It is what the call does to the map. *)
Lemma call_update_effect c snap w :
  m_all_handles (mem_sheath (call_effect c snap w)) = call_update c (m_all_handles (mem_sheath w)).
Proof. by destruct c. Qed.

(** The call, when the step is that it takes [sheath::mutex_]. *)
Definition taking (e : event) (s : state) : list call :=
  match e with
  | ev_run tid _ =>
      match threads s !! tid with
      | Some (mk_thread c (i_lock sheath_mutex :: _) _) => [c]
      | _ => []
      end
  | ev_call _ _ => []
  end.

Fixpoint taken (es : list event) (s : state) : list call :=
  match es with
  | [] => []
  | e :: es' => taking e s ++ match step e s with Some s' => taken es' s' | None => [] end
  end.

Definition updates (cs : list call) (m : gmap torrent_handle torrent_status) : gmap torrent_handle torrent_status :=
  foldl (fun m c => call_update c m) m cs.

Lemma after_section_skip i r m :
  is_write i = false -> i <> i_unlock sheath_mutex -> after_section (i :: r) m = after_section r m.
Proof. intros Hi Hu. destruct i; try done. by destruct m0. Qed.

Lemma after_section_reads code m : Forall (fun i => is_write i = false) code -> after_section code m = m.
Proof. induction 1 as [|i r Hi _ IH]; [done|]. destruct i; try done; by destruct m0. Qed.

(** The section a call begins makes its update. *)
Lemma section_update c r m :
  fits c (i_lock sheath_mutex :: r) -> after_section r m = call_update c m.
Proof.
  intros Hf. destruct c; cbn [fits code_of call_update] in *;
    try (apply after_section_reads; by inversion Hf);
    (destruct Hf as [Hf|Hf]; [simplify_eq|by inversion Hf]); [|done].
  rename st into l. revert m. induction l as [|t l IH]; intros m; [done|]. apply IH.
Qed.

Lemma exec_section tid i r ch l w pre l' w' :
  disciplined tid (i :: r) = true -> holding sheath_mutex (i :: r) = true ->
  exec_instr i ch l w = Some (pre, l', w') ->
  after_section (pre ++ r) (m_all_handles (mem_sheath w')) = after_section (i :: r) (m_all_handles (mem_sheath w)).
Proof.
  intros Hd Hh He. destruct (is_write i) eqn:Hi.
  - destruct i; try done; exec_instr_cases He; reflexivity.
  - rewrite (exec_instr_handles _ _ _ _ _ _ _ He Hi). cbn [disciplined] in Hd. bool_simp.
    destruct i; exec_instr_cases He; try done; cbn [allowed holding] in *; bool_simp; congruence.
Qed.

Lemma committed_owned s tid th :
  owner_of_sheath s = Some tid -> threads s !! tid = Some th ->
  committed s = after_section (t_code th) (handles s).
Proof. intros Ho Hth. unfold committed. rewrite Ho. cbn. by rewrite Hth. Qed.

Lemma committed_free s : owner_of_sheath s = None -> committed s = handles s.
Proof. intros Ho. unfold committed. by rewrite Ho. Qed.

(** A thread without the mutex moves and leaves the map. *)
Lemma committed_other s s' tid th' :
  owner_of_sheath s' = owner_of_sheath s -> owner_of_sheath s <> Some tid ->
  threads s' = <[tid := th']> (threads s) -> handles s' = handles s -> committed s' = committed s.
Proof.
  intros Ho Hne Hth Hm. unfold committed. rewrite Ho, Hm, Hth.
  destruct (owner_of_sheath s) as [t|]; [|done]. cbn. rewrite list_lookup_insert_ne by congruence. done.
Qed.

Lemma lookup_moved (ths : list thread) tid th th' : ths !! tid = Some th -> <[tid := th']> ths !! tid = Some th'.
Proof. intros H. apply list_lookup_insert_eq. by apply lookup_lt_Some in H. Qed.

Lemma committed_step e s s' :
  inv s -> step e s = Some s' -> committed s' = updates (taking e s) (committed s).
Proof.
  intros Hinv Hs. destruct e as [tid c|tid ch].
  - cbn [step] in Hs. destruct (threads s !! tid) as [th|] eqn:Hth; [|done]. cbn [mbind option_bind] in Hs.
    destruct (t_code th) eqn:Hc; [|done]. destruct (may_call tid c); [|done]. simplify_eq.
    apply (committed_other s _ tid (mk_thread c (code_of c) new_frame)); try done.
    intros Ho. apply (inv_held s Hinv tid th sheath_mutex Hth) in Ho. by rewrite Hc in Ho.
  - apply step_run_cases in Hs as (c & i & r & l & Hth & Hs). cbn [taking]. rewrite Hth.
    pose proof (inv_code s Hinv _ _ Hth) as Hd. pose proof (inv_held s Hinv _ _ sheath_mutex Hth) as Hh.
    pose proof (inv_fits s Hinv _ _ Hth) as Hf. cbn [t_code t_call owner] in *.
    destruct (decide (owner_of_sheath s = Some tid)) as [Ho|Ho].
    + rewrite (committed_owned s tid _ Ho Hth). cbn [t_code]. pose proof (proj2 Hh Ho) as Hold.
      destruct Hs as [(m & -> & Hm & ->)|[(m & -> & ->)|(pre & l' & w & He & ->)]].
      * destruct m; [|cbn in Hm; congruence]. cbn [updates foldl].
        by rewrite (committed_owned _ tid (mk_thread c r l)); [|done|by apply (lookup_moved _ _ _ _ Hth)].
      * destruct m; [|by rewrite committed_free].
        by rewrite (committed_owned _ tid (mk_thread c r l)); [|done|by apply (lookup_moved _ _ _ _ Hth)].
      * rewrite (committed_owned _ tid (mk_thread c (pre ++ r) l')); [|done|by apply (lookup_moved _ _ _ _ Hth)].
        cbn [t_code set_mem mem]. rewrite (exec_section _ _ _ _ _ _ _ _ _ Hd Hold He). by destruct i.
    + assert (holding sheath_mutex (i :: r) = false) as Hnot by (apply not_true_is_false; by rewrite Hh).
      destruct Hs as [(m & -> & Hm & ->)|[(m & -> & ->)|(pre & l' & w & He & ->)]].
      * destruct m; [by eapply committed_other|]. cbn [updates foldl].
        rewrite (committed_owned _ tid (mk_thread c r l)); [|done|by apply (lookup_moved _ _ _ _ Hth)].
        rewrite committed_free by done. cbn [t_code]. by rewrite (section_update c).
      * destruct m; [by eapply committed_other|]. by cbn in Hnot.
      * rewrite (committed_other s _ tid (mk_thread c (pre ++ r) l')); [by destruct i|done..|].
        apply (exec_instr_handles _ _ _ _ _ _ _ He). destruct (is_write i) eqn:Hi; [|done].
        cbn [disciplined] in Hd. bool_simp. destruct i; try done; cbn [allowed holding] in *; bool_simp; congruence.
Qed.

Lemma committed_run es s s' : inv s -> run es s = Some s' -> committed s' = updates (taken es s) (committed s).
Proof.
  revert s. induction es as [|e es IH]; intros s Hi Hr; cbn [run taken] in *; [by simplify_eq|].
  destruct (step e s) as [s1|] eqn:Hs; [|done]. cbn [mbind option_bind] in Hr.
  rewrite (IH s1) by (done || by eapply inv_step). rewrite (committed_step e s s1) by done.
  unfold updates. by rewrite foldl_app.
Qed.

(** C6: the map changes at one moment for every reader.  In any run of the
    threads, while nobody has [sheath::mutex_] the map is what the updates
    whose turn it was made of it, each as a whole and in the order in which
    they took the mutex; and the value a [getSyncStats] comes to, however
    many of its turns others ran between, is the one of [Torrents] for the
    server state of the moment it is put together, whose map is that of the
    updates before. *)
Theorem locked_sections_atomic n w es s :
  run es (start n w) = Some s ->
  let m := updates (taken es (start n w)) (m_all_handles (mem_sheath w)) in
  (owner_of_sheath s = None -> handles s = m)
  /\ forall tid k ch s', next_instr s tid = Some (i_value k) -> step (ev_run tid ch) s = Some s' ->
     handles s = m
     /\ exists iter j th, iter ≡ₚ map_to_list m
        /\ getSyncStats k iter (mem_sheath (mem s)) = Some j
        /\ threads s' !! tid = Some th /\ l_value (t_frame th) = j.
Proof.
  intros Hr m. pose proof (inv_start n w) as Hi0. pose proof (inv_run _ _ _ Hi0 Hr) as Hinv.
  pose proof (committed_run _ _ _ Hi0 Hr) as Hc. rewrite (committed_free (start n w)) in Hc by done.
  change (handles (start n w)) with (m_all_handles (mem_sheath w)) in Hc. fold m in Hc.
  split; [intros Ho; by rewrite <- Hc, committed_free|].
  intros tid k ch s' Hn Hs. apply next_instr_code in Hn as (th & r & Hth & Hcode).
  pose proof (inv_code s Hinv _ _ Hth) as Hd. rewrite Hcode in Hd. cbn [disciplined allowed] in Hd. bool_simp.
  assert (owner_of_sheath s = Some tid) as Ho.
  { apply (inv_held s Hinv tid th sheath_mutex Hth). by rewrite Hcode. }
  assert (handles s = m) as Hm.
  { rewrite <- Hc, (committed_owned s tid th Ho Hth), Hcode.
    match goal with Hf : follows _ r = true |- _ => apply follows_value in Hf as [r' ->] end. done. }
  split; [done|].
  pose proof (inv_walk s Hinv _ _ Hth) as Hw. rewrite Hcode in Hw. cbn [walk_inv] in Hw.
  destruct Hw as (ps & Harr & Hps & Hnd & Hdom). rewrite app_nil_r in *.
  unfold step in Hs. rewrite Hth in Hs. cbn [mbind option_bind] in Hs. rewrite Hcode in Hs. cbn [exec_instr] in Hs.
  destruct (session_stats k (mem_sheath (mem s))) as [stats|] eqn:Hst; [|done].
  cbn [mbind option_bind app] in Hs. simplify_eq.
  exists ps, (sync_value stats (l_allstats (t_frame th))). eexists. split; [|split; [|split]].
  - rewrite <- Hm. apply NoDup_Permutation; [by apply NoDup_fmap_1 in Hnd|apply NoDup_map_to_list|].
    intros [h t]. rewrite elem_of_map_to_list. split; [intros Hin; by apply (Hps (h, t))|].
    intros Hlk. assert (h ∈ ps.*1) as Hin.
    { apply (elem_of_list_to_set (C := gset torrent_handle)). rewrite Hdom. apply elem_of_dom. eauto. }
    apply list_elem_of_fmap in Hin as ([h' t'] & Heq & Hin). cbn in Heq. subst h'.
    pose proof (Hps _ Hin) as Hp. cbn in Hp. by simplify_eq.
  - unfold getSyncStats. rewrite Hst. cbn [mbind option_bind]. by rewrite Harr.
  - cbn [set_mem set_thread threads]. by apply (lookup_moved _ _ _ _ Hth).
  - done.
Qed.

End atomic.

(** ** Examples *)

#[local] Existing Instance sha1_demo.
#[local] Existing Instance handles_demo.
#[local] Existing Instance lt_demo.
#[local] Existing Instance parsers_demo.
#[local] Existing Instance session_demo.
#[local] Existing Instance demo_metrics.
#[local] Existing Instance documented_eq.
#[local] Existing Instance text_demo.

Definition demo_value : json := default JNull (getSyncStats demo_clocks [] (mem_sheath demo_memory)).
Definition demo_call_ : call := set_all_call [demo_status 7 zero_hash].

Lemma calls_alone_witness :
  exists chs l, run (ev_call 0 demo_call_ :: (ev_run 0 <$> chs)) (start 3 demo_memory)
                = Some (mk_state (<[0 := mk_thread demo_call_ [] l]> (threads (start 3 demo_memory))) None None
                          (call_effect demo_call_ demo_value demo_memory))
    /\ True.
Proof.
  apply (calls_alone demo_call_ (start 3 demo_memory) 0 idle_thread demo_clocks [] demo_value); reflexivity || done.
Defined.

(** The map gets a torrent, and a connection has walked it. *)
Definition demo_walk : list event :=
  ev_call 0 demo_call_ :: replicate 3 (ev_run 0 once)
  ++ ev_call 2 (sync_stats_call demo_clocks) :: ev_run 2 once :: ev_run 2 (mk_choice [7] [] sent) :: replicate 2 (ev_run 2 once).

Lemma locked_sections_atomic_witness :
  let m := updates (taken demo_walk (start 3 demo_memory)) (m_all_handles (mem_sheath demo_memory)) in
  (owner_of_sheath (state_of demo_walk) = None -> m_all_handles (mem_sheath (mem (state_of demo_walk))) = m)
  /\ forall tid k ch s', next_instr (state_of demo_walk) tid = Some (i_value k) ->
     step (ev_run tid ch) (state_of demo_walk) = Some s' ->
     m_all_handles (mem_sheath (mem (state_of demo_walk))) = m
     /\ exists iter j th, iter ≡ₚ map_to_list m
        /\ getSyncStats k iter (mem_sheath (mem (state_of demo_walk))) = Some j
        /\ threads s' !! tid = Some th /\ l_value (t_frame th) = j.
Proof. apply (locked_sections_atomic 3 demo_memory demo_walk (state_of demo_walk)). reflexivity. Defined.

(** It is at the value, of a map with one torrent. *)
Example demo_walk_value :
  next_instr (state_of demo_walk) 2 = Some (i_value demo_clocks)
  /\ size (updates (taken demo_walk (start 3 demo_memory)) (m_all_handles (mem_sheath demo_memory))) = 1.
Proof. split; reflexivity. Qed.
