(* ===== verification/Calls.v ===== *)
(** * The calls of the threads end (src/sheath.cpp, src/handlers.cpp)

    A bound on the steps that the calls under way in [Locks] have left,
    whatever the threads interleave, and that one of them can always step:
    every call ends, unless the counters are read while they are being
    written. *)

From S2P Require Import Prelude CStd Json JsonPatch JsonDiff Fs Util SessionStats TorrentStatus Libtorrent.
From S2P Require Import Demo JsonText Sheath Torrents Sync Locks Atomic.

(** ** Sums over threads *)

Lemma sum_insert {A} (f : A -> nat) (l : list A) i x y :
  l !! i = Some x -> sum_list_with f (<[i := y]> l) + f x = sum_list_with f l + f y.
Proof.
  revert i. induction l as [|z l IH]; intros [|i] Hi; simplify_eq/=; [lia|].
  specialize (IH i Hi). lia.
Qed.

Lemma sum_le {A} (f g : A -> nat) (l : list A) :
  (forall x, f x <= g x) -> sum_list_with f l <= sum_list_with g l.
Proof. intros H. induction l as [|x l IH]; simpl; [done|]. specialize (H x). lia. Qed.

Section calls.
Context {sha : Sha1} {ltd : LtData} {hs : Handles} {ltp : LtParsers} {lts : Session} {mt : Metrics}.
Context {jeq : JsonEq} {text : JsonText}.

Notation handles s := (m_all_handles (mem_sheath (mem s))).

(** ** The bound *)

Definition is_put (i : instr) : nat := match i with i_put _ => 1 | _ => 0 end.
Definition is_insert (i : instr) : nat := match i with i_insert _ => 1 | _ => 0 end.
Definition puts (code : list instr) : nat := sum_list_with is_put code.
Definition inserts (code : list instr) : nat := sum_list_with is_insert code.

(** The steps of a code, where a walk of the map has [it] turns left, a
    broadcast [vws] sessions, and later ones at most [M] and [N]. *)
Fixpoint weight (M N it vws : nat) (code : list instr) : nat :=
  match code with
  | [] => 0
  | i_begin :: r => 1 + weight M N M vws r
  | i_entries :: r => 1 + it + weight M N 0 vws r
  | i_copy :: r => 1 + weight M N it N r
  | i_sends :: r => 1 + 5 * vws + weight M N it 0 r
  | i_test _ :: r => 3 + weight M N it vws r
  | i_fill _ :: r => 7 + M + weight M N it vws r
  | i_check _ :: r => 14 + M + 5 * N + weight M N it vws r
  | _ :: r => 1 + weight M N it vws r
  end.

(** The most entries the map, and the most sessions the set, can come to. *)
Definition most_handles (s : state) : nat :=
  size (handles s) + sum_list_with (fun th => puts (t_code th)) (threads s).
Definition most_sessions (s : state) : nat :=
  size (sessions_ (mem_caller (mem s))) + sum_list_with (fun th => inserts (t_code th)) (threads s).

Definition thread_weight (M N : nat) (th : thread) : nat :=
  weight M N (length (l_iter (t_frame th))) (length (l_vws (t_frame th))) (t_code th).

Definition calls_left (s : state) : nat :=
  sum_list_with (thread_weight (most_handles s) (most_sessions s)) (threads s).

Lemma weight_mono M N it vws M' N' it' vws' code :
  M <= M' -> N <= N' -> it <= it' -> vws <= vws' -> weight M N it vws code <= weight M' N' it' vws' code.
Proof.
  intros HM HN. revert it vws it' vws'. induction code as [|i r IH]; intros it vws it' vws' Hi Hv; [done|].
  destruct i; cbn [weight];
    match goal with |- context [weight M N ?a ?b r] => match goal with |- context [weight M' N' ?c ?d r] =>
      specialize (IH a b c d ltac:(lia) ltac:(lia)) end end; lia.
Qed.

Lemma exec_puts i r ch l w pre l' w' :
  exec_instr i ch l w = Some (pre, l', w') ->
  size (m_all_handles (mem_sheath w')) + puts (pre ++ r) <= size (m_all_handles (mem_sheath w)) + puts (i :: r).
Proof.
  intros He. unfold puts. rewrite sum_list_with_app. cbn [sum_list_with].
  destruct i; exec_instr_cases He; cbn [sum_list_with is_put]; try (simpl; lia).
  - unfold on_sheath, put_status. cbn [mem_sheath set_handles m_all_handles].
    rewrite map_size_insert. destruct (_ !! _); cbn; lia.
  - unfold on_sheath, remove_torrent_with_handle. cbn [mem_sheath set_handles m_all_handles].
    rewrite map_size_delete. destruct (_ !! _); cbn; lia.
Qed.

Lemma exec_inserts i r ch l w pre l' w' :
  exec_instr i ch l w = Some (pre, l', w') ->
  size (sessions_ (mem_caller w')) + inserts (pre ++ r) <= size (sessions_ (mem_caller w)) + inserts (i :: r).
Proof.
  intros He. unfold inserts. rewrite sum_list_with_app. cbn [sum_list_with].
  destruct i; exec_instr_cases He; cbn [sum_list_with is_insert]; try (simpl; lia).
  - unfold on_caller, bump, with_sessions. cbn [mem_caller sessions_].
    pose proof (size_union_alt ({[id]} : gset nat) (sessions_ (mem_caller w))) as Hs.
    rewrite size_singleton in Hs.
    assert (size (sessions_ (mem_caller w) ∖ {[id]}) <= size (sessions_ (mem_caller w))) by (apply subseteq_size; set_solver).
    simpl. lia.
  - unfold on_caller, leave. cbn [mem_caller sessions_].
    assert (size (sessions_ (mem_caller w) ∖ {[id]}) <= size (sessions_ (mem_caller w))) by (apply subseteq_size; set_solver).
    simpl. lia.
Qed.

(** Every instruction takes at least one from the weight of its thread. *)
Lemma exec_weight i r ch l w pre l' w' M N :
  size (m_all_handles (mem_sheath w)) <= M -> size (sessions_ (mem_caller w)) <= N ->
  exec_instr i ch l w = Some (pre, l', w') ->
  weight M N (length (l_iter l')) (length (l_vws l')) (pre ++ r)
  < weight M N (length (l_iter l)) (length (l_vws l)) (i :: r).
Proof.
  intros HM HN He.
  assert (forall it vws it' vws', it <= it' -> vws <= vws' -> weight M N it vws r <= weight M N it' vws' r) as Hmono
    by (intros; by apply weight_mono).
  pose proof (Hmono 0 (length (l_vws l)) (length (l_iter l)) (length (l_vws l)) ltac:(lia) ltac:(lia)) as Hm1.
  pose proof (Hmono 0 0 (length (l_iter l)) (length (l_vws l)) ltac:(lia) ltac:(lia)) as Hm2.
  destruct i; exec_instr_cases He; cbn [app getSyncStats_code round_code broadcast_code leave_code weight
    set_iter set_value set_vws set_text l_iter l_vws length]; try lia.
  - bool_simp. assert (length (ch_handles ch) <= M).
    { match goal with H : NoDup _ /\ _ |- _ => destruct H as [Hnd Hdom] end.
      rewrite <- (size_list_to_set (C := gset torrent_handle)), Hdom, size_dom by done. done. }
    specialize (Hmono (length (ch_handles ch)) (length (l_vws l)) M (length (l_vws l))). lia.
  - rewrite Heql0. cbn [length]. lia.
  - bool_simp. assert (length (ch_sessions ch) <= N).
    { match goal with H : NoDup _ /\ _ |- _ => destruct H as [Hnd Hset] end.
      rewrite <- (size_list_to_set (C := gset nat)), Hset by done. done. }
    specialize (Hmono (length (l_iter l)) (length (ch_sessions ch)) (length (l_iter l)) N). lia.
  - rewrite Heql0. cbn [length]. lia.
Qed.

(** ** Every step takes from it *)

Definition is_run (e : event) : bool := match e with ev_run _ _ => true | ev_call _ _ => false end.

Lemma calls_left_moved s s' tid th th' :
  threads s !! tid = Some th -> threads s' = <[tid := th']> (threads s) ->
  most_handles s' <= most_handles s -> most_sessions s' <= most_sessions s ->
  thread_weight (most_handles s) (most_sessions s) th' < thread_weight (most_handles s) (most_sessions s) th ->
  calls_left s' < calls_left s.
Proof.
  intros Hth Hths HM HN Hw. unfold calls_left. rewrite Hths.
  pose proof (sum_insert (thread_weight (most_handles s) (most_sessions s)) _ _ _ th' Hth) as Hs.
  pose proof (sum_le (thread_weight (most_handles s') (most_sessions s'))
                (thread_weight (most_handles s) (most_sessions s)) (<[tid := th']> (threads s))) as Hle.
  assert (forall x, thread_weight (most_handles s') (most_sessions s') x
                    <= thread_weight (most_handles s) (most_sessions s) x) as Hx
    by (intros x; by apply weight_mono).
  specialize (Hle Hx). lia.
Qed.

Lemma step_left e s s' : is_run e = true -> step e s = Some s' -> calls_left s' < calls_left s.
Proof.
  intros He Hs. destruct e as [|tid ch]; [done|]. apply step_run_cases in Hs as (c & i & r & l & Hth & Hs).
  set (th := mk_thread c (i :: r) l) in *.
  assert (forall f (x : thread), sum_list_with f (<[tid := x]> (threads s)) + f th = sum_list_with f (threads s) + f x)
    as Hsum by (intros; by apply sum_insert).
  assert (size (handles s) <= most_handles s /\ size (sessions_ (mem_caller (mem s))) <= most_sessions s)
    as [Hh Hn] by (unfold most_handles, most_sessions; lia).
  destruct Hs as [(m & -> & _ & ->)|[(m & -> & ->)|(pre & l' & w & He' & ->)]].
  - apply (calls_left_moved s _ tid th (mk_thread c r l) Hth); [by rewrite threads_set_owner| | |cbn; lia];
      unfold most_handles, most_sessions; rewrite mem_set_owner, threads_set_owner;
      cbn [set_thread threads mem]; rewrite <- Nat.add_le_mono_l.
    + pose proof (Hsum (fun th => puts (t_code th)) (mk_thread c r l)) as H. cbn in H. lia.
    + pose proof (Hsum (fun th => inserts (t_code th)) (mk_thread c r l)) as H. cbn in H. lia.
  - apply (calls_left_moved s _ tid th (mk_thread c r l) Hth); [by rewrite threads_set_owner| | |cbn; lia];
      unfold most_handles, most_sessions; rewrite mem_set_owner, threads_set_owner;
      cbn [set_thread threads mem]; rewrite <- Nat.add_le_mono_l.
    + pose proof (Hsum (fun th => puts (t_code th)) (mk_thread c r l)) as H. cbn in H. lia.
    + pose proof (Hsum (fun th => inserts (t_code th)) (mk_thread c r l)) as H. cbn in H. lia.
  - apply (calls_left_moved s _ tid th (mk_thread c (pre ++ r) l') Hth); [done| | |].
    + pose proof (Hsum (fun th => puts (t_code th)) (mk_thread c (pre ++ r) l')) as H.
      pose proof (exec_puts i r ch l (mem s) pre l' w He') as Hp. cbn [t_code th] in H.
      unfold most_handles. cbn [set_mem set_thread threads mem]. lia.
    + pose proof (Hsum (fun th => inserts (t_code th)) (mk_thread c (pre ++ r) l')) as H.
      pose proof (exec_inserts i r ch l (mem s) pre l' w He') as Hp. cbn [t_code th] in H.
      unfold most_sessions. cbn [set_mem set_thread threads mem]. lia.
    + unfold thread_weight. cbn [t_code t_frame th]. by eapply exec_weight.
Qed.

Lemma run_left es s s' : forallb is_run es = true -> run es s = Some s' -> length es + calls_left s' <= calls_left s.
Proof.
  revert s. induction es as [|e es IH]; intros s Hes Hr; cbn [run forallb length] in *; [simplify_eq; lia|].
  bool_simp. destruct (step e s) as [s1|] eqn:Hs; [|done].
  pose proof (step_left e s s1 ltac:(done) Hs). specialize (IH s1 ltac:(done) Hr). lia.
Qed.

(** ** A step that can be taken *)

(** The counters are read in a state in which the rates have no value. *)
Definition bad_read (s : state) (tid : nat) : Prop :=
  exists k, (next_instr s tid = Some (i_value k) \/ next_instr s tid = Some (i_stats k))
            /\ session_stats k (mem_sheath (mem s)) = None.

Lemma exec_possible i r l w :
  walk_inv (m_all_handles (mem_sheath w)) (i :: r) l -> (forall m, i <> i_lock m /\ i <> i_unlock m) ->
  (exists ch x, exec_instr i ch l w = Some x)
  \/ exists k, (i = i_value k \/ i = i_stats k) /\ session_stats k (mem_sheath w) = None.
Proof.
  intros Hw Hl.
  set (ch := mk_choice (elements (dom (m_all_handles (mem_sheath w)))) (elements (sessions_ (mem_caller w))) sent).
  destruct i; try (left; exists ch; by eexists); try (by destruct (Hl m)).
  - left; exists ch. cbn [exec_instr ch ch_handles]. rewrite bool_decide_eq_true_2; [by eexists|].
    split; [apply NoDup_elements|apply list_to_set_elements_L].
  - left; exists ch. cbn [exec_instr walk_inv] in *. destruct (l_iter l) as [|h it]; [by eexists|].
    destruct Hw as (ps & _ & _ & _ & Hdom).
    assert (h ∈ dom (m_all_handles (mem_sheath w))) as [t Ht]%elem_of_dom
      by (rewrite <- Hdom, list_to_set_app_L; set_solver).
    rewrite Ht. by eexists.
  - destruct (session_stats k (mem_sheath w)) eqn:Hs; [left; exists ch|right; eauto].
    cbn [exec_instr]. rewrite Hs. by eexists.
  - destruct (session_stats k (mem_sheath w)) eqn:Hs; [left; exists ch|right; eauto].
    cbn [exec_instr]. unfold sheath_getSessionStats. rewrite Hs. by eexists.
  - left; exists ch. cbn [exec_instr ch ch_sessions]. rewrite bool_decide_eq_true_2; [by eexists|].
    split; [apply NoDup_elements|apply list_to_set_elements_L].
  - left; exists ch. cbn [exec_instr ch ch_delivery]. destruct (l_vws l); by eexists.
Qed.

Lemma step_exec tid ch s c i r l :
  threads s !! tid = Some (mk_thread c (i :: r) l) -> (forall m, i <> i_lock m /\ i <> i_unlock m) ->
  step (ev_run tid ch) s
  = ('(pre, l', w) ← exec_instr i ch l (mem s); Some (set_mem w (set_thread tid (mk_thread c (pre ++ r) l') s))).
Proof.
  intros Hth Hno. unfold step. rewrite Hth. cbn [mbind option_bind t_code t_call t_frame].
  destruct i; try done; by destruct (Hno m).
Qed.

Lemma step_possible s tid :
  inv s -> busy s tid -> ~ waits s tid ->
  (exists ch s', step (ev_run tid ch) s = Some s') \/ bad_read s tid.
Proof.
  intros Hinv [i Hi] Hnw. pose proof (next_instr_code _ _ _ Hi) as ([c code l] & r & Hth & Hcode). cbn in Hcode. subst code.
  pose proof (inv_walk s Hinv _ _ Hth) as Hw. cbn [t_code t_frame] in Hw.
  assert ((exists m, i = i_lock m) \/ (exists m, i = i_unlock m) \/ forall m, i <> i_lock m /\ i <> i_unlock m)
    as [[m ->]|[[m ->]|Hno]] by (destruct i; eauto; by right; right).
  - left. exists any_choice. unfold step. rewrite Hth. cbn [mbind option_bind t_code].
    destruct (owner m s) eqn:Ho; [|by eexists]. destruct Hnw. exists m. by rewrite Ho.
  - left. exists any_choice. unfold step. rewrite Hth. by eexists.
  - destruct (exec_possible i r l (mem s) Hw Hno) as [(ch & [[pre l'] w'] & He)|(k & Hk & Hs)].
    + left. exists ch. rewrite (step_exec _ _ _ _ _ _ _ Hth Hno), He. by eexists.
    + right. exists k. rewrite Hi. split; [|done]. destruct Hk as [-> | ->]; auto.
Qed.

(** C8: every call of the threads ends: from a state that can be reached the
    threads have at most [calls_left] steps to take until they make other
    calls, and as long as one of them is in a call one of them can take a
    step, unless the next is a reading of the counters in a state in which
    the rates have no value. *)
Theorem calls_end n w s :
  reachable n w s ->
  (forall es s', forallb is_run es = true -> run es s = Some s' -> length es <= calls_left s)
  /\ forall tid, busy s tid ->
     (exists tid' ch s', step (ev_run tid' ch) s = Some s') \/ exists tid', bad_read s tid'.
Proof.
  intros Hre. split; [intros es s' Hes Hr; pose proof (run_left es s s' Hes Hr); lia|].
  intros tid Hb. destruct (never_stuck_thread n w s tid Hre Hb) as (tid' & Hb' & Hnw).
  destruct (step_possible s tid') as [(ch & s' & Hs)|Hbad]; [by eapply reachable_inv|done..|left|right]; eauto.
Qed.

End calls.

(** ** Examples *)

#[local] Existing Instance sha1_demo.
#[local] Existing Instance handles_demo.
#[local] Existing Instance lt_demo.
#[local] Existing Instance parsers_demo.
#[local] Existing Instance session_demo.
#[local] Existing Instance demo_metrics.
#[local] Existing Instance documented_eq.
#[local] Existing Instance text_demo.

Lemma calls_end_witness :
  (forall es s', forallb is_run es = true -> run es (state_of demo_walk) = Some s' ->
                 length es <= calls_left (state_of demo_walk))
  /\ forall tid, busy (state_of demo_walk) tid ->
     (exists tid' ch s', step (ev_run tid' ch) (state_of demo_walk) = Some s')
     \/ exists tid', bad_read (state_of demo_walk) tid'.
Proof. apply (calls_end 3 demo_memory (state_of demo_walk)). by exists demo_walk. Defined.
