(* ===== verification/Races.v ===== *)
(** * The races, and what one of them does (include/session_values.hpp)

    Each race that [races_known] leaves open is reached by some run.  The one
    for the counters has a consequence that can be said without the memory
    model: between two lines of [updateCounters] the two timestamps are one,
    and a thread that computes the rates then divides by zero. *)

From S2P Require Import Prelude CStd Json JsonPatch JsonDiff Fs Util SessionStats TorrentStatus Libtorrent.
From S2P Require Import Demo JsonText Sheath Torrents Sync Locks Atomic.

(** ** No time between the two sets *)

Lemma float_div_zero z : float_trunc (float_div (float_of z) (float_of 0)) = None.
Proof.
  unfold float_div. change (float_of 0) with (S754_zero false). destruct (float_of z); reflexivity.
Qed.

Section torn.
Context {sha : Sha1} {ltd : LtData} {hs : Handles} {ltp : LtParsers} {lts : Session} {mt : Metrics}.
Context {jeq : JsonEq} {text : JsonText}.

Lemma rate_no_time v idx : m_timestamp0 v = m_timestamp1 v -> rate v idx = None.
Proof.
  intros Ht. unfold rate. rewrite Ht, Z.sub_diag.
  destruct (at_idx (m_cnt0 v) idx) as [c0|]; [|done]. destruct (at_idx (m_cnt1 v) idx) as [c1|]; [|done].
  cbn [mbind option_bind].
  change (float_div (float_of (uwrap 64 0)) (float_of 1000000)) with (float_of 0).
  unfold int_of_float. by rewrite float_div_zero.
Qed.

(** Both sets are large enough for the two tests of [getSessionStats]. *)
Definition full_sets (v : sessionValues) : Prop :=
  size_lt (length (m_cnt0 v)) (m_queued_tracker_announces indices) = false
  /\ size_lt (length (m_cnt1 v)) (m_send_data_idx indices) = false.

Lemma stats_no_time k s :
  full_sets (svs s) -> m_timestamp0 (svs s) = m_timestamp1 (svs s) -> session_stats k s = None.
Proof.
  intros [H0 H1] Ht. unfold session_stats, getSessionStats. rewrite H0, H1. cbn [negb].
  rewrite (rate_no_time _ (m_recv_idx indices) Ht). cbn [mbind option_bind].
  by repeat (next_read; [|done]).
Qed.

(** Other threads do not write the counters. *)
Lemma svs_step e s s' :
  inv s -> step e s = Some s' -> match e with ev_call _ _ => True | ev_run tid _ => tid <> session_tid end ->
  svs (mem_sheath (mem s')) = svs (mem_sheath (mem s)).
Proof.
  intros Hinv Hs He. destruct e as [tid c|tid ch].
  - cbn [step] in Hs. destruct (threads s !! tid); [|done]. cbn [mbind option_bind] in Hs. by repeat case_match; simplify_eq.
  - apply step_run_cases in Hs as (c & i & r & l & Hth & [(m & -> & _ & ->)|[(m & -> & ->)|(pre & l' & w & Hx & ->)]]);
      [by rewrite mem_set_owner..|].
    apply (exec_writes i ch l (mem s) (pre, l', w) svs_ Hx). intros Hw.
    pose proof (inv_code s Hinv _ _ Hth) as Hd. cbn [t_code] in Hd. apply He.
    apply (guarded tid i r svs_ Hd); [apply elem_of_app; by left|done].
Qed.

Definition of_others (e : event) : Prop :=
  match e with ev_call _ _ => True | ev_run tid _ => tid <> session_tid end.

Lemma svs_run es s s' :
  inv s -> run es s = Some s' -> Forall of_others es -> svs (mem_sheath (mem s')) = svs (mem_sheath (mem s)).
Proof.
  intros Hinv Hr Hes. revert s Hinv Hr. induction Hes as [|e es He _ IH]; intros s Hinv Hr; cbn [run] in Hr; [by simplify_eq|].
  destruct (step e s) as [s1|] eqn:Hs; [|done]. rewrite (IH s1) by (done || by eapply inv_step).
  by apply (svs_step e s s1).
Qed.

(** C36: the counters can be read in the middle of their update.  Once the
    thread of the session has set the older timestamp to the newer one, and
    until it goes on, no other thread that asks for the stats, for a request
    or for a snapshot, gets an answer: it divides by a time of zero and
    converts the result to [int], which is undefined. *)
Theorem half_update_undefined n w s ch s1 es s2 tid k ch' :
  reachable n w s -> next_instr s session_tid = Some i_older -> step (ev_run session_tid ch) s = Some s1 ->
  full_sets (svs (mem_sheath (mem s1))) ->
  run es s1 = Some s2 -> Forall of_others es ->
  next_instr s2 tid = Some (i_value k) \/ next_instr s2 tid = Some (i_stats k) ->
  step (ev_run tid ch') s2 = None.
Proof.
  intros Hinv%reachable_inv Hn Hs Hf Hr Hes Hnext.
  pose proof (inv_step _ _ _ Hinv Hs) as Hinv1. pose proof (svs_run _ _ _ Hinv1 Hr Hes) as Hv.
  assert (m_timestamp0 (svs (mem_sheath (mem s1))) = m_timestamp1 (svs (mem_sheath (mem s1)))) as Ht.
  { apply next_instr_code in Hn as ([c code l] & r & Hth & Hc). cbn in Hc. subst code.
    unfold step in Hs. rewrite Hth in Hs. cbn in Hs. by simplify_eq. }
  assert (session_stats k (mem_sheath (mem s2)) = None) as Hnone by (apply stats_no_time; by rewrite Hv).
  destruct Hnext as [Hx|Hx]; apply next_instr_code in Hx as ([c code l] & r & Hth & Hc); cbn in Hc; subst code;
    unfold step; rewrite Hth; cbn [mbind option_bind t_code exec_instr]; unfold sheath_getSessionStats;
    by rewrite Hnone.
Qed.

End torn.

(** ** Examples *)

#[local] Existing Instance sha1_demo.
#[local] Existing Instance handles_demo.
#[local] Existing Instance lt_demo.
#[local] Existing Instance parsers_demo.
#[local] Existing Instance session_demo.
#[local] Existing Instance demo_metrics.
#[local] Existing Instance documented_eq.
#[local] Existing Instance text_demo.

Lemma half_update_undefined_witness :
  step (ev_run 2 once) (state_of (demo_update ++ [ev_run 0 once; ev_call 2 (session_stats_call demo_clocks)])) = None.
Proof.
  apply (half_update_undefined 3 demo_memory (state_of demo_update) once (state_of (demo_update ++ [ev_run 0 once]))
           [ev_call 2 (session_stats_call demo_clocks)] _ 2 demo_clocks once).
  - exists demo_update. reflexivity.
  - reflexivity.
  - reflexivity.
  - split; reflexivity.
  - reflexivity.
  - by repeat constructor.
  - right. reflexivity.
Defined.

Definition answered (es : list event) : bool :=
  match step (ev_run 2 once) (state_of (es ++ [ev_call 2 (session_stats_call demo_clocks)])) with
  | Some _ => true | None => false
  end.

(** Before and after the whole update the same request has its answer. *)
Example whole_update_defined :
  (answered [], answered (demo_update ++ replicate 3 (ev_run 0 once))) = (true, true).
Proof. vm_compute. reflexivity. Qed.

(** A session joins and is about to look whether there is a snapshot, while
    the round has its own and is about to store it. *)
Definition race_curr : list event :=
  [ev_call 1 (round_call demo_clocks)] ++ replicate 7 (ev_run 1 once)
  ++ [ev_call 2 (join_call 5 "q" demo_clocks); ev_run 2 once; ev_run 2 once].

(** A session joins while the round looks whether there is any. *)
Definition race_sessions : list event :=
  [ev_call 1 (round_call demo_clocks); ev_call 2 (join_call 5 "q" demo_clocks); ev_run 2 once].

(** The three races are there: the stats of a request against the update
    of the counters, a session joining against the round that stores its
    snapshot, and a session joining against the test of the set. *)
Theorem races_reached :
  reachable 3 demo_memory (state_of race_svs) /\ racing (state_of race_svs) 0 2 svs_
  /\ reachable 3 demo_memory (state_of race_curr) /\ racing (state_of race_curr) 1 2 the_curr_stats
  /\ reachable 3 demo_memory (state_of race_sessions) /\ racing (state_of race_sessions) 2 1 the_sessions.
Proof.
  split; [by exists race_svs|]. split; [split; [done|]; do 2 eexists; repeat split; [reflexivity..| |]; cbn; set_solver|].
  split; [by exists race_curr|]. split; [split; [done|]; do 2 eexists; repeat split; [reflexivity..| |]; cbn; set_solver|].
  split; [by exists race_sessions|]. split; [done|]; do 2 eexists; repeat split; [reflexivity..| |]; cbn; set_solver.
Qed.
