(* ===== verification/Delivery.v ===== *)
(** * From the server state to the sockets (src/handlers.cpp, src/http_websocket.cpp)

    The steps of [Rounds] with real sessions: what the channel sends to a
    session is posted to its strand and goes through its queue ([WebSocket]),
    and a session lives as long as a handler that owns it is pending.  The
    system is proved to refine the channel of [Rounds], whose outboxes are
    what the sessions were given; so what is proved there holds of what comes
    out of the sockets. *)

From S2P Require Import Prelude CStd Json JsonPatch JsonDiff Fs Util HttpUtil SessionStats TorrentStatus Libtorrent.
From S2P Require Import Demo JsonText Sync WebSocket Rounds.

(** ** State *)

(** A session and the handlers besides those of its queue that own it: the
    handshake up to the end of [on_accept], and the pending read.  That of a
    pending [async_close] is left out: a session may end here before it. *)
Record conn := mk_conn { ws : websocket_session; opening : bool; reading : bool }.

Definition owned (k : conn) : bool :=
  opening k || reading k || negb (bool_decide (posted (ws k) = [])) || negb (bool_decide (written (ws k) = [])).

Definition on_ws (f : websocket_session -> websocket_session) (k : conn) : conn :=
  mk_conn (f (ws k)) (opening k) (reading k).

(** [texts] are the broadcasts of [on_read] that are under way: the text and
    the sessions of the copied list that are left. *)
Record system := mk_system {
  chan_ : chan;
  conns : gmap nat conn;
  texts : list (string * list nat);
}.

Definition new_system : system := mk_system new_chan ∅ [].

Section delivery.
Context {jeq : JsonEq} {text : JsonText}.

(** ** Steps *)

Inductive sys_event :=
  | sys_accept (id : nat) (target : string)      (* an upgrade request: [run] *)
  | sys_handshake_failed (id : nat)              (* [on_accept] with an error *)
  | sys_join_insert (id : nat) (rnd : Z)         (* [on_accept], in three steps *)
  | sys_join_read (snap : json)
  | sys_join_send
  | sys_check | sys_bump | sys_fetch (snap : json) | sys_build | sys_copy (order : list nat)
  | sys_send | sys_keep
  | sys_read (id : nat) (ec : errc) (data : string) (order : list nat)
  | sys_text (i : nat)                           (* the next send of a broadcast *)
  | sys_strand (id : nat)                        (* a posted [on_send] *)
  | sys_write (id : nat) (ec : errc)             (* a write completes *)
  | sys_expire (id : nat)
  | sys_leave (id : nat)
  | sys_close_ws.                                (* [closeWS] *)

(** A step of the channel, the sessions left alone. *)
Definition lift (e : event) (s : system) : option system :=
  c ← chan_exec e (chan_ s); Some (mk_system c (conns s) (texts s)).

Definition set_conns (m : gmap nat conn) (s : system) : system := mk_system (chan_ s) m (texts s).

(** [sp->send(ss)]. *)
Definition give (m : string) (id : nat) (s : system) : system :=
  set_conns (alter (on_ws (WebSocket.send m)) id (conns s)) s.

Definition lift_give (e : event) (m : string) (id : nat) (s : system) : option system := give m id <$> lift e s.

(** [closeWS] needs every session of the set: [close] takes a strong pointer
    to itself, which throws in one whose destructor waits for the mutex. *)
Definition sys_exec (e : sys_event) (s : system) : option system :=
  match e with
  | sys_accept id target =>
      w ← WebSocket.run target new_ws;
      s' ← lift (ev_connect id) s;
      Some (set_conns (<[id := mk_conn w true false]> (conns s')) s')
  | sys_handshake_failed id =>
      k ← conns s !! id;
      if opening k && negb (holds (mutex (chan_ s)) id)
      then Some (set_conns (<[id := mk_conn (ws k) false (reading k)]> (conns s)) s) else None
  | sys_join_insert id rnd =>
      k ← conns s !! id;
      if opening k then lift (ev_join_insert id (qid_ (ws k)) rnd) s else None
  | sys_join_read snap => lift (ev_join_read snap) s
  | sys_join_send =>
      match mutex (chan_ s) with
      | has_body id qid body =>
          s' ← lift_give ev_join_send (serialize (join_msg (sync_ver (caller (chan_ s))) qid body)) id s;
          k ← conns s' !! id;
          Some (set_conns (<[id := mk_conn (ws k) false true]> (conns s')) s')
      | _ => None
      end
  | sys_check => lift ev_check s
  | sys_bump => lift ev_bump s
  | sys_fetch snap => lift (ev_fetch snap) s
  | sys_build => lift ev_build s
  | sys_copy order => lift (ev_copy order) s
  | sys_send =>
      match loop (chan_ s) with
      | sending m (id :: _) =>
          if bool_decide (id ∈ alive (chan_ s)) then lift_give ev_send m id s else lift ev_send s
      | _ => None
      end
  | sys_keep => lift ev_keep s
  | sys_read id ec data order =>
      k ← conns s !! id;
      if negb (reading k) then None
      else
        let '(effects, w) := WebSocket.on_read ec data (ws k) in
        match effects with
        | broadcasted m :: _ =>
            if is_unlocked (mutex (chan_ s))
               && bool_decide (NoDup order /\ list_to_set order = sessions_ (caller (chan_ s)))
            then Some (mk_system (chan_ s) (<[id := mk_conn w (opening k) true]> (conns s))
                         (texts s ++ [(m, order)]))
            else None
        | _ => Some (set_conns (<[id := mk_conn w (opening k) false]> (conns s)) s)
        end
  | sys_text i =>
      match texts s !! i with
      | Some (m, id :: todo) =>
          let s' := mk_system (chan_ s) (conns s) (<[i := (m, todo)]> (texts s)) in
          if bool_decide (id ∈ alive (chan_ s)) then lift_give (ev_text m id) m id s' else Some s'
      | _ => None
      end
  | sys_strand id =>
      k ← conns s !! id;
      match posted (ws k) with
      | m :: rest => Some (set_conns (<[id := on_ws (run_posted m rest) k]> (conns s)) s)
      | [] => None
      end
  | sys_write id ec =>
      k ← conns s !! id;
      match written (ws k) with
      | m :: rest => Some (set_conns (<[id := on_ws (complete ec m rest) k]> (conns s)) s)
      | [] => None
      end
  | sys_expire id =>
      k ← conns s !! id;
      if owned k then None else lift (ev_expire id) s
  | sys_leave id => lift (ev_leave id) s
  | sys_close_ws =>
      if is_unlocked (mutex (chan_ s)) && bool_decide (sessions_ (caller (chan_ s)) ⊆ alive (chan_ s))
      then Some (set_conns (map_imap (fun id k =>
                   Some (if bool_decide (id ∈ sessions_ (caller (chan_ s))) then on_ws close k else k)) (conns s)) s)
      else None
  end.

Fixpoint sys_run (es : list sys_event) (s : system) : option system :=
  match es with
  | [] => Some s
  | e :: es' => s' ← sys_exec e s; sys_run es' s'
  end.

Lemma sys_run_app es1 es2 s : sys_run (es1 ++ es2) s = (s1 ← sys_run es1 s; sys_run es2 s1).
Proof. revert s. induction es1 as [|e es1 IH]; intros s; [done|]. simpl. by destruct (sys_exec e s); simpl. Qed.

(** ** The channel it refines *)

(** The steps of [Rounds] a step stands for. *)
Definition abs (e : sys_event) (s : system) : list event :=
  match e with
  | sys_accept id _ => [ev_connect id]
  | sys_join_insert id rnd =>
      match conns s !! id with Some k => [ev_join_insert id (qid_ (ws k)) rnd] | None => [] end
  | sys_join_read snap => [ev_join_read snap]
  | sys_join_send => [ev_join_send]
  | sys_check => [ev_check]
  | sys_bump => [ev_bump]
  | sys_fetch snap => [ev_fetch snap]
  | sys_build => [ev_build]
  | sys_copy order => [ev_copy order]
  | sys_send => [ev_send]
  | sys_keep => [ev_keep]
  | sys_text i =>
      match texts s !! i with
      | Some (m, id :: _) => if bool_decide (id ∈ alive (chan_ s)) then [ev_text m id] else []
      | _ => []
      end
  | sys_expire id => [ev_expire id]
  | sys_leave id => [ev_leave id]
  | sys_handshake_failed _ | sys_read _ _ _ _ | sys_strand _ | sys_write _ _ | sys_close_ws => []
  end.

Fixpoint abs_run (es : list sys_event) (s : system) : list event :=
  match es with
  | [] => []
  | e :: es' => abs e s ++ match sys_exec e s with Some s' => abs_run es' s' | None => [] end
  end.

(** What a step does, by the kinds of steps. *)
Definition quiet (e : event) : bool :=
  match e with
  | ev_connect _ | ev_join_send | ev_send | ev_text _ _ | ev_expire _ | ev_join_insert _ _ _ => false
  | _ => true
  end.

(** A step that is no failed write. *)
Definition no_failure (e : sys_event) : Prop :=
  match e with sys_write _ ec => ec = ec_ok | _ => True end.

(** One session's own step; [held] by the mutex, [nf] when no write fails. *)
Inductive own_step (held : bool) (nf : Prop) : conn -> conn -> Prop :=
  | own_failed w r : held = false -> own_step held nf (mk_conn w true r) (mk_conn w false r)
  | own_read ec data w o e w' r :
      WebSocket.on_read ec data w = (e, w') -> own_step held nf (mk_conn w o true) (mk_conn w' o r)
  | own_strand w o r m rest :
      posted w = m :: rest -> own_step held nf (mk_conn w o r) (mk_conn (run_posted m rest w) o r)
  | own_write ec w o r m rest :
      (nf -> ec = ec_ok) -> written w = m :: rest -> own_step held nf (mk_conn w o r) (mk_conn (complete ec m rest w) o r).

(** The text a step takes from a socket. *)
Definition incoming (e : sys_event) : option string :=
  match e with sys_read _ _ data _ => Some data | _ => None end.

Inductive view (e : sys_event) (s : system) : list event -> system -> Prop :=
  | view_quiet x c :
      quiet x = true -> chan_exec x (chan_ s) = Some c -> view e s [x] (mk_system c (conns s) (texts s))
  | view_accept id target w c :
      WebSocket.run target new_ws = Some w -> chan_exec (ev_connect id) (chan_ s) = Some c ->
      view e s [ev_connect id] (mk_system c (<[id := mk_conn w true false]> (conns s)) (texts s))
  | view_join_insert id rnd k c :
      conns s !! id = Some k -> opening k = true ->
      chan_exec (ev_join_insert id (qid_ (ws k)) rnd) (chan_ s) = Some c ->
      view e s [ev_join_insert id (qid_ (ws k)) rnd] (mk_system c (conns s) (texts s))
  | view_join_send id qid body k c :
      let m := serialize (join_msg (sync_ver (caller (chan_ s))) qid body) in
      mutex (chan_ s) = has_body id qid body -> conns s !! id = Some k ->
      chan_exec ev_join_send (chan_ s) = Some c ->
      view e s [ev_join_send] (mk_system c (<[id := mk_conn (WebSocket.send m (ws k)) false true]> (conns s)) (texts s))
  | view_send m id todo c :
      loop (chan_ s) = sending m (id :: todo) -> chan_exec ev_send (chan_ s) = Some c ->
      view e s [ev_send]
        (mk_system c (if bool_decide (id ∈ alive (chan_ s)) then alter (on_ws (WebSocket.send m)) id (conns s) else conns s)
           (texts s))
  | view_text i m id todo c :
      texts s !! i = Some (m, id :: todo) -> id ∈ alive (chan_ s) -> chan_exec (ev_text m id) (chan_ s) = Some c ->
      view e s [ev_text m id]
        (mk_system c (alter (on_ws (WebSocket.send m)) id (conns s)) (<[i := (m, todo)]> (texts s)))
  | view_text_skip i m id todo :
      texts s !! i = Some (m, id :: todo) -> view e s [] (mk_system (chan_ s) (conns s) (<[i := (m, todo)]> (texts s)))
  | view_expire id k c :
      conns s !! id = Some k -> owned k = false -> chan_exec (ev_expire id) (chan_ s) = Some c ->
      view e s [ev_expire id] (mk_system c (conns s) (texts s))
  | view_own id k k' :
      conns s !! id = Some k -> own_step (holds (mutex (chan_ s)) id) (no_failure e) k k' ->
      view e s [] (set_conns (<[id := k']> (conns s)) s)
  | view_read_text id data w o w' order :
      incoming e = Some data -> conns s !! id = Some (mk_conn w o true) -> WebSocket.on_read ec_ok data w = ([broadcasted data; read_more], w') ->
      view e s [] (mk_system (chan_ s) (<[id := mk_conn w' o true]> (conns s)) (texts s ++ [(data, order)]))
  | view_close :
      view e s [] (set_conns (map_imap (fun id k =>
                   Some (if bool_decide (id ∈ sessions_ (caller (chan_ s))) then on_ws close k else k)) (conns s)) s).

#[local] Arguments chan_exec : simpl never.

Lemma lift_Some e s s' : lift e s = Some s' -> exists c, chan_exec e (chan_ s) = Some c /\ s' = mk_system c (conns s) (texts s).
Proof. unfold lift. destruct (chan_exec e (chan_ s)) as [c|]; [|done]. simpl. intros [= <-]. eauto. Qed.

Lemma on_read_cases ec data w :
  (exists w', WebSocket.on_read ec data w = ([], w'))
  \/ ec = ec_ok /\ exists w', WebSocket.on_read ec data w = ([broadcasted data; read_more], w').
Proof. unfold on_read. destruct ec; eauto. destruct (closed w); eauto. Qed.

Lemma sys_exec_view e s s' : sys_exec e s = Some s' -> view e s (abs e s) s'.
Proof.
  destruct e as [id target|id|id rnd|snap| | | |snap| |order| | |id ec data order|i|id|id ec|id|id|]; cbn [sys_exec abs].
  4, 6, 7, 8, 9, 10, 12, 18: (intros (c & Hc & ->)%lift_Some; by apply view_quiet).
  - destruct (run target new_ws) as [w|] eqn:Hw; [|done]. cbn [mbind option_bind].
    destruct (lift _ s) as [s1|] eqn:Hl; [|done]. apply lift_Some in Hl as (c & Hc & ->).
    intros [= <-]. by apply (view_accept _ s id target w c).
  - destruct (conns s !! id) as [[w [] r]|] eqn:Hk; simpl; try done.
    destruct (holds _ id) eqn:Hh; [done|]. intros [= <-].
    apply (view_own _ s id (mk_conn w true r)); [done|]. rewrite Hh. by constructor.
  - destruct (conns s !! id) as [k|] eqn:Hk; simpl; [|done]. destruct (opening k) eqn:Ho; [|done].
    intros (c & Hc & ->)%lift_Some. by apply view_join_insert.
  - destruct (mutex (chan_ s)) as [| |id qid body] eqn:Hm; try done. unfold lift_give.
    destruct (lift _ s) as [s1|] eqn:Hl; [|done]. apply lift_Some in Hl as (c & Hc & ->). simpl.
    rewrite lookup_alter_eq. destruct (conns s !! id) as [k|] eqn:Hk; simpl; [|done]. intros [= <-].
    unfold set_conns. simpl. rewrite insert_alter_eq. by apply (view_join_send _ s id qid body k c).
  - destruct (loop (chan_ s)) as [| | | |m|m [|id todo]] eqn:Hl; try done.
    intros Hs. assert (exists c, chan_exec ev_send (chan_ s) = Some c /\ s' = mk_system c
        (if bool_decide (id ∈ alive (chan_ s)) then alter (on_ws (WebSocket.send m)) id (conns s) else conns s) (texts s))
      as (c & Hc & ->); [|by apply (view_send _ s m id todo c)].
    case_bool_decide; [unfold lift_give in Hs; destruct (lift ev_send s) as [s1|] eqn:Hl1; [|done]|].
    + apply lift_Some in Hl1 as (c & Hc & ->). simplify_eq/=. eauto.
    + apply lift_Some in Hs as (c & Hc & ->). eauto.
  - destruct (conns s !! id) as [[w o []]|] eqn:Hk; simpl; try done.
    destruct (on_read_cases ec data w) as [[w' Hr]|[-> [w' Hr]]]; rewrite Hr.
    + intros [= <-]. apply (view_own _ s id (mk_conn w o true)); [done|]. by econstructor.
    + destruct (is_unlocked _ && _); [|done]. intros [= <-]. by apply (view_read_text _ s id data w o w' order).
  - destruct (texts s !! i) as [[m [|id todo]]|] eqn:Hi; try done. case_bool_decide as Ha.
    + unfold lift_give. destruct (lift _ _) as [s1|] eqn:Hl; [|done]. apply lift_Some in Hl as (c & Hc & ->).
      intros [= <-]. by apply (view_text _ s i m id todo c).
    + intros [= <-]. by apply (view_text_skip _ s i m id todo).
  - destruct (conns s !! id) as [[w o r]|] eqn:Hk; simpl; [|done]. destruct (posted w) as [|m rest] eqn:Hp; [done|].
    intros [= <-]. apply (view_own _ s id (mk_conn w o r)); [done|]. by constructor.
  - destruct (conns s !! id) as [[w o r]|] eqn:Hk; simpl; [|done]. destruct (written w) as [|m rest] eqn:Hp; [done|].
    intros [= <-]. apply (view_own _ s id (mk_conn w o r)); [done|]. by constructor.
  - destruct (conns s !! id) as [k|] eqn:Hk; simpl; [|done]. destruct (owned k) eqn:Ho; [done|].
    intros (c & Hc & ->)%lift_Some. by apply (view_expire _ s id k c).
  - destruct (is_unlocked _ && _); [|done]. intros [= <-]. apply view_close.
Qed.

(** The outboxes of the channel are what the sessions were given, their
    queues are in order, and no session is destroyed while it is owned. *)
Record sys_inv (s : system) : Prop := {
  si_box id : outbox (caller (chan_ s)) !! id = (fun k => given (ws k)) <$> conns s !! id;
  si_ws id k : conns s !! id = Some k -> ws_inv (ws k);
  si_dead id k : conns s !! id = Some k -> id ∉ alive (chan_ s) -> owned k = false;
  si_held id :
    holds (mutex (chan_ s)) id = true ->
    id ∈ alive (chan_ s) /\ exists k, conns s !! id = Some k /\ opening k = true;
}.

Lemma sys_inv_new : sys_inv new_system.
Proof. split; cbn; intros id; [by rewrite !lookup_empty|intros k Hk; by rewrite lookup_empty in Hk..|done]. Qed.

Lemma quiet_frame e s c :
  quiet e = true -> chan_exec e s = Some c ->
  outbox (caller c) = outbox (caller s) /\ alive c = alive s
  /\ forall id, holds (mutex c) id = true -> holds (mutex s) id = true.
Proof.
  intros Hq He. destruct e; try done; unfold chan_exec in He; exec_cases He; cbn;
    try (case_bool_decide); rewrite ?Hm; done.
Qed.

Lemma owned_false w o r : owned (mk_conn w o r) = false <-> o = false /\ r = false /\ posted w = [] /\ written w = [].
Proof.
  unfold owned. cbn. rewrite !orb_false_iff, !negb_false_iff, !bool_decide_eq_true. tauto.
Qed.

Lemma own_step_frame h nf k k' :
  own_step h nf k k' ->
  given (ws k') = given (ws k) /\ (ws_inv (ws k) -> ws_inv (ws k')) /\ owned k = true
  /\ (h = true -> opening k' = opening k).
Proof.
  assert (forall k, owned k <> false -> owned k = true) as Hown by (intros k0; by destruct (owned k0)).
  intros [w r Hh|ec data w o e w' r Hr|w o r m rest Hp|ec w o r m rest Hnf Hw]; cbn [ws opening reading].
  - split_and!; [done..|by rewrite Hh].
  - assert (w' = (WebSocket.on_read ec data w).2) as -> by by rewrite Hr.
    split_and!; [apply on_read_given|apply step_inv; constructor| |done].
    by apply Hown; rewrite owned_false; intros (_ & ? & _).
  - split_and!; [apply run_posted_given|by apply on_send_inv|by apply Hown; rewrite owned_false, Hp; intros (_ & _ & ? & _)|done].
  - split_and!; [apply complete_given|by apply complete_inv|by apply Hown; rewrite owned_false, Hw; intros (_ & _ & _ & ?)|done].
Qed.

Lemma ws_send_inv m w : ws_inv w -> ws_inv (WebSocket.send m w).
Proof. apply step_inv. constructor. Qed.

(** A session is given a message. *)
Lemma give_box m id c (cs : gmap nat conn) :
  (forall i, outbox c !! i = (fun k => given (ws k)) <$> cs !! i) ->
  forall i, outbox (Sync.send m id c) !! i = (fun k => given (ws k)) <$> alter (on_ws (WebSocket.send m)) id cs !! i.
Proof.
  intros Hb i. rewrite send_lookup, Hb. case_decide; subst.
  - rewrite lookup_alter_eq. by destruct (cs !! i).
  - by rewrite lookup_alter_ne.
Qed.

Lemma run_fresh target w : WebSocket.run target new_ws = Some w -> given w = [] /\ ws_inv w.
Proof.
  unfold WebSocket.run. destruct (query_arg_one _ _); simpl; [|done]. intros [= <-].
  split; [done|]. split; [done|by left].
Qed.

(** One session replaced by one in the same condition. *)
Lemma replace_inv id k k' s ts :
  conns s !! id = Some k -> id ∈ alive (chan_ s) -> given (ws k') = given (ws k) ->
  (ws_inv (ws k) -> ws_inv (ws k')) -> (holds (mutex (chan_ s)) id = true -> opening k' = opening k) ->
  sys_inv s -> sys_inv (mk_system (chan_ s) (<[id := k']> (conns s)) ts).
Proof.
  intros Hk Ha Hg Hw Ho [Hbox Hws Hdead Hheld]. split; cbn [chan_ conns].
  - intros i. rewrite Hbox. destruct (decide (id = i)) as [<-|]; [|by rewrite lookup_insert_ne].
    rewrite lookup_insert_eq, Hk. simpl. by rewrite Hg.
  - intros i q [[<- <-]|[_ Hi]]%lookup_insert_Some; [|eauto]. eauto.
  - intros i q [[<- <-]|[_ Hi]]%lookup_insert_Some; [done|eauto].
  - intros i Hi. destruct (Hheld i Hi) as (? & q & Hq & Hop). split; [done|].
    destruct (decide (id = i)) as [<-|]; [|exists q; by rewrite lookup_insert_ne].
    exists k'. rewrite lookup_insert_eq. split; [done|]. rewrite Ho by done. congruence.
Qed.

(** A message given to a session that is alive. *)
Lemma give_inv m id c s ts :
  outbox (caller c) = outbox (Sync.send m id (caller (chan_ s))) -> alive c = alive (chan_ s) ->
  (forall i, holds (mutex c) i = true -> holds (mutex (chan_ s)) i = true) -> id ∈ alive (chan_ s) ->
  sys_inv s -> sys_inv (mk_system c (alter (on_ws (WebSocket.send m)) id (conns s)) ts).
Proof.
  intros Hout Ha Hh Hid [Hbox Hws Hdead Hheld]. split; cbn [chan_ conns]; rewrite ?Hout, ?Ha.
  - by apply give_box.
  - intros i q [[<- (k & Hk & ->)]|[_ Hi]]%lookup_alter_Some; [apply ws_send_inv; eauto|eauto].
  - intros i q [[<- _]|[_ Hi]]%lookup_alter_Some; [done|eauto].
  - intros i Hi%Hh. destruct (Hheld i Hi) as (? & q & Hq & Hop). split; [done|].
    destruct (decide (id = i)) as [<-|]; [|exists q; by rewrite lookup_alter_ne].
    exists (on_ws (WebSocket.send m) q). by rewrite lookup_alter_eq, Hq.
Qed.

Lemma accept_keeps id target w c s :
  WebSocket.run target new_ws = Some w -> chan_exec (ev_connect id) (chan_ s) = Some c ->
  sys_inv s -> sys_inv (mk_system c (<[id := mk_conn w true false]> (conns s)) (texts s)).
Proof.
  intros Hw Hc [Hbox Hws Hdead Hheld]. destruct (run_fresh _ _ Hw) as [Hg Hwi].
  unfold chan_exec in Hc. exec_cases Hc.
  split; cbn [chan_ conns with_alive with_caller caller mutex alive connect outbox].
  - intros i. destruct (decide (id = i)) as [<-|]; [by rewrite !lookup_insert_eq, <- Hg|by rewrite !lookup_insert_ne].
  - intros i q [[<- <-]|[_ Hi']]%lookup_insert_Some; [done|eauto].
  - intros i q [[<- <-]|[_ Hi']]%lookup_insert_Some Hna; [set_solver|]. eapply Hdead; [done|set_solver].
  - intros i Hh. destruct (Hheld i Hh) as (? & q & Hq & Hop). split; [set_solver|].
    destruct (decide (id = i)) as [<-|]; [rewrite lookup_insert_eq; eauto|rewrite lookup_insert_ne; eauto].
Qed.

Lemma join_sent_keeps id qid body k c s :
  let m := serialize (join_msg (sync_ver (caller (chan_ s))) qid body) in
  mutex (chan_ s) = has_body id qid body -> conns s !! id = Some k -> chan_exec ev_join_send (chan_ s) = Some c ->
  sys_inv s ->
  sys_inv (mk_system c (<[id := mk_conn (WebSocket.send m (ws k)) false true]> (conns s)) (texts s)).
Proof.
  intros m Hm Hk Hc Hi. destruct (si_held _ Hi id) as [Hid _]; [rewrite Hm; by apply bool_decide_eq_true_2|].
  assert (c = with_mutex unlocked (with_caller (Sync.send m id (caller (chan_ s))) (chan_ s))) as ->.
  { unfold chan_exec in Hc. rewrite Hm in Hc. destruct (loop (chan_ s)); by simplify_eq. }
  apply (give_inv m id (with_mutex unlocked (with_caller (Sync.send m id (caller (chan_ s))) (chan_ s))) s (texts s)) in Hi;
    [|done..].
  apply (replace_inv id (on_ws (WebSocket.send m) k) (mk_conn (WebSocket.send m (ws k)) false true) _ (texts s)) in Hi;
    [|cbn; by rewrite lookup_alter_eq, Hk|done..].
  cbn [chan_ conns] in Hi. by rewrite insert_alter_eq in Hi.
Qed.

Lemma expired_keeps id k c s :
  conns s !! id = Some k -> owned k = false -> chan_exec (ev_expire id) (chan_ s) = Some c ->
  sys_inv s -> sys_inv (mk_system c (conns s) (texts s)).
Proof.
  intros Hk Ho Hc [Hbox Hws Hdead Hheld]. unfold chan_exec in Hc. exec_cases Hc.
  split; cbn; [done|done| |].
  - intros i q Hq Hna. destruct (decide (i = id)) as [->|]; [congruence|]. eapply Hdead; [done|set_solver].
  - intros i Hi'. destruct (Hheld i Hi') as [? ?]. split; [|done].
    apply elem_of_difference. split; [done|]. intros ->%elem_of_singleton. congruence.
Qed.

Lemma close_ws_keeps s :
  sys_inv s ->
  sys_inv (set_conns (map_imap (fun id k =>
             Some (if bool_decide (id ∈ sessions_ (caller (chan_ s))) then on_ws close k else k)) (conns s)) s).
Proof.
  intros [Hbox Hws Hdead Hheld].
  assert (forall i, map_imap (fun id k => Some (if bool_decide (id ∈ sessions_ (caller (chan_ s))) then on_ws close k else k))
            (conns s) !! i = (fun k => if bool_decide (i ∈ sessions_ (caller (chan_ s))) then on_ws close k else k) <$> conns s !! i) as Hl.
  { intros i. rewrite map_lookup_imap. by destruct (conns s !! i). }
  split; cbn [chan_ conns set_conns].
  - intros i. rewrite Hl, Hbox. destruct (conns s !! i); simpl; [by case_bool_decide|done].
  - intros i q. rewrite Hl. intros (k & Hk & ->)%fmap_Some. case_bool_decide; [|eauto]. exact (Hws _ _ Hk).
  - intros i q. rewrite Hl. intros (k & Hk & ->)%fmap_Some Hn. specialize (Hdead _ _ Hk Hn). by case_bool_decide.
  - intros i Hh. destruct (Hheld i Hh) as (? & q & Hq & Hop). split; [done|]. rewrite Hl, Hq. simpl. eexists.
    split; [done|]. by case_bool_decide.
Qed.

(** A session that owns something is alive. *)
Lemma owned_alive s id k : sys_inv s -> conns s !! id = Some k -> owned k = true -> id ∈ alive (chan_ s).
Proof.
  intros Hi Hk Ho. destruct (decide (id ∈ alive (chan_ s))) as [|Hn]; [done|].
  rewrite (si_dead _ Hi _ _ Hk Hn) in Ho. done.
Qed.

Lemma view_keeps e s es s' : view e s es s' -> sys_inv s -> sys_inv s'.
Proof.
  intros Hv Hi. pose proof Hi as [Hbox Hws Hdead Hheld].
  destruct Hv as [x c Hq Hc|id target w c Hw Hc|id rnd k c Hk Ho Hc|id qid body k c m Hm Hk Hc|m id todo c Hl Hc
                 |i m id todo c Hi' Ha Hc|i m id todo Hi'|id k c Hk Ho Hc|id k k' Hk Hown|id data w o w' order Hin Hk Hr|].
  - destruct (quiet_frame _ _ _ Hq Hc) as (Hout & Hal & Hh).
    split; cbn [chan_ conns]; [by rewrite Hout|exact Hws|by rewrite Hal|rewrite Hal; eauto].
  - by eapply accept_keeps.
  - unfold chan_exec in Hc. exec_cases Hc.
    split; cbn [chan_ conns with_mutex with_caller caller mutex alive join_insert outbox]; try done.
    intros i Hh. cbn in Hh. bool_simp. subst i. split; [tauto|]. eauto.
  - by apply join_sent_keeps.
  - unfold chan_exec in Hc. rewrite Hl in Hc. case_bool_decide; simplify_eq; [by apply give_inv|].
    split; cbn; done.
  - assert (c = with_caller (Sync.send m id (caller (chan_ s))) (chan_ s)) as ->; [|by apply give_inv].
    unfold chan_exec in Hc. rewrite bool_decide_eq_true_2 in Hc by done.
    by destruct (loop (chan_ s)), (mutex (chan_ s)); simplify_eq.
  - by split.
  - by eapply expired_keeps.
  - destruct (own_step_frame _ _ _ _ Hown) as (Hg & Hwi & Hown' & Hop).
    apply (replace_inv id k); try done. by eapply owned_alive.
  - assert (w' = (WebSocket.on_read ec_ok data w).2) as -> by by rewrite Hr.
    apply (replace_inv id (mk_conn w o true)); try done.
    + eapply owned_alive; [done..|]. unfold owned. cbn [opening reading]. by rewrite orb_true_r.
    + cbn. by destruct (closed w).
    + cbn [ws]. apply step_inv. constructor.
  - by apply close_ws_keeps.
Qed.

Lemma view_refines e s es s' : view e s es s' -> chan_run es (chan_ s) = Some (chan_ s').
Proof. destruct 1; cbn [chan_run chan_]; try done; match goal with H : chan_exec _ _ = _ |- _ => by rewrite H end. Qed.

(** ** Runs *)

(** What is asked of a run: of the snapshots and the joins what [Rounds]
    asks, and that clients send no messages that look like the server's. *)
Definition sys_event_ok (e : sys_event) (s : system) : Prop :=
  match e with
  | sys_join_read snap => event_ok (ev_join_read snap) (chan_ s)
  | sys_fetch snap => event_ok (ev_fetch snap) (chan_ s)
  | sys_read _ _ data _ => harmless data
  | _ => True
  end.

Fixpoint sys_ok (es : list sys_event) (s : system) : Prop :=
  match es with
  | [] => True
  | e :: es' => sys_event_ok e s /\ match sys_exec e s with Some s' => sys_ok es' s' | None => True end
  end.

Definition texts_ok (s : system) : Prop := Forall (fun t => harmless t.1) (texts s).

Lemma events_ok_app es1 es2 s s1 :
  chan_run es1 s = Some s1 -> events_ok es1 s -> events_ok es2 s1 -> events_ok (es1 ++ es2) s.
Proof.
  revert s. induction es1 as [|e es1 IH]; intros s; [by intros [= ->]|].
  cbn [chan_run app events_ok]. destruct (chan_exec e s) as [s2|]; [|done]. cbn [mbind option_bind].
  intros Hr [He Hes] H2. eauto.
Qed.

Lemma texts_snoc s m order : texts_ok s -> harmless m -> Forall (fun t => harmless t.1) (texts s ++ [(m, order)]).
Proof. intros Ht Hm. apply Forall_app. by repeat constructor. Qed.

Lemma texts_insert s i m t todo :
  texts_ok s -> texts s !! i = Some (m, t) -> Forall (fun t => harmless t.1) (<[i := (m, todo)]> (texts s)).
Proof. intros Ht Hi. apply Forall_insert; [done|]. by apply (Forall_lookup_1 _ _ _ _ Ht Hi). Qed.

Lemma abs_ok e s s' :
  sys_exec e s = Some s' -> sys_event_ok e s -> texts_ok s -> events_ok (abs e s) (chan_ s) /\ texts_ok s'.
Proof.
  intros He Hok Ht. split.
  - pose proof (view_refines _ _ _ _ (sys_exec_view _ _ _ He)) as Hr.
    assert (forall x, event_ok x (chan_ s) -> events_ok [x] (chan_ s)) as H1.
    { intros x Hx. split; [done|]. by destruct (chan_exec x (chan_ s)). }
    destruct e as [id target|id|id rnd|snap| | | |snap| |order| | |id ec data order|i|id|id ec|id|id|];
      cbn [abs]; try done; try (by apply H1).
    + destruct (conns s !! id); [by apply H1|done].
    + destruct (texts s !! i) as [[m [|id todo]]|] eqn:Hi; try done. case_bool_decide; [|done].
      apply H1. exact (Forall_lookup_1 _ _ _ _ Ht Hi).
  - apply sys_exec_view in He as Hv. unfold texts_ok.
    destruct Hv as [| | | | |i m id todo c Hi|i m id todo Hi| | |id data' w o w' order' Hin Hk Hr|]; try done.
    + by eapply texts_insert.
    + by eapply texts_insert.
    + apply texts_snoc; [done|]. destruct e; simplify_eq/=. exact Hok.
Qed.

Lemma sys_run_refines es s s' :
  sys_run es s = Some s' -> sys_ok es s -> sys_inv s -> texts_ok s ->
  chan_run (abs_run es s) (chan_ s) = Some (chan_ s') /\ events_ok (abs_run es s) (chan_ s) /\ sys_inv s'.
Proof.
  revert s. induction es as [|e es IH]; intros s Hr; [by simplify_eq/=|]. intros [He Hes] Hi Ht.
  cbn [sys_run] in Hr. destruct (sys_exec e s) as [s1|] eqn:Hx; [|done]. cbn [mbind option_bind] in Hr.
  pose proof (sys_exec_view _ _ _ Hx) as Hv. pose proof (view_refines _ _ _ _ Hv) as Hrun.
  destruct (abs_ok _ _ _ Hx He Ht) as [Hok Ht1].
  destruct (IH s1 Hr Hes (view_keeps _ _ _ _ Hv Hi) Ht1) as (Hrun' & Hok' & Hi').
  cbn [abs_run]. rewrite Hx, chan_run_app, Hrun. split; [exact Hrun'|]. split; [|done].
  by eapply events_ok_app.
Qed.


(** A session is destroyed only when no handler owns it, so no write, no
    queued [on_send], no read and no join is left of it; and a session with
    any of these pending is one the channel can still lock. *)
Theorem owned_sessions_live es s id k :
  sys_run es new_system = Some s -> sys_ok es new_system -> conns s !! id = Some k ->
  (id ∉ alive (chan_ s) -> written (ws k) = [] /\ posted (ws k) = [] /\ reading k = false)
  /\ (holds (mutex (chan_ s)) id = true -> id ∈ alive (chan_ s) /\ opening k = true).
Proof.
  intros Hr Hok Hk. destruct (sys_run_refines es _ s Hr Hok sys_inv_new) as (_ & _ & Hi); [constructor|]. split.
  - intros Hn. pose proof (si_dead _ Hi id k Hk Hn) as Ho. destruct k. apply owned_false in Ho. naive_solver.
  - intros Hh. destruct (si_held _ Hi id Hh) as (? & q & Hq & Hop). split; [done|congruence].
Qed.

(** ** What arrives *)

Context {jel : JsonEqLaws} {txl : JsonTextLaws}.

(** Nothing waits any more. *)
Definition drained (k : conn) : Prop := queue_ (ws k) = [] /\ posted (ws k) = [].

(** Outside rounds, what a client was given makes the current snapshot. *)
Lemma settled_given es s id k :
  sys_run es new_system = Some s -> sys_ok es new_system ->
  conns s !! id = Some k -> id ∈ sessions_ (caller (chan_ s)) -> id ∈ alive (chan_ s) ->
  holds (mutex (chan_ s)) id = false -> loop (chan_ s) = idle ->
  exists d, replica (given (ws k)) = Some d /\ d ≡ curr_stats (caller (chan_ s)).
Proof.
  intros Hr Hok Hk Hs Ha Hh Hl.
  destruct (sys_run_refines es _ s Hr Hok sys_inv_new) as (Hrun & Hev & Hi); [constructor|].
  pose proof (chan_run_inv _ _ _ Hrun Hev inv_new) as Hci.
  destruct (inv_settled _ id Hci Hs Ha Hh) as (ms & d & Ho & Hrep & Heq).
  exists d. split; [|exact Heq]. unfold to_come in Hrep. rewrite Hl, app_nil_r in Hrep.
  pose proof (si_box _ Hi id) as Hb. rewrite Ho, Hk in Hb. simpl in Hb. by injection Hb as ->.
Qed.

(** A session with nothing left to write has given its client the current
    snapshot. *)
Lemma drained_settled es s id k :
  sys_run es new_system = Some s -> sys_ok es new_system ->
  conns s !! id = Some k -> id ∈ sessions_ (caller (chan_ s)) -> id ∈ alive (chan_ s) ->
  holds (mutex (chan_ s)) id = false -> loop (chan_ s) = idle -> drained k ->
  exists d, replica (sent (ws k)) = Some d /\ d ≡ curr_stats (caller (chan_ s)) /\ curr_stats (caller (chan_ s)) <> JNull.
Proof.
  intros Hr Hok Hk Hs Ha Hh Hl [Hq Hp].
  destruct (settled_given es s id k Hr Hok Hk Hs Ha Hh Hl) as (d & Hd & Heq). exists d.
  destruct (sys_run_refines es _ s Hr Hok sys_inv_new) as (Hrun & Hev & Hi); [constructor|].
  destruct (si_ws _ Hi id k Hk) as [Hg _]. rewrite Hg, Hq, Hp, !app_nil_r in Hd. split_and!; [done..|].
  pose proof (chan_run_inv _ _ _ Hrun Hev inv_new) as Hci. by destruct (inv_clients _ Hci id Hs Ha Hh).
Qed.

(** End to end: outside rounds, a client whose session has nothing left to
    write holds the current snapshot once it has applied what came out of its
    socket. *)
Theorem delivered_current es s id k :
  sys_run es new_system = Some s -> sys_ok es new_system ->
  conns s !! id = Some k -> id ∈ sessions_ (caller (chan_ s)) -> id ∈ alive (chan_ s) ->
  holds (mutex (chan_ s)) id = false -> loop (chan_ s) = idle -> drained k ->
  exists d, replica (sent (ws k)) = Some d /\ d ≡ curr_stats (caller (chan_ s)).
Proof.
  intros. destruct (drained_settled es s id k) as (d & ? & ? & _); try done. by exists d.
Qed.

(** The steps of strands and sockets, no write failing. *)
Definition deliver (s s' : system) : Prop :=
  exists id, sys_exec (sys_strand id) s = Some s' \/ sys_exec (sys_write id ec_ok) s = Some s'.

(** The delivering steps that are left. *)
Definition work (s : system) : nat := sum_list_with (fun kv => pending (ws kv.2)) (map_to_list (conns s)).

Lemma work_replace s id k k' :
  conns s !! id = Some k -> pending (ws k') < pending (ws k) -> work (set_conns (<[id := k']> (conns s)) s) < work s.
Proof.
  intros Hk Hlt. unfold work. cbn [set_conns conns]. rewrite <- insert_delete_eq.
  rewrite <- (insert_delete_id (conns s) id k Hk) at 2.
  rewrite !map_to_list_insert by apply lookup_delete_eq. simpl. lia.
Qed.

Definition all_flowing (s : system) : Prop := forall id k, conns s !! id = Some k -> flowing (ws k).

Lemma own_step_flowing h nf k k' : own_step h nf k k' -> nf -> flowing (ws k) -> flowing (ws k').
Proof.
  intros [w r Hh|ec data w o e w' r Hr|w o r m rest Hp|ec w o r m rest Hnf Hw] Hn; cbn [ws]; [done|..];
    apply good_step_flowing.
  - assert (w' = (WebSocket.on_read ec data w).2) as -> by by rewrite Hr. constructor.
  - by constructor.
  - rewrite Hnf by done. by constructor.
Qed.

Lemma flowing_send m w : flowing w -> flowing (WebSocket.send m w).
Proof. apply good_step_flowing. constructor. Qed.

Lemma flowing_insert id k' (cs : gmap nat conn) :
  (forall i k, cs !! i = Some k -> flowing (ws k)) -> flowing (ws k') ->
  forall i k, <[id := k']> cs !! i = Some k -> flowing (ws k).
Proof. intros Hc Hk i k [[<- <-]|[_ Hi]]%lookup_insert_Some; eauto. Qed.

Lemma flowing_give m id (cs : gmap nat conn) :
  (forall i k, cs !! i = Some k -> flowing (ws k)) ->
  forall i k, alter (on_ws (WebSocket.send m)) id cs !! i = Some k -> flowing (ws k).
Proof.
  intros Hc i k [[<- (q & Hq & ->)]|[_ Hi]]%lookup_alter_Some; [|eauto]. apply flowing_send; eauto.
Qed.

Lemma view_flowing e s es s' : view e s es s' -> no_failure e -> all_flowing s -> all_flowing s'.
Proof.
  intros Hv Hnf Hf. destruct Hv as [x c Hq Hc|id target w c Hw Hc|id rnd k c Hk Ho Hc|id qid body k c m Hm Hk Hc|m id todo c Hl Hc
                 |i m id todo c Hi' Ha Hc|i m id todo Hi'|id k c Hk Ho Hc|id k k' Hk Hown|id data w o w' order Hin Hk Hr|];
    unfold all_flowing; cbn [conns set_conns]; try exact Hf.
  - apply flowing_insert; [exact Hf|]. unfold WebSocket.run in Hw.
    destruct (query_arg_one _ _); simplify_eq/=. done.
  - apply flowing_insert; [exact Hf|]. apply flowing_send. by eapply Hf.
  - case_bool_decide; [by apply flowing_give|exact Hf].
  - by apply flowing_give.
  - apply flowing_insert; [exact Hf|]. eapply own_step_flowing; [done..|]. by eapply Hf.
  - apply flowing_insert; [exact Hf|]. assert (w' = (WebSocket.on_read ec_ok data w).2) as -> by by rewrite Hr.
    cbn [ws]. apply (good_step_flowing w); [constructor|]. exact (Hf _ _ Hk).
  - intros i k. rewrite map_lookup_imap. intros (q & Hq & [= <-])%bind_Some. specialize (Hf _ _ Hq).
    case_bool_decide; [|done]. exact Hf.
Qed.

Lemma sys_run_flowing es s s' :
  sys_run es s = Some s' -> Forall no_failure es -> all_flowing s -> all_flowing s'.
Proof.
  revert s. induction es as [|e es IH]; intros s Hr; [by simplify_eq/=|]. intros [He Hes]%Forall_cons Hf.
  cbn [sys_run] in Hr. destruct (sys_exec e s) as [s1|] eqn:Hx; [|done]. cbn [mbind option_bind] in Hr.
  eapply IH; [done..|]. eapply view_flowing; [by apply sys_exec_view|done..].
Qed.

Lemma new_flowing : all_flowing new_system.
Proof. intros id k Hk. cbn [new_system conns] in Hk. by rewrite lookup_empty in Hk. Qed.

(** A delivering step is a step of one session, and leaves less to do. *)
Lemma deliver_works s s' :
  deliver s s' -> all_flowing s ->
  work s' < work s /\ all_flowing s' /\ chan_ s' = chan_ s
  /\ (forall id k', conns s' !! id = Some k' -> exists k, conns s !! id = Some k /\ given (ws k') = given (ws k)).
Proof.
  intros (id & Hd) Hf.
  assert (exists k k', conns s !! id = Some k /\ s' = set_conns (<[id := k']> (conns s)) s
            /\ given (ws k') = given (ws k) /\ flowing (ws k') /\ pending (ws k') < pending (ws k)) as (k & k' & Hk & -> & Hg & Hfl & Hlt).
  { destruct Hd as [Hd|Hd]; cbn [sys_exec] in Hd; destruct (conns s !! id) as [[w o r]|] eqn:Hk; try done;
      cbn [mbind option_bind ws] in Hd; [destruct (posted w) as [|m rest] eqn:Hp|destruct (written w) as [|m rest] eqn:Hp];
      try done; injection Hd as <-; eexists _, _; split_and!; try done; specialize (Hf _ _ Hk); cbn [ws on_ws] in *.
    - apply run_posted_given.
    - apply (good_step_flowing w); [by constructor|done].
    - by apply run_posted_pending.
    - apply complete_given.
    - apply (good_step_flowing w); [by constructor|done].
    - by apply complete_pending. }
  split; [by apply (work_replace s id k)|]. split.
  - unfold all_flowing. cbn [set_conns conns]. by apply flowing_insert.
  - split; [done|]. cbn [set_conns conns]. intros i q [[<- <-]|[_ Hi]]%lookup_insert_Some; eauto.
Qed.

Lemma deliver_run n s s' :
  nsteps deliver n s s' -> all_flowing s ->
  n + work s' <= work s /\ all_flowing s' /\ chan_ s' = chan_ s
  /\ (forall id k', conns s' !! id = Some k' -> exists k, conns s !! id = Some k /\ given (ws k') = given (ws k)).
Proof.
  induction 1 as [s|n s s1 s' Hd _ IH]; intros Hf; [by split_and!; eauto|].
  destruct (deliver_works _ _ Hd Hf) as (Hlt & Hf1 & Hc1 & Hg1).
  destruct (IH Hf1) as (Hn & Hf' & Hc' & Hg'). split; [lia|]. split; [done|]. split; [congruence|].
  intros id k' Hk'. destruct (Hg' id k' Hk') as (k1 & Hk1 & ->). destruct (Hg1 id k1 Hk1) as (k & Hk & ->). eauto.
Qed.

(** Where no delivering step is left, nothing waits. *)
Lemma stopped_drained s id k :
  all_flowing s -> (forall s', ~ deliver s s') -> conns s !! id = Some k -> drained k /\ sent (ws k) = given (ws k).
Proof.
  intros Hf Hstop Hk. destruct (Hf _ _ Hk) as [Hg Hw].
  assert (posted (ws k) = []) as Hp.
  { destruct (posted (ws k)) as [|m rest] eqn:Hp; [done|]. exfalso.
    eapply Hstop. exists id. left. cbn [sys_exec]. rewrite Hk. cbn [mbind option_bind]. by rewrite Hp. }
  assert (queue_ (ws k) = []) as Hq.
  { destruct (queue_ (ws k)) as [|m q] eqn:Hq; [done|]. exfalso. cbn in Hw.
    eapply Hstop. exists id. right. cbn [sys_exec]. rewrite Hk. cbn [mbind option_bind]. by rewrite Hw. }
  split; [done|]. by rewrite Hg, Hq, Hp, !app_nil_r.
Qed.


(** Runs and decisions for the examples: texts that are no JSON. *)
Definition delivers (e : sys_event) : bool :=
  match e with sys_strand _ | sys_write _ ec_ok => true | _ => false end.

Lemma deliver_runs es s s' :
  forallb delivers es = true -> sys_run es s = Some s' -> nsteps deliver (length es) s s'.
Proof.
  revert s. induction es as [|e es IH]; intros s Hd Hr; cbn [sys_run forallb] in *; [simplify_eq; constructor|].
  bool_simp. destruct (sys_exec e s) as [s1|] eqn:Hx; [|done]. cbn [mbind option_bind] in Hr.
  apply nsteps_l with s1; [|by apply IH]. destruct e as [| | | | | | | | | | | | | |id|id []| | |]; try done; exists id; tauto.
Qed.

Definition sys_event_okb (e : sys_event) (s : system) : bool :=
  match e with
  | sys_join_read snap => event_okb (ev_join_read snap) (chan_ s)
  | sys_fetch snap => event_okb (ev_fetch snap) (chan_ s)
  | sys_read _ _ data _ => match json_parse data with None => true | Some _ => false end
  | _ => true
  end.

Fixpoint sys_okb (es : list sys_event) (s : system) : bool :=
  match es with
  | [] => true
  | e :: es' => sys_event_okb e s && match sys_exec e s with Some s' => sys_okb es' s' | None => true end
  end.

Lemma sys_okb_ok es s : sys_okb es s = true -> sys_ok es s.
Proof.
  revert s. induction es as [|e es IH]; intros s Hb; [done|]. cbn [sys_okb sys_ok] in *. bool_simp. split.
  - destruct e as [| | |snap| | | |snap| | | | |id ec data order| | | | | |]; try done; cbn [sys_event_okb sys_event_ok] in *;
      try (by apply event_okb_ok). intros doc. unfold client_step. by destruct (json_parse data).
  - destruct (sys_exec e s); [by apply IH|done].
Qed.
End delivery.

(** ** Examples *)

#[local] Existing Instance documented_eq.
#[local] Existing Instance text_demo.

(** Two clients; the second joins during a round; the first has gone when the
    second round is sent. *)
Definition demo_sys_events : list sys_event :=
  [sys_accept 1 "/api/sync"; sys_join_insert 1 1234; sys_join_read (demo_stats 0 []); sys_join_send;
   sys_strand 1; sys_check; sys_bump; sys_accept 2 "/api/sync?id=ab"; sys_fetch (demo_stats 1 [JInt64 5]); sys_build;
   sys_copy [1]; sys_join_insert 2 1000; sys_join_read (demo_stats 9 []); sys_send; sys_write 1 ec_ok; sys_join_send;
   sys_strand 1; sys_keep; sys_write 1 ec_ok; sys_read 1 ec_closed "" []; sys_check; sys_bump;
   sys_fetch (demo_stats 2 [JInt64 6; JNull]); sys_build; sys_copy [2; 1]; sys_expire 1; sys_send; sys_send;
   sys_leave 1; sys_keep].

Definition demo_system : system := default new_system (sys_run demo_sys_events new_system).

Lemma demo_system_run : sys_run demo_sys_events new_system = Some demo_system.
Proof.
  assert (match sys_run demo_sys_events new_system with Some _ => true | None => false end = true) as Hd
    by (vm_compute; reflexivity).
  unfold demo_system. by destruct (sys_run demo_sys_events new_system).
Qed.

Lemma demo_system_ok : sys_ok demo_sys_events new_system.
Proof. apply sys_okb_ok. vm_compute. reflexivity. Qed.

(** The second session's messages, delivered. *)
Definition demo_delivering : list sys_event := [sys_strand 2; sys_write 2 ec_ok; sys_strand 2; sys_write 2 ec_ok].
Definition demo_delivered : system := default new_system (sys_run demo_delivering demo_system).

Lemma demo_delivered_run : sys_run demo_delivering demo_system = Some demo_delivered.
Proof.
  assert (match sys_run demo_delivering demo_system with Some _ => true | None => false end = true) as Hd
    by (vm_compute; reflexivity).
  unfold demo_delivered. by destruct (sys_run demo_delivering demo_system).
Qed.

Definition demo_conn2 : conn := default (mk_conn new_ws false false) (conns demo_delivered !! 2).


Lemma owned_sessions_live_witness :
  (2 ∉ alive (chan_ demo_delivered) -> written (ws demo_conn2) = [] /\ posted (ws demo_conn2) = [] /\ reading demo_conn2 = false)
  /\ (holds (mutex (chan_ demo_delivered)) 2 = true -> 2 ∈ alive (chan_ demo_delivered) /\ opening demo_conn2 = true).
Proof.
  apply (owned_sessions_live (demo_sys_events ++ demo_delivering)).
  - rewrite sys_run_app, demo_system_run. apply demo_delivered_run.
  - apply sys_okb_ok. vm_compute. reflexivity.
  - vm_compute. reflexivity.
Defined.

Lemma delivered_current_witness :
  exists d, replica (sent (ws demo_conn2)) = Some d /\ d ≡ curr_stats (caller (chan_ demo_delivered)).
Proof.
  apply (delivered_current (jel := documented_eq_laws) (txl := text_demo_laws)
           (demo_sys_events ++ demo_delivering) demo_delivered 2).
  - rewrite sys_run_app, demo_system_run. apply demo_delivered_run.
  - apply sys_okb_ok. vm_compute. reflexivity.
  - vm_compute. reflexivity.
  - apply (bool_decide_unpack _). vm_compute. done.
  - apply (bool_decide_unpack _). vm_compute. done.
  - vm_compute. reflexivity.
  - vm_compute. reflexivity.
  - split; vm_compute; reflexivity.
Defined.

