(* ===== verification/Channel.v ===== *)
(** * The channel over the server state

    [Sync] is proved for any snapshots that are well-formed and grow by at
    most one element; [Torrents] says what the snapshots of [sheath] are.
    Together: how many torrents may be added between two rounds before the
    websocket clients lose the list; first with whole operations, then with
    the steps of [Delivery] among those of the server state. *)

From S2P Require Import Prelude CStd Json JsonPatch JsonDiff Fs Util SessionStats TorrentStatus Libtorrent.
From S2P Require Import HttpUtil Demo JsonText Sheath Torrents Sync WebSocket Rounds Delivery.

(** ** Flat objects *)

Definition flat (j : json) : bool :=
  match j with JArray _ | JObject _ => false | _ => true end.

Lemma flat_grows a b : flat a = true -> grows_by_one a b = true.
Proof. by destruct a. Qed.

Lemma flat_emplace_all es o :
  Forall (fun kv => flat kv.2 = true) o -> Forall (fun e : entry => flat e.2 = true) es ->
  Forall (fun kv => flat kv.2 = true) (emplace_all es o).
Proof.
  intros Ho Hes. revert o Ho. induction Hes as [|[[b k] v] es Hv Hes IH]; intros o Ho; [done|].
  unfold emplace_all in *. simpl. apply IH. unfold emplace_if, obj_emplace.
  destruct b; [|done]. destruct (obj_find k o); [done|]. apply Forall_app. by repeat constructor.
Qed.

Lemma flat_object_grows o j : Forall (fun kv => flat kv.2 = true) o -> grows_by_one (JObject o) j = true.
Proof.
  intros Ho. destruct j as [| | | | | | |p]; try done. cbn [grows_by_one]. apply forallb_Forall.
  eapply Forall_impl; [exact Ho|]. intros [k v] Hv. simpl in *.
  destruct (obj_find k p); [by apply flat_grows|done].
Qed.

Section channel.
Context {sha : Sha1} {ltd : LtData} {hs : Handles} {ltp : LtParsers} {lts : Session} {mt : Metrics}.

Lemma status_object_flat t : Forall (fun kv => flat kv.2 = true) (torrent_status_to_json_obj t).
Proof. apply flat_emplace_all; by repeat constructor. Qed.

Lemma stats_object_flat s : Forall (fun kv => flat kv.2 = true) (to_json_object s).
Proof. apply flat_emplace_all; by repeat constructor. Qed.

(** The length of a snapshot's array. *)
Definition torrents_size (j : json) : nat :=
  match j with
  | JObject o => match obj_find "torrents" o with Some (JArray l) => length l | _ => 0 end
  | _ => 0
  end.

(** The server state a snapshot is taken of, with its clocks and the order
    of the hash map. *)
Record moment := mk_moment {
  mo_clocks : clocks;
  mo_order : list (torrent_handle * torrent_status);
  mo_state : sheath;
}.

Definition snapshot (m : moment) : json := default JNull (getSyncStats (mo_clocks m) (mo_order m) (mo_state m)).

Definition moment_ok (m : moment) : Prop :=
  mo_order m ≡ₚ map_to_list (m_all_handles (mo_state m))
  /\ (forall h st, m_all_handles (mo_state m) !! h = Some st -> not_nan (progress st) = true)
  /\ is_Some (session_stats (mo_clocks m) (mo_state m)).

Lemma snapshot_shape m :
  moment_ok m ->
  exists stats arr,
    snapshot m = JObject ["stats" ~> JObject (to_json_object stats);
                          "torrents" ~> JArray ((fun t => JObject (torrent_status_to_json_obj t)) <$> arr)]
    /\ length arr = size (m_all_handles (mo_state m))
    /\ Forall (fun t => not_nan (progress t) = true) arr.
Proof.
  intros (Hperm & Hnan & [stats Hs]). exists stats, (mo_order m).*2.
  unfold snapshot, getSyncStats. rewrite Hs. cbn [mbind option_bind default].
  rewrite <- list_fmap_compose. split; [done|]. split.
  - rewrite length_fmap, Hperm. apply length_map_to_list.
  - apply Forall_forall. intros t Ht. apply list_elem_of_fmap in Ht as ([h st] & -> & Hin).
    rewrite Hperm in Hin. apply elem_of_map_to_list in Hin. by eapply Hnan.
Qed.

Lemma snapshot_is_ok m : moment_ok m -> snapshot_ok (snapshot m).
Proof.
  intros Hm. destruct (snapshot_shape m Hm) as (stats & arr & -> & _ & Hnan).
  destruct (snapshot_wf stats arr Hnan) as [Hw Hp]. by split.
Qed.

Lemma snapshot_size m : moment_ok m -> torrents_size (snapshot m) = size (m_all_handles (mo_state m)).
Proof.
  intros Hm. destruct (snapshot_shape m Hm) as (stats & arr & -> & Hlen & _). simpl.
  by rewrite length_fmap.
Qed.

Lemma zip_grows (f : torrent_status -> json) l m :
  (forall t j, grows_by_one (f t) j = true) -> forallb id (zip_with grows_by_one (f <$> l) m) = true.
Proof.
  intros Hf. revert m. induction l as [|t l IH]; intros [|j m]; try done. simpl. by rewrite Hf, IH.
Qed.

(** Between two snapshots only the list of torrents can grow. *)
Lemma grows_iff m1 m2 :
  moment_ok m1 -> moment_ok m2 ->
  grows_by_one (snapshot m1) (snapshot m2) = true
  <-> size (m_all_handles (mo_state m2)) <= S (size (m_all_handles (mo_state m1))).
Proof.
  intros Hm1 Hm2. destruct (snapshot_shape m1 Hm1) as (s1 & a1 & -> & <- & _).
  destruct (snapshot_shape m2 Hm2) as (s2 & a2 & -> & <- & _).
  assert (grows_by_one (JObject (to_json_object s1)) (JObject (to_json_object s2)) = true) as Hs
    by apply flat_object_grows, stats_object_flat.
  assert (forallb id (zip_with grows_by_one ((fun t => JObject (torrent_status_to_json_obj t)) <$> a1)
            ((fun t => JObject (torrent_status_to_json_obj t)) <$> a2)) = true) as Hz
    by (apply zip_grows; intros; apply flat_object_grows, status_object_flat).
  set (l1 := (fun t => JObject (torrent_status_to_json_obj t)) <$> a1) in *.
  set (l2 := (fun t => JObject (torrent_status_to_json_obj t)) <$> a2) in *.
  assert (length a1 = length l1 /\ length a2 = length l2) as [-> ->] by (unfold l1, l2; by rewrite !length_fmap).
  change (grows_by_one (JObject (to_json_object s1)) (JObject (to_json_object s2))
          && (((length l2 <=? S (length l1)) && forallb id (zip_with grows_by_one l1 l2)) && true) = true
          <-> length l2 <= S (length l1)).
  rewrite Hs, Hz, !andb_true_r. apply Nat.leb_le.
Qed.

(** ** End to end *)

Context {jeq : JsonEq} {text : JsonText} {jel : JsonEqLaws} {txl : JsonTextLaws}.

Inductive feed :=
  | feed_join (id : nat) (qid : string) (rnd : Z) (m : moment)
  | feed_leave (id : nat)
  | feed_round (m : moment).

Definition feed_op (x : feed) : sync_op :=
  match x with
  | feed_join id qid rnd m => op_join id qid rnd (snapshot m)
  | feed_leave id => op_leave id
  | feed_round m => op_round (snapshot m)
  end.

(** At most one torrent more than in the last snapshot a round sent. *)
Definition feed_ok (c : httpCaller) (x : feed) : Prop :=
  match x with
  | feed_join _ _ _ m => moment_ok m
  | feed_leave _ => True
  | feed_round m =>
      moment_ok m
      /\ (prev_stats c = JNull \/ size (m_all_handles (mo_state m)) <= S (torrents_size (prev_stats c)))
  end.

Fixpoint feeds_ok (c : httpCaller) (xs : list feed) : Prop :=
  match xs with
  | [] => True
  | x :: xs' => feed_ok c x /\ feeds_ok (sync_exec c (feed_op x)) xs'
  end.

(** What [prev_stats] and [curr_stats] are: null or snapshots of moments. *)
Definition snap_or_null (j : json) : Prop := j = JNull \/ exists m, moment_ok m /\ j = snapshot m.

Lemma prev_stats_fed c x :
  feed_ok c x -> snap_or_null (prev_stats c) -> snap_or_null (curr_stats c) ->
  snap_or_null (prev_stats (sync_exec c (feed_op x))) /\ snap_or_null (curr_stats (sync_exec c (feed_op x))).
Proof.
  intros Hok Hp Hc. destruct x as [id qid rnd m|id|m]; simpl in *.
  - split; [done|]. destruct (curr_stats c) eqn:He; try done. right. by exists m.
  - done.
  - destruct Hok as [Hm _]. unfold doLoop. case_bool_decide; [done|].
    set (c1 := round_fetch (snapshot m) c). unfold round_send. set (msg := serialize _).
    destruct (broadcast_frame msg c1) as (_ & _ & Hcurr & _). cbn [round_keep prev_stats curr_stats].
    rewrite Hcurr. split; right; by exists m.
Qed.

Lemma feeds_run_ok c xs :
  snap_or_null (prev_stats c) -> snap_or_null (curr_stats c) ->
  feeds_ok c xs -> run_ok c (feed_op <$> xs).
Proof.
  revert c. induction xs as [|x xs IH]; intros c Hp Hc; [done|]. intros [Hx Hxs]. simpl.
  destruct (prev_stats_fed c x Hx Hp Hc) as [Hp' Hc']. split; [|by apply IH].
  clear IH Hxs Hp' Hc'. destruct x as [id qid rnd m|id|m]; simpl in *; [by apply snapshot_is_ok|done|].
  destruct Hx as [Hm Hgrow]. split; [by apply snapshot_is_ok|].
  destruct Hp as [->|(m0 & Hm0 & He)]; [done|]. rewrite He in *.
  destruct Hgrow as [Hn|Hsize].
  - apply snapshot_is_ok in Hm0 as (_ & _ & Hk). by rewrite Hn in Hk.
  - rewrite snapshot_size in Hsize by done.
    by apply grows_iff.
Qed.
(** The clients of the sync channel hold the current list of torrents and
    counters, through any joins, leaves and rounds over whatever states the
    server is in, as long as every round lists at most one torrent more than
    the round before it. *)
Theorem sync_end_to_end xs id :
  feeds_ok new_caller xs ->
  let c := foldl sync_exec new_caller (feed_op <$> xs) in
  id ∈ sessions_ c ->
  exists ms d, outbox c !! id = Some ms /\ replica ms = Some d /\ d ≡ curr_stats c.
Proof.
  intros Hf c Hin. apply sync_run_inv; [|exact Hin]. apply feeds_run_ok; [by left..|done].
Qed.

(** ** To the sockets *)

(** The conditions of [Delivery] in terms of the server: the snapshots are
    those of its states, and a round lists at most one torrent more than the
    one before. *)
Definition server_event_ok (e : sys_event) (s : system) : Prop :=
  let c := caller (chan_ s) in
  match e with
  | sys_join_read snap =>
      (exists m, moment_ok m /\ snap = snapshot m)
      /\ match loop (chan_ s) with fetched | built _ => prev_stats c = JNull | _ => True end
  | sys_fetch snap =>
      exists m, moment_ok m /\ snap = snapshot m
                /\ (prev_stats c = JNull \/ size (m_all_handles (mo_state m)) <= S (torrents_size (prev_stats c)))
  | sys_read _ _ data _ => harmless data
  | _ => True
  end.

Fixpoint server_ok (es : list sys_event) (s : system) : Prop :=
  match es with
  | [] => True
  | e :: es' => server_event_ok e s /\ match sys_exec e s with Some s' => server_ok es' s' | None => True end
  end.

Definition snaps_known (c : httpCaller) : Prop := snap_or_null (prev_stats c) /\ snap_or_null (curr_stats c).

Lemma moment_grows m j :
  snap_or_null j -> moment_ok m ->
  j = JNull \/ size (m_all_handles (mo_state m)) <= S (torrents_size j) -> grows_by_one j (snapshot m) = true.
Proof.
  intros [->|(m0 & Hm0 & ->)] Hm Hgrow; [done|]. destruct Hgrow as [Hn|Hsize].
  - apply snapshot_is_ok in Hm0 as (_ & _ & Hk). by rewrite Hn in Hk.
  - rewrite snapshot_size in Hsize by done. by apply grows_iff.
Qed.

(** What a step of the channel takes snapshots of. *)
Lemma chan_snaps e s s' :
  chan_exec e s = Some s' ->
  (forall snap, e = ev_join_read snap \/ e = ev_fetch snap -> snap_or_null snap) ->
  snaps_known (caller s) -> snaps_known (caller s').
Proof.
  intros He Hsnap [Hp Hc]. unfold snaps_known.
  destruct e as [id|id qid rnd|snap| | | |snap| |order| | |m id|id|id]; exec_cases He;
    cbn [with_caller with_mutex with_loop with_alive caller connect join_insert set_curr Sync.send round_bump round_keep
         leave prev_stats curr_stats]; try done.
  - split; [done|]. unfold join_body. destruct (curr_stats (caller s)); try done. apply Hsnap. by left.
  - by case_bool_decide.
  - split; [done|]. apply Hsnap. by right.
  - by case_bool_decide.
Qed.

Lemma chan_run_snaps es s s' :
  chan_run es s = Some s' ->
  (forall e snap, e ∈ es -> e = ev_join_read snap \/ e = ev_fetch snap -> snap_or_null snap) ->
  snaps_known (caller s) -> snaps_known (caller s').
Proof.
  revert s. induction es as [|e es IH]; intros s Hr Hsnap Hk; [by simplify_eq/=|].
  cbn [chan_run] in Hr. destruct (chan_exec e s) as [s1|] eqn:Hx; [|done]. cbn [mbind option_bind] in Hr.
  apply (IH s1 Hr); [intros; eapply Hsnap; [by right|done]|].
  eapply chan_snaps; [done| |done]. intros snap. apply Hsnap. by left.
Qed.

(** Only reads of joins and fetches of rounds take snapshots. *)
Lemma abs_snaps e s x snap :
  server_event_ok e s -> x ∈ abs e s -> x = ev_join_read snap \/ x = ev_fetch snap -> snap_or_null snap.
Proof.
  intros Hok Hx Hs. destruct e as [id target|id|id rnd|sn| | | |sn| |order| | |id ec data order|i|id|id ec|id|id|];
    cbn [abs server_event_ok] in *;
    repeat match type of Hx with
      | context [match conns s !! id with _ => _ end] => destruct (conns s !! id)
      | context [match texts s !! i with _ => _ end] => destruct (texts s !! i) as [[? [|? ?]]|]
      | context [if ?b then _ else _] => destruct b
      end; try (by apply elem_of_nil in Hx); apply list_elem_of_singleton in Hx as ->;
    destruct Hs as [Hs|Hs]; simplify_eq; right; destruct Hok; naive_solver.
Qed.

Lemma server_sys_ok es s : server_ok es s -> snaps_known (caller (chan_ s)) -> sys_ok es s.
Proof.
  revert s. induction es as [|e es IH]; intros s; [done|]. intros [He Hes] Hk. split.
  - destruct e as [| | |snap| | | |snap| | | | | | | | | | |]; try done; cbn [server_event_ok sys_event_ok] in *.
    + destruct He as ((m & Hm & ->) & Hw). split; [by apply snapshot_is_ok|done].
    + destruct He as (m & Hm & -> & Hg). split; [by apply snapshot_is_ok|]. apply moment_grows; [apply Hk|done..].
  - destruct (sys_exec e s) as [s1|] eqn:Hx; [|done]. apply IH; [done|].
    eapply chan_run_snaps; [by eapply view_refines, sys_exec_view| |done].
    intros x snap. by apply abs_snaps.
Qed.

Lemma run_snaps es s s' :
  server_ok es s -> sys_run es s = Some s' -> snaps_known (caller (chan_ s)) -> snaps_known (caller (chan_ s')).
Proof.
  revert s. induction es as [|e es IH]; intros s Hok Hr Hk; [by simplify_eq/=|]. destruct Hok as [He Hes].
  cbn [sys_run] in Hr. destruct (sys_exec e s) as [s1|] eqn:Hx; [|done]. cbn [mbind option_bind] in Hr.
  apply (IH s1); [done..|]. eapply chan_run_snaps; [by eapply view_refines, sys_exec_view| |done].
  intros x snap. by apply abs_snaps.
Qed.

(** From the server state to the sockets: whatever the threads interleave
    (no join reading the snapshot inside a round), a client that has been
    written everything it was given holds, outside rounds, the current
    snapshot of the server, which lists every torrent once, as long as each
    round lists at most one torrent more than the one before. *)
Theorem channel_end_to_end es s id k :
  server_ok es new_system -> sys_run es new_system = Some s ->
  conns s !! id = Some k -> id ∈ sessions_ (caller (chan_ s)) -> id ∈ alive (chan_ s) ->
  holds (mutex (chan_ s)) id = false -> loop (chan_ s) = idle -> drained k ->
  exists d m, replica (sent (ws k)) = Some d /\ d ≡ snapshot m /\ moment_ok m
              /\ curr_stats (caller (chan_ s)) = snapshot m
              /\ torrents_size (snapshot m) = size (m_all_handles (mo_state m)).
Proof.
  intros Hok Hr Hk Hs Ha Hh Hl Hd.
  assert (sys_ok es new_system) as Hsys by (apply server_sys_ok; [done|split; by left]).
  destruct (sys_run_refines es _ s Hr Hsys sys_inv_new) as (Hrun & Hev & Hi); [constructor|].
  destruct (settled_given es s id k Hr Hsys Hk Hs Ha Hh Hl) as (d & Hrep & Heq).
  destruct Hd as [Hq Hp]. destruct (si_ws _ Hi id k Hk) as [Hg _]. rewrite Hg, Hq, Hp, !app_nil_r in Hrep.
  assert (snaps_known (caller (chan_ s))) as [_ [Hn|(m & Hm & Hc)]].
  { eapply run_snaps; [done..|]. split; by left. }
  - pose proof (chan_run_inv _ _ _ Hrun Hev inv_new) as Hci. by destruct (inv_clients _ Hci id Hs Ha Hh).
  - exists d, m. rewrite Hc in Heq. split_and!; try done. by apply snapshot_size.
Qed.
End channel.

(** ** Examples *)

#[local] Existing Instance sha1_demo.
#[local] Existing Instance handles_demo.
#[local] Existing Instance lt_demo.
#[local] Existing Instance parsers_demo.
#[local] Existing Instance session_demo.
#[local] Existing Instance demo_metrics.
#[local] Existing Instance documented_eq.
#[local] Existing Instance text_demo.

Definition moment_of (s : sheath) : moment := mk_moment demo_clocks (map_to_list (m_all_handles s)) s.

(** No torrent yet, then one. *)
Definition demo_before : moment := moment_of (set_svs demo_values demo_sheath).
Definition demo_now : moment := moment_of demo_snap_state.

Lemma moment_of_ok s :
  forallb (fun kv => not_nan (progress kv.2)) (map_to_list (m_all_handles s)) = true ->
  defined (session_stats demo_clocks s) = true -> moment_ok (moment_of s).
Proof.
  intros Hn Hd. split; [done|]. split.
  - intros h st Hst. apply elem_of_map_to_list in Hst. apply forallb_Forall in Hn.
    rewrite Forall_forall in Hn. by apply Hn in Hst.
  - cbn. by destruct (session_stats demo_clocks s).
Qed.

Lemma demo_before_ok : moment_ok demo_before.
Proof. apply moment_of_ok; vm_compute; reflexivity. Qed.
Lemma demo_now_ok : moment_ok demo_now.
Proof. apply moment_of_ok; vm_compute; reflexivity. Qed.

Definition demo_feeds : list feed :=
  [feed_join 1 "" 1234 demo_before; feed_round demo_before; feed_join 2 "b" 1000 demo_before;
   feed_round demo_now; feed_leave 1].

Lemma sync_end_to_end_witness :
  let c := foldl sync_exec new_caller (feed_op <$> demo_feeds) in
  exists ms d, outbox c !! 2 = Some ms /\ replica ms = Some d /\ d ≡ curr_stats c.
Proof.
  apply (sync_end_to_end (jel := documented_eq_laws) (txl := text_demo_laws) demo_feeds 2).
  - pose proof demo_before_ok. pose proof demo_now_ok.
    split; [done|]. split; [split; [done|by left]|]. split; [done|].
    split; [split; [done|right; vm_compute; lia]|]. by split.
  - apply (bool_decide_unpack _). vm_compute. done.
Defined.

(** A run over the moments the snapshots are taken at, and its conditions
    decided. *)
Inductive server_step :=
  | join_at (m : moment)
  | round_at (m : moment)
  | other (e : sys_event).

Definition step_event (x : server_step) : sys_event :=
  match x with
  | join_at m => sys_join_read (snapshot m)
  | round_at m => sys_fetch (snapshot m)
  | other e => e
  end.

Definition is_null (j : json) : bool := match j with JNull => true | _ => false end.

Definition server_step_okb (x : server_step) (s : system) : bool :=
  match x with
  | join_at _ => match loop (chan_ s) with fetched | built _ => is_null (prev_stats (caller (chan_ s))) | _ => true end
  | round_at m => is_null (prev_stats (caller (chan_ s)))
      || (size (m_all_handles (mo_state m)) <=? S (torrents_size (prev_stats (caller (chan_ s)))))
  | other (sys_join_read _) | other (sys_fetch _) => false
  | other (sys_read _ _ data _) => negb (defined (json_parse data))
  | other _ => true
  end.

Fixpoint server_okb (xs : list server_step) (s : system) : bool :=
  match xs with
  | [] => true
  | x :: xs' =>
      server_step_okb x s && match sys_exec (step_event x) s with Some s' => server_okb xs' s' | None => true end
  end.

Lemma is_null_eq j : is_null j = true -> j = JNull.
Proof. by destruct j. Qed.

Definition at_ok (x : server_step) : Prop :=
  match x with join_at m | round_at m => moment_ok m | other _ => True end.

Lemma server_okb_ok xs s :
  Forall at_ok xs ->
  server_okb xs s = true -> server_ok (step_event <$> xs) s.
Proof.
  intros Hm. revert s. induction Hm as [|x xs Hx Hm IH]; intros s Hb; [done|]. cbn [server_okb] in Hb. bool_simp. split.
  - destruct x as [m|m|e]; cbn [server_step_okb step_event server_event_ok] in *.
    + split; [by exists m|].
      by destruct (loop (chan_ s)); try apply is_null_eq.
    + exists m. split; [done|]. split; [done|].
      destruct (is_null _) eqn:Hn; [left; by apply is_null_eq|right; by apply Nat.leb_le].
    + destruct e; try done. intros doc. unfold client_step. by destruct (json_parse data).
  - destruct (sys_exec _ s); [by apply IH|done].
Qed.

(** The two clients of [demo_feeds], down to their sockets: the second joins
    while the first round is being sent, the list of torrents grows in the
    second round. *)
Definition demo_steps : list server_step :=
  [other (sys_accept 1 "/api/sync"); other (sys_join_insert 1 1234); join_at demo_before; other sys_join_send;
   other (sys_strand 1); other sys_check; other sys_bump; other (sys_accept 2 "/api/sync?id=ab"); round_at demo_before;
   other sys_build; other (sys_copy [1]); other (sys_join_insert 2 1000); join_at demo_before; other sys_send;
   other (sys_write 1 ec_ok); other sys_join_send; other (sys_strand 1); other (sys_strand 2); other sys_keep;
   other (sys_write 1 ec_ok); other (sys_read 1 ec_closed "" []); other sys_check; other sys_bump; round_at demo_now;
   other sys_build; other (sys_copy [2; 1]); other (sys_expire 1); other sys_send; other sys_send; other (sys_leave 1);
   other sys_keep; other (sys_write 2 ec_ok); other (sys_strand 2); other (sys_write 2 ec_ok)].

Definition demo_server_events : list sys_event := step_event <$> demo_steps.
Definition demo_server : system := default new_system (sys_run demo_server_events new_system).
Definition demo_client : conn := default (mk_conn new_ws false false) (conns demo_server !! 2).

Lemma demo_server_run : sys_run demo_server_events new_system = Some demo_server.
Proof.
  assert (defined (sys_run demo_server_events new_system) = true) as Hd by (vm_compute; reflexivity).
  unfold demo_server. by destruct (sys_run demo_server_events new_system).
Qed.

Lemma demo_server_ok : server_ok demo_server_events new_system.
Proof.
  apply server_okb_ok; [|vm_compute; reflexivity].
  repeat (constructor; [exact I || apply demo_before_ok || apply demo_now_ok|]). constructor.
Qed.

Lemma channel_end_to_end_witness :
  exists d m, replica (sent (ws demo_client)) = Some d /\ d ≡ snapshot m /\ moment_ok m
              /\ curr_stats (caller (chan_ demo_server)) = snapshot m
              /\ torrents_size (snapshot m) = size (m_all_handles (mo_state m)).
Proof.
  apply (channel_end_to_end (jel := documented_eq_laws) (txl := text_demo_laws) demo_server_events demo_server 2).
  - apply demo_server_ok.
  - apply demo_server_run.
  - vm_compute. reflexivity.
  - apply (bool_decide_unpack _). vm_compute. done.
  - apply (bool_decide_unpack _). vm_compute. done.
  - vm_compute. reflexivity.
  - vm_compute. reflexivity.
  - split; vm_compute; reflexivity.
Defined.
