(* ===== verification/Process.v ===== *)
(** * The process and its threads (src/main.cpp)

    [main] and the threads it starts, as steps on what they share: the server
    state, the HTTP connections, the sync channel with its sessions, the flag
    [quit] and the I/O context.  Each step is an operation of [Sheath],
    [Torrents], [HttpSession] or [Delivery], taken by the thread whose turn it
    is; here they meet: a request is answered from the server state of that
    moment, between any two alerts of a round of the session's thread; a
    snapshot the channel sends is one of the server state at that moment; and
    the end of the program waits for every thread. *)

From S2P Require Import Prelude CStd Json JsonPatch JsonDiff Fs Util SessionStats TorrentStatus Libtorrent.
From S2P Require Import HttpUtil Demo JsonText Sheath Torrents Accounting Handlers HttpSession Sync WebSocket.
From S2P Require Import Rounds Delivery Channel.

(** The main thread: in [ioc.run], before [closeWS], before each of the joins
    in their order, in the destructors of its locals, and at the end. *)
Inductive main_pc :=
  | serving | closing | joining_io | joining_loader | joining_session | joining_caller | destroying | ended.

#[global] Instance main_pc_eq_dec : EqDecision main_pc.
Proof. solve_decision. Defined.

Section process.
Context {sha : Sha1} {ltd : LtData} {hs : Handles} {ltp : LtParsers} {lts : Session} {mt : Metrics}.
Context {beast : Beast} {jeq : JsonEq} {text : JsonText} {fls : Files} {eof : NeedEof}.

(** The thread of [sheath::doLoop]: before it reads the flag, asleep in a
    round, with the alerts it has popped and not handled, with the files it has
    not come to, out of the loop, and after it has stopped the I/O context. *)
Inductive session_pc :=
  | looping
  | posted_
  | popping (todo : list alert)
  | scanning (now : Z) (todo : list string)
  | leaving
  | left_.

Definition out (t : session_pc) : bool := match t with leaving | left_ => true | _ => false end.

(** The listener, the connections by their number, the directory of the web
    UI. *)
Record front := mk_front { listens_ : listener; http : gmap nat http_session; ui_root_ : string }.

(** [to_load] are the names the loader has not come to, [None] when its
    thread has ended; [io_threads] the threads besides the main one that are in
    [ioc.run]. *)
Record process := mk_process {
  server : sheath;
  web : front;
  sync : system;
  quit : bool;
  stopped : bool;
  to_load : option (list string);
  session_thread : session_pc;
  caller_on : bool;
  io_threads : nat;
  pc : main_pc;
}.

Definition with_server v p :=
  mk_process v (web p) (sync p) (quit p) (stopped p) (to_load p) (session_thread p) (caller_on p) (io_threads p) (pc p).
Definition with_web v p :=
  mk_process (server p) v (sync p) (quit p) (stopped p) (to_load p) (session_thread p) (caller_on p) (io_threads p) (pc p).
Definition with_sync v p :=
  mk_process (server p) (web p) v (quit p) (stopped p) (to_load p) (session_thread p) (caller_on p) (io_threads p) (pc p).
Definition with_quit v p :=
  mk_process (server p) (web p) (sync p) v (stopped p) (to_load p) (session_thread p) (caller_on p) (io_threads p) (pc p).
Definition with_stopped v p :=
  mk_process (server p) (web p) (sync p) (quit p) v (to_load p) (session_thread p) (caller_on p) (io_threads p) (pc p).
Definition with_to_load v p :=
  mk_process (server p) (web p) (sync p) (quit p) (stopped p) v (session_thread p) (caller_on p) (io_threads p) (pc p).
Definition with_session_thread v p :=
  mk_process (server p) (web p) (sync p) (quit p) (stopped p) (to_load p) v (caller_on p) (io_threads p) (pc p).
Definition with_caller_on v p :=
  mk_process (server p) (web p) (sync p) (quit p) (stopped p) (to_load p) (session_thread p) v (io_threads p) (pc p).
Definition with_io_threads v p :=
  mk_process (server p) (web p) (sync p) (quit p) (stopped p) (to_load p) (session_thread p) (caller_on p) v (pc p).
Definition with_pc v p :=
  mk_process (server p) (web p) (sync p) (quit p) (stopped p) (to_load p) (session_thread p) (caller_on p) (io_threads p) v.

(** All threads started: [listing] is what the loader's iterator gives,
    [f] the listener after its [run]. *)
Definition new_process (s : sheath) (f : front) (listing : option (list string)) (io : nat) : process :=
  mk_process s f new_system false false (Some (default [] listing)) looping true io serving.

(** ** Steps *)

Notation walk := (gmap torrent_handle torrent_status -> list (torrent_handle * torrent_status)).

Inductive pevent :=
  | ev_signal                                    (* SIGINT or SIGTERM *)
  | ev_session (ses : session)                   (* libtorrent's own threads *)
  | ev_load                                      (* the loader: one name *)
  | ev_loaded
  | ev_post                                      (* a round of the session's thread *)
  | ev_pop (alerts : list alert)
  | ev_alert
  | ev_time (now : Z) (listing : option (list string))
  | ev_scan
  | ev_scanned
  | ev_session_quit
  | ev_session_stop
  | ev_caller_check                              (* the thread of [httpCaller::doLoop] *)
  | ev_caller_step (e : sys_event)
  | ev_caller_fetch (k : clocks) (order : walk)
  | ev_caller_quit
  | ev_accept (ok : bool)                        (* an I/O thread: a connection, or an error *)
  | ev_http_read (id : nat) (res : read_result) (wid : nat) (k : clocks) (order : walk)
                                                 (* an upgrade makes the session [wid] *)
  | ev_http_write (id : nat) (ok : bool)
  | ev_io (e : sys_event)                        (* an I/O thread runs a handler *)
  | ev_io_fetch (k : clocks) (order : walk)      (* [join] reads the snapshot *)
  | ev_io_leave                                  (* an I/O thread leaves [run] *)
  | ev_destructor (e : sys_event)                (* of a session, on any thread *)
  | ev_main_leave
  | ev_close_ws
  | ev_join
  | ev_destroy (id : nat)                        (* the context frees a session's handlers *)
  | ev_end (popped : nat -> list alert) (waits : list (option (list alert))).

(** Steps that begin a handler, and those that go on with one. *)
Definition begins (e : sys_event) : bool :=
  match e with
  | sys_handshake_failed _ | sys_join_insert _ _ | sys_read _ _ _ _ | sys_strand _ | sys_write _ _ => true
  | _ => false
  end.

Definition goes_on (e : sys_event) : bool :=
  match e with sys_join_send | sys_text _ => true | _ => false end.

Definition round_step (e : sys_event) : bool :=
  match e with sys_bump | sys_build | sys_copy _ | sys_send | sys_keep => true | _ => false end.

(** The handlers that are under way between steps: a join, and the broadcasts
    that have sessions left. *)
Definition left_over (t : string * list nat) : bool := match t.2 with [] => false | _ => true end.

Definition busy (s : system) : nat :=
  (if is_unlocked (mutex (chan_ s)) then 0 else 1) + length (filter (fun t => left_over t = true) (texts s)).

(** The threads in [ioc.run]. *)
Definition running (p : process) : nat :=
  io_threads p + match pc p with serving => 1 | _ => 0 end.

(** A thread of the context that has no handler. *)
Definition free (p : process) : bool := busy (sync p) <? running p.

Definition snap_now (k : clocks) (order : walk) (s : sheath) : option json :=
  getSyncStats k (order (m_all_handles s)) s.

(** A step of the sessions and the channel. *)
Definition sync_step (e : sys_event) (p : process) : option process :=
  s ← sys_exec e (sync p); Some (with_sync s p).

Definition set_http (id : nat) (h : http_session) (p : process) : process :=
  with_web (mk_front (listens_ (web p)) (<[id := h]> (http (web p))) (ui_root_ (web p))) p.

(** [None]: the step is not possible, or it throws or is undefined. *)
Definition proc_exec (e : pevent) (p : process) : option process :=
  match e with
  | ev_signal => if negb (quit p) && free p then Some (with_quit true p) else None
  | ev_session ses =>
      match pc p with ended => None | _ => Some (with_server (set_ses ses (calls (server p)) (server p)) p) end
  | ev_load =>
      match to_load p with
      | Some (n :: names) => Some (with_to_load (Some names) (with_server (load_resume n (server p)) p))
      | _ => None
      end
  | ev_loaded => match to_load p with Some [] => Some (with_to_load None p) | _ => None end
  | ev_post =>
      match session_thread p with
      | looping =>
          if quit p then None else Some (with_session_thread posted_ (with_server (post_requests (server p)) p))
      | _ => None
      end
  | ev_pop alerts =>
      match session_thread p with posted_ => Some (with_session_thread (popping alerts) p) | _ => None end
  | ev_alert =>
      match session_thread p with
      | popping (a :: todo) =>
          '(_, s) ← handle_alert a (server p); Some (with_session_thread (popping todo) (with_server s p))
      | _ => None
      end
  | ev_time now listing =>
      match session_thread p with
      | popping [] =>
          let due := enable_watch (cfg (server p)) && (next_dir_scan (server p) <? now)%Z in
          Some (with_session_thread (if due then scanning now (default [] listing) else looping) p)
      | _ => None
      end
  | ev_scan =>
      match session_thread p with
      | scanning now (n :: todo) =>
          match scan_loop (dir_watches (cfg (server p))) [n] (server p) with
          | (true, s) => Some (with_session_thread (scanning now todo) (with_server s p))
          | _ => None
          end
      | _ => None
      end
  | ev_scanned =>
      match session_thread p with
      | scanning now [] =>
          Some (with_session_thread looping
                  (with_server (set_next_scan (now + WATCH_INTERVAL * 1000000000) (server p)) p))
      | _ => None
      end
  | ev_session_quit =>
      match session_thread p with looping => if quit p then Some (with_session_thread leaving p) else None | _ => None end
  | ev_session_stop =>
      match session_thread p with leaving => Some (with_stopped true (with_session_thread left_ p)) | _ => None end
  | ev_caller_check => if caller_on p && negb (quit p) then sync_step sys_check p else None
  | ev_caller_step e => if caller_on p && round_step e then sync_step e p else None
  | ev_caller_fetch k order =>
      if caller_on p then snap ← snap_now k order (server p); sync_step (sys_fetch snap) p else None
  | ev_caller_quit =>
      match loop (chan_ (sync p)) with
      | idle => if caller_on p && quit p then Some (with_caller_on false p) else None
      | _ => None
      end
  | ev_accept ok =>
      if negb (stopped p) && free p && accepting (listens_ (web p)) then
        let l := listens_ (web p) in
        Some (with_web (mk_front (HttpSession.on_accept ok l)
                          (if ok then <[sessions l := run_session]> (http (web p)) else http (web p))
                          (ui_root_ (web p))) p)
      else None
  | ev_http_read id res wid k order =>
      if negb (stopped p) && free p then
        h ← http (web p) !! id;
        match HttpSession.pending h with
        | Some HttpSession.reading =>
            '(h, s) ← HttpSession.on_read (api := sheath_api k order) (ui_root_ (web p)) (files (server p)) res h (server p);
            let p := with_server s (set_http id h p) in
            match res with
            | read_request req true => sync_step (sys_accept wid (req_target req)) p
            | _ => Some p
            end
        | _ => None
        end
      else None
  | ev_http_write id ok =>
      if negb (stopped p) && free p then
        h ← http (web p) !! id;
        match HttpSession.pending h with
        | Some (writing r) => Some (set_http id (HttpSession.on_write ok r h) p)
        | _ => None
        end
      else None
  | ev_io e =>
      if goes_on e || (begins e && negb (stopped p) && free p) then sync_step e p else None
  | ev_io_fetch k order =>
      snap ← (match curr_stats (caller (chan_ (sync p))) with
              | JNull => snap_now k order (server p)
              | _ => Some (snapshot (mk_moment k (order (m_all_handles (server p))) (server p)))
              end);
      sync_step (sys_join_read snap) p
  | ev_io_leave =>
      if stopped p && (0 <? io_threads p) && free p then Some (with_io_threads (pred (io_threads p)) p) else None
  | ev_destructor e =>
      match e with
      | sys_expire _ => sync_step e p
      | sys_leave id => if bool_decide (id ∈ sessions_ (caller (chan_ (sync p)))) then sync_step e p else None
      | _ => None
      end
  | ev_main_leave =>
      match pc p with serving => if stopped p && free p then Some (with_pc closing p) else None | _ => None end
  | ev_close_ws => match pc p with closing => with_pc joining_io <$> sync_step sys_close_ws p | _ => None end
  | ev_join =>
      match pc p with
      | joining_io => if io_threads p =? 0 then Some (with_pc joining_loader p) else None
      | joining_loader => match to_load p with None => Some (with_pc joining_session p) | Some _ => None end
      | joining_session => match session_thread p with left_ => Some (with_pc joining_caller p) | _ => None end
      | joining_caller => if caller_on p then None else Some (with_pc destroying p)
      | _ => None
      end
  | ev_destroy id =>
      match pc p with
      | destroying =>
          c ← chan_run [ev_expire id; ev_leave id] (chan_ (sync p));
          Some (with_sync (mk_system c (conns (sync p)) (texts (sync p))) p)
      | _ => None
      end
  | ev_end popped waits =>
      match pc p with
      | destroying =>
          if bool_decide (alive (chan_ (sync p)) = ∅ /\ sessions_ (caller (chan_ (sync p))) = ∅) then
            match end_ popped waits (server p) with
            | Some (true, s) => Some (with_pc ended (with_server s p))
            | _ => None
            end
          else None
      | _ => None
      end
  end.

Fixpoint proc_run (es : list pevent) (p : process) : option process :=
  match es with
  | [] => Some p
  | e :: es' => p' ← proc_exec e p; proc_run es' p'
  end.

Lemma proc_run_app es1 es2 p : proc_run (es1 ++ es2) p = (p1 ← proc_run es1 p; proc_run es2 p1).
Proof. revert p. induction es1 as [|e es1 IH]; intros p; [done|]. simpl. by destruct (proc_exec e p); simpl. Qed.

Lemma proc_run_rest es1 es2 p p1 p2 :
  proc_run (es1 ++ es2) p = Some p2 -> proc_run es1 p = Some p1 -> proc_run es2 p1 = Some p2.
Proof. intros Hr H1. by rewrite proc_run_app, H1 in Hr. Qed.

(** ** A round *)

(** The steps of the session's thread that are one round. *)
Definition round_event (e : pevent) : bool :=
  match e with ev_post | ev_pop _ | ev_alert | ev_time _ _ | ev_scan | ev_scanned => true | _ => false end.

(** All of that thread's steps. *)
Definition session_event (e : pevent) : bool :=
  round_event e || match e with ev_session_quit | ev_session_stop => true | _ => false end.

Lemma alerts_run al s p :
  session_thread p = popping al -> pop_alerts al (server p) = Some s ->
  proc_run (replicate (length al) ev_alert) p = Some (with_session_thread (popping []) (with_server s p)).
Proof.
  revert p. induction al as [|a al IH]; intros p Hp; cbn [pop_alerts length replicate proc_run proc_exec].
  - intros [= <-]. destruct p; cbn in *; by subst.
  - rewrite Hp. destruct (handle_alert a (server p)) as [[r s1]|]; [|done]. cbn [mbind option_bind]. intros Ha. by rewrite IH.
Qed.

Lemma scans_run now names s p :
  session_thread p = scanning now names -> scan_loop (dir_watches (cfg (server p))) names (server p) = (true, s) ->
  proc_run (replicate (length names) ev_scan) p = Some (with_session_thread (scanning now []) (with_server s p)).
Proof.
  revert p. induction names as [|n names IH]; intros p Hp; [intros [= <-]; destruct p; cbn in *; by subst|].
  rewrite scan_loop_cons. cbn [length replicate proc_run proc_exec]. rewrite Hp.
  pose proof (scan_dir_cfg (dir_watches (cfg (server p))) (Some [n]) (server p)) as Hc. unfold scan_dir in Hc.
  destruct (scan_loop _ [n] _) as [[] s1]; [|done]. cbn [mbind option_bind snd] in *. intros Hs.
  rewrite IH; [done|done|]. cbn [with_session_thread with_server server]. by rewrite Hc.
Qed.

(** [sheath::doLoop] is these steps with none of another thread between. *)
Lemma session_round al now listing p s :
  session_thread p = looping -> quit p = false -> Torrents.doLoop al now listing (server p) = Some (true, s) ->
  exists es, forallb round_event es = true /\ proc_run es p = Some (with_server s p).
Proof.
  intros Hp Hq. unfold Torrents.doLoop. destruct (pop_alerts al _) as [s1|] eqn:Ha; [|done]. cbn [mbind option_bind]. intros Hs.
  set (p1 := with_session_thread (popping al) (with_server (post_requests (server p)) p)).
  assert (forall n e, round_event e = true -> forallb round_event (replicate n e) = true) as Hrep
    by (intros n e He; induction n; cbn; by rewrite ?He).
  pose proof (alerts_run al s1 p1 eq_refl Ha) as Hal.
  destruct (enable_watch (cfg s1) && (next_dir_scan s1 <? now)%Z) eqn:Hdue.
  - destruct (scan_dir _ _ _) as [[] s2] eqn:Hd; simplify_eq.
    set (p2 := with_session_thread (scanning now (default [] listing)) (with_server s1 p1)).
    assert (scan_loop (dir_watches (cfg (server p2))) (default [] listing) (server p2) = (true, s2)) as Hd'
      by (by destruct listing).
    exists ([ev_post; ev_pop al] ++ replicate (length al) ev_alert ++ [ev_time now listing]
            ++ replicate (length (default [] listing)) ev_scan ++ [ev_scanned]).
    rewrite !forallb_app, !Hrep by done. split; [done|]. cbn [app proc_run proc_exec]. rewrite Hp, Hq. cbn [mbind option_bind proc_exec session_thread with_session_thread].
    change (with_session_thread (popping al) (with_session_thread posted_ (with_server (post_requests (server p)) p))) with p1.
    rewrite proc_run_app, Hal. cbn [mbind option_bind proc_run proc_exec session_thread with_session_thread with_server server].
    rewrite Hdue. change (with_session_thread _ (with_session_thread _ (with_server s1 p1))) with p2.
    rewrite proc_run_app, (scans_run now _ s2 p2 eq_refl Hd'). cbn.
    do 2 f_equal. by destruct p; cbn in *; subst.
  - simplify_eq. exists ([ev_post; ev_pop al] ++ replicate (length al) ev_alert ++ [ev_time now listing]).
    rewrite !forallb_app, !Hrep by done. split; [done|]. cbn [app proc_run proc_exec]. rewrite Hp, Hq. cbn [mbind option_bind proc_exec session_thread with_session_thread].
    change (with_session_thread (popping al) (with_session_thread posted_ (with_server (post_requests (server p)) p))) with p1.
    rewrite proc_run_app, Hal. cbn [mbind option_bind proc_run proc_exec session_thread with_session_thread with_server server].
    rewrite Hdue. f_equal. by destruct p; cbn in *; subst.
Qed.

(** ** The threads *)

(** What the main thread has left to do. *)
Definition pc_left (m : main_pc) : nat :=
  match m with
  | serving => 7 | closing => 6 | joining_io => 5 | joining_loader => 4
  | joining_session => 3 | joining_caller => 2 | destroying => 1 | ended => 0
  end.

Record proc_inv (p : process) : Prop := {
  pi_busy : busy (sync p) <= running p;
  pi_sys : 2 <= pc_left (pc p) -> sys_inv (sync p);
  pi_left : stopped p = true <-> session_thread p = left_;
  pi_quit : out (session_thread p) = true -> quit p = true;
  pi_serving : pc_left (pc p) <= 6 -> stopped p = true;
  pi_caller : caller_on p = false -> loop (chan_ (sync p)) = idle /\ quit p = true;
  pi_io : pc_left (pc p) <= 4 -> io_threads p = 0;
  pi_loader : pc_left (pc p) <= 3 -> to_load p = None;
  pi_joined : pc_left (pc p) <= 1 -> caller_on p = false;
  pi_ended : pc p = ended -> alive (chan_ (sync p)) = ∅ /\ sessions_ (caller (chan_ (sync p))) = ∅;
}.

Definition left_texts (ts : list (string * list nat)) : nat := length (filter (fun t => left_over t = true) ts).

Lemma left_texts_insert ts i m id todo todo' :
  ts !! i = Some (m, id :: todo) ->
  left_texts (<[i := (m, todo')]> ts) <= left_texts ts.
Proof.
  unfold left_texts. revert i. induction ts as [|t ts IH]; intros [|i] Hi; simplify_eq/=;
    rewrite !filter_cons; [repeat case_decide; simpl in *; try done; lia|]. specialize (IH _ Hi). case_decide; simpl; lia.
Qed.

Lemma left_texts_snoc ts t : left_texts (ts ++ [t]) <= S (left_texts ts).
Proof. unfold left_texts. rewrite filter_app, length_app, filter_cons, filter_nil. case_decide; simpl; lia. Qed.

(** What a step leaves of the handlers under way. *)
Lemma lift_busy e s s' :
  lift e s = Some s' -> match e with ev_join_insert _ _ _ => False | _ => True end -> busy s' <= busy s.
Proof.
  intros (c & Hc & ->)%lift_Some He. unfold busy. cbn [chan_ texts].
  enough (is_unlocked (mutex (chan_ s)) = true -> is_unlocked (mutex c) = true) as Hm
    by (destruct (is_unlocked (mutex (chan_ s))), (is_unlocked (mutex c)); try lia; by discriminate Hm).
  destruct e; try done; exec_cases Hc; cbn; rewrite ?Hm; try done.
  all: repeat case_match; try done; cbn; congruence.
Qed.

Lemma busy_step e s s' :
  sys_exec e s = Some s' -> busy s' <= busy s + (if begins e then 1 else 0).
Proof.
  destruct e as [id target|id|id rnd|snap| | | |snap| |order| | |id ec data order|i|id|id ec|id|id|]; cbn [sys_exec begins];
    rewrite ?Nat.add_0_r.
  4, 6, 7, 8, 9, 10, 12, 18: (intros Hl; by eapply lift_busy).
  - destruct (run target new_ws); [|done]. cbn [mbind option_bind]. destruct (lift _ _) as [s1|] eqn:Hl; [|done].
    intros [= <-]. apply lift_busy in Hl; [|done]. unfold busy in *. cbn in *. lia.
  - destruct (conns s !! id) as [k|]; [|done]. cbn [mbind option_bind]. destruct (_ && _); [|done]. intros [= <-].
    unfold busy. cbn. lia.
  - destruct (conns s !! id) as [k|]; [|done]. cbn [mbind option_bind]. destruct (opening k); [|done].
    intros (c & Hc & ->)%lift_Some. unfold busy. cbn. repeat case_match; lia.
  - destruct (mutex (chan_ s)) as [| |id qid body] eqn:Hm; try done. unfold lift_give.
    destruct (lift _ _) as [s1|] eqn:Hl; [|done]. cbn [fmap option_fmap option_map mbind option_bind].
    apply lift_busy in Hl; [|done]. destruct (conns _ !! id); [|done]. cbn [mbind option_bind]. intros [= <-].
    unfold busy in *. cbn in *. lia.
  - destruct (loop (chan_ s)) as [| | | |m|m [|id todo]]; try done. unfold lift_give. case_bool_decide; [|by intros Hl; eapply lift_busy].
    destruct (lift _ _) as [s1|] eqn:Hl; [|done]. intros [= <-]. change (busy s1 <= busy s). by eapply lift_busy.
  - destruct (conns s !! id) as [k|]; [|done]. cbn [mbind option_bind]. destruct (negb (reading k)); [done|].
    destruct (WebSocket.on_read ec data (ws k)) as [[|[|m|] effects] w]; try (intros [= <-]; unfold busy; cbn; lia).
    destruct (_ && _); [|done]. intros [= <-]. unfold busy. cbn.
    pose proof (left_texts_snoc (texts s) (m, order)). unfold left_texts in *. lia.
  - destruct (texts s !! i) as [[m [|id todo]]|] eqn:Hi; try done.
    pose proof (left_texts_insert (texts s) i m id todo todo Hi) as Hle. unfold left_texts in Hle.
    case_bool_decide; [|intros [= <-]; unfold busy; cbn; lia].
    unfold lift_give. destruct (lift _ _) as [s1|] eqn:Hl; [|done]. intros [= <-]. apply lift_busy in Hl; [|done].
    unfold busy in *. cbn in *. lia.
  - destruct (conns s !! id) as [k|]; [|done]. cbn [mbind option_bind]. destruct (posted (ws k)); [done|]. intros [= <-].
    unfold busy. cbn. lia.
  - destruct (conns s !! id) as [k|]; [|done]. cbn [mbind option_bind]. destruct (written (ws k)); [done|]. intros [= <-].
    unfold busy. cbn. lia.
  - destruct (conns s !! id) as [k|]; [|done]. cbn [mbind option_bind]. destruct (owned k); [done|]. intros Hl. by eapply lift_busy.
  - destruct (_ && _); [|done]. intros [= <-]. unfold busy. cbn. lia.
Qed.

(** The round of the channel's own thread goes on only in its steps. *)
Definition caller_event (e : event) : bool :=
  match e with
  | ev_check | ev_bump | ev_fetch _ | ev_build | ev_copy _ | ev_send | ev_keep => true
  | _ => false
  end.

Lemma chan_loop_kept e c c' : chan_exec e c = Some c' -> caller_event e = false -> loop c' = loop c.
Proof. intros Hc He. destruct e; try done; exec_cases Hc; done. Qed.

Lemma chan_loops_kept es c c' :
  chan_run es c = Some c' -> forallb (fun e => negb (caller_event e)) es = true -> loop c' = loop c.
Proof.
  revert c. induction es as [|e es IH]; intros c Hr Hes; cbn [chan_run forallb] in *; [by simplify_eq|].
  bool_simp. destruct (chan_exec e c) as [c1|] eqn:Hc; [|done]. cbn [mbind option_bind] in Hr.
  rewrite (IH c1) by done. by eapply chan_loop_kept.
Qed.

Definition caller_step (e : sys_event) : bool :=
  match e with
  | sys_check | sys_bump | sys_fetch _ | sys_build | sys_copy _ | sys_send | sys_keep => true
  | _ => false
  end.

Lemma loop_kept e s s' :
  sys_exec e s = Some s' -> caller_step e = false -> loop (chan_ s') = loop (chan_ s).
Proof.
  intros Hx He. apply (chan_loops_kept (abs e s)); [by eapply view_refines, sys_exec_view|].
  destruct e; try done; cbn [abs]; repeat case_match; done.
Qed.

Lemma sync_step_inv e p p' :
  sync_step e p = Some p' -> exists s, sys_exec e (sync p) = Some s /\ p' = with_sync s p.
Proof. unfold sync_step. destruct (sys_exec e (sync p)) as [s|]; [|done]. intros [= <-]. eauto. Qed.

Lemma busy_zero s :
  busy s <= 0 -> mutex (chan_ s) = unlocked /\ forall i m id todo, texts s !! i <> Some (m, id :: todo).
Proof.
  unfold busy. intros Hb. split; [destruct (mutex (chan_ s)); [done|simpl in Hb; lia..]|].
  intros i m id todo Hi. assert ((m, id :: todo) ∈ filter (fun t => left_over t = true) (texts s)) as Hin.
  { apply list_elem_of_filter. split; [done|]. by eapply list_elem_of_lookup_2. }
  destruct (filter _ (texts s)); [by apply elem_of_nil in Hin|simpl in Hb; lia].
Qed.

Lemma sync_keeps e p s' :
  sys_exec e (sync p) = Some s' -> busy s' <= running p -> caller_on p = true \/ caller_step e = false ->
  pc p <> ended -> proc_inv p -> proc_inv (with_sync s' p).
Proof.
  intros Hx Hb Hc Hpc [Hbusy Hsys Hleft Hquit Hserv Hcall Hio Hload Hjoin Hend].
  split; cbn [with_sync sync server quit stopped to_load session_thread caller_on io_threads pc]; try done.
  - intros Hl. eapply view_keeps; [by apply sys_exec_view|auto].
  - intros Hoff. destruct Hc as [Hc|Hc]; [congruence|]. destruct (Hcall Hoff) as [Hl Hq]. split; [|done].
    by rewrite (loop_kept _ _ _ Hx Hc).
Qed.

(** ** The end is final *)

Lemma ended_final e p : proc_inv p -> pc p = ended -> proc_exec e p = None.
Proof.
  intros Hi Hpc. pose proof Hi as [Hbusy Hsys Hleft Hquit Hserv Hcall Hio Hload Hjoin Hend].
  destruct (Hend Hpc) as [Ha Hs]. rewrite Hpc in *. cbn [pc_left] in *.
  assert (io_threads p = 0) as Hn by (apply Hio; lia). assert (to_load p = None) as Hlo by (apply Hload; lia).
  assert (caller_on p = false) as Hoff by (apply Hjoin; lia). assert (stopped p = true) as Hst by (apply Hserv; lia).
  unfold running in Hbusy. rewrite Hpc, Hn in Hbusy.
  assert (free p = false) as Hf by (unfold free, running; rewrite Hpc, Hn; apply Nat.ltb_ge; lia).
  destruct (busy_zero (sync p)) as [Hm Ht]; [lia|]. apply Hleft in Hst as Hse.
  destruct e; cbn [proc_exec]; rewrite ?Hpc, ?Hoff, ?Hlo, ?Hf, ?Hse, ?andb_false_r, ?orb_false_r; try done.
  - by destruct (loop (chan_ (sync p))).
  - destruct e as [| | | | | | | | | | | | |i| | | | |]; try done; cbn [goes_on]; unfold sync_step; cbn [sys_exec]; [by rewrite Hm|].
    destruct (texts (sync p) !! i) as [[m [|id todo]]|] eqn:Hi'; try done. by apply Ht in Hi'.
  - destruct (curr_stats _); destruct (snap_now k order (server p)); try done; cbn [mbind option_bind];
      unfold sync_step, lift; cbn [sys_exec]; unfold lift; cbn [chan_exec]; rewrite Hm;
      by destruct (loop (chan_ (sync p))).
  - destruct e as [| | | | | | | | | | | | | | | |id|id|]; try done.
    + unfold sync_step. cbn [sys_exec]. destruct (conns (sync p) !! id) as [k|]; [|done]. cbn [mbind option_bind].
      destruct (owned k); [done|]. unfold lift. cbn [chan_exec]. rewrite Ha.
      rewrite bool_decide_eq_false_2 by set_solver. by destruct (loop (chan_ (sync p))).
    + by rewrite bool_decide_eq_false_2 by (rewrite Hs; set_solver).
Qed.

(** ** The invariant *)

Lemma new_process_inv v f listing io : proc_inv (new_process v f listing io).
Proof.
  split; cbn [new_process pc_left pc sync stopped session_thread quit caller_on io_threads to_load];
    try done; try lia; try (intros; apply sys_inv_new). unfold busy, running. cbn. lia.
Qed.

(** Steps that touch neither the channel nor what the other threads wait
    for. *)
Ltac inv_fields :=
  split; cbn [with_server with_web with_quit with_stopped with_to_load with_session_thread with_caller_on with_io_threads with_pc
              set_http server web sync quit stopped to_load session_thread caller_on io_threads pc pc_left].

Lemma server_keeps s w p : proc_inv p -> proc_inv (with_server s (with_web w p)).
Proof. intros []. by inv_fields. Qed.

Lemma round_keeps t s p :
  out t = false -> out (session_thread p) = false -> proc_inv p -> proc_inv (with_session_thread t (with_server s p)).
Proof.
  intros Ht Hp [Hbusy Hsys Hleft Hquit Hserv Hcall Hio Hload Hjoin Hend]. inv_fields; try done; [|congruence].
  rewrite Hleft. split; intros; subst; [by rewrite H in Hp|done].
Qed.

Lemma session_step_keeps e p p' :
  session_event e = true -> proc_exec e p = Some p' -> proc_inv p -> proc_inv p'.
Proof.
  intros Hk He Hi. assert (forall t s, out t = false -> out (session_thread p) = false ->
    proc_inv (with_session_thread t (with_server s p))) as Hround by (intros; by apply round_keeps).
  assert (forall t, with_session_thread t p = with_session_thread t (with_server (server p) p)) as Hsame by done.
  destruct e; try done; clear Hk; cbn [proc_exec] in He; destruct (session_thread p) as [| |[|a al]|t [|n al]| |] eqn:Hse; try done.
  - destruct (quit p); simplify_eq. by apply Hround.
  - simplify_eq. rewrite Hsame. by apply Hround.
  - destruct (handle_alert a (server p)) as [[r s]|]; simplify_eq/=. by apply Hround.
  - simplify_eq. rewrite Hsame. apply Hround; [by destruct (_ && _)|done].
  - destruct (scan_loop _ _ _) as [[] s]; simplify_eq. by apply Hround.
  - simplify_eq. by apply Hround.
  - destruct (quit p) eqn:Hq; simplify_eq. destruct Hi as [Hbusy Hsys Hleft Hquit Hserv Hcall Hio Hload Hjoin Hend].
    inv_fields; try done. by rewrite Hleft, Hse.
  - simplify_eq. destruct Hi as [Hbusy Hsys Hleft Hquit Hserv Hcall Hio Hload Hjoin Hend]. inv_fields; try done.
    intros _. apply Hquit. by rewrite Hse.
Qed.

Lemma http_step_keeps e p p' :
  match e with ev_accept _ | ev_http_write _ _ => true | _ => false end = true ->
  proc_exec e p = Some p' -> proc_inv p -> proc_inv p'.
Proof.
  intros Hk He Hi. assert (forall w, proc_inv (with_web w p)) as Hweb by (intros w; exact (server_keeps (server p) w p Hi)).
  destruct e; try done; clear Hk; cbn [proc_exec] in He; destruct (_ && _); try done.
  - simplify_eq. apply Hweb.
  - destruct (http (web p) !! id) as [h|]; [|done]. cbn [mbind option_bind] in He.
    destruct (HttpSession.pending h) as [[|r]|]; simplify_eq. apply Hweb.
Qed.

Lemma local_keeps e p p' :
  match e with
  | ev_signal | ev_session _ | ev_load | ev_loaded | ev_caller_quit | ev_io_leave => true
  | _ => false
  end = true ->
  proc_exec e p = Some p' -> pc p <> ended -> proc_inv p -> proc_inv p'.
Proof.
  intros Hk He Hpc Hi. pose proof Hi as [Hbusy Hsys Hleft Hquit Hserv Hcall Hio Hload Hjoin Hend].
  destruct e; try done; clear Hk; cbn [proc_exec] in He.
  - destruct (_ && _); simplify_eq. inv_fields; try done. intros Hoff. split; [by apply Hcall|done].
  - assert (p' = with_server (set_ses ses (calls (server p)) (server p)) (with_web (web p) p)) as ->
      by (destruct (pc p); by simplify_eq). by apply server_keeps.
  - destruct (to_load p) as [[|n names]|] eqn:Hl; simplify_eq. inv_fields; try done. intros Hle. by specialize (Hload Hle).
  - destruct (to_load p) as [[|n names]|] eqn:Hl; simplify_eq. inv_fields; done.
  - destruct (loop (chan_ (sync p))) eqn:Hl; try done. destruct (caller_on p) eqn:Hon, (quit p) eqn:Hq; simplify_eq.
    inv_fields; rewrite ?Hq, ?Hl; naive_solver.
  - destruct (stopped p && _ && _) eqn:Hb; simplify_eq. unfold free, running in Hb. bool_simp.
    inv_fields; try done; unfold running in *; cbn [with_io_threads io_threads pc sync]; lia.
Qed.

Lemma sync_step_keeps e p p' :
  sync_step e p = Some p' -> (begins e = true -> free p = true) -> caller_on p = true \/ caller_step e = false ->
  pc p <> ended -> proc_inv p -> proc_inv p'.
Proof.
  intros (s & Hx & ->)%sync_step_inv Hf Hc Hpc Hi. eapply sync_keeps; [done| |done..].
  apply busy_step in Hx. pose proof (pi_busy _ Hi). destruct (begins e); [|lia].
  specialize (Hf eq_refl). unfold free in Hf. bool_simp. lia.
Qed.

Lemma destroy_keeps id p c :
  pc p = destroying -> chan_run [Rounds.ev_expire id; Rounds.ev_leave id] (chan_ (sync p)) = Some c ->
  proc_inv p -> proc_inv (with_sync (mk_system c (conns (sync p)) (texts (sync p))) p).
Proof.
  intros Hpc Hc [Hbusy Hsys Hleft Hquit Hserv Hcall Hio Hload Hjoin Hend].
  pose proof (chan_loops_kept _ _ _ Hc eq_refl) as Hloop.
  assert (is_unlocked (mutex (chan_ (sync p))) = true -> is_unlocked (mutex c) = true) as Hm.
  { cbn [chan_run] in Hc. destruct (chan_exec (Rounds.ev_expire id) (chan_ (sync p))) as [c1|] eqn:H1; [|done].
    cbn [mbind option_bind] in Hc. destruct (chan_exec (Rounds.ev_leave id) c1) as [c2|] eqn:H2; simplify_eq/=.
    exec_cases H1; exec_cases H2; cbn; congruence. }
  split; cbn [with_sync server sync quit stopped to_load session_thread caller_on io_threads pc chan_]; try done.
  - unfold busy, running in *. cbn [with_sync chan_ texts io_threads pc] in *.
    destruct (is_unlocked (mutex (chan_ (sync p)))); [rewrite Hm by done; lia|destruct (is_unlocked (mutex c)); lia].
  - rewrite Hpc. cbn. lia.
  - by rewrite Hloop.
  - by rewrite Hpc.
Qed.

Lemma channel_step_keeps e p p' :
  match e with
  | ev_caller_check | ev_caller_step _ | ev_caller_fetch _ _ | ev_http_read _ _ _ _ _ | ev_io _ | ev_io_fetch _ _
  | ev_destructor _ => true
  | _ => false
  end = true ->
  proc_exec e p = Some p' -> pc p <> ended -> proc_inv p -> proc_inv p'.
Proof.
  intros Hk He Hne Hi. destruct e; try done; clear Hk; cbn [proc_exec] in He.
  - destruct (_ && _) eqn:Hon; [bool_simp|done]. eapply sync_step_keeps; [done..|by left|done|done].
  - destruct (_ && _) eqn:Hon; [bool_simp|done].
    eapply sync_step_keeps; [done|by destruct e|by left|done|done].
  - destruct (caller_on p) eqn:Hon; [|done]. destruct (snap_now _ _ _); [|done]. cbn [mbind option_bind] in He.
    eapply sync_step_keeps; [done..|by left|done|done].
  - destruct (_ && _) eqn:Hon; [|done]. destruct (http (web p) !! id) as [h|]; [|done]. cbn [mbind option_bind] in He.
    destruct (HttpSession.pending h) as [[|r]|]; try done.
    destruct (HttpSession.on_read _ _ _ _ _) as [[h1 s]|]; [|done]. cbn [mbind option_bind] in He.
    pose proof (server_keeps s (mk_front (listens_ (web p)) (<[id := h1]> (http (web p))) (ui_root_ (web p))) p Hi) as Hi1.
    destruct res as [| | |req [|]]; simplify_eq; try exact Hi1.
    eapply sync_step_keeps; [done|done|by right|done|exact Hi1].
  - destruct (goes_on e || _) eqn:Hb; [|done]. eapply sync_step_keeps; [done| |right; by destruct e|done|done].
    intros Hbe. rewrite Hbe in Hb. destruct (goes_on e) eqn:Hg; [by destruct e|]. simpl in Hb. bool_simp. done.
  - destruct (match curr_stats _ with JNull => _ | _ => _ end); [|done]. cbn [mbind option_bind] in He.
    eapply sync_step_keeps; [done..|by right|done|done].
  - assert (sync_step e p = Some p' /\ begins e = false /\ caller_step e = false) as (Hs & Hb & Hc).
    { destruct e; try done. by case_bool_decide. }
    eapply sync_step_keeps; [done|by rewrite Hb|by right|done|done].
Qed.

Lemma main_step_keeps e p p' :
  match e with ev_main_leave | ev_close_ws | ev_join | ev_destroy _ | ev_end _ _ => true | _ => false end = true ->
  proc_exec e p = Some p' -> proc_inv p -> proc_inv p'.
Proof.
  intros Hk He Hi. destruct e; try done; clear Hk; cbn [proc_exec] in He.
  - destruct (pc p) eqn:Hpc; try done. destruct (stopped p) eqn:Hst; [|done]. destruct (free p) eqn:Hf; simplify_eq/=.
    destruct Hi as [Hbusy Hsys Hleft Hquit Hserv Hcall Hio Hload Hjoin Hend]. unfold free, running in *. rewrite Hpc in *.
    bool_simp. inv_fields; try done; try lia; [|intros; apply Hsys; cbn; lia].
    unfold running. cbn. lia.
  - destruct (pc p) eqn:Hpc; try done. destruct (sync_step _ _) as [q|] eqn:Hs; simplify_eq/=.
    apply sync_step_inv in Hs as (s & Hx & ->).
    assert (proc_inv (with_sync s p)) as [Hbusy Hsys Hleft Hquit Hserv Hcall Hio Hload Hjoin Hend].
    { eapply sync_step_keeps; [unfold sync_step; by rewrite Hx|done|by right|by rewrite Hpc|done]. }
    cbn [with_sync sync pc io_threads to_load caller_on] in *. unfold running in *. cbn [with_sync pc io_threads] in *.
    rewrite Hpc in *. cbn [pc_left] in *. inv_fields; try done; try lia.
    + intros _. apply Hsys. lia.
    + intros _. apply Hserv. lia.
  - destruct Hi as [Hbusy Hsys Hleft Hquit Hserv Hcall Hio Hload Hjoin Hend].
    destruct (pc p) eqn:Hpc; try done; cbn [pc_left] in *;
      [destruct (io_threads p) eqn:Hn|destruct (to_load p) eqn:Hn|destruct (session_thread p) eqn:Hn|destruct (caller_on p) eqn:Hn];
      simplify_eq/=; unfold running in *; rewrite ?Hpc in *; inv_fields; unfold running; cbn [with_pc pc io_threads];
      rewrite ?Hn; try done; try lia; intros; try (apply Hsys; lia); try (apply Hserv; lia); try (apply Hio; lia);
      try (apply Hload; lia).
  - destruct (pc p) eqn:Hpc; try done. destruct (chan_run _ _) as [c|] eqn:Hc; [|done]. cbn [mbind option_bind] in He.
    simplify_eq. by apply (destroy_keeps id).
  - destruct (pc p) eqn:Hpc; try done. case_bool_decide as Hemp; [|done].
    destruct (end_ _ _ _) as [[[] s1]|]; simplify_eq.
    destruct Hi as [Hbusy Hsys Hleft Hquit Hserv Hcall Hio Hload Hjoin Hend].
    unfold running in *. rewrite Hpc in *. cbn [pc_left] in *. inv_fields; unfold running; cbn; try done; try lia.
    all: intros _; first [apply Hserv; lia|apply Hio; lia|apply Hload; lia|apply Hjoin; lia].
Qed.

Lemma proc_step_inv e p p' : proc_exec e p = Some p' -> proc_inv p -> proc_inv p'.
Proof.
  intros He Hi. assert (pc p <> ended) as Hne by (intros Hpc; by rewrite (ended_final e p Hi Hpc) in He).
  destruct e; first
    [eapply (local_keeps _ p p'); [|exact He|done|done]; reflexivity
    |eapply (session_step_keeps _ p p'); [|exact He|done]; reflexivity
    |eapply (http_step_keeps _ p p'); [|exact He|done]; reflexivity
    |eapply (channel_step_keeps _ p p'); [|exact He|done|done]; reflexivity
    |eapply (main_step_keeps _ p p'); [|exact He|done]; reflexivity].
Qed.

Lemma proc_run_inv es p p' : proc_run es p = Some p' -> proc_inv p -> proc_inv p'.
Proof.
  revert p. induction es as [|e es IH]; intros p Hr; [by simplify_eq/=|]. cbn [proc_run] in Hr.
  destruct (proc_exec e p) as [p1|] eqn:Hx; [|done]. cbn [mbind option_bind] in Hr. intros Hi.
  eapply IH; [done|]. by eapply proc_step_inv.
Qed.
End process.

(** The cases of [proc_exec e p = Some p'], for steps that are alike. *)
Ltac proc_cases He :=
  cbn [proc_exec] in He;
  repeat match type of He with
    | context [match session_thread ?p with _ => _ end] => destruct (session_thread p) eqn:?; try done
    | context [match pc ?p with _ => _ end] => destruct (pc p) eqn:?; try done
    | context [match to_load ?p with _ => _ end] => destruct (to_load p) eqn:?; try done
    | context [match ?x with _ => _ end] => destruct x; try done
    | context [mbind _ ?o] => destruct o as [[? ?]|] eqn:?; try done; cbn [mbind option_bind] in He
    | context [mbind _ ?o] => destruct o eqn:?; try done; cbn [mbind option_bind] in He
    | context [fmap _ ?o] => destruct o eqn:?; try done; cbn [fmap option_fmap option_map] in He
    end; simplify_eq/=;
  repeat match goal with H : sync_step _ _ = Some _ |- _ => apply sync_step_inv in H as (? & ? & ->) end.

(** ** Examples *)

#[local] Existing Instance sha1_demo.
#[local] Existing Instance handles_demo.
#[local] Existing Instance lt_demo.
#[local] Existing Instance parsers_demo.
#[local] Existing Instance session_demo.
#[local] Existing Instance demo_metrics.
#[local] Existing Instance beast_demo.
#[local] Existing Instance documented_eq.
#[local] Existing Instance text_demo.
#[local] Existing Instance files_demo.
#[local] Existing Instance eof_demo.

Definition demo_front : front := mk_front (run_listener (new_listener [true; true; true; true])) ∅ "/ui".
Definition demo_process : process := new_process (set_svs demo_values demo_sheath) demo_front None 1.

(** A client joins, a torrent appears, the next round tells the client. *)
Definition demo_serving : list pevent :=
  [ev_loaded; ev_accept true; ev_http_read 0 (read_request (demo_request verb.get "/api/sync") true) 1 demo_clocks map_to_list; ev_io (sys_join_insert 1 1234); ev_io_fetch demo_clocks map_to_list;
   ev_io sys_join_send; ev_caller_check; ev_caller_step sys_bump; ev_io (sys_strand 1);
   ev_post; ev_pop [metadata_received_alert demo_handle; state_update_alert [demo_status 7 demo_hash]]; ev_alert; ev_accept true; ev_alert;
   ev_time 500 None; ev_scanned;
   ev_caller_fetch demo_clocks map_to_list; ev_caller_step sys_build; ev_caller_step (sys_copy [1]); ev_caller_step sys_send;
   ev_io (sys_write 1 ec_ok); ev_caller_step sys_keep; ev_io (sys_strand 1); ev_io (sys_write 1 ec_ok)].

(** A request pauses the torrent; the signal comes. *)
Definition demo_pause : request := demo_request verb.put ("/api/torrent/" +:+ (demo_hex +:+ "/pause")).

Definition demo_stopping : list pevent :=
  [ev_http_read 1 (read_request demo_pause false) 0 demo_clocks map_to_list; ev_http_write 1 true;
   ev_caller_check; ev_caller_step sys_bump; ev_signal; ev_session_quit; ev_session_stop].

(** Every thread comes to its end. *)
Definition demo_ending : list pevent :=
  [ev_main_leave; ev_caller_fetch demo_clocks map_to_list; ev_caller_step sys_build; ev_close_ws; ev_io_leave; ev_join; ev_join;
   ev_caller_step (sys_copy [1]); ev_join; ev_caller_step sys_send; ev_caller_step sys_keep; ev_caller_quit; ev_join;
   ev_destroy 1;
   ev_end (fun _ => []) [Some [save_resume_data_failed_alert true]; None; Some [save_resume_data_alert (blank_atp demo_hash)]]].

Definition after (es : list pevent) (p : process) : process := default demo_process (proc_run es p).

Lemma after_run es p : defined (proc_run es p) = true -> proc_run es p = Some (after es p).
Proof. unfold after. by destruct (proc_run es p). Qed.

Definition demo_served : process := after demo_serving demo_process.
Definition demo_stopped : process := after (demo_serving ++ demo_stopping) demo_process.
Definition demo_ended : process := after (demo_serving ++ demo_stopping ++ demo_ending) demo_process.

Lemma demo_served_run : proc_run demo_serving demo_process = Some demo_served.
Proof. apply after_run. vm_compute. reflexivity. Qed.
Lemma demo_stopped_run : proc_run (demo_serving ++ demo_stopping) demo_process = Some demo_stopped.
Proof. apply after_run. vm_compute. reflexivity. Qed.
Lemma demo_ended_run : proc_run (demo_serving ++ demo_stopping ++ demo_ending) demo_process = Some demo_ended.
Proof. apply after_run. vm_compute. reflexivity. Qed.
