(* ===== verification/Shutdown.v ===== *)
(** * The end of the process (src/main.cpp)

    Once the signal has been taken, [quit] leads every thread of [Process] out
    of its loop and the main thread through its joins to the destructors: the
    steps that are left are bounded, some thread can always take one, and what
    is reached is the end, with the session saved. *)

From S2P Require Import Prelude CStd Json JsonPatch JsonDiff Fs Util SessionStats TorrentStatus Libtorrent.
From S2P Require Import HttpUtil Demo JsonText Sheath Torrents Accounting Handlers HttpSession Sync WebSocket.
From S2P Require Import Rounds Delivery Channel Process.

Section shutdown.
Context {sha : Sha1} {ltd : LtData} {hs : Handles} {ltp : LtParsers} {lts : Session} {mt : Metrics}.
Context {beast : Beast} {jeq : JsonEq} {text : JsonText} {fls : Files} {eof : NeedEof}.

(** ** What is left to do *)

(** The steps of a round, with [n] sessions in the set; of a join; of the
    channel: its round, its join, the destructors. *)
Definition round_left (ph : phase) (n : nat) : nat :=
  match ph with
  | idle => 0 | checked => 5 + n | bumped => 4 + n | fetched => 3 + n | built _ => 2 + n
  | sending _ todo => 1 + length todo
  end.

Definition join_left (h : holder) : nat :=
  match h with unlocked => 0 | inserted _ _ => 2 | has_body _ _ _ => 1 end.

Definition chan_left (c : chan) : nat :=
  round_left (loop c) (size (sessions_ (caller c))) + join_left (mutex c) + size (alive c) + size (sessions_ (caller c)).

Definition texts_left (ts : list (string * list nat)) : nat := sum_list_with (fun t => length t.2) ts.

Definition sys_left (s : system) : nat := chan_left (chan_ s) + texts_left (texts s).

Definition to_do (p : process) : nat :=
  sys_left (sync p) + (if caller_on p then 1 else 0) + match to_load p with None => 0 | Some l => S (length l) end
  + io_threads p + pc_left (pc p).

Lemma round_left_mono ph n m : n <= m -> round_left ph n <= round_left ph m.
Proof. destruct ph; simpl; lia. Qed.

Lemma size_without (id : nat) (X : gset nat) : id ∈ X -> S (size (X ∖ {[id]})) = size X.
Proof.
  intros Hid. rewrite size_difference by set_solver. rewrite size_singleton.
  assert (size X <> 0) by (intros Hz%size_empty_inv; set_solver). lia.
Qed.

(** The steps of the channel that are left once no handler begins. *)
Definition finishing (e : event) (c : chan) : Prop :=
  match e with
  | ev_bump | ev_fetch _ | ev_build | ev_copy _ | ev_send | ev_keep | ev_join_read _ | ev_join_send | ev_expire _ => True
  | ev_leave id => id ∈ sessions_ (caller c)
  | _ => False
  end.

Lemma finishing_decreases e c c' : chan_exec e c = Some c' -> finishing e c -> chan_left c' < chan_left c.
Proof.
  intros Hx Hf. destruct e; try done; unfold chan_left; exec_cases Hx; cbn [with_caller with_mutex with_loop with_alive
    caller loop mutex alive round_bump set_curr sessions_ Sync.send round_keep Sync.leave]; rewrite ?Hl, ?Hm;
    cbn [round_left join_left]; try lia.
  - match goal with Hc : NoDup _ /\ _ |- _ => destruct Hc as [Hn Ho] end. rewrite <- Ho, size_list_to_set by done. lia.
  - case_bool_decide; cbn [with_caller caller loop mutex alive Sync.send sessions_ length]; lia.
  - match goal with Hc : id ∈ alive c |- _ => pose proof (size_without id _ Hc) end. lia.
  - cbn in Hf. pose proof (size_without id _ Hf). pose proof (round_left_mono (loop c) (size (sessions_ (caller c) ∖ {[id]}))
      (size (sessions_ (caller c)))). lia.
Qed.

(** The steps of the system that are left after the context has stopped. *)
Definition sys_finishing (e : sys_event) (s : system) : Prop :=
  match e with
  | sys_bump | sys_fetch _ | sys_build | sys_copy _ | sys_send | sys_keep | sys_join_read _ | sys_join_send | sys_text _
  | sys_expire _ => True
  | sys_leave id => id ∈ sessions_ (caller (chan_ s))
  | _ => False
  end.

Lemma lift_finishing e s s' :
  lift e s = Some s' -> finishing e (chan_ s) -> sys_left s' < sys_left s /\ texts s' = texts s.
Proof.
  intros (c & Hc & ->)%lift_Some Hf. apply finishing_decreases in Hc; [|done].
  split; [unfold sys_left; cbn [chan_ texts]; lia|done].
Qed.

Lemma texts_left_insert ts i m id todo :
  ts !! i = Some (m, id :: todo) -> S (texts_left (<[i := (m, todo)]> ts)) = texts_left ts.
Proof.
  unfold texts_left. revert i. induction ts as [|t ts IH]; intros [|i] Hi; simplify_eq/=; [done|].
  rewrite <- (IH i) by done. lia.
Qed.

Lemma sys_finishing_decreases e s s' : sys_exec e s = Some s' -> sys_finishing e s -> sys_left s' < sys_left s.
Proof.
  intros Hx Hf. destruct e as [| | |snap| | | |snap| |order| | | |i| | |id|id|]; try done; cbn [sys_exec] in Hx;
    try (by eapply lift_finishing).
  - destruct (mutex (chan_ s)) as [| |id qid body] eqn:Hm; try done. unfold lift_give in Hx.
    destruct (lift _ _) as [s1|] eqn:Hl; [|done]. cbn [fmap option_fmap option_map mbind option_bind] in Hx.
    apply lift_finishing in Hl as [Hl _]; [|done]. destruct (conns _ !! id); [|done]. simplify_eq/=.
    unfold sys_left in *. cbn [give set_conns chan_ texts] in *. lia.
  - destruct (loop (chan_ s)) as [| | | |m|m [|id todo]]; try done. unfold lift_give in Hx.
    case_bool_decide; [|by eapply lift_finishing]. destruct (lift _ _) as [s1|] eqn:Hl; [|done].
    apply lift_finishing in Hl as [Hl _]; [|done]. simplify_eq/=. unfold sys_left in *. cbn [give set_conns chan_ texts] in *. lia.
  - destruct (texts s !! i) as [[m [|id todo]]|] eqn:Hi; try done. apply texts_left_insert in Hi.
    case_bool_decide; [|simplify_eq; unfold sys_left; cbn [chan_ texts]; lia].
    unfold lift_give in Hx. destruct (lift _ _) as [s1|] eqn:Hl; [|done]. apply lift_Some in Hl as (c & Hc & ->).
    simplify_eq/=. unfold sys_left in *. cbn [give set_conns chan_ texts] in *. assert (chan_left c = chan_left (chan_ s)); [|lia].
    exec_cases Hc; done.
  - destruct (conns s !! id) as [k|]; [|done]. cbn [mbind option_bind] in Hx. destruct (owned k); [done|].
    by eapply lift_finishing.
Qed.

(** ** The steps are bounded *)

Definition internal (e : pevent) : bool := match e with ev_session _ => false | _ => true end.

Lemma sync_step_decreases e p p' :
  sync_step e p = Some p' -> sys_finishing e (sync p) -> to_do p' < to_do p.
Proof.
  intros (s & Hx & ->)%sync_step_inv Hf. apply sys_finishing_decreases in Hx; [|done]. unfold to_do. cbn. lia.
Qed.

(** With the context stopped, what is internal leaves less to do. *)
Lemma stopped_decreases e p p' :
  proc_exec e p = Some p' -> proc_inv p -> stopped p = true ->
  stopped p' = true /\ (if internal e then to_do p' < to_do p else to_do p' = to_do p).
Proof.
  intros He Hi Hst. assert (session_thread p = left_) as Hse by (by apply (pi_left _ Hi)).
  assert (quit p = true) as Hq by (apply (pi_quit _ Hi); by rewrite Hse).
  assert (forall e p', sync_step e p = Some p' -> sys_finishing e (sync p) -> stopped p' = true /\ to_do p' < to_do p) as Hsync.
  { intros e0 p0 Hs Hf. split; [|by eapply sync_step_decreases]. by apply sync_step_inv in Hs as (s & _ & ->). }
  destruct e;
    cbn [proc_exec internal] in *; rewrite ?Hst, ?Hse, ?Hq, ?andb_false_r, ?andb_false_l in He; cbn [negb andb] in He;
    rewrite ?andb_false_r in He; try done.
  - destruct (pc p) eqn:Hpc; simplify_eq; split; try done; unfold to_do; cbn; by rewrite Hpc.
  - destruct (to_load p) as [[|n names]|] eqn:Hl; simplify_eq. split; [done|]. unfold to_do. cbn. rewrite Hl. cbn. lia.
  - destruct (to_load p) as [[|n names]|] eqn:Hl; simplify_eq. split; [done|]. unfold to_do. cbn. rewrite Hl. cbn. lia.
  - destruct (caller_on p); [|done]. cbn [andb] in He. destruct (round_step e) eqn:Hr; [|done].
    apply (Hsync _ _ He). by destruct e.
  - destruct (caller_on p); [|done]. destruct (snap_now _ _ _); [|done]. by apply (Hsync _ _ He).
  - destruct (loop (chan_ (sync p))); try done. destruct (caller_on p) eqn:Hon; simplify_eq/=. split; [done|].
    unfold to_do. cbn. rewrite Hon. lia.
  - rewrite orb_false_r in He. destruct (goes_on e) eqn:Hg; [|done]. apply (Hsync _ _ He). by destruct e.
  - destruct (match curr_stats _ with JNull => _ | _ => _ end); [|done]. by apply (Hsync _ _ He).
  - destruct (0 <? io_threads p) eqn:Hio; [|done]. destruct (free p); simplify_eq/=. bool_simp. split; [done|].
    unfold to_do. cbn. lia.
  - destruct e; try done; [by apply (Hsync _ _ He)|]. case_bool_decide; [|done]. by apply (Hsync _ _ He).
  - destruct (pc p) eqn:Hpc; try done. destruct (free p); simplify_eq/=. split; [done|]. unfold to_do. cbn. rewrite Hpc. cbn. lia.
  - destruct (pc p) eqn:Hpc; try done. destruct (sync_step _ _) as [q|] eqn:Hs; simplify_eq/=.
    apply sync_step_inv in Hs as (s & Hx & ->). split; [done|]. cbn [sys_exec] in Hx.
    destruct (_ && _) in Hx; simplify_eq. unfold to_do. cbn. rewrite Hpc. cbn. unfold sys_left, texts_left. cbn. lia.
  - destruct (pc p) eqn:Hpc; try done;
      [destruct (io_threads p =? 0)|destruct (to_load p) eqn:Hl| |destruct (caller_on p) eqn:Hon];
      simplify_eq; (split; [done|]); unfold to_do; cbn; rewrite ?Hpc, ?Hl, ?Hon; cbn; lia.
  - destruct (pc p) eqn:Hpc; try done. cbn [chan_run] in He.
    destruct (chan_exec (Rounds.ev_expire id) (chan_ (sync p))) as [c1|] eqn:H1; [|done]. cbn [mbind option_bind] in He.
    destruct (chan_exec (Rounds.ev_leave id) c1) as [c2|] eqn:H2; [|done]. cbn [mbind option_bind] in He. simplify_eq.
    split; [done|]. apply finishing_decreases in H1; [|done].
    assert (chan_left c2 <= chan_left c1) as Hle.
    { destruct (decide (id ∈ sessions_ (caller c1))) as [Hid|Hid]; [by apply finishing_decreases in H2; [lia|]|].
      exec_cases H2. unfold chan_left. cbn. rewrite (difference_disjoint_L _ {[id]}) by set_solver. rewrite Hm. done. }
    unfold to_do, sys_left. cbn [with_sync sync caller_on to_load io_threads pc chan_ texts]. lia.
  - destruct (pc p) eqn:Hpc; try done. case_bool_decide; [|done]. destruct (end_ _ _ _) as [[[] s1]|]; simplify_eq.
    split; [done|]. unfold to_do. cbn. rewrite Hpc. cbn. lia.
Qed.

Lemma stopped_run es p p' :
  proc_run es p = Some p' -> proc_inv p -> stopped p = true ->
  stopped p' = true /\ length (filter (fun e => internal e = true) es) + to_do p' <= to_do p.
Proof.
  revert p. induction es as [|e es IH]; intros p Hr Hi Hst; [by simplify_eq/=|]. cbn [proc_run] in Hr.
  destruct (proc_exec e p) as [p1|] eqn:Hx; [|done]. cbn [mbind option_bind] in Hr.
  destruct (stopped_decreases _ _ _ Hx Hi Hst) as [Hst1 Hle].
  destruct (IH p1 Hr (proc_step_inv _ _ _ Hx Hi) Hst1) as [Hst' Hle']. split; [done|].
  rewrite filter_cons. destruct (internal e); case_decide; try done; cbn [length]; lia.
Qed.

(** ** Some thread can always go on *)

(** The counters of the session have arrived, so that a snapshot can be
    made. *)
Definition stats_there (p : process) : Prop := exists k, is_Some (session_stats k (server p)).

Definition can_step (p : process) : Prop := exists e p', internal e = true /\ proc_exec e p = Some p'.

Lemma can_step_intro e p : internal e = true -> is_Some (proc_exec e p) -> can_step p.
Proof. intros He [p' Hp]. by exists e, p'. Qed.

Lemma snap_there p : stats_there p -> exists k snap, snap_now k map_to_list (server p) = Some snap.
Proof.
  intros (k & stats & Hs). exists k. unfold snap_now, getSyncStats. rewrite Hs. cbn [mbind option_bind]. eauto.
Qed.

Lemma handler_can_step p :
  sys_inv (sync p) -> stats_there p -> busy (sync p) <> 0 -> can_step p.
Proof.
  intros Hi Hst Hb. destruct (mutex (chan_ (sync p))) as [|id qid|id qid body] eqn:Hm.
  - assert (exists t, t ∈ filter (fun t => left_over t = true) (texts (sync p))) as [[m todo] Ht].
    { unfold busy in Hb. rewrite Hm in Hb. destruct (filter _ _) as [|t ts]; [done|]. exists t. by left. }
    apply list_elem_of_filter in Ht as [Hl Ht]. destruct todo as [|id todo]; [done|].
    apply list_elem_of_lookup in Ht as [i Hi'].
    assert (exists s, sys_exec (sys_text i) (sync p) = Some s) as [s Hs].
    { cbn [sys_exec]. rewrite Hi'. case_bool_decide as Ha; [|eauto]. unfold lift_give, lift. cbn [chan_ chan_exec].
      rewrite bool_decide_eq_true_2 by done. destruct (loop (chan_ (sync p))), (mutex (chan_ (sync p))); simpl; eauto. }
    apply (can_step_intro (ev_io (sys_text i))); [done|]. cbn [proc_exec goes_on orb].
    unfold sync_step. rewrite Hs. by eexists.
  - destruct (snap_there p Hst) as (k & snap & Hsnap).
    apply (can_step_intro (ev_io_fetch k map_to_list)); [done|]. cbn [proc_exec]. rewrite Hsnap.
    unfold sync_step. cbn [sys_exec]. unfold lift. cbn [chan_exec]. rewrite Hm.
    destruct (curr_stats _), (loop (chan_ (sync p))); by eexists.
  - destruct (si_held _ Hi id) as (Ha & k & Hk & Ho); [rewrite Hm; by apply bool_decide_eq_true_2|].
    apply (can_step_intro (ev_io sys_join_send)); [done|]. cbn [proc_exec goes_on orb].
    unfold sync_step. cbn [sys_exec]. rewrite Hm. unfold lift_give, lift. cbn [chan_exec]. rewrite Hm.
    destruct (loop (chan_ (sync p))); cbn [mbind option_bind fmap option_fmap option_map give set_conns conns];
      rewrite lookup_alter_eq, Hk; by eexists.
Qed.

Lemma caller_can_step p :
  caller_on p = true -> quit p = true -> stats_there p -> mutex (chan_ (sync p)) = unlocked -> can_step p.
Proof.
  intros Hon Hq Hst Hm.
  assert (forall e s, round_step e = true -> sys_exec e (sync p) = Some s -> can_step p) as Hround.
  { intros e s Hr Hs. apply (can_step_intro (ev_caller_step e)); [done|]. cbn [proc_exec].
    rewrite Hon, Hr. unfold sync_step. by rewrite Hs. }
  destruct (loop (chan_ (sync p))) as [| | | |m|m [|id todo]] eqn:Hl.
  - apply (can_step_intro ev_caller_quit); [done|]. cbn [proc_exec]. rewrite Hl, Hon, Hq. by eexists.
  - eapply (Hround sys_bump); [done|]. cbn [sys_exec]. unfold lift. cbn [chan_exec]. rewrite Hl. reflexivity.
  - destruct (snap_there p Hst) as (k & snap & Hsnap).
    apply (can_step_intro (ev_caller_fetch k map_to_list)); [done|]. cbn [proc_exec]. rewrite Hon, Hsnap.
    cbn [mbind option_bind]. unfold sync_step. cbn [sys_exec]. unfold lift. cbn [chan_exec]. rewrite Hl. by eexists.
  - eapply (Hround sys_build); [done|]. cbn [sys_exec]. unfold lift. cbn [chan_exec]. rewrite Hl. reflexivity.
  - eapply (Hround (sys_copy (elements (sessions_ (caller (chan_ (sync p))))))); [done|].
    cbn [sys_exec]. unfold lift. cbn [chan_exec]. rewrite Hl, Hm, bool_decide_eq_true_2; [reflexivity|].
    split; [apply NoDup_elements|apply list_to_set_elements_L].
  - eapply (Hround sys_keep); [done|]. cbn [sys_exec]. unfold lift. cbn [chan_exec]. rewrite Hl. reflexivity.
  - assert (exists s, sys_exec sys_send (sync p) = Some s) as [s Hs]; [|by apply (Hround sys_send s)].
    cbn [sys_exec]. rewrite Hl. unfold lift_give, lift. cbn [chan_exec]. rewrite Hl. case_bool_decide; simpl; eauto.
Qed.

Context {sel : SessionLaws}.

Lemma destroying_can_step p :
  proc_inv p -> pc p = destroying -> can_step p.
Proof.
  intros Hi Hpc. pose proof (pi_busy _ Hi) as Hb. pose proof (pi_io _ Hi) as Hio. unfold running in Hb. rewrite Hpc in Hb, Hio.
  cbn [pc_left] in Hio. specialize (Hio ltac:(lia)).
  destruct (busy_zero (sync p)) as [Hm _]; [lia|].
  destruct (decide (alive (chan_ (sync p)) = ∅)) as [Ha|[id Hid]%set_choose_L].
  - destruct (decide (sessions_ (caller (chan_ (sync p))) = ∅)) as [Hs|[id Hid]%set_choose_L].
    + destruct (end_possible (server p)) as (popped & waits & s & Hend).
      apply (can_step_intro (ev_end popped waits)); [done|]. cbn [proc_exec].
      rewrite Hpc, bool_decide_eq_true_2, Hend by done. by eexists.
    + apply (can_step_intro (ev_destructor (sys_leave id))); [done|]. cbn [proc_exec].
      rewrite bool_decide_eq_true_2 by done. unfold sync_step. cbn [sys_exec]. unfold lift. cbn [chan_exec].
      rewrite Hm, Ha. destruct (loop (chan_ (sync p))); rewrite bool_decide_eq_true_2 by set_solver; by eexists.
  - apply (can_step_intro (ev_destroy id)); [done|]. cbn [proc_exec]. rewrite Hpc. cbn [chan_run chan_exec].
    rewrite Hm. cbn [holds negb]. rewrite bool_decide_eq_true_2, andb_true_r by done.
    destruct (loop (chan_ (sync p))) eqn:Hl; cbn [mbind option_bind with_alive loop mutex alive]; rewrite ?Hm, ?Hl; cbn;
      rewrite bool_decide_eq_true_2 by set_solver; by eexists.
Qed.

Lemma closing_can_step p : pc p = closing -> mutex (chan_ (sync p)) = unlocked -> can_step p.
Proof.
  intros Hpc Hm. destruct (decide (sessions_ (caller (chan_ (sync p))) ⊆ alive (chan_ (sync p)))) as [Hs|Hs].
  - apply (can_step_intro ev_close_ws); [done|]. cbn [proc_exec]. rewrite Hpc. unfold sync_step. cbn [sys_exec].
    rewrite Hm, bool_decide_eq_true_2 by done. by eexists.
  - assert (exists id, id ∈ sessions_ (caller (chan_ (sync p))) ∖ alive (chan_ (sync p))) as [id Hid].
    { apply set_choose_L. intros He. by apply Hs, empty_difference_subseteq_L. }
    apply elem_of_difference in Hid as [Hid Hna]. apply (can_step_intro (ev_destructor (sys_leave id))); [done|].
    cbn [proc_exec]. rewrite bool_decide_eq_true_2 by done. unfold sync_step. cbn [sys_exec]. unfold lift. cbn [chan_exec].
    rewrite Hm, bool_decide_eq_true_2 by done. destruct (loop (chan_ (sync p))); by eexists.
Qed.

Lemma stopped_can_step p :
  proc_inv p -> stopped p = true -> stats_there p -> pc p <> ended -> can_step p.
Proof.
  intros Hi Hst Hstats Hne. assert (session_thread p = left_) as Hse by (by apply (pi_left _ Hi)).
  assert (quit p = true) as Hq by (apply (pi_quit _ Hi); by rewrite Hse).
  destruct (decide (pc p = destroying)) as [|Hnd]; [by apply destroying_can_step|].
  assert (2 <= pc_left (pc p)) as Hpc2 by (destruct (pc p); cbn; try lia; done).
  destruct (decide (busy (sync p) = 0)) as [Hz|Hb]; [|apply handler_can_step; [by apply (pi_sys _ Hi)|done..]].
  destruct (busy_zero (sync p)) as [Hm _]; [lia|].
  destruct (pc p) eqn:Hpc; try done.
  - apply (can_step_intro ev_main_leave); [done|]. cbn [proc_exec]. unfold free, running. rewrite Hpc, Hst, Hz, Nat.add_1_r.
    by eexists.
  - by apply closing_can_step.
  - destruct (io_threads p) as [|n] eqn:Hn.
    + apply (can_step_intro ev_join); [done|]. cbn [proc_exec]. rewrite Hpc, Hn. by eexists.
    + apply (can_step_intro ev_io_leave); [done|]. cbn [proc_exec]. unfold free, running. rewrite Hpc, Hst, Hz, Hn. by eexists.
  - destruct (to_load p) as [[|n names]|] eqn:Hl.
    + apply (can_step_intro ev_loaded); [done|]. cbn [proc_exec]. rewrite Hl. by eexists.
    + apply (can_step_intro ev_load); [done|]. cbn [proc_exec]. rewrite Hl. by eexists.
    + apply (can_step_intro ev_join); [done|]. cbn [proc_exec]. rewrite Hpc, Hl. by eexists.
  - apply (can_step_intro ev_join); [done|]. cbn [proc_exec]. rewrite Hpc, Hse. by eexists.
  - destruct (caller_on p) eqn:Hon; [by apply caller_can_step|].
    apply (can_step_intro ev_join); [done|]. cbn [proc_exec]. rewrite Hpc, Hon. by eexists.
Qed.

(** ** The theorems *)

(** The counters stay where they are once the session's thread is gone. *)
Lemma stopped_stats e p p' :
  proc_exec e p = Some p' -> proc_inv p -> stopped p = true -> stats_there p -> pc p' = ended \/ stats_there p'.
Proof.
  intros He Hi Hst (k & Hk). assert (session_thread p = left_) as Hse by (by apply (pi_left _ Hi)).
  enough (pc p' = ended \/ svs (server p') = svs (server p)) as [Hd|Hs]; [by left| |].
  { right. exists k. unfold session_stats in *. by rewrite Hs. }
  assert (forall e p', sync_step e p = Some p' -> server p' = server p) as Hsync.
  { intros e0 p0 Hs. by apply sync_step_inv in Hs as (s & _ & ->). }
  destruct e;
    cbn [proc_exec] in *; rewrite ?Hst, ?Hse in He; try done.
  2: { right. destruct (pc p); by simplify_eq. }
  2: { right. destruct (to_load p) as [[|n names]|]; simplify_eq. cbn. unfold load_resume.
       destruct (is_resume_file _); [|done]. cbn [negb]. destruct (load_file _ _ _); [|done].
       by destruct (read_resume_data _) as [a []]. }
  all: try (right; repeat match type of He with
      | context [match ?x with _ => _ end] => destruct x; try done
      | context [mbind _ ?o] => destruct o; try done; cbn [mbind option_bind] in He
      | context [fmap _ ?o] => destruct o eqn:?; try done; cbn [fmap option_fmap option_map] in He
      end; simplify_eq/=; try done; f_equal; by eapply Hsync).
  destruct (pc p); try done. case_bool_decide; [|done]. destruct (end_ _ _ _) as [[[] s]|]; simplify_eq. by left.
Qed.

Lemma stopped_run_stats es p p' :
  proc_run es p = Some p' -> proc_inv p -> stopped p = true -> stats_there p -> pc p' = ended \/ stats_there p'.
Proof.
  revert p. induction es as [|e es IH]; intros p Hr Hi Hst Hs; [simplify_eq/=; by right|]. cbn [proc_run] in Hr.
  destruct (proc_exec e p) as [p1|] eqn:Hx; [|done]. cbn [mbind option_bind] in Hr.
  pose proof (proc_step_inv _ _ _ Hx Hi) as Hi1. destruct (stopped_decreases _ _ _ Hx Hi Hst) as [Hst1 _].
  destruct (stopped_stats _ _ _ Hx Hi Hst Hs) as [Hd|Hs1]; [|by apply (IH p1)].
  left. destruct es as [|e' es]; [by simplify_eq/=|]. cbn [proc_run] in Hr. by rewrite (ended_final e' p1 Hi1 Hd) in Hr.
Qed.

(** What the session's thread has taken on does not throw: the handlers of the
    alerts it has popped, the removals of the files it has listed. *)
Definition goes_well (p : process) : Prop :=
  match session_thread p with
  | popping al => Forall (fun a => alert_safe (server p) a = true) al
  | scanning _ names => (scan_loop (dir_watches (cfg (server p))) names (server p)).1 = true
  | _ => True
  end.

(** By its own steps alone the session's thread comes to stop the context. *)
Definition gets_out (p : process) : Prop :=
  exists es p1, forallb session_event es = true /\ proc_run es p = Some p1 /\ stopped p1 = true.

Lemma gets_out_after es p p1 :
  forallb session_event es = true -> proc_run es p = Some p1 -> gets_out p1 -> gets_out p.
Proof.
  intros Hes Hr (es2 & p2 & Hes2 & Hr2 & Hst). exists (es ++ es2), p2.
  by rewrite forallb_app, Hes, Hes2, proc_run_app, Hr.
Qed.

Lemma looping_gets_out p : session_thread p = looping -> quit p = true -> gets_out p.
Proof.
  intros Hp Hq. exists [ev_session_quit; ev_session_stop]. eexists. cbn [proc_run proc_exec]. rewrite Hp, Hq. by split_and!.
Qed.

Lemma session_events n e : session_event e = true -> forallb session_event (replicate n e) = true.
Proof. intros He. induction n; cbn; by rewrite ?He. Qed.

Lemma popping_gets_out al p :
  session_thread p = popping al -> quit p = true -> Forall (fun a => alert_safe (server p) a = true) al -> gets_out p.
Proof.
  intros Hp Hq Hal. destruct (pop_alerts_safe al (server p) Hal) as (s & Hs & _).
  apply (gets_out_after _ _ _ (session_events _ ev_alert eq_refl) (alerts_run _ _ _ Hp Hs)).
  apply (gets_out_after [ev_time (next_dir_scan s) None] _ (with_session_thread looping (with_server s p))); [done| |by apply looping_gets_out].
  cbn. by rewrite Z.ltb_irrefl, andb_false_r.
Qed.

Lemma session_gets_out p : proc_inv p -> quit p = true -> goes_well p -> gets_out p.
Proof.
  intros Hi Hq. unfold goes_well. destruct (session_thread p) as [| |al|now names| |] eqn:Hp; intros Hw.
  - by apply looping_gets_out.
  - apply (gets_out_after [ev_pop []] _ (with_session_thread (popping []) p)); [done|cbn; by rewrite Hp|].
    by apply (popping_gets_out []).
  - by apply (popping_gets_out al).
  - destruct (scan_loop _ _ _) as [ok s] eqn:Hs. cbn in Hw. subst ok.
    apply (gets_out_after _ _ _ (session_events _ ev_scan eq_refl) (scans_run _ _ _ _ Hp Hs)).
    eapply (gets_out_after [ev_scanned]); [done|reflexivity|]. by apply looping_gets_out.
  - exists [ev_session_stop]. eexists. cbn [proc_run proc_exec]. rewrite Hp. by split_and!.
  - exists [], p. split_and!; [done..|]. by apply (pi_left _ Hi).
Qed.


(** Only the end of the destructors ends the process. *)
Lemma ends_at_once e p p' :
  proc_exec e p = Some p' -> pc p' = ended -> pc p = ended \/ exists popped waits, e = ev_end popped waits.
Proof.
  intros He Hpc. assert (forall e q p', sync_step e q = Some p' -> pc p' = pc q) as Hsync.
  { intros e0 q p0 Hs. by apply sync_step_inv in Hs as (s & _ & ->). }
  destruct e;
    try (right; by eauto); left; cbn [proc_exec] in *;
    proc_cases He; cbn in *; congruence.
Qed.

Lemma ended_saved es p p' :
  proc_run es p = Some p' -> proc_inv p -> pc p <> ended -> pc p' = ended ->
  exists popped waits s, end_ popped waits s = Some (true, server p').
Proof.
  revert p. induction es as [|e es IH]; intros p Hr Hi Hne Hend; [simplify_eq/=; done|]. cbn [proc_run] in Hr.
  destruct (proc_exec e p) as [p1|] eqn:Hx; [|done]. cbn [mbind option_bind] in Hr.
  pose proof (proc_step_inv _ _ _ Hx Hi) as Hi1.
  destruct (decide (pc p1 = ended)) as [Hd|Hd]; [|by apply (IH p1)].
  assert (p' = p1) as ->.
  { destruct es as [|e' es]; [by simplify_eq/=|]. cbn [proc_run] in Hr. by rewrite (ended_final e' p1 Hi1 Hd) in Hr. }
  destruct (ends_at_once _ _ _ Hx Hd) as [|(popped & waits & ->)]; [done|]. cbn [proc_exec] in Hx.
  destruct (pc p); try done. case_bool_decide; [|done].
  destruct (end_ popped waits (server p)) as [[[] s]|] eqn:He; simplify_eq. by exists popped, waits, (server p).
Qed.

Lemma ended_state s f listing io es p :
  proc_run es (new_process s f listing io) = Some p -> pc p = ended ->
  (num_outstanding_resume_data (server p) <= 0)%Z /\ ses_is_paused (ses_ (server p)) = true
  /\ (writable (files (server p)) (file_ses_state (cfg (server p))) = true ->
      read_all (files (server p)) (file_ses_state (cfg (server p))) = Some (ses_state (ses_ (server p)))).
Proof.
  intros Hr Hpc. destruct (ended_saved _ _ _ Hr (new_process_inv s f listing io)) as (popped & waits & s0 & He); [done..|].
  by eapply end_saved.
Qed.

(** C3: what the end of the process leaves: every other thread was joined
    before, no session is left in the set or alive, so that none outlives the
    object its destructor calls; nothing is outstanding, the libtorrent session
    is paused and its state in the session file, if that can be written; and
    nothing happens after that. *)
Theorem process_ended_clean s f listing io es p :
  proc_run es (new_process s f listing io) = Some p -> pc p = ended ->
  (io_threads p = 0 /\ to_load p = None /\ session_thread p = left_ /\ caller_on p = false)
  /\ (alive (chan_ (sync p)) = ∅ /\ sessions_ (caller (chan_ (sync p))) = ∅ /\ mutex (chan_ (sync p)) = unlocked)
  /\ ((num_outstanding_resume_data (server p) <= 0)%Z /\ ses_is_paused (ses_ (server p)) = true
      /\ (writable (files (server p)) (file_ses_state (cfg (server p))) = true ->
          read_all (files (server p)) (file_ses_state (cfg (server p))) = Some (ses_state (ses_ (server p)))))
  /\ forall e, proc_exec e p = None.
Proof.
  intros Hr Hpc. pose proof (new_process_inv s f listing io) as Hi0. pose proof (proc_run_inv _ _ _ Hr Hi0) as Hi.
  pose proof Hi as [Hbusy Hsys Hleft Hquit Hserv Hcall Hio Hload Hjoin Hend].
  rewrite Hpc in Hserv, Hio, Hload, Hjoin. cbn [pc_left] in *. specialize (Hio ltac:(lia)).
  split; [|split; [|split]].
  - split_and!; [done|apply Hload; lia|apply Hleft, Hserv; lia|apply Hjoin; lia].
  - destruct (Hend Hpc) as [Ha Hs]. split_and!; [done..|]. unfold running in Hbusy. rewrite Hpc, Hio in Hbusy.
    destruct (busy_zero (sync p)) as [Hm _]; [lia|done].
  - by eapply ended_state.
  - intros e. by apply ended_final.
Qed.
End shutdown.

(** ** Examples *)

#[local] Existing Instance sha1_demo.
#[local] Existing Instance handles_demo.
#[local] Existing Instance lt_demo.
#[local] Existing Instance parsers_demo.
#[local] Existing Instance session_demo.
#[local] Existing Instance demo_metrics.
#[local] Existing Instance beast_demo.
#[local] Existing Instance documented_eq.
#[local] Existing Instance text_demo.
#[local] Existing Instance files_demo.
#[local] Existing Instance eof_demo.

Lemma demo_stats_there : stats_there demo_stopped.
Proof.
  exists demo_clocks. assert (defined (session_stats demo_clocks (server demo_stopped)) = true) as Hd by (vm_compute; reflexivity).
  destruct (session_stats demo_clocks (server demo_stopped)); [by eexists|discriminate].
Qed.

Lemma demo_ending_run : proc_run demo_ending demo_stopped = Some demo_ended.
Proof.
  apply (proc_run_rest (demo_serving ++ demo_stopping) _ demo_process); [|apply demo_stopped_run].
  rewrite <- app_assoc. apply demo_ended_run.
Qed.


Lemma process_ended_clean_witness :
  (io_threads demo_ended = 0 /\ to_load demo_ended = None /\ session_thread demo_ended = left_ /\ caller_on demo_ended = false)
  /\ (alive (chan_ (sync demo_ended)) = ∅ /\ sessions_ (caller (chan_ (sync demo_ended))) = ∅
      /\ mutex (chan_ (sync demo_ended)) = unlocked)
  /\ ((num_outstanding_resume_data (server demo_ended) <= 0)%Z /\ ses_is_paused (ses_ (server demo_ended)) = true
      /\ (writable (files (server demo_ended)) (file_ses_state (cfg (server demo_ended))) = true ->
          read_all (files (server demo_ended)) (file_ses_state (cfg (server demo_ended)))
          = Some (ses_state (ses_ (server demo_ended)))))
  /\ forall e, proc_exec e demo_ended = None.
Proof.
  apply (process_ended_clean (sel := session_demo_laws) (set_svs demo_values demo_sheath) demo_front None 1
           (demo_serving ++ demo_stopping ++ demo_ending)).
  - apply demo_ended_run.
  - vm_compute. reflexivity.
Defined.
