(* ===== verification/Program.v ===== *)
(** * The process as runs of its parts

    What [Process] does is what [Accounting] and [Channel] are about: every
    run of the threads makes, on the server state, a run of operations, and on
    the channel a run of its steps whose snapshots are of the server state of
    the moment.  So their theorems hold of the whole process. *)

From S2P Require Import Prelude CStd Json JsonPatch JsonDiff Fs Util SessionStats TorrentStatus Libtorrent.
From S2P Require Import HttpUtil Demo JsonText Sheath Torrents Accounting Handlers HttpSession Commands Sync WebSocket.
From S2P Require Import Rounds Delivery Channel Process.

Section program.
Context {sha : Sha1} {ltd : LtData} {hs : Handles} {ltp : LtParsers} {lts : Session} {mt : Metrics}.
Context {beast : Beast} {jeq : JsonEq} {text : JsonText} {fls : Files} {eof : NeedEof}.

(** ** The server state *)

(** The alerts a step handles. *)
Definition ev_alerts (e : pevent) (p : process) : list alert :=
  match e with
  | ev_alert => match session_thread p with popping (a :: _) => [a] | _ => [] end
  | ev_end popped waits => op_alerts (op_save_all popped waits) (server p)
  | _ => []
  end.

Fixpoint proc_alerts (es : list pevent) (p : process) : list alert :=
  match es with
  | [] => []
  | e :: es' => ev_alerts e p ++ match proc_exec e p with Some p' => proc_alerts es' p' | None => [] end
  end.

(** The replies among them. *)
Definition proc_replies (es : list pevent) (p : process) : Z := count is_reply (proc_alerts es p).

(** The operations a step runs on the server state: those of the session's
    thread and of the loader, the command of a request, the end. *)
Definition ev_ops (e : pevent) (p : process) : list op :=
  match e with
  | ev_session ses => [op_libtorrent ses]
  | ev_load => match to_load p with Some (n :: _) => [op_load (Some [n])] | _ => [] end
  | ev_post => [op_post]
  | ev_alert => match session_thread p with popping (a :: _) => [op_alert a] | _ => [] end
  | ev_scan => match session_thread p with scanning _ (n :: _) => [op_scan n] | _ => [] end
  | ev_scanned => match session_thread p with scanning now _ => [op_scanned now] | _ => [] end
  | ev_http_read _ (read_request req false) _ _ _ => option_list (request_command req (dir_store (cfg (server p))))
  | ev_end popped waits => [op_save_all popped waits; op_save_session]
  | _ => []
  end.

Fixpoint proc_ops (es : list pevent) (p : process) : list op :=
  match es with
  | [] => []
  | e :: es' => ev_ops e p ++ match proc_exec e p with Some p' => proc_ops es' p' | None => [] end
  end.

Lemma sync_step_server e p p' : sync_step e p = Some p' -> server p' = server p.
Proof. by intros (s & _ & ->)%sync_step_inv. Qed.

(** A step of the process is a run of operations on the server state. *)
Definition step_runs (e : pevent) (p p' : process) : Prop :=
  Accounting.run (ev_ops e p) (server p) = Some (server p', ev_alerts e p).

Lemma no_ops e p p' : ev_ops e p = [] -> ev_alerts e p = [] -> server p' = server p -> step_runs e p p'.
Proof. unfold step_runs. by intros -> -> ->. Qed.

Lemma one_op o e p p' :
  ev_ops e p = [o] -> ev_alerts e p = op_alerts o (server p) -> exec o (server p) = Some (server p') -> step_runs e p p'.
Proof. unfold step_runs. intros -> -> Hx. cbn [Accounting.run]. rewrite Hx. cbn [mbind option_bind fst snd]. by rewrite app_nil_r. Qed.

Lemma session_step_runs e p p' : session_event e = true -> proc_exec e p = Some p' -> step_runs e p p'.
Proof.
  intros Hk He. destruct e; try done; clear Hk; cbn [proc_exec] in He;
    destruct (session_thread p) as [| |[|a al]|t [|n al]| |] eqn:Hse; try done.
  - destruct (quit p); simplify_eq. by apply (one_op op_post).
  - simplify_eq. by apply no_ops.
  - destruct (handle_alert a (server p)) as [[r s]|] eqn:Ha; simplify_eq/=.
    apply (one_op (op_alert a)); cbn [exec ev_ops ev_alerts]; [by rewrite Hse..|by rewrite Ha].
  - simplify_eq. by apply no_ops.
  - destruct (scan_loop _ _ _) as [[] s] eqn:Hs; simplify_eq. apply (one_op (op_scan n)); [cbn; by rewrite Hse|done|].
    cbn [exec with_session_thread with_server server]. by rewrite Hs.
  - simplify_eq. apply (one_op (op_scanned t)); [cbn; by rewrite Hse|done|done].
  - destruct (quit p); simplify_eq. by apply no_ops.
  - simplify_eq. by apply no_ops.
Qed.

Lemma end_step_runs popped waits p p' :
  proc_exec (ev_end popped waits) p = Some p' -> step_runs (ev_end popped waits) p p'.
Proof.
  cbn [proc_exec]. destruct (pc p); try done. case_bool_decide; [|done]. unfold end_, step_runs. cbn [ev_ops ev_alerts].
  destruct (save_all_resume popped waits (server p)) as [[[] s]|] eqn:Hs; [|done..]. intros [= <-].
  cbn [Accounting.run exec]. rewrite Hs. cbn [fmap option_fmap option_map mbind option_bind snd fst].
  by rewrite !app_nil_r.
Qed.

Lemma http_step_runs id res wid k order p p' :
  proc_exec (ev_http_read id res wid k order) p = Some p' -> step_runs (ev_http_read id res wid k order) p p'.
Proof.
  cbn [proc_exec]. destruct (_ && _); [|done]. destruct (http (web p) !! id) as [h|]; [|done]. cbn [mbind option_bind].
  destruct (HttpSession.pending h) as [[|r]|]; try done.
  destruct (HttpSession.on_read _ _ _ _ _) as [[h1 s]|] eqn:Hr; [|done]. cbn [mbind option_bind]. intros He.
  destruct res as [| | |req [|]]; cbn [HttpSession.on_read] in Hr; simplify_eq; try by apply no_ops.
  - apply no_ops; [done..|]. by rewrite (sync_step_server _ _ _ He).
  - destruct (handle_request _ _ _ _) as [[r s1]|] eqn:Hh; [|done]. cbn [mbind option_bind] in Hr. simplify_eq.
    apply handle_request_command in Hh. destruct (request_command req _) as [o|] eqn:Hc; cbn [obey] in Hh.
    + apply (one_op o); [cbn [ev_ops]; by rewrite Hc| |exact Hh]. symmetry. by eapply request_op_alerts.
    + apply no_ops; [cbn [ev_ops]; by rewrite Hc|done|by simplify_eq].
Qed.

Lemma step_ops e p p' : proc_exec e p = Some p' -> step_runs e p p'.
Proof.
  intros He. destruct e; try (by apply session_step_runs); try (by apply end_step_runs); try (by apply http_step_runs);
    cbn [proc_exec] in He.
  2: { apply (one_op (op_libtorrent ses)); [done..|]. by destruct (pc p); simplify_eq. }
  2: { destruct (to_load p) as [[|n names]|] eqn:Hl; simplify_eq. apply (one_op (op_load (Some [n]))); [cbn; by rewrite Hl|done..]. }
  all: apply no_ops; [done..|]; by proc_cases He.
Qed.

(** What the threads do to the server state is a run of operations, one after
    the other. *)
Lemma proc_run_ops es p p' :
  proc_run es p = Some p' -> Accounting.run (proc_ops es p) (server p) = Some (server p', proc_alerts es p).
Proof.
  revert p. induction es as [|e es IH]; intros p Hr; cbn [proc_run proc_ops proc_alerts] in *; [by simplify_eq|].
  destruct (proc_exec e p) as [p1|] eqn:Hx; [|done]. cbn [mbind option_bind] in Hr.
  eapply ops_run_app; [by apply step_ops|by apply IH].
Qed.

(** Whatever the threads of the process do and in what order, the number of
    outstanding resume data is the number of requests for it made of the
    libtorrent session less the number of replies taken in. *)
Theorem process_accounting es s f listing io p :
  proc_run es (new_process s f listing io) = Some p -> calls s = [] -> num_outstanding_resume_data s = 0%Z ->
  num_outstanding_resume_data (server p)
  = (count is_ask (calls (server p)) - proc_replies es (new_process s f listing io))%Z.
Proof.
  intros Hb%proc_run_ops%run_balance Hc Hn. unfold balance in Hb. cbn [new_process server] in Hb. rewrite Hc, Hn in Hb.
  unfold proc_replies. rewrite count_nil in Hb. lia.
Qed.

(** C26: the map of torrents, in any run of the process: each torrent has the
    status of the last alert handled that had one, unless one that removes it
    was handled since; nothing else any thread does touches the map. *)
Theorem torrents_latest es s f listing io p h :
  proc_run es (new_process s f listing io) = Some p ->
  m_all_handles (server p) !! h
  = last_or (m_all_handles s !! h) (proc_alerts es (new_process s f listing io) ≫= status_events h).
Proof. intros Hr%proc_run_ops. by eapply (run_handles _ (server (new_process s f listing io))). Qed.

(** Nothing the threads do changes the configuration. *)
Lemma proc_run_cfg es p p' : proc_run es p = Some p' -> cfg (server p') = cfg (server p).
Proof. intros Hr%proc_run_ops. by eapply run_cfg. Qed.

(** ** The channel *)

(** The server state at a step, with the clocks and the order of the walk. *)
Definition moment_now (k : clocks) (order : gmap torrent_handle torrent_status -> list (torrent_handle * torrent_status))
    (p : process) : moment :=
  mk_moment k (order (m_all_handles (server p))) (server p).

Definition sys_events_of (e : pevent) (p : process) : list sys_event :=
  match e with
  | ev_caller_check => [sys_check]
  | ev_caller_step e | ev_io e | ev_destructor e => [e]
  | ev_caller_fetch k order => [sys_fetch (snapshot (moment_now k order p))]
  | ev_http_read _ (read_request req true) wid _ _ => [sys_accept wid (req_target req)]
  | ev_io_fetch k order => [sys_join_read (snapshot (moment_now k order p))]
  | ev_close_ws => [sys_close_ws]
  | _ => []
  end.

Fixpoint proc_sys (es : list pevent) (p : process) : list sys_event :=
  match es with
  | [] => []
  | e :: es' => sys_events_of e p ++ match proc_exec e p with Some p' => proc_sys es' p' | None => [] end
  end.

Lemma sync_step_run e p p' : sync_step e p = Some p' -> sys_run [e] (sync p) = Some (sync p').
Proof. intros (s & Hx & ->)%sync_step_inv. cbn [sys_run]. by rewrite Hx. Qed.

Lemma snap_now_snapshot k order p snap :
  snap_now k order (server p) = Some snap -> snapshot (moment_now k order p) = snap.
Proof. intros Hs. unfold snapshot, moment_now. cbn. unfold snap_now in Hs. by rewrite Hs. Qed.

(** Steps that leave the channel alone. *)
Definition no_sync (e : pevent) : bool :=
  match e with
  | ev_caller_check | ev_caller_step _ | ev_caller_fetch _ _ | ev_http_read _ _ _ _ _ | ev_io _ | ev_io_fetch _ _
  | ev_destructor _ | ev_close_ws | ev_destroy _ => false
  | _ => true
  end.

Lemma no_sync_kept e p p' : proc_exec e p = Some p' -> no_sync e = true -> sync p' = sync p.
Proof.
  intros He Hn. destruct e; try done; clear Hn; by proc_cases He.
Qed.

Lemma http_read_sync id res wid k order p p' :
  proc_exec (ev_http_read id res wid k order) p = Some p' ->
  sys_run (sys_events_of (ev_http_read id res wid k order) p) (sync p) = Some (sync p').
Proof.
  cbn [proc_exec sys_events_of]. destruct (_ && _); [|done]. destruct (http (web p) !! id) as [h|]; [|done].
  cbn [mbind option_bind]. destruct (HttpSession.pending h) as [[|r]|]; try done.
  destruct (HttpSession.on_read _ _ _ _ _) as [[h1 s]|] eqn:Hr; [|done]. cbn [mbind option_bind].
  destruct res as [| | |req [|]]; try by intros [= <-]. by intros Hs%sync_step_run.
Qed.

Lemma proc_step_sys e p p' :
  proc_exec e p = Some p' -> 2 <= pc_left (pc p) -> sys_run (sys_events_of e p) (sync p) = Some (sync p').
Proof.
  intros He Hle. destruct (no_sync e) eqn:Hn.
  { rewrite <- (no_sync_kept _ _ _ He Hn). by destruct e. }
  destruct e; try done; clear Hn; try (by apply http_read_sync); cbn [proc_exec sys_events_of] in *.
  - destruct (_ && _); [by apply sync_step_run|done].
  - destruct (_ && _); [by apply sync_step_run|done].
  - destruct (caller_on p); [|done]. destruct (snap_now _ _ _) as [snap|] eqn:Hs; [|done]. cbn [mbind option_bind] in He.
    rewrite (snap_now_snapshot _ _ _ _ Hs). by apply sync_step_run.
  - destruct (_ || _); [by apply sync_step_run|done].
  - destruct (match curr_stats _ with JNull => _ | _ => _ end) as [snap|] eqn:Hs; [|done]. cbn [mbind option_bind] in He.
    assert (snap = snapshot (moment_now k order p)) as ->; [|by apply sync_step_run].
    destruct (curr_stats _); try (injection Hs as <-; done). by rewrite (snap_now_snapshot _ _ _ _ Hs).
  - destruct e; try done; [by apply sync_step_run|]. case_bool_decide; [by apply sync_step_run|done].
  - destruct (pc p); try done. destruct (sync_step _ _) as [q|] eqn:Hs; simplify_eq/=. by apply sync_step_run in Hs.
  - destruct (pc p); try done. simpl in Hle. lia.
Qed.

(** The main thread only goes on. *)
Lemma pc_forward e p p' : proc_exec e p = Some p' -> pc_left (pc p') <= pc_left (pc p).
Proof.
  intros He. destruct e;
    proc_cases He; cbn; repeat match goal with H : pc p = _ |- _ => rewrite H end; cbn [pc_left]; lia.
Qed.

Lemma proc_run_forward es p p' : proc_run es p = Some p' -> pc_left (pc p') <= pc_left (pc p).
Proof.
  revert p. induction es as [|e es IH]; intros p Hr; [by simplify_eq/=|]. cbn [proc_run] in Hr.
  destruct (proc_exec e p) as [p1|] eqn:Hx; [|done]. cbn [mbind option_bind] in Hr.
  apply pc_forward in Hx. apply IH in Hr. lia.
Qed.

(** Every run of the process, before the destructors, is one of the system. *)
Lemma proc_run_sys es p p' :
  proc_run es p = Some p' -> 2 <= pc_left (pc p') -> sys_run (proc_sys es p) (sync p) = Some (sync p').
Proof.
  revert p. induction es as [|e es IH]; intros p Hr Hle; [by simplify_eq/=|]. cbn [proc_run proc_sys] in *.
  destruct (proc_exec e p) as [p1|] eqn:Hx; [|done]. cbn [mbind option_bind] in Hr.
  rewrite sys_run_app, (proc_step_sys _ _ _ Hx) by (apply pc_forward in Hx; apply proc_run_forward in Hr; lia).
  by apply IH.
Qed.

(** What is asked of a run: the order of a snapshot is one of the map's, no
    progress is no number, a round lists at most one torrent more than the one
    before, no join reads the snapshot inside a round, and clients send
    nothing that looks like the server's messages. *)
Definition pevent_ok (e : pevent) (p : process) : Prop :=
  let c := chan_ (sync p) in
  match e with
  | ev_io_fetch k order =>
      moment_ok (moment_now k order p)
      /\ match loop c with fetched | built _ => prev_stats (caller c) = JNull | _ => True end
  | ev_caller_fetch k order =>
      moment_ok (moment_now k order p)
      /\ (prev_stats (caller c) = JNull \/ size (m_all_handles (server p)) <= S (torrents_size (prev_stats (caller c))))
  | ev_io (sys_read _ _ data _) => harmless data
  | _ => True
  end.

Fixpoint proc_ok (es : list pevent) (p : process) : Prop :=
  match es with
  | [] => True
  | e :: es' => pevent_ok e p /\ match proc_exec e p with Some p' => proc_ok es' p' | None => True end
  end.

Lemma server_ok_app es1 es2 s s1 :
  sys_run es1 s = Some s1 -> server_ok es1 s -> server_ok es2 s1 -> server_ok (es1 ++ es2) s.
Proof.
  revert s. induction es1 as [|e es1 IH]; intros s; [by intros [= ->]|]. cbn [sys_run app server_ok].
  destruct (sys_exec e s) as [s2|]; [|done]. cbn [mbind option_bind]. intros Hr [He Hes] H2. eauto.
Qed.

Lemma pevent_server_ok e p p' :
  proc_exec e p = Some p' -> pevent_ok e p -> server_ok (sys_events_of e p) (sync p).
Proof.
  intros Hx Hok. assert (forall x, server_event_ok x (sync p) -> server_ok [x] (sync p)) as H1.
  { intros x Hx'. split; [done|]. by destruct (sys_exec x (sync p)). }
  destruct e;
    cbn [sys_events_of]; try done;
    try (destruct res as [| | |req [|]]; try done); apply H1; cbn [pevent_ok server_event_ok proc_exec] in *; try done.
  - destruct (caller_on p && round_step e) eqn:Hr; [bool_simp|done]. by destruct e.
  - destruct Hok as [Hm Hg]. exists (moment_now k order p). split_and!; [done..|exact Hg].
  - destruct (goes_on e || _) eqn:Hg; [|done].
    destruct e; try done; cbn in Hg.
  - destruct Hok as [Hm Hl]. split; [by eexists|done].
  - by destruct e.
Qed.

Lemma proc_server_ok es p p' :
  proc_run es p = Some p' -> 2 <= pc_left (pc p') -> proc_ok es p -> server_ok (proc_sys es p) (sync p).
Proof.
  revert p. induction es as [|e es IH]; intros p Hr Hle Hok; [done|]. cbn [proc_run proc_sys proc_ok] in *.
  destruct (proc_exec e p) as [p1|] eqn:Hx; [|done]. cbn [mbind option_bind] in Hr. destruct Hok as [He Hes].
  eapply server_ok_app; [|by eapply pevent_server_ok|by apply IH].
  apply (proc_step_sys _ _ _ Hx). apply pc_forward in Hx. apply proc_run_forward in Hr. lia.
Qed.

(** *** Where the current snapshot is from *)

Lemma chan_curr e c c' :
  chan_exec e c = Some c' ->
  curr_stats (caller c') = match e with
                           | ev_join_read snap => join_body snap (caller c)
                           | ev_fetch snap => snap
                           | _ => curr_stats (caller c)
                           end.
Proof. intros Hx. destruct e; exec_cases Hx; try done; cbn; by case_bool_decide. Qed.

Lemma chan_run_one e c c' : chan_run [e] c = Some c' -> chan_exec e c = Some c'.
Proof. cbn [chan_run]. by destruct (chan_exec e c). Qed.

Lemma chan_run_curr es c c' :
  chan_run es c = Some c' -> forallb (fun e => match e with ev_join_read _ | ev_fetch _ => false | _ => true end) es = true ->
  curr_stats (caller c') = curr_stats (caller c).
Proof.
  revert c. induction es as [|e es IH]; intros c Hr Hb; cbn [chan_run forallb] in *; [by simplify_eq|].
  destruct (chan_exec e c) as [c1|] eqn:Hx; [|done]. cbn [mbind option_bind] in Hr. bool_simp.
  rewrite (IH c1), (chan_curr _ _ _ Hx) by done. by destruct e.
Qed.

Lemma sys_step_curr e s s' :
  sys_run [e] s = Some s' ->
  curr_stats (caller (chan_ s')) = match e with
                                   | sys_join_read snap => join_body snap (caller (chan_ s))
                                   | sys_fetch snap => snap
                                   | _ => curr_stats (caller (chan_ s))
                                   end.
Proof.
  cbn [sys_run]. destruct (sys_exec e s) as [s1|] eqn:Hx; [|done]. intros [= <-].
  pose proof (view_refines _ _ _ _ (sys_exec_view _ _ _ Hx)) as Hr.
  destruct e; try (apply (chan_run_curr _ _ _ Hr); cbn [abs]; repeat case_match; done);
    cbn [abs] in Hr; apply chan_run_one in Hr; by rewrite (chan_curr _ _ _ Hr).
Qed.

Definition is_fetch (e : pevent) : bool := match e with ev_caller_fetch _ _ => true | _ => false end.

(** The current snapshot was taken at one step of the run, and no round has
    taken one since. *)
Definition taken (es : list pevent) (p0 : process) (j : json) : Prop :=
  exists es1 e es2 p1 k order,
    es = es1 ++ e :: es2 /\ proc_run es1 p0 = Some p1 /\ (e = ev_caller_fetch k order \/ e = ev_io_fetch k order)
    /\ pevent_ok e p1 /\ j = snapshot (moment_now k order p1) /\ forallb (fun e => negb (is_fetch e)) es2 = true.

Lemma taken_snoc es p0 j e : taken es p0 j -> is_fetch e = false -> taken (es ++ [e]) p0 j.
Proof.
  intros (es1 & e1 & es2 & p1 & k & order & -> & Hr & He & Hok & -> & Hes) Hne.
  exists es1, e1, (es2 ++ [e]), p1, k, order. rewrite <- app_assoc. split_and!; try done.
  by rewrite forallb_app, Hes; cbn; rewrite Hne.
Qed.

Lemma proc_ok_snoc es e p : proc_ok (es ++ [e]) p -> proc_ok es p /\ forall p1, proc_run es p = Some p1 -> pevent_ok e p1.
Proof.
  revert p. induction es as [|x es IH]; intros p; cbn [app proc_ok proc_run].
  - intros [He _]. split; [done|]. by intros p1 [= <-].
  - intros [Hx Hes]. destruct (proc_exec x p) as [p'|]; [|done]. destruct (IH _ Hes) as [H1 H2]. cbn [mbind option_bind]. eauto.
Qed.

(** Only the two steps that ask the server state set the current snapshot. *)
Lemma curr_step e p p' :
  proc_exec e p = Some p' -> 2 <= pc_left (pc p) ->
  curr_stats (caller (chan_ (sync p')))
  = match e with
    | ev_caller_fetch k order => snapshot (moment_now k order p)
    | ev_io_fetch k order => join_body (snapshot (moment_now k order p)) (caller (chan_ (sync p)))
    | _ => curr_stats (caller (chan_ (sync p)))
    end.
Proof.
  intros Hx Hle. pose proof (proc_step_sys _ _ _ Hx Hle) as Hs. destruct e; cbn [sys_events_of] in Hs;
    try (destruct res as [| | |req [|]]); try (by injection Hs as <-); apply sys_step_curr in Hs; try done;
    cbn [proc_exec] in Hx; rewrite Hs.
  - destruct (_ && round_step e) eqn:Hrs; [|done]. bool_simp. by destruct e.
  - destruct (goes_on e || _) eqn:Hg; [|done]. by destruct e.
  - by destruct e.
Qed.

Lemma curr_taken es s f listing io p :
  proc_run es (new_process s f listing io) = Some p -> 2 <= pc_left (pc p) -> proc_ok es (new_process s f listing io) ->
  curr_stats (caller (chan_ (sync p))) = JNull \/ taken es (new_process s f listing io) (curr_stats (caller (chan_ (sync p)))).
Proof.
  set (p0 := new_process s f listing io). revert p. induction es as [|e es IH] using rev_ind; intros p Hr Hle Hok.
  - simplify_eq/=. by left.
  - rewrite proc_run_app in Hr. destruct (proc_run es p0) as [p1|] eqn:Hr1; [|done]. cbn [mbind option_bind proc_run] in Hr.
    destruct (proc_exec e p1) as [p2|] eqn:Hx; [|done]. simplify_eq/=. apply proc_ok_snoc in Hok as [Hok He].
    assert (2 <= pc_left (pc p1)) as Hle1 by (apply pc_forward in Hx; lia).
    specialize (IH p1 eq_refl Hle1 Hok). specialize (He p1 Hr1).
    assert (forall k order, e = ev_caller_fetch k order \/ e = ev_io_fetch k order ->
              taken (es ++ [e]) p0 (snapshot (moment_now k order p1))) as Hnow.
    { intros k order Hek. exists es, e, [], p1, k, order. by split_and!. }
    rewrite (curr_step _ _ _ Hx Hle1).
    destruct e; try (destruct IH as [IH|IH]; [by left|right; by apply taken_snoc]).
    + right. apply Hnow. by left.
    + unfold join_body. destruct (curr_stats (caller (chan_ (sync p1)))) eqn:Hc;
        try (destruct IH as [IH|IH]; [done|right; by apply taken_snoc]). right. apply Hnow. by right.
Qed.

Context {jel : JsonEqLaws} {txl : JsonTextLaws}.


(** The conditions decided, for walks in the order of the map. *)
Definition snap_okb (k : clocks) (s : sheath) : bool :=
  forallb (fun kv => not_nan (progress kv.2)) (map_to_list (m_all_handles s)) && defined (session_stats k s).

Definition pevent_okb (e : pevent) (p : process) : bool :=
  let c := chan_ (sync p) in
  match e with
  | ev_io_fetch k _ =>
      snap_okb k (server p) && match loop c with fetched | built _ => is_null (prev_stats (caller c)) | _ => true end
  | ev_caller_fetch k _ =>
      snap_okb k (server p)
      && (is_null (prev_stats (caller c))
          || (size (m_all_handles (server p)) <=? S (torrents_size (prev_stats (caller c)))))
  | ev_io (sys_read _ _ data _) => negb (defined (json_parse data))
  | _ => true
  end.

Fixpoint proc_okb (es : list pevent) (p : process) : bool :=
  match es with
  | [] => true
  | e :: es' => pevent_okb e p && match proc_exec e p with Some p' => proc_okb es' p' | None => true end
  end.

Definition walks_map (e : pevent) : Prop :=
  match e with ev_io_fetch _ order | ev_caller_fetch _ order => order = map_to_list | _ => True end.

Lemma snap_okb_ok k p : snap_okb k (server p) = true -> moment_ok (moment_now k map_to_list p).
Proof.
  intros [Hn Hd]%andb_true_iff. split; [done|]. split.
  - intros h st Hst. apply elem_of_map_to_list in Hst. apply forallb_Forall in Hn.
    rewrite Forall_forall in Hn. by apply Hn in Hst.
  - cbn. by destruct (session_stats k (server p)).
Qed.

Lemma proc_okb_ok es p : Forall walks_map es -> proc_okb es p = true -> proc_ok es p.
Proof.
  intros Hw. revert p. induction Hw as [|e es He Hw IH]; intros p Hb; [done|]. cbn [proc_okb] in Hb. bool_simp. split.
  - destruct e; try done;
      cbn [pevent_okb pevent_ok walks_map] in *; subst; bool_simp.
    + split; [by apply snap_okb_ok|].
      destruct (is_null _) eqn:Hn; [left; by apply is_null_eq|right; by apply Nat.leb_le].
    + destruct e; try done. intros doc. unfold client_step. by destruct (json_parse data).
    + split; [by apply snap_okb_ok|]. by destruct (loop _); try apply is_null_eq.
  - destruct (proc_exec e p); [by apply IH|done].
Qed.
End program.

(** ** Examples *)

#[local] Existing Instance sha1_demo.
#[local] Existing Instance handles_demo.
#[local] Existing Instance lt_demo.
#[local] Existing Instance parsers_demo.
#[local] Existing Instance session_demo.
#[local] Existing Instance demo_metrics.
#[local] Existing Instance beast_demo.
#[local] Existing Instance documented_eq.
#[local] Existing Instance text_demo.
#[local] Existing Instance files_demo.
#[local] Existing Instance eof_demo.


Lemma torrents_latest_witness :
  m_all_handles (server demo_served) !! demo_handle
  = last_or (m_all_handles demo_sheath !! demo_handle) (proc_alerts demo_serving demo_process ≫= status_events demo_handle).
Proof.
  exact (torrents_latest demo_serving (set_svs demo_values demo_sheath) demo_front None 1 demo_served demo_handle demo_served_run).
Defined.

Lemma process_accounting_witness :
  num_outstanding_resume_data (server demo_ended)
  = (count is_ask (calls (server demo_ended)) - proc_replies (demo_serving ++ demo_stopping ++ demo_ending) demo_process)%Z.
Proof. apply process_accounting; [apply demo_ended_run|reflexivity|reflexivity]. Defined.

Definition demo_client_conn : conn := default (mk_conn new_ws false false) (conns (sync demo_served) !! 1).

