(* ===== verification/Answers.v ===== *)
(** * Requests for resume data and their answers

    What [Accounting] says of the counter of outstanding resume data, of the
    whole process and of a libtorrent that keeps its promise: it answers each
    request for resume data once, after it was made.  The answers come as alerts
    that the session's thread pops and then handles one by one, among the steps
    of the other threads; so the counter is what libtorrent owes and what the
    thread has in hand, and the end of the program waits for the last answer. *)

From S2P Require Import Prelude CStd Json JsonPatch JsonDiff Fs Util SessionStats TorrentStatus Libtorrent.
From S2P Require Import HttpUtil Demo JsonText Sheath Torrents Accounting Handlers HttpSession Sync WebSocket.
From S2P Require Import Rounds Delivery Channel Process Shutdown Program.

Section answers.
Context {sha : Sha1} {ltd : LtData} {hs : Handles} {ltp : LtParsers} {lts : Session} {mt : Metrics}.
Context {beast : Beast} {jeq : JsonEq} {text : JsonText} {fls : Files} {eof : NeedEof}.

(** ** What was asked, and what came *)

Definition asks (p : process) : Z := count is_ask (calls (server p)).

(** The answers a step takes out of libtorrent's queue. *)
Definition ev_popped (e : pevent) (p : process) : Z :=
  match e with
  | ev_pop alerts => count is_reply alerts
  | ev_end popped waits => count is_reply (op_alerts (op_save_all popped waits) (server p))
  | _ => 0
  end.

Fixpoint proc_popped (es : list pevent) (p : process) : Z :=
  match es with
  | [] => 0
  | e :: es' => ev_popped e p + match proc_exec e p with Some p' => proc_popped es' p' | None => 0 end
  end.

(** The answers that were popped and not handled. *)
Definition in_hand (p : process) : Z := match session_thread p with popping al => count is_reply al | _ => 0 end.

(** libtorrent's promise, as a count of what it owes: no answer comes before
    its request. *)
Fixpoint answers_follow (owed : Z) (es : list pevent) (p : process) : bool :=
  match es with
  | [] => true
  | e :: es' =>
      match proc_exec e p with
      | Some p' =>
          let owed := (owed + (asks p' - asks p) - ev_popped e p)%Z in
          (0 <=? owed)%Z && answers_follow owed es' p'
      | None => true
      end
  end.

Lemma answers_owed owed es p p' :
  answers_follow owed es p = true -> (0 <= owed)%Z -> proc_run es p = Some p' ->
  (0 <= owed + (asks p' - asks p) - proc_popped es p)%Z.
Proof.
  revert owed p. induction es as [|e es IH]; intros owed p; cbn [answers_follow proc_run proc_popped];
    [intros _ ? [= <-]; lia|].
  destruct (proc_exec e p) as [p1|]; [|done]. cbn [mbind option_bind]. intros Ha Ho Hr. bool_simp.
  match goal with H : answers_follow _ _ _ = true |- _ => apply IH in H; [lia|lia|done] end.
Qed.

(** ** What is in hand *)

Lemma in_hand_thread p p' : session_thread p' = session_thread p -> in_hand p' = in_hand p.
Proof. unfold in_hand. by intros ->. Qed.

(** Only its own steps move the session's thread. *)
Lemma other_thread e p p' : proc_exec e p = Some p' -> session_event e = false -> session_thread p' = session_thread p.
Proof.
  intros He Hs. destruct e; try done; clear Hs; by proc_cases He.
Qed.

Lemma step_in_hand e p p' :
  proc_exec e p = Some p' -> in_hand p' = (in_hand p + ev_popped e p - count is_reply (ev_alerts e p))%Z.
Proof.
  intros He. destruct (session_event e) eqn:Hs.
  - unfold in_hand. destruct e; try done; clear Hs; cbn [proc_exec ev_popped ev_alerts] in *;
      destruct (session_thread p) as [| |[|a al]|t [|n al]| |] eqn:Hse; try done.
    + destruct (quit p); simplify_eq/=. done.
    + simplify_eq/=. rewrite count_nil. lia.
    + destruct (handle_alert a (server p)) as [[r s]|]; simplify_eq/=. rewrite (count_cons _ a). lia.
    + injection He as <-. cbn [with_session_thread session_thread]. by destruct (_ && _).
    + destruct (scan_loop _ _ _) as [[] s]; simplify_eq/=. done.
    + simplify_eq/=. done.
    + destruct (quit p); simplify_eq/=. done.
    + simplify_eq/=. done.
  - rewrite (in_hand_thread p p') by by eapply other_thread. destruct e; try done; cbn [ev_popped ev_alerts]; rewrite ?count_nil; lia.
Qed.

Lemma run_in_hand es p p' :
  proc_run es p = Some p' -> in_hand p' = (in_hand p + proc_popped es p - proc_replies es p)%Z.
Proof.
  unfold proc_replies. revert p.
  induction es as [|e es IH]; intros p; cbn [proc_run proc_popped proc_alerts]; [intros [= <-]; rewrite count_nil; lia|].
  destruct (proc_exec e p) as [p1|] eqn:Hx; [|done]. cbn [mbind option_bind]. intros Hr.
  rewrite (IH _ Hr), (step_in_hand _ _ _ Hx), count_app. lia.
Qed.

(** The counter, as what was asked and not handled. *)
Lemma counter_in_hand es s f listing io p :
  proc_run es (new_process s f listing io) = Some p -> calls s = [] -> num_outstanding_resume_data s = 0%Z ->
  num_outstanding_resume_data (server p)
  = (asks p - proc_popped es (new_process s f listing io) + in_hand p)%Z.
Proof.
  intros Hr Hc Hn. rewrite (run_in_hand _ _ _ Hr). apply proc_run_ops, run_balance in Hr as Hb.
  unfold balance, asks, in_hand, proc_replies in *. cbn [new_process server session_thread] in *. rewrite Hc, Hn in Hb.
  change (count is_ask []) with 0%Z in Hb. lia.
Qed.

Lemma joined_in_hand p : proc_inv p -> pc_left (pc p) <= 6 -> in_hand p = 0%Z.
Proof. intros Hi Hle. unfold in_hand. by rewrite (proj1 (pi_left _ Hi) (pi_serving _ Hi Hle)). Qed.

Context {sel : SessionLaws}.

(** C18: with a libtorrent that answers no request before it is made, the counter
    of outstanding resume data is never negative: at any moment, whatever the
    threads interleave, it is the number of requests without an answer and of
    answers popped and not handled; and the process ends only after the last
    request was answered and its answer handled, so that none that comes is
    left unwritten. *)
Theorem saves_answered es s f listing io p :
  let p0 := new_process s f listing io in
  proc_run es p0 = Some p -> calls s = [] -> num_outstanding_resume_data s = 0%Z -> answers_follow 0 es p0 = true ->
  num_outstanding_resume_data (server p) = ((asks p - proc_popped es p0) + in_hand p)%Z
  /\ (0 <= asks p - proc_popped es p0)%Z /\ (0 <= in_hand p)%Z
  /\ (pc p = ended -> asks p = proc_replies es p0 /\ num_outstanding_resume_data (server p) = 0%Z).
Proof.
  intros p0 Hr Hc Hn Ha. pose proof (counter_in_hand _ _ _ _ _ _ Hr Hc Hn) as Hcount. fold p0 in Hcount.
  assert (0 <= asks p - proc_popped es p0)%Z as Howed.
  { pose proof (answers_owed 0 es p0 p Ha ltac:(lia) Hr) as Ho. unfold asks, p0 in *. cbn [new_process server] in *.
    rewrite Hc in Ho. change (count is_ask []) with 0%Z in Ho. lia. }
  split; [done|]. split; [done|]. split; [unfold in_hand, count; case_match; lia|]. intros Hpc.
  pose proof (proc_run_inv _ _ _ Hr (new_process_inv s f listing io)) as Hi.
  assert (in_hand p = 0%Z) as Hh by (apply joined_in_hand; [done|rewrite Hpc; cbn; lia]).
  destruct (ended_state _ _ _ _ _ _ Hr Hpc) as (Hle & _).
  pose proof (run_in_hand _ _ _ Hr) as Hp. change (in_hand p0) with 0%Z in Hp. lia.
Qed.

(** C19: the program's end comes: once every thread is joined and no session is
    left, the destructor of the server state returns and the process has ended,
    if each request for resume data made so far and until the end of the wait
    is answered; the session is then paused and in its file.  The alerts popped
    meanwhile are of torrents that are there, and none adds one while the
    pointer to the peer dangles. *)
Theorem process_end_returns es s f listing io p popped waits :
  let p0 := new_process s f listing io in
  proc_run es p0 = Some p -> calls s = [] -> num_outstanding_resume_data s = 0%Z ->
  pc p = destroying -> alive (chan_ (sync p)) = ∅ -> sessions_ (caller (chan_ (sync p))) = ∅ ->
  (forall i, Forall (fun a => alert_safe (server p) a = true) (popped i)) ->
  Forall (fun a => alert_safe (server p) a = true) (concat (omap id waits)) ->
  (forall s1 s2, ask_all popped 0 (to_save (server p)) (server p) = Some s1 ->
     pop_alerts (concat (omap id waits)) s1 = Some s2 ->
     (count is_ask (calls s2)
      <= proc_popped es p0 + count is_reply (ask_alerts popped 0 (to_save (server p)) (server p)) + count is_reply (concat (omap id waits)))%Z) ->
  exists p', proc_exec (ev_end popped waits) p = Some p' /\ pc p' = ended
    /\ ses_is_paused (ses_ (server p')) = true
    /\ (writable (files (server p')) (file_ses_state (cfg (server p'))) = true ->
        read_all (files (server p')) (file_ses_state (cfg (server p'))) = Some (ses_state (ses_ (server p')))).
Proof.
  intros p0 Hr Hc Hn Hpc Hal Hse Hpop Hw Hans. pose proof (proc_run_inv _ _ _ Hr (new_process_inv s f listing io)) as Hi.
  pose proof (run_in_hand _ _ _ Hr) as Hh. rewrite (joined_in_hand p) in Hh by (done || (rewrite Hpc; cbn; lia)).
  change (in_hand p0) with 0%Z in Hh. pose proof (proc_run_ops _ _ _ Hr) as Hos.
  destruct (end_returns (proc_ops es p0) s (server p) (proc_alerts es p0) popped waits) as (s' & He & _ & Hp & Hf); try done.
  { intros s1 s2 H1 H2. specialize (Hans s1 s2 H1 H2). unfold proc_replies in Hh. lia. }
  exists (with_pc ended (with_server s' p)). split; [|done]. cbn [proc_exec]. rewrite Hpc, bool_decide_true by done. by rewrite He.
Qed.
End answers.

(** ** Examples *)

#[local] Existing Instance sha1_demo.
#[local] Existing Instance handles_demo.
#[local] Existing Instance lt_demo.
#[local] Existing Instance parsers_demo.
#[local] Existing Instance session_demo.
#[local] Existing Instance demo_metrics.
#[local] Existing Instance beast_demo.
#[local] Existing Instance documented_eq.
#[local] Existing Instance text_demo.
#[local] Existing Instance files_demo.
#[local] Existing Instance eof_demo.

(** The run of [Process]: what is asked in it is answered at the end. *)
Example demo_asked : asks demo_stopped = 1%Z /\ asks demo_ended = 2%Z.
Proof. vm_compute. done. Qed.

Lemma saves_answered_witness :
  num_outstanding_resume_data (server demo_ended)
  = ((asks demo_ended - proc_popped (demo_serving ++ demo_stopping ++ demo_ending) demo_process) + in_hand demo_ended)%Z
  /\ (0 <= asks demo_ended - proc_popped (demo_serving ++ demo_stopping ++ demo_ending) demo_process)%Z
  /\ (0 <= in_hand demo_ended)%Z
  /\ (pc demo_ended = ended ->
      asks demo_ended = proc_replies (demo_serving ++ demo_stopping ++ demo_ending) demo_process
      /\ num_outstanding_resume_data (server demo_ended) = 0%Z).
Proof.
  apply (saves_answered (sel := session_demo_laws) (demo_serving ++ demo_stopping ++ demo_ending)
           (set_svs demo_values demo_sheath) demo_front None 1 demo_ended).
  - apply demo_ended_run.
  - reflexivity.
  - reflexivity.
  - vm_compute. reflexivity.
Defined.

(** Before the last step of that run. *)
Definition demo_joined_run : list pevent := demo_serving ++ demo_stopping ++ removelast demo_ending.
Definition demo_joined : process := after demo_joined_run demo_process.
Definition demo_last : list (option (list alert)) :=
  [Some [save_resume_data_failed_alert true]; None; Some [save_resume_data_alert (blank_atp demo_hash)]].

Lemma process_end_returns_witness :
  exists p', proc_exec (ev_end (fun _ => []) demo_last) demo_joined = Some p' /\ pc p' = ended
    /\ ses_is_paused (ses_ (server p')) = true
    /\ (writable (files (server p')) (file_ses_state (cfg (server p'))) = true ->
        read_all (files (server p')) (file_ses_state (cfg (server p'))) = Some (ses_state (ses_ (server p')))).
Proof.
  apply (process_end_returns (sel := session_demo_laws) demo_joined_run (set_svs demo_values demo_sheath) demo_front None 1).
  - apply after_run. vm_compute. reflexivity.
  - reflexivity.
  - reflexivity.
  - vm_compute. reflexivity.
  - apply (bool_decide_unpack _). vm_compute. done.
  - apply (bool_decide_unpack _). vm_compute. done.
  - intros i. constructor.
  - repeat constructor.
  - intros s1 s2 H1 H2.
    assert (s1 = result_of (ask_all (fun _ => []) 0 (to_save (server demo_joined)) (server demo_joined))) as -> by by rewrite H1.
    assert (s2 = result_of (pop_alerts (concat (omap id demo_last))
              (result_of (ask_all (fun _ => []) 0 (to_save (server demo_joined)) (server demo_joined))))) as -> by by rewrite H2.
    vm_compute. discriminate.
Defined.
