(* ===== verification/Resume.v ===== *)
(** * The resume files of a whole run (src/sheath.cpp)

    What the next start of the program makes of the files this one leaves.
    Along any run of the threads the resume file of a torrent is decided by a
    short history, its [journal]: the resume data saved by the alerts handled
    and the drops asked for by requests, in the order in which they happened.
    Nothing else any thread does, the scan of the watched directory, the
    downloads' directories and the session's file included, touches it. *)

From S2P Require Import Prelude CStd Json JsonPatch JsonDiff Fs Util SessionStats TorrentStatus Libtorrent.
From S2P Require Import HttpUtil Demo JsonText Sheath Torrents Accounting Handlers HttpSession Commands Sync WebSocket.
From S2P Require Import Rounds Delivery Channel Process Program.

Section resume.
Context {sha : Sha1} {ltd : LtData} {hs : Handles} {ltp : LtParsers} {lts : Session} {mt : Metrics}.

(** ** The journal of a torrent *)

(** What an operation does to the resume file of [h]: data saved ([Some]), or
    the file removed ([None]). *)
Definition op_journal (h : sha1_hash) (o : op) (s : sheath) : list (option add_torrent_params) :=
  match o with
  | op_drop ih _ => if decide (ih = h) then [None] else []
  | _ => Some <$> (op_alerts o s ≫= saved_for h)
  end.

Fixpoint journal (h : sha1_hash) (os : list op) (s : sheath) : list (option add_torrent_params) :=
  match os with
  | [] => []
  | o :: os' => op_journal h o s ++ match exec o s with Some s' => journal h os' s' | None => [] end
  end.

(** The file after the history: the last entry decides. *)
Definition written_as (l : list (option add_torrent_params)) : list (option string) :=
  fmap (M := list) (fmap (M := option) write_resume_data_buf) l.

(** An operation may make a directory where a request says downloads go: not
    in the place of the resume file. *)
Definition op_elsewhere (c : config) (h : sha1_hash) (o : op) : bool :=
  match o with op_add _ d => negb (bool_decide (d = resume_file c h)) | _ => true end.

Context {shl : Sha1Laws}.

(** ** Other files *)

Lemma resume_extension c h : path_extension (resume_file c h) = RESUME_EXT.
Proof.
  unfold path_extension, resume_file. rewrite path_filename_div by apply hex_name_no_slash, to_hex_hex40.
  pose proof (to_hex_hex40 h) as Hh. unfold hex40 in Hh. bool_simp.
  assert (srfind "." (to_hex h +:+ RESUME_EXT) = Some 40) as Hd.
  { change RESUME_EXT with (String "." "resume"). rewrite srfind_last by done. by f_equal. }
  rewrite !bool_decide_eq_false_2; [|intros He; rewrite He in Hd; discriminate..]. cbn [orb]. rewrite Hd.
  assert (sdrop 40 (to_hex h +:+ RESUME_EXT) = RESUME_EXT) as ->; [|done].
  replace 40 with (String.length (to_hex h)) by congruence. apply sdrop_app.
Qed.

Lemma create_elsewhere f d p :
  d <> p -> writable f p = true ->
  read_all (create_directory f d).2 p = read_all f p /\ writable (create_directory f d).2 p = true.
Proof.
  intros Hne Hw. pose proof (fun q n => create_directory_mono f d q n) as Hm. unfold create_directory in *.
  destruct (fs_nodes f !! d) as [[b|]|] eqn:Hd; try done. destruct (negb (parent_ok f d)); [done|]. case_bool_decide; [done|].
  unfold read_all, writable, parent_ok, set_nodes in *. cbn [snd fs_nodes fs_denied] in *.
  rewrite lookup_insert_ne by done. split; [done|]. destruct (fs_nodes f !! p) as [[?|]|]; try done;
    apply andb_true_iff in Hw as [Hw Hden]; apply andb_true_iff; (split; [|exact Hden]).
  all: destruct (srfind "/" p) as [[|i]|]; try done; destruct (fs_nodes f !! stake (S i) p) as [[|]|] eqn:Hq; try done;
    by rewrite (Hm _ _ Hq).
Qed.

(** A new directory is no file. *)
Lemma create_reads f d p : read_all (create_directory f d).2 p = read_all f p.
Proof.
  unfold create_directory. destruct (fs_nodes f !! d) as [[b|]|] eqn:Hd; try done. destruct (negb _); [done|].
  case_bool_decide; [done|]. unfold read_all. cbn.
  destruct (decide (d = p)) as [->|Hne]; [by rewrite lookup_insert_eq, Hd|by rewrite lookup_insert_ne].
Qed.

Lemma remove_resume f p :
  writable f p = true -> read_all (remove_file f p).2 p = None /\ writable (remove_file f p).2 p = true.
Proof.
  intros Hw. rewrite writable_remove. split; [|done]. unfold writable in Hw. apply read_removed.
  by destruct (fs_nodes f !! p) as [[?|]|]; try done; bool_simp.
Qed.

(** ** What operations do to files *)

(** The five ways in which the program changes the file system. *)
Inductive act :=
  | act_alert (a : alert)
  | act_mkdir (d : string)                 (* a download's directory *)
  | act_unwatch (p : string)               (* a torrent file of the watched directory *)
  | act_drop (h : sha1_hash)
  | act_state (bytes : string).            (* the session *)

Definition act_apply (c : config) (f : fsys) (a : act) : fsys :=
  match a with
  | act_alert a => files_after c a f
  | act_mkdir d => (create_directory f d).2
  | act_unwatch p => (remove_file f p).2
  | act_drop h => (remove_file f (resume_file c h)).2
  | act_state b => (save_file f (file_ses_state c) b).2
  end.

Definition act_journal (h : sha1_hash) (a : act) : list (option add_torrent_params) :=
  match a with
  | act_alert a => Some <$> saved_for h a
  | act_drop ih => if decide (ih = h) then [None] else []
  | _ => []
  end.

(** Where they do it. *)
Definition act_of (o : op) (a : act) : Prop :=
  match a with
  | act_mkdir d => exists b, o = op_add b d
  | act_unwatch p => path_extension p = ".torrent"
  | _ => True
  end.

Definition acts_of (o : op) (s s' : sheath) (l : list act) : Prop :=
  files s' = foldl (act_apply (cfg s)) (files s) l /\ (forall h, l ≫= act_journal h = op_journal h o s) /\ Forall (act_of o) l.

Lemma no_acts o s s' : files s' = files s -> (forall h, op_journal h o s = []) -> acts_of o s s' [].
Proof. intros Hf Hj. split_and!; [done|intros h; by rewrite Hj|done]. Qed.

Lemma alert_acts_journal h al : (act_alert <$> al) ≫= act_journal h = Some <$> (al ≫= saved_for h).
Proof. induction al as [|a al IH]; [done|]. cbn. by rewrite fmap_app, <- IH. Qed.

Lemma alert_acts_apply c al f : foldl (act_apply c) f (act_alert <$> al) = foldl (fun f a => files_after c a f) f al.
Proof. revert f. induction al as [|a al IH]; intros f; [done|]. cbn. apply IH. Qed.

Lemma alert_acts o s s' al :
  files s' = foldl (fun f a => files_after (cfg s) a f) (files s) al -> (forall h, op_journal h o s = Some <$> (al ≫= saved_for h)) ->
  acts_of o s s' (act_alert <$> al).
Proof.
  intros Hf Hj. split_and!; [by rewrite alert_acts_apply|intros h; by rewrite alert_acts_journal|].
  apply Forall_fmap, Forall_true. done.
Qed.

Lemma scan_acts c d names s :
  exists l, files (scan_loop d names s).2 = foldl (act_apply c) (files s) (act_unwatch <$> l)
            /\ Forall (fun p => path_extension p = ".torrent") l.
Proof.
  revert s. induction names as [|n names IH]; intros s; [by exists []|]. cbn [scan_loop].
  case_bool_decide as He; cbn [negb]; [|apply IH].
  assert (files (add_torrent_file (path_div d n) s).2 = files s) as Hf.
  { unfold add_torrent_file. by destruct (_ ≫= _). }
  destruct (add_torrent_file _ _) as [[] s1]; cbn [snd] in Hf; [|rewrite <- Hf; apply IH].
  destruct (remove_file _ _) as [[] f] eqn:Hr; [|exists []; by cbn].
  destruct (IH (set_files f s1)) as (l & Hl & Hfa). exists (path_div d n :: l). split; [|by constructor].
  cbn. rewrite <- Hf, Hr. exact Hl.
Qed.

Lemma unwatch_journal h l : (act_unwatch <$> l) ≫= act_journal h = [].
Proof. by induction l. Qed.

Lemma doLoop_acts al now l s b s' :
  Torrents.doLoop al now l s = Some (b, s') -> exists acts, acts_of (op_loop al now l) s s' acts.
Proof.
  unfold Torrents.doLoop. destruct (pop_alerts _ _) as [s1|] eqn:Hp; [|done]. cbn [mbind option_bind].
  apply pop_alerts_data in Hp as (Hc & Hf & _). change (cfg (post_requests s)) with (cfg s) in *.
  change (files (post_requests s)) with (files s) in *. intros Hl.
  destruct (enable_watch _ && _); [|simplify_eq; eexists; by apply alert_acts].
  assert (files s' = files (scan_dir (dir_watches (cfg s1)) l s1).2) as Hs' by (destruct (scan_dir _ _ _) as [[] s2]; by simplify_eq).
  destruct l as [names|]; [|eexists; apply (alert_acts _ _ _ al); [by rewrite Hs'|done]]. cbn [scan_dir] in Hs'.
  destruct (scan_acts (cfg s) (dir_watches (cfg s1)) names s1) as (ps & Hps & Hext).
  exists ((act_alert <$> al) ++ (act_unwatch <$> ps)). split_and!.
  - by rewrite foldl_app, alert_acts_apply, <- Hf, Hs', Hps.
  - intros h. by rewrite bind_app, alert_acts_journal, unwatch_journal, app_nil_r.
  - apply Forall_app. split; apply Forall_fmap; [by apply Forall_true|exact Hext].
Qed.

(** Every operation is such a list. *)
Lemma exec_acts o s s' : exec o s = Some s' -> exists acts, acts_of o s s' acts.
Proof.
  destruct o as [l|fp a|al now l|uri|b d|ih|ih|ih wd| |popped w| |ses| |a|n|now]; cbn [exec]; intros He; simplify_eq/=;
    try (exists []; by apply no_acts).
  - exists []. apply no_acts; [|done]. destruct l as [names|]; [|done]. apply load_resume_loop_requests.
  - exists []. apply no_acts; [|done]. unfold set_peer in He. by destruct (parse_endpoint a) as [[ep|]|]; simplify_eq/=.
  - destruct (Torrents.doLoop al now l s) as [[b s1]|] eqn:Hl; simplify_eq/=. by eapply doLoop_acts.
  - exists []. apply no_acts; [|done]. unfold add_magnet. by destruct (parse_magnet_uri _).
  - unfold add_torrent_buf. destruct (parse_torrent _); [|exists []; by apply no_acts].
    exists [act_mkdir d]. split_and!; [|done|repeat constructor; by exists b]. cbn.
    destruct (create_directory _ _) as [[c ec] f]. by destruct (negb c && _).
  - exists []. apply no_acts; [|done]. unfold pause_resume_torrent. destruct (ses_find_torrent _ _); [|done]. by destruct (_ =? _)%Z.
  - exists []. apply no_acts; [|done]. unfold resume_torrent. destruct (ses_find_torrent _ _); [|done]. by destruct (has_bit _ _ && _).
  - exists [act_drop ih]. split_and!; [by apply drop_torrent_files|intros h; apply app_nil_r|by repeat constructor].
  - exists []. apply no_acts; [|done]. unfold toggle_pause_resume. by destruct (ses_is_paused _).
  - destruct (save_all_resume popped w s) as [[b s1]|] eqn:Hs; simplify_eq/=.
    apply save_all_data in Hs as (_ & Hf & _). eexists. by apply alert_acts.
  - exists [act_state (ses_state (ses_ (save_session s)))]. split_and!; [|done|by repeat constructor].
    unfold save_session. by destruct (ses_is_paused _).
  - destruct (handle_alert a s) as [[r s1]|] eqn:Ha; simplify_eq/=. apply handle_alert_frame in Ha as (_ & _ & _ & Hf & _).
    exists (act_alert <$> [a]). by apply alert_acts.
  - destruct (scan_acts (cfg s) (dir_watches (cfg s)) [n] s) as (ps & Hps & Hext). exists (act_unwatch <$> ps).
    split_and!; [exact Hps|intros h; apply unwatch_journal|by apply Forall_fmap].
Qed.

(** ** The file of one torrent *)

Lemma resume_neq c h p e : path_extension p = e -> e <> RESUME_EXT -> p <> resume_file c h.
Proof. intros <- He Hp. by rewrite Hp, resume_extension in He. Qed.

(** The session's file is no resume file, and no request makes a directory in
    the place of one. *)
Definition state_apart (c : config) : Prop := path_extension (file_ses_state c) <> RESUME_EXT.

Lemma act_becomes o a c f h :
  state_apart c -> act_of o a -> op_elsewhere c h o = true -> writable f (resume_file c h) = true ->
  read_all (act_apply c f a) (resume_file c h) = last_or (read_all f (resume_file c h)) (written_as (act_journal h a))
  /\ writable (act_apply c f a) (resume_file c h) = true.
Proof.
  intros Hst Ho Hel Hw. destruct a as [a|d|p|ih|b]; cbn [act_apply act_journal act_of] in *.
  - unfold written_as. rewrite <- list_fmap_compose. by apply (files_after_read c h a f).
  - destruct Ho as [b ->]. cbn [op_elsewhere] in Hel. bool_simp. by apply create_elsewhere.
  - rewrite writable_remove, read_remove_ne; [done|]. by eapply resume_neq.
  - case_decide as Hih; [subst; by apply remove_resume|]. rewrite writable_remove, read_remove_ne; [done|].
    by intros ?%resume_file_inj.
  - unfold save_file. rewrite writable_write, read_write_ne; [done|]. by eapply resume_neq.
Qed.

Lemma acts_become o l c f h :
  state_apart c -> Forall (act_of o) l -> op_elsewhere c h o = true -> writable f (resume_file c h) = true ->
  read_all (foldl (act_apply c) f l) (resume_file c h)
  = last_or (read_all f (resume_file c h)) (written_as (l ≫= act_journal h))
  /\ writable (foldl (act_apply c) f l) (resume_file c h) = true.
Proof.
  intros Hst Hl Hel. revert f. induction Hl as [|a l Ha Hl IH]; intros f Hw; [done|]. cbn [foldl].
  destruct (act_becomes o a c f h Hst Ha Hel Hw) as [Hr1 Hw1]. destruct (IH _ Hw1) as [Hr2 Hw2]. split; [|done].
  unfold written_as in *. cbn [mbind list_bind]. by rewrite Hr2, Hr1, fmap_app, last_or_app.
Qed.

Lemma run_becomes h os s s' al :
  Accounting.run os s = Some (s', al) -> state_apart (cfg s) ->
  Forall (fun o => op_elsewhere (cfg s) h o = true) os -> writable (files s) (resume_file (cfg s) h) = true ->
  read_all (files s') (resume_file (cfg s) h) = last_or (read_all (files s) (resume_file (cfg s) h)) (written_as (journal h os s))
  /\ writable (files s') (resume_file (cfg s) h) = true.
Proof.
  revert s al. induction os as [|o os IH]; intros s al; cbn [Accounting.run journal]; [by intros [= <- _]|].
  destruct (exec o s) as [s1|] eqn:He; [|done]. cbn [mbind option_bind].
  destruct (Accounting.run os s1) as [[s2 l2]|] eqn:Hr; [|done]. cbn [mbind option_bind fst snd]. intros [= <- _] Hst Hel Hw.
  inversion_clear Hel as [|? ? Ho Hos]. destruct (exec_acts _ _ _ He) as (acts & Hf & Hj & Ha).
  destruct (acts_become o acts (cfg s) (files s) h Hst Ha Ho Hw) as [Hr1 Hw1]. rewrite <- Hf in Hr1, Hw1. rewrite Hj in Hr1.
  pose proof (exec_cfg _ _ _ He) as Hc. destruct (IH s1 l2 Hr) as [Hr2 Hw2]; rewrite ?Hc in *; try done.
  split; [|done]. unfold written_as in *. by rewrite Hr2, Hr1, fmap_app, last_or_app.
Qed.

(** Each resume file keeps holding the torrent it is named after. *)
Lemma act_owned {lpl : LtParsersLaws} o a c f :
  state_apart c -> act_of o a -> resume_owned c f -> resume_owned c (act_apply c f a).
Proof.
  intros Hst Ho Hown. destruct a as [a|d|p|ih|b]; cbn [act_apply]; [by apply (alerts_owned c [a])|..]; intros h bs q Hr;
    apply Hown; revert Hr.
  - by rewrite create_reads.
  - apply read_remove_sub.
  - apply read_remove_sub.
  - unfold save_file. rewrite read_write_ne; [done|]. by eapply resume_neq.
Qed.

Lemma run_owned {lpl : LtParsersLaws} os s s' al :
  Accounting.run os s = Some (s', al) -> state_apart (cfg s) ->
  resume_owned (cfg s) (files s) -> resume_owned (cfg s) (files s').
Proof.
  revert s al. induction os as [|o os IH]; intros s al; cbn [Accounting.run]; [by intros [= <- _]|].
  destruct (exec o s) as [s1|] eqn:He; [|done]. cbn [mbind option_bind].
  destruct (Accounting.run os s1) as [[s2 l2]|] eqn:Hr; [|done]. cbn [mbind option_bind fst snd]. intros [= <- _] Hst Hown.
  rewrite <- (exec_cfg _ _ _ He) in *. apply (IH s1 l2 Hr Hst). destruct (exec_acts _ _ _ He) as (acts & -> & _ & Ha).
  rewrite <- (exec_cfg _ _ _ He) in *. clear -Ha Hst Hown lpl shl. revert Hown. generalize (files s). induction Ha as [|a l Ha Hl IHl]; intros f Hown; [done|].
  cbn [foldl]. apply IHl. by eapply act_owned.
Qed.

Lemma state_file_apart ses store moved conf now t0 t1 f : state_apart (cfg (new_sheath ses store moved conf now t0 t1 f)).
Proof. unfold state_apart. cbn [cfg new_sheath file_ses_state]. unfold path_extension. by rewrite path_filename_div. Qed.

(** ** The next start *)

(** What the loader of the next start requests, for a listing of the resume
    directory. *)
Lemma loads_own {lpl : LtParsersLaws} s2 names q :
  calls s2 = [] -> lists_dir (files s2) (dir_resumes (cfg s2)) names -> resume_owned (cfg s2) (files s2) ->
  async_add_torrent q ∈ calls (load_resumes (Some names) s2)
  <-> exists bytes, load_file (files s2) (resume_file (cfg s2) (p_info_hash q)) default_limit = Some bytes
                    /\ read_resume_data bytes = (q, false).
Proof.
  intros Hn Hl Hown. destruct (load_resume_loop_requests names s2) as (Hcalls & _). cbn [load_resumes]. rewrite Hcalls, Hn. cbn [app].
  rewrite list_elem_of_fmap. split.
  - intros (q' & Hq & Hin). simplify_eq. apply resume_requests_elem in Hin as (h & b & Hb & Hr); [|done].
    assert (p_info_hash q' = h) as <-; [|eauto]. unfold load_file in Hb. destruct (read_all _ _) eqn:Hread; [|done].
    case_match; simplify_eq. by eapply Hown.
  - intros (b & Hb & Hr). exists q. split; [done|]. apply resume_requests_elem; [done|]. eauto.
Qed.

Context {beast : Beast} {jeq : JsonEq} {text : JsonText} {fls : Files} {eof : NeedEof}.

Definition proc_journal (h : sha1_hash) (es : list pevent) (p : process) : list (option add_torrent_params) :=
  journal h (proc_ops es p) (server p).

Lemma journal_hash h os s q : Some q ∈ journal h os s -> p_info_hash q = h.
Proof.
  revert s. induction os as [|o os IH]; intros s; cbn [journal]; [by intros ?%elem_of_nil|].
  rewrite elem_of_app. intros [Hq|Hq]; [|by destruct (exec o s); [eapply IH|apply elem_of_nil in Hq]].
  assert (forall al, Some q ∈ Some <$> (al ≫= saved_for h) -> p_info_hash q = h) as Hsaved.
  { intros al (q' & [= <-] & Hin)%list_elem_of_fmap. apply list_elem_of_bind in Hin as (a & Hin & _).
    destruct a; cbn in Hin; try by apply elem_of_nil in Hin. case_decide; set_solver. }
  destruct o; cbn [op_journal] in Hq; try by apply Hsaved in Hq. case_decide; set_solver.
Qed.

(** C15: what the next start loads of a torrent is what the last entry of its
    journal says, in any run of the threads.  If that is resume data saved by
    an alert, the start requests the torrent with exactly these parameters
    (provided they fit the loader's limit); if it is a drop, nothing it
    requests has the hash; without an entry it requests what it would have
    before the run.  Neither the scan, nor the downloads, nor the end of the
    program interferes, as long as no request makes a directory in the place
    of the resume file. *)
Theorem next_start_loads {lpl : LtParsersLaws} es s f listing io p s2 names q :
  let p0 := new_process s f listing io in
  let loads c fs := exists bytes, load_file fs (resume_file c (p_info_hash q)) default_limit = Some bytes
                                  /\ read_resume_data bytes = (q, false) in
  proc_run es p0 = Some p -> state_apart (cfg s) -> resume_owned (cfg s) (files s) ->
  writable (files s) (resume_file (cfg s) (p_info_hash q)) = true ->
  Forall (fun o => op_elsewhere (cfg s) (p_info_hash q) o = true) (proc_ops es p0) ->
  files s2 = files (server p) -> cfg s2 = cfg s -> calls s2 = [] -> lists_dir (files s2) (dir_resumes (cfg s2)) names ->
  async_add_torrent q ∈ calls (load_resumes (Some names) s2)
  <-> match last (proc_journal (p_info_hash q) es p0) with
      | Some (Some q') => q = q' /\ (Z.of_nat (String.length (write_resume_data_buf q')) <= default_limit)%Z
      | Some None => False
      | None => loads (cfg s) (files s)
      end.
Proof.
  intros p0 loads Hr Hst Hown Hw Hel Hf2 Hc2 Hn2 Hl. apply proc_run_ops in Hr. change (server p0) with s in Hr.
  pose proof (run_owned _ _ _ _ Hr Hst Hown) as Hown'. rewrite <- Hf2, <- Hc2 in Hown'.
  rewrite (loads_own s2 names q Hn2 Hl Hown'), Hf2, Hc2.
  destruct (run_becomes (p_info_hash q) _ _ _ _ Hr Hst Hel Hw) as [Hread _].
  unfold proc_journal, loads, load_file in *. change (server p0) with s. rewrite Hread. unfold last_or, written_as. rewrite fmap_last.
  destruct (last (journal _ _ _)) as [[q'|]|] eqn:Hlast; cbn; [|split; [by intros (? & ? & _)|done]|done].
  split.
  - intros (b & Hb & Hq). case_match; simplify_eq. bool_simp. rewrite read_write_resume in Hq. by simplify_eq.
  - intros [-> Hlim]. exists (write_resume_data_buf q'). rewrite (proj2 (Z.ltb_ge _ _)) by done. by rewrite read_write_resume.
Qed.
End resume.

(** ** Examples *)

#[local] Existing Instance sha1_demo.
#[local] Existing Instance handles_demo.
#[local] Existing Instance lt_demo.
#[local] Existing Instance parsers_demo.
#[local] Existing Instance session_demo.
#[local] Existing Instance demo_metrics.
#[local] Existing Instance beast_demo.
#[local] Existing Instance documented_eq.
#[local] Existing Instance text_demo.
#[local] Existing Instance files_demo.
#[local] Existing Instance eof_demo.

(** A whole life: the resume data comes in the wait at the end; the next start
    finds it. *)
Definition demo_life_events : list pevent := demo_serving ++ demo_stopping ++ demo_ending.
Definition demo_next : sheath := new_sheath demo_session "/store" "" "/c" 0 0 0 (files (server demo_ended)).

Lemma new_sheath_files `{LtData, Handles, !LtParsers, !Session, !Metrics} ses store moved conf now t0 t1 f :
  files (new_sheath ses store moved conf now t0 t1 f) = f.
Proof. done. Qed.

Definition demo_saved : add_torrent_params :=
  match last (proc_journal demo_hash demo_life_events demo_process) with Some (Some q) => q | _ => blank_atp demo_hash end.

Lemma demo_saved_hash : p_info_hash demo_saved = demo_hash.
Proof. vm_compute. reflexivity. Qed.

Lemma demo_saved_last : last (proc_journal demo_hash demo_life_events demo_process) = Some (Some demo_saved).
Proof.
  assert (match last (proc_journal demo_hash demo_life_events demo_process) with Some (Some q) => true | _ => false end = true) as Hd
    by (vm_compute; reflexivity).
  unfold demo_saved. by destruct (last _) as [[q|]|].
Qed.

(** What is left on the disk: the resume file and the session's. *)
Definition demo_left : fsys :=
  mk_fsys (<["/c/.ses_state" := File (ses_state (ses_ (server demo_ended)))]>
             (fs_nodes (one_file demo_hash (write_resume_data_buf (blank_atp demo_hash))))) ∅.

Lemma demo_left_files : files demo_next = demo_left.
Proof. vm_compute. reflexivity. Qed.

Lemma demo_left_listing : lists_dir demo_left "/c/.resume" demo_names.
Proof.
  intros n. pose proof (one_file_listing demo_hash (write_resume_data_buf (blank_atp demo_hash)) n) as Hn.
  change ([to_hex demo_hash +:+ RESUME_EXT]) with demo_names in Hn. rewrite Hn.
  split; intros (? & Hc & Hs); (split; [done|split; [done|]]); revert Hs; unfold demo_left; cbn [fs_nodes];
    rewrite lookup_insert_ne; try done; rewrite path_div_prefix by (by apply no_slash_prefix); discriminate.
Qed.

Lemma demo_fs_owned : resume_owned (cfg demo_sheath) demo_fs.
Proof.
  intros h b p Hr. assert (map_Forall (fun _ n => n = Dir) (fs_nodes demo_fs)) as Hd.
  { unfold demo_fs. simpl. repeat apply map_Forall_insert_2; try done. }
  unfold read_all in Hr. destruct (fs_nodes demo_fs !! _) as [[c|]|] eqn:Hn; try done. by apply Hd in Hn.
Qed.

Lemma next_start_loads_witness :
  p_info_hash demo_saved = demo_hash /\ async_add_torrent demo_saved ∈ calls (load_resumes (Some demo_names) demo_next).
Proof.
  split; [apply demo_saved_hash|].
  refine (proj2 (next_start_loads (shl := sha1_demo_laws) (lpl := parsers_demo_laws) demo_life_events
                   (set_svs demo_values demo_sheath) demo_front None 1 demo_ended demo_next demo_names demo_saved
                   _ _ _ _ _ _ _ _ _) _).
  - apply demo_ended_run.
  - apply state_file_apart.
  - apply demo_fs_owned.
  - rewrite demo_saved_hash. vm_compute. reflexivity.
  - rewrite demo_saved_hash. apply forallb_Forall. vm_compute. reflexivity.
  - apply new_sheath_files.
  - reflexivity.
  - reflexivity.
  - rewrite demo_left_files. apply demo_left_listing.
  - rewrite demo_saved_hash. change (new_process _ demo_front None 1) with demo_process. rewrite demo_saved_last.
    split; [reflexivity|]. vm_compute. discriminate.
Defined.
