(* ===== verification/Lives.v ===== *)
(** * One life of the program after another

    The program ends and is started again on the files it left.  In the second
    life the loader is one thread among the others: it comes to one name after
    the other while requests are answered, alerts are handled and the watched
    directory is scanned.  What was saved is requested of libtorrent all the
    same. *)

From S2P Require Import Prelude CStd Json JsonPatch JsonDiff Fs Util SessionStats TorrentStatus Libtorrent.
From S2P Require Import HttpUtil Demo JsonText Sheath Torrents Accounting Handlers HttpSession Commands Sync WebSocket.
From S2P Require Import Rounds Delivery Channel Process Program Resume.

Section lives.
Context {sha : Sha1} {ltd : LtData} {hs : Handles} {ltp : LtParsers} {lts : Session} {mt : Metrics}.

(** ** Requests are never taken back *)

Definition requests_more (s s' : sheath) : Prop := calls s `prefix_of` calls s'.

#[export] Instance requests_more_preorder : PreOrder requests_more.
Proof. split; unfold requests_more; [by intros s|by intros s1 s2 s3 H1 H2; etrans]. Qed.

Lemma more_kept s s' : calls s' = calls s -> requests_more s s'.
Proof. unfold requests_more. by intros ->. Qed.

Lemma more_call c s : requests_more s (do_call c s).
Proof. by apply prefix_app_r. Qed.

Lemma more_handle_call h c s s' : handle_call h c s = Some s' -> requests_more s s'.
Proof. unfold handle_call. destruct (th_is_valid _ _); [|done]. intros [= <-]. apply more_call. Qed.

Lemma more_ask h m s s' : ask_resume h m s = Some s' -> requests_more s s'.
Proof.
  unfold ask_resume. destruct (handle_call _ _ _) as [s1|] eqn:Hc; [|done]. intros [= <-].
  apply more_handle_call in Hc. exact Hc.
Qed.

Lemma more_finished h s s' : on_torrent_finished h s = Some s' -> requests_more s s'.
Proof.
  unfold on_torrent_finished. cbv zeta. repeat case_match; intros Hf; simplify_eq; try done.
  by eapply more_handle_call.
Qed.

Lemma more_alert a s r s' : handle_alert a s = Some (r, s') -> requests_more s s'.
Proof.
  intros Ha. destruct a; cbn [handle_alert] in Ha;
    repeat match type of Ha with
      | context [if ?b then _ else _] => destruct b
      | context [match peer_ ?s with _ => _ end] => destruct (peer_ s)
      | context [mbind _ ?o] => destruct o eqn:?; cbn [mbind option_bind] in Ha
      end; simplify_eq; try (by apply more_kept);
    repeat match goal with
      | H : handle_call _ _ _ = Some _ |- _ => apply more_handle_call in H
      | H : ask_resume _ _ _ = Some _ |- _ => apply more_ask in H
      | H : on_torrent_finished _ _ = Some _ |- _ => apply more_finished in H
      end; try done; by repeat (etrans; [eassumption|]).
Qed.

Lemma more_alerts al s s' : pop_alerts al s = Some s' -> requests_more s s'.
Proof.
  revert s. induction al as [|a al IH]; intros s; cbn [pop_alerts]; [by intros [= <-]|].
  destruct (handle_alert a s) as [[r s1]|] eqn:Ha; [|done]. cbn [mbind option_bind]. intros Hp.
  etrans; [by eapply more_alert|by apply IH].
Qed.

Lemma more_ask_all popped idx temp s s' : ask_all popped idx temp s = Some s' -> requests_more s s'.
Proof.
  revert idx s. induction temp as [|st temp IH]; intros idx s; cbn [ask_all]; [by intros [= <-]|].
  destruct (ask_resume _ _ _) as [s0|] eqn:Hs; [|done]. cbn [mbind option_bind]. cbv zeta. intros Ha.
  etrans; [by eapply more_ask|]. destruct (S idx mod 32 =? 0); cbn [mbind option_bind] in Ha; [|by eapply IH].
  destruct (pop_alerts _ _) as [s1|] eqn:Hp; [|done]. cbn [mbind option_bind] in Ha.
  etrans; [by eapply more_alerts|by eapply IH].
Qed.

Lemma more_waits w s b s' : wait_saves w s = Some (b, s') -> requests_more s s'.
Proof.
  revert s. induction w as [|[l|] w IH]; intros s; simpl;
    destruct (0 <? num_outstanding_resume_data s)%Z; intros Hw; simplify_eq; try done.
  - destruct (pop_alerts l s) as [s1|] eqn:Hp; [|done]. simpl in Hw. etrans; [by eapply more_alerts|by apply IH].
  - by apply IH.
Qed.

Lemma more_load n s : requests_more s (load_resume n s).
Proof.
  unfold load_resume. destruct (is_resume_file _); cbn [negb]; [|done]. destruct (load_file _ _ _); [|done].
  destruct (read_resume_data _) as [p []]; [done|apply more_call].
Qed.

Lemma more_loads names s : requests_more s (load_resume_loop names s).
Proof. revert s. induction names as [|n names IH]; intros s; [done|]. cbn. etrans; [apply more_load|apply IH]. Qed.

Lemma more_scan d names s : requests_more s (scan_loop d names s).2.
Proof.
  revert s. induction names as [|n names IH]; intros s; [done|]. cbn [scan_loop].
  destruct (negb _); [apply IH|]. assert (requests_more s (add_torrent_file (path_div d n) s).2) as Ha.
  { unfold add_torrent_file. destruct (_ ≫= _); [apply more_call|done]. }
  destruct (add_torrent_file _ _) as [[] s1]; cbn [snd] in Ha; [|etrans; [exact Ha|apply IH]].
  destruct (remove_file _ _) as [[] f]; [|exact Ha]. etrans; [exact Ha|]. etrans; [|apply IH]. by apply more_kept.
Qed.

Lemma more_post s : requests_more s (post_requests s).
Proof. unfold post_requests. by repeat (etrans; [|apply more_call]). Qed.

Lemma more_exec o s s' : exec o s = Some s' -> requests_more s s'.
Proof.
  destruct o as [l|fp a|al now l|uri|b d|ih|ih|ih wd| |popped w| |ses| |a|n|now]; cbn [exec]; intros He; simplify_eq/=;
    try (by apply more_kept).
  - destruct l as [names|]; [apply more_loads|done].
  - unfold set_peer in He. destruct (parse_endpoint a) as [[ep|]|]; simplify_eq/=; by apply more_kept.
  - destruct (Torrents.doLoop al now l s) as [[b s1]|] eqn:Hl; simplify_eq/=. unfold Torrents.doLoop in Hl.
    destruct (pop_alerts _ _) as [s2|] eqn:Hp; [|done]. cbn [mbind option_bind] in Hl. etrans; [|etrans; [by eapply more_alerts|]].
    + apply more_post.
    + destruct (enable_watch _ && _); [|by simplify_eq]. destruct l as [names|]; cbn [scan_dir] in Hl; [|simplify_eq; by apply more_kept].
      pose proof (more_scan (dir_watches (cfg s2)) names s2) as Hs.
      destruct (scan_loop _ _ _) as [[] s3]; simplify_eq; [etrans; [exact Hs|by apply more_kept]|exact Hs].
  - unfold add_magnet. destruct (parse_magnet_uri _); [apply more_call|done..].
  - unfold add_torrent_buf. destruct (parse_torrent _); [|done].
    destruct (create_directory _ _) as [[c ec] f]. destruct (negb c && _); [by apply more_kept|].
    etrans; [|apply more_call]. by apply more_kept.
  - unfold pause_resume_torrent. destruct (ses_find_torrent _ _); [|done].
    destruct (_ =? _)%Z; repeat (etrans; [|apply more_call]); done.
  - unfold resume_torrent. destruct (ses_find_torrent _ _); [|done].
    destruct (has_bit _ _ && _); repeat (etrans; [|apply more_call]); done.
  - unfold drop_torrent. destruct (ses_find_torrent _ _); [|by apply more_kept]. etrans; [|apply more_call]. by apply more_kept.
  - unfold toggle_pause_resume. destruct (ses_is_paused _); apply more_call.
  - destruct (save_all_resume popped w s) as [[b s1]|] eqn:Hs; simplify_eq/=. unfold save_all_resume in Hs.
    destruct (ask_all _ _ _ _) as [s2|] eqn:Ha; [|done]. cbn [mbind option_bind] in Hs.
    etrans; [by eapply more_ask_all|by eapply more_waits].
  - unfold save_session. destruct (ses_is_paused _); [by apply more_kept|]. etrans; [apply more_call|by apply more_kept].
  - apply more_post.
  - destruct (handle_alert a s) as [[r s1]|] eqn:Ha; simplify_eq/=. by eapply more_alert.
  - exact (more_scan (dir_watches (cfg s)) [n] s).
Qed.

Lemma more_run os s s' al : Accounting.run os s = Some (s', al) -> requests_more s s'.
Proof.
  revert s al. induction os as [|o os IH]; intros s al; cbn [Accounting.run]; [by intros [= <- _]|].
  destruct (exec o s) as [s1|] eqn:He; [|done]. cbn [mbind option_bind].
  destruct (Accounting.run os s1) as [[s2 l2]|] eqn:Hr; [|done]. cbn [mbind option_bind fst]. intros [= <- _].
  etrans; [by eapply more_exec|by eapply IH].
Qed.

Context {shl : Sha1Laws} {beast : Beast} {jeq : JsonEq} {text : JsonText} {fls : Files} {eof : NeedEof}.

(** ** The loader among the other threads *)

Lemma other_to_load e p p' :
  proc_exec e p = Some p' -> match e with ev_load | ev_loaded => False | _ => True end -> to_load p' = to_load p.
Proof. intros He Hne. destruct e; try done; clear Hne; by proc_cases He. Qed.

(** It comes to each name. *)
Lemma loader_comes es p p' names n :
  proc_run es p = Some p' -> to_load p = Some names -> to_load p' = None -> n ∈ names ->
  exists es1 es2 p1 p2, es = es1 ++ ev_load :: es2 /\ proc_run es1 p = Some p1 /\ proc_run es2 p2 = Some p'
    /\ server p2 = load_resume n (server p1).
Proof.
  revert p names. induction es as [|e es IH]; intros p names; cbn [proc_run]; [intros [= <-]; congruence|].
  destruct (proc_exec e p) as [q|] eqn:Hx; [|done]. cbn [mbind option_bind]. intros Hr Hp Hp' Hn.
  assert (forall names', to_load q = Some names' -> n ∈ names' -> exists es1 es2 p1 p2,
            e :: es = es1 ++ ev_load :: es2 /\ (q ← proc_exec e p; match es1 with [] => None | _ :: es1 => proc_run es1 q end) = Some p1
            /\ proc_run es2 p2 = Some p' /\ server p2 = load_resume n (server p1) /\ es1 <> []) as Hlater.
  { intros names' Hq Hin. destruct (IH q names' Hr Hq Hp' Hin) as (es1 & es2 & p1 & p2 & -> & H1 & H2 & Hs).
    exists (e :: es1), es2, p1, p2. rewrite Hx. by split_and!. }
  assert ((exists names', to_load q = Some names' /\ n ∈ names')
          -> exists es1 es2 p1 p2, e :: es = es1 ++ ev_load :: es2 /\ proc_run es1 p = Some p1 /\ proc_run es2 p2 = Some p'
               /\ server p2 = load_resume n (server p1)) as Hgo.
  { intros (names' & Hq & Hin). destruct (Hlater names' Hq Hin) as (es1 & es2 & p1 & p2 & He & H1 & H2 & Hs & Hne).
    destruct es1 as [|e1 es1]; [done|]. injection He as <- ->. exists (e :: es1), es2, p1, p2. cbn [proc_run]. by split_and!. }
  destruct e; try (apply Hgo; exists names; split; [|done]; rewrite <- Hp; by eapply other_to_load).
  - cbn [proc_exec] in Hx. rewrite Hp in Hx. destruct names as [|n' names]; [by apply elem_of_nil in Hn|]. simplify_eq.
    apply elem_of_cons in Hn as [<-|Hn]; [|apply Hgo; by exists names].
    exists [], es, p. eexists. by split_and!.
  - cbn [proc_exec] in Hx. rewrite Hp in Hx. destruct names; simplify_eq. by apply elem_of_nil in Hn.
Qed.

Lemma proc_ops_app es1 es2 p p1 : proc_run es1 p = Some p1 -> proc_ops (es1 ++ es2) p = proc_ops es1 p ++ proc_ops es2 p1.
Proof.
  revert p. induction es1 as [|e es1 IH]; intros p; cbn [app proc_run proc_ops]; [by intros [= ->]|].
  destruct (proc_exec e p) as [q|]; [|done]. cbn [mbind option_bind]. intros Hr. by rewrite (IH _ Hr), app_assoc.
Qed.

Lemma journal_app h os1 os2 s s1 al :
  Accounting.run os1 s = Some (s1, al) -> journal h (os1 ++ os2) s = journal h os1 s ++ journal h os2 s1.
Proof.
  revert s al. induction os1 as [|o os1 IH]; intros s al; cbn [app Accounting.run journal]; [by intros [= <- _]|].
  destruct (exec o s) as [q|]; [|done]. cbn [mbind option_bind].
  destruct (Accounting.run os1 q) as [[s2 l2]|] eqn:Hr; [|done]. cbn [mbind option_bind fst]. intros [= <- _].
  by rewrite (IH _ _ Hr), app_assoc.
Qed.

(** The loader's step for a resume file that is there. *)
Lemma load_requests {lpl : LtParsersLaws} s q :
  read_all (files s) (resume_file (cfg s) (p_info_hash q)) = Some (write_resume_data_buf q) ->
  (Z.of_nat (String.length (write_resume_data_buf q)) <= default_limit)%Z ->
  async_add_torrent q ∈ calls (load_resume (to_hex (p_info_hash q) +:+ RESUME_EXT) s).
Proof.
  intros Hr Hlim. destruct (load_resume_loop_requests [to_hex (p_info_hash q) +:+ RESUME_EXT] s) as [Hc _].
  change (load_resume_loop [?n] s) with (load_resume n s) in Hc. rewrite Hc. apply elem_of_app. right.
  apply list_elem_of_fmap_2. cbn [omap list_omap]. rewrite resume_request_name. unfold load_file. rewrite Hr.
  rewrite (proj2 (Z.ltb_ge _ _)) by done. cbn [mbind option_bind]. rewrite read_write_resume. by left.
Qed.

End lives.

(** ** Examples *)

#[local] Existing Instance sha1_demo.
#[local] Existing Instance handles_demo.
#[local] Existing Instance lt_demo.
#[local] Existing Instance parsers_demo.
#[local] Existing Instance session_demo.
#[local] Existing Instance demo_metrics.
#[local] Existing Instance beast_demo.
#[local] Existing Instance documented_eq.
#[local] Existing Instance text_demo.
#[local] Existing Instance files_demo.
#[local] Existing Instance eof_demo.

(** The second life of [Resume]'s example: its session's thread has begun a
    round when the loader comes to the file. *)
Definition demo_second_process : process := new_process demo_next demo_front (Some demo_names) 1.
Definition demo_second_events : list pevent := [ev_accept true; ev_post; ev_load; ev_pop []; ev_loaded; ev_time 1 None].
Definition demo_second_life : process := default demo_second_process (proc_run demo_second_events demo_second_process).

Lemma demo_second_run : proc_run demo_second_events demo_second_process = Some demo_second_life.
Proof.
  assert (defined (proc_run demo_second_events demo_second_process) = true) as Hd by (vm_compute; reflexivity).
  unfold demo_second_life. by destruct (proc_run _ _).
Qed.

