(* ===== verification/Requests.v ===== *)
(** * Requests, among everything else (src/http_session.cpp)

    What a client of the REST API may rely on: however the threads of
    [Process] interleave, each answer is [handle_request]'s on the server
    state of one moment, that of the read, and the answers of a connection
    are in the order of its requests. *)

From S2P Require Import Prelude CStd Json JsonPatch JsonDiff Fs Util SessionStats TorrentStatus Libtorrent.
From S2P Require Import HttpUtil Demo JsonText Sheath Torrents Accounting Handlers Sync WebSocket Rounds Delivery Channel.
From S2P Require Import Process HttpSession.

Section requests.
Context {sha : Sha1} {ltd : LtData} {hs : Handles} {ltp : LtParsers} {lts : Session} {mt : Metrics}.
Context {beast : Beast} {jeq : JsonEq} {text : JsonText} {fls : Files} {eof : NeedEof}.

(** ** What a step does to the connections *)

Lemma sync_step_web e p p' : sync_step e p = Some p' -> web p' = web p /\ server p' = server p.
Proof. by intros (s & _ & ->)%sync_step_inv. Qed.

(** One connection after a step: as it was, new, or after its own handler. *)
Inductive conn_change (e : pevent) (p p' : process) (id : nat) (h' : http_session) : Prop :=
  | change_none : http (web p) !! id = Some h' -> conn_change e p p' id h'
  | change_new : e = ev_accept true -> h' = run_session -> conn_change e p p' id h'
  | change_read h res wid k order :
      e = ev_http_read id res wid k order -> http (web p) !! id = Some h -> pending h = Some reading ->
      on_read (api := sheath_api k order) (ui_root_ (web p)) (files (server p)) res h (server p) = Some (h', server p') ->
      conn_change e p p' id h'
  | change_write h r ok :
      http (web p) !! id = Some h -> pending h = Some (writing r) -> h' = on_write ok r h -> conn_change e p p' id h'.

Definition front_event (e : pevent) : bool :=
  match e with ev_accept _ | ev_http_read _ _ _ _ _ | ev_http_write _ _ => true | _ => false end.

Lemma other_web e p p' : proc_exec e p = Some p' -> front_event e = false -> web p' = web p.
Proof.
  intros He Hf. destruct e; try done; clear Hf; by proc_cases He.
Qed.

Lemma set_http_lookup id h p id' :
  http (web (set_http id h p)) !! id' = if bool_decide (id' = id) then Some h else http (web p) !! id'.
Proof. cbn. case_bool_decide as Hi; [subst; apply lookup_insert_eq|by apply lookup_insert_ne]. Qed.

Lemma conn_changes e p p' id h' :
  proc_exec e p = Some p' -> http (web p') !! id = Some h' -> conn_change e p p' id h'.
Proof.
  intros He Hh. destruct (front_event e) eqn:Hf; [|by rewrite (other_web _ _ _ He Hf) in Hh; apply change_none].
  destruct e as [| | | | | | | | | | | | | | | |ok|id0 res wid k order|id0 ok| | | | | | | | |]; try done; clear Hf; cbn [proc_exec] in He.
  - destruct (_ && _); simplify_eq. cbn in Hh. destruct ok; [|by apply change_none].
    destruct (decide (id = sessions (listens_ (web p)))) as [->|Hne].
    + rewrite lookup_insert_eq in Hh. simplify_eq. by apply change_new.
    + rewrite lookup_insert_ne in Hh by done. by apply change_none.
  - destruct (_ && _); [|done]. destruct (http (web p) !! id0) as [h|] eqn:Hid; [|done]. cbn [mbind option_bind] in He.
    destruct (pending h) as [[|r]|] eqn:Hp; try done.
    destruct (on_read _ _ _ _ _) as [[h1 s]|] eqn:Hr; [|done]. cbn [mbind option_bind] in He.
    assert (web p' = web (set_http id0 h1 p) /\ server p' = s) as [Hw Hs].
    { destruct res as [| | |req [|]]; simplify_eq; try done. by apply sync_step_web in He as [-> ->]. }
    rewrite Hw, set_http_lookup in Hh. case_bool_decide; [|by apply change_none]. simplify_eq. by eapply change_read.
  - destruct (_ && _); [|done]. destruct (http (web p) !! id0) as [h|] eqn:Hid; [|done]. cbn [mbind option_bind] in He.
    destruct (pending h) as [[|r]|] eqn:Hp; simplify_eq. rewrite set_http_lookup in Hh.
    case_bool_decide; [|by apply change_none]. simplify_eq. by eapply change_write.
Qed.

Lemma front_ui e p p' : proc_exec e p = Some p' -> front_event e = true -> ui_root_ (web p') = ui_root_ (web p).
Proof.
  intros He Hf. destruct e; try done; clear Hf; by proc_cases He.
Qed.

(** ** The moment of each answer *)

(** The [i]-th answer of a connection was made at one step of the run, from
    the server state of that moment, when those before it had been written
    completely. *)
Definition answered (es : list pevent) (p0 : process) (id : nat) (h : http_session) : Prop :=
  forall i req r, log h !! i = Some (req, r) ->
    exists es1 wid k order es2 p1 p2 h1,
      es = es1 ++ ev_http_read id (read_request req false) wid k order :: es2
      /\ proc_run es1 p0 = Some p1
      /\ proc_exec (ev_http_read id (read_request req false) wid k order) p1 = Some p2
      /\ handle_request (api := sheath_api k order) req (ui_root_ (web p0)) (files (server p1)) (server p1)
         = Some (r, server p2)
      /\ http (web p1) !! id = Some h1 /\ log h1 = take i (log h) /\ written h1 = (take i (log h)).*2.

Lemma answered_snoc es e p0 id h : answered es p0 id h -> answered (es ++ [e]) p0 id h.
Proof.
  intros Ha i req r Hi. destruct (Ha i req r Hi) as (es1 & wid & k & order & es2 & p1 & p2 & h1 & -> & Hrest).
  exists es1, wid, k, order, (es2 ++ [e]), p1, p2, h1. by rewrite <- app_assoc.
Qed.

Lemma answered_log es p0 id h h' : log h' = log h -> answered es p0 id h -> answered es p0 id h'.
Proof. intros Hl Ha i req r. rewrite Hl. apply Ha. Qed.

Lemma connections_answered es p0 p :
  http (web p0) = ∅ -> proc_run es p0 = Some p ->
  ui_root_ (web p) = ui_root_ (web p0)
  /\ forall id h, http (web p) !! id = Some h -> conn_shape h /\ answered es p0 id h.
Proof.
  intros H0. revert p. induction es as [|e es IH] using rev_ind; intros p Hr.
  { simplify_eq/=. split; [done|]. intros id h Hh. by rewrite H0 in Hh. }
  rewrite proc_run_app in Hr. destruct (proc_run es p0) as [p1|] eqn:Hr1; [|done]. cbn [mbind option_bind proc_run] in Hr.
  destruct (proc_exec e p1) as [p2|] eqn:Hx; [|done]. simplify_eq/=. destruct (IH p1 eq_refl) as [Hui IHc]. split.
  { destruct (front_event e) eqn:Hf; [|by rewrite (other_web _ _ _ Hx Hf)]. by rewrite (front_ui _ _ _ Hx Hf). }
  intros id h' Hh. destruct (conn_changes _ _ _ _ _ Hx Hh) as [Hn|_ ->|h res wid k order -> Hid Hp Hread|h r ok Hid Hp ->].
  - destruct (IHc _ _ Hn). split; [done|by apply answered_snoc].
  - split; [done|]. intros i req r. done.
  - destruct (IHc _ _ Hid) as [Hs Ha]. split; [exact (on_read_shape (api := sheath_api k order) _ _ _ _ _ _ _ Hp Hread Hs)|].
    destruct (conn_shape_says _ Hs) as (_ & Hw & _). specialize (Hw Hp).
    destruct (on_read_log (api := sheath_api k order) _ _ _ _ _ _ _ Hread) as [Hl|(req & r & -> & Hreq & Hl)].
    + by apply answered_snoc, (answered_log _ _ _ h).
    + intros i req' r' Hi. rewrite Hl in Hi |- *. apply lookup_app_Some in Hi as [Hi|[Hle Hi]].
      * rewrite take_app_le by (apply lookup_lt_Some in Hi; lia).
        exact (answered_snoc es _ p0 id h Ha i req' r' Hi).
      * apply list_lookup_singleton_Some in Hi as [Hz Heq]. simplify_eq.
        assert (i = length (log h)) as -> by lia.
        exists es, wid, k, order, [], p1, p, h. rewrite take_app_length, Hw. rewrite Hui in Hreq. by split_and!.
  - destruct (IHc _ _ Hid) as [Hs Ha]. destruct (on_write_shape ok r h Hp Hs) as [Hs' Hl].
    split; [done|]. by apply answered_snoc, (answered_log _ _ _ h).
Qed.

End requests.

(** ** Examples *)

#[local] Existing Instance sha1_demo.
#[local] Existing Instance handles_demo.
#[local] Existing Instance lt_demo.
#[local] Existing Instance parsers_demo.
#[local] Existing Instance session_demo.
#[local] Existing Instance demo_metrics.
#[local] Existing Instance beast_demo.
#[local] Existing Instance documented_eq.
#[local] Existing Instance text_demo.
#[local] Existing Instance files_demo.
#[local] Existing Instance eof_demo.

(** The connection on which the torrent was paused. *)
Definition demo_http : http_session := default run_session (http (web demo_stopped) !! 1).

Example demo_http_answers : (fun l => req_target l.1) <$> log demo_http = ["/api/torrent/" +:+ (demo_hex +:+ "/pause")].
Proof. vm_compute. reflexivity. Qed.

