(* ===== verification/Removal.v ===== *)
(** * Removing a torrent while its alerts wait (src/sheath.cpp, src/handlers.cpp)

    The session's thread takes alerts from libtorrent by the list, and a
    request may remove a torrent between two of them.  A handler that then
    makes a request through the handle throws, and nothing catches it.  Here
    is what keeps the thread alive, and that this is all. *)

From S2P Require Import Prelude CStd Json JsonPatch JsonDiff Fs Util SessionStats TorrentStatus Libtorrent.
From S2P Require Import HttpUtil Demo JsonText Sheath Torrents Accounting Handlers HttpSession Commands Sync WebSocket.
From S2P Require Import Rounds Delivery Channel Process Program Answers.

Section removal.
Context {sha : Sha1} {ltd : LtData} {hs : Handles} {ltp : LtParsers} {lts : Session} {mt : Metrics}.
Context {beast : Beast} {jeq : JsonEq} {text : JsonText} {fls : Files} {eof : NeedEof}.
Context {sel : SessionLaws}.

(** ** Handles that stay *)

(** The torrent is there, nobody has asked for its removal, and the prepared
    peer does not dangle. *)
Definition stays (h : torrent_handle) (s : sheath) : Prop :=
  th_is_valid (ses_ s) h = true /\ (forall d, remove_torrent h d ∉ calls s) /\ peer_alive s = true.

Lemma stays_call h c s : (forall d, c <> remove_torrent h d) -> stays h s -> stays h (do_call c s).
Proof.
  intros Hc (Hv & Hr & Hp). split; [cbn; by rewrite valid_kept|]. split; [|done]. intros d. cbn. rewrite elem_of_app, list_elem_of_singleton.
  intros [?|He]; [by apply (Hr d)|by apply (Hc d)].
Qed.

Lemma stays_same h s s' :
  ses_ s' = ses_ s -> calls s' = calls s -> peer_alive s' = peer_alive s -> stays h s -> stays h s'.
Proof. unfold stays. by intros -> -> ->. Qed.

Lemma handle_call_stays h h' c s s' : removes c = false -> handle_call h' c s = Some s' -> stays h s -> stays h s'.
Proof.
  unfold handle_call. intros Hc. destruct (th_is_valid _ _); [|done]. intros [= <-]. apply stays_call. by intros d ->.
Qed.

Lemma ask_resume_stays h h' m s s' : ask_resume h' m s = Some s' -> stays h s -> stays h s'.
Proof.
  unfold ask_resume. destruct (handle_call _ _ _) as [s1|] eqn:Hc; [|done]. cbn [mbind option_bind]. intros [= <-] Hs.
  by apply (stays_same h s1), (handle_call_stays h _ (save_resume_data h' m) _ _ eq_refl Hc).
Qed.

Lemma finished_stays h h' s s' : on_torrent_finished h' s = Some s' -> stays h s -> stays h s'.
Proof.
  unfold on_torrent_finished. cbv zeta. repeat case_match; try done; try by intros [= <-].
  by apply handle_call_stays.
Qed.

Lemma handle_alert_stays h a s r s' : handle_alert a s = Some (r, s') -> stays h s -> stays h s'.
Proof.
  intros Ha Hs. destruct a; cbn [handle_alert] in Ha;
    repeat match type of Ha with
      | context [if ?b then _ else _] => destruct b
      | context [match peer_ ?s with _ => _ end] => destruct (peer_ s)
      | context [mbind _ ?o] => destruct o eqn:?; [|done]; cbn [mbind option_bind] in Ha
      end; simplify_eq; try done;
    repeat match goal with
      | H : ask_resume _ _ ?s = Some _, Hs : stays h ?s |- _ => apply (ask_resume_stays h _ _ _ _ H) in Hs
      | H : handle_call _ ?c ?s = Some _, Hs : stays h ?s |- _ => apply (handle_call_stays h _ c _ _ eq_refl H) in Hs
      | H : on_torrent_finished _ ?s = Some _, Hs : stays h ?s |- _ => apply (finished_stays h _ _ _ H) in Hs
      end; done.
Qed.

Lemma load_resume_stays h n s : stays h s -> stays h (load_resume n s).
Proof. intros Hs. unfold load_resume. repeat (case_match; try done). by apply stays_call. Qed.

Lemma add_file_stays h fn s : stays h s -> stays h (add_torrent_file fn s).2.
Proof. intros Hs. unfold add_torrent_file. case_match; [|done]. by apply stays_call. Qed.

Lemma scan_loop_stays h d names s : stays h s -> stays h (scan_loop d names s).2.
Proof.
  revert s. induction names as [|n names IH]; intros s Hs; cbn [scan_loop]; [done|].
  case_match; [by apply IH|].
  pose proof (add_file_stays h (path_div d n) s Hs) as Ha. destruct (add_torrent_file _ s) as [[] s1]; [|by apply IH].
  cbn [snd] in Ha. destruct (remove_file _ _) as [[] f]; [|done]. apply IH. by apply (stays_same h s1).
Qed.

(** The operations of the threads, and what a removal and libtorrent's own
    changes must not do. *)
Definition spares (o : op) (h : torrent_handle) (s : sheath) : Prop :=
  match o with
  | op_drop ih _ => ses_find_torrent (ses_ s) ih <> Some h
  | op_libtorrent ses => stays h s -> th_is_valid ses h = true
  | op_set_peer _ _ | op_loop _ _ _ | op_save_all _ _ => False
  | _ => True
  end.

Lemma exec_stays o h s s' : exec o s = Some s' -> spares o h s -> stays h s -> stays h s'.
Proof.
  intros He Ho Hs.
  destruct o as [l|fp a|al now l|uri|b d|ih|ih|ih wd| |popped w| |ses| |a|n|now]; cbn [spares] in Ho; try done;
    cbn [exec] in He; simplify_eq/=.
  - destruct l as [names|]; [|done]. cbn [load_resumes]. revert s Hs.
    induction names as [|n names IH]; intros s Hs; [done|]. apply IH. by apply load_resume_stays.
  - unfold add_magnet. case_match; [|done]. by apply stays_call.
  - unfold add_torrent_buf. case_match; [|done]. destruct (create_directory _ _) as [[c ec] f].
    destruct (negb c && _); [done|]. by apply stays_call.
  - unfold pause_resume_torrent. case_match; [|done]. case_match; by repeat apply stays_call.
  - unfold resume_torrent. case_match; [|done]. case_match; by repeat apply stays_call.
  - unfold drop_torrent. destruct (ses_find_torrent (ses_ s) ih) as [h'|] eqn:Hf; cbn [set_files ses_]; rewrite Hf; [|done].
    apply stays_call; [intros d [= <- <-]; by apply Ho|done].
  - unfold toggle_pause_resume. case_match; by apply stays_call.
  - unfold save_session. case_match; [done|]. by apply stays_call.
  - split; [by apply Ho|apply Hs].
  - by repeat apply stays_call.
  - destruct (handle_alert a s) as [[r s1]|] eqn:Ha; simplify_eq/=. by eapply handle_alert_stays.
  - by apply (scan_loop_stays h _ [n]).
  - done.
Qed.

(** ** The alerts that wait *)

Definition pending_alerts (p : process) : list alert :=
  match session_thread p with popping al => al | _ => [] end.

(** Nothing the step does takes a torrent from under an alert that waits:
    those just popped are of torrents that are there, a request removes none
    of theirs, and libtorrent on its own removes only what it was asked to. *)
Definition spared (e : pevent) (p : process) : Prop :=
  match e with
  | ev_pop al => forall a h, a ∈ al -> asks_through a = Some h -> stays h (server p)
  | _ => forall a h o, a ∈ pending_alerts p -> asks_through a = Some h -> o ∈ ev_ops e p -> spares o h (server p)
  end.

Fixpoint all_spared (es : list pevent) (p : process) : Prop :=
  match es with
  | [] => True
  | e :: es' => spared e p /\ match proc_exec e p with Some p' => all_spared es' p' | None => True end
  end.

(** ** They are handled *)

(** The torrents of the alerts that wait stay. *)
Definition unharmed (p : process) : Prop :=
  forall a h, a ∈ pending_alerts p -> asks_through a = Some h -> stays h (server p).

Lemma ev_ops_short e p : length (ev_ops e p) <= 1 \/ exists popped waits, e = ev_end popped waits.
Proof.
  destruct e; cbn [ev_ops]; try (by left; cbn; lia); try (right; by eauto); left;
    repeat case_match; cbn; try lia.
  by destruct (request_command _ _); cbn; lia.
Qed.

Lemma pending_after e p p' a :
  proc_exec e p = Some p' -> a ∈ pending_alerts p' ->
  a ∈ pending_alerts p \/ exists al, e = ev_pop al /\ a ∈ al /\ server p' = server p.
Proof.
  intros He Ha. unfold pending_alerts in *. destruct (session_event e) eqn:Hs.
  - destruct e; try done; clear Hs; cbn [proc_exec] in He;
      destruct (session_thread p) as [| |[|a0 al]|t [|n al]| |] eqn:Hse; try done; cbv zeta in He;
      repeat match type of He with
        | context [if ?b then _ else _] => destruct b
        | context [mbind _ ?o] => destruct o as [[r s]|]; [|done]; cbn [mbind option_bind] in He
        | context [match ?o with _ => _ end] => destruct o as [[] ?]
        end; simplify_eq; cbn [with_session_thread with_server session_thread] in Ha; try (by apply elem_of_nil in Ha).
    + right. eauto.
    + left. by right.
  - left. by rewrite (other_thread e p p' He Hs) in Ha.
Qed.

Lemma unharmed_step e p p' : proc_exec e p = Some p' -> spared e p -> unharmed p -> unharmed p'.
Proof.
  intros He Hsp Hu a h Ha Hh.
  destruct (pending_after e p p' a He Ha) as [Hp|(al & -> & Hal & Hs)]; [|rewrite Hs; by apply (Hsp a h)].
  assert (forall o, o ∈ ev_ops e p -> spares o h (server p)) as Hops.
  { intros o Ho. destruct e; try (by apply (Hsp a h o Hp Hh Ho)). by apply elem_of_nil in Ho. }
  pose proof (step_ops e p p' He) as Hr. unfold step_runs in Hr. pose proof (Hu a h Hp Hh) as Hst.
  destruct (ev_ops_short e p) as [Hl|(popped & waits & ->)].
  - destruct (ev_ops e p) as [|o [|o2 os]]; [by injection Hr as <- _| |simpl in Hl; lia].
    cbn [Accounting.run] in Hr. destruct (exec o (server p)) as [s1|] eqn:Hx; [|done].
    injection Hr as <- _. apply (exec_stays o h (server p)); [done| |done]. apply Hops. by left.
  - destruct (Hops (op_save_all popped waits)). by left.
Qed.

Lemma run_unharmed es p p' : proc_run es p = Some p' -> all_spared es p -> unharmed p -> unharmed p'.
Proof.
  revert p. induction es as [|e es IH]; intros p Hr Hs Hu; cbn [proc_run all_spared] in *; [by simplify_eq|].
  destruct (proc_exec e p) as [p1|] eqn:Hx; [|done]. destruct Hs as [Hse Hs].
  apply (IH p1); [done..|]. by apply (unharmed_step e p).
Qed.

(** A step is harmless while no alert waits, and so is one whose operations
    spare every torrent. *)
Definition quiet_op (o : op) : bool :=
  match o with op_drop _ _ | op_libtorrent _ | op_set_peer _ _ | op_loop _ _ _ | op_save_all _ _ => false | _ => true end.

Definition quiet (e : pevent) (p : process) : bool :=
  match e with
  | ev_pop _ => false
  | _ => (length (pending_alerts p) =? 0) || forallb quiet_op (ev_ops e p)
  end.

Lemma quiet_spared e p : quiet e p = true -> spared e p.
Proof.
  intros Hq. unfold quiet in Hq. destruct e; try done;
    intros a h o Ha _ Ho; apply orb_true_iff in Hq as [Hl|Hf];
      try (apply Nat.eqb_eq, nil_length_inv in Hl; rewrite Hl in Ha; by apply elem_of_nil in Ha);
      rewrite forallb_forall in Hf; apply list_elem_of_In in Ho; apply Hf in Ho; by destruct o.
Qed.

(** C9: what keeps the thread of the session alive.  In any run of the
    threads in which the alerts it takes are of torrents that are there and
    whose removal nobody asked for, no request removes a torrent with an alert
    waiting, and libtorrent on its own removes only what it was asked to, no
    handler of an alert throws: the thread can always handle the next. *)
Theorem alerts_survive es s f listing io p a al :
  proc_run es (new_process s f listing io) = Some p -> all_spared es (new_process s f listing io) ->
  pending_alerts p = a :: al -> exists p', proc_exec ev_alert p = Some p'.
Proof.
  intros Hr Hs Hp. assert (unharmed p) as Hu.
  { apply (run_unharmed es _ _ Hr Hs). intros a' h Ha. by apply elem_of_nil in Ha. }
  unfold pending_alerts in Hp. destruct (session_thread p) eqn:Hse; try done. subst todo.
  pose proof (handle_alert_live a (server p)) as Ha. cbn [proc_exec]. rewrite Hse.
  destruct (handle_alert a (server p)) as [[r s1]|]; [by eexists|]. exfalso.
  assert (forall h, asks_through a = Some h -> stays h (server p)) as Hst.
  { intros h. apply (Hu a). unfold pending_alerts. rewrite Hse. by left. }
  destruct Ha as [Hl|[Hadd Hpeer]].
  - unfold alert_live in Hl. destruct (asks_through a) as [h|]; [|done]. destruct (Hst h eq_refl) as [Hv _]. congruence.
  - destruct a; try done. destruct error; try done. destruct (Hst h eq_refl) as (_ & _ & Hp). congruence.
Qed.

(** C37: and what kills it: a request that removes the torrent of an alert that
    waits asks libtorrent to; once libtorrent has done so, the handler of that
    alert throws, which nothing catches. *)
Theorem delete_kills id req wid k order p p1 ses p2 a al h ih wd :
  session_thread p = popping (a :: al) -> asks_through a = Some h ->
  request_command req (dir_store (cfg (server p))) = Some (op_drop ih wd) ->
  ses_find_torrent (ses_ (server p)) ih = Some h ->
  proc_exec (ev_http_read id (read_request req false) wid k order) p = Some p1 ->
  proc_exec (ev_session ses) p1 = Some p2 -> th_is_valid ses h = false ->
  remove_torrent h wd ∈ calls (server p1) /\ proc_exec ev_alert p2 = None.
Proof.
  intros Hse Hh Hc Hf Hr Hx Hv. split.
  - pose proof (step_ops _ _ _ Hr) as Hs. unfold step_runs in Hs. cbn [ev_ops] in Hs. rewrite Hc in Hs.
    cbn [option_list Accounting.run exec] in Hs. injection Hs as <-. unfold drop_torrent.
    cbn [set_files ses_]. rewrite Hf. cbn. apply elem_of_app. right. by left.
  - pose proof (other_thread _ _ _ Hr eq_refl) as H1. pose proof (other_thread _ _ _ Hx eq_refl) as H2.
    cbn [proc_exec]. rewrite H2, H1, Hse.
    assert (ses_ (server p2) = ses) as Hses by (cbn [proc_exec] in Hx; by destruct (pc p1); simplify_eq).
    pose proof (handle_alert_live a (server p2)) as Hl. destruct (handle_alert a (server p2)) as [[r s1]|]; [|done].
    destruct Hl as [Hl _]. unfold alert_live in Hl. rewrite Hh, Hses in Hl. congruence.
Qed.

End removal.

(** ** Examples *)

#[local] Existing Instance sha1_demo.
#[local] Existing Instance handles_demo.
#[local] Existing Instance lt_demo.
#[local] Existing Instance parsers_demo.
#[local] Existing Instance session_demo.
#[local] Existing Instance demo_metrics.
#[local] Existing Instance beast_demo.
#[local] Existing Instance documented_eq.
#[local] Existing Instance text_demo.
#[local] Existing Instance files_demo.
#[local] Existing Instance eof_demo.

(** Two alerts of a torrent are popped and the first is handled. *)
Definition demo_popped : list pevent :=
  [ev_accept true; ev_post; ev_pop [metadata_received_alert demo_handle; torrent_paused_alert demo_handle]; ev_alert].

Lemma demo_popped_run : proc_run demo_popped demo_process = Some (after demo_popped demo_process).
Proof. apply after_run. vm_compute. reflexivity. Qed.

Lemma alerts_survive_witness : exists p', proc_exec ev_alert (after demo_popped demo_process) = Some p'.
Proof.
  apply (alerts_survive (sel := session_demo_laws) demo_popped (set_svs demo_values demo_sheath) demo_front None 1
           (after demo_popped demo_process) (torrent_paused_alert demo_handle) []).
  - apply demo_popped_run.
  - assert (forall e es p, defined (proc_exec e p) = true -> spared e p -> all_spared es (after [e] p) -> all_spared (e :: es) p)
      as Hcons.
    { intros e es p Hd He Hes. split; [done|]. unfold after in Hes. cbn [proc_run] in Hes.
      by destruct (proc_exec e p). }
    apply Hcons; [vm_compute; reflexivity|apply quiet_spared; vm_compute; reflexivity|].
    apply Hcons; [vm_compute; reflexivity|apply quiet_spared; vm_compute; reflexivity|].
    apply Hcons; [vm_compute; reflexivity| |].
    + intros a h Ha Hh. assert (h = demo_handle) as ->.
      { rewrite !elem_of_cons, elem_of_nil in Ha. destruct Ha as [->|[->|[]]]; by injection Hh. }
      split; [vm_compute; reflexivity|]. split; [|vm_compute; reflexivity].
      intros d Hin.
      assert (forallb (fun c => negb (removes c)) (calls (server (after [ev_post] (after [ev_accept true] demo_process)))) = true)
        as Hf by (vm_compute; reflexivity).
      rewrite forallb_forall in Hf. apply list_elem_of_In in Hin. by apply Hf in Hin.
    + apply Hcons; [vm_compute; reflexivity|apply quiet_spared; vm_compute; reflexivity|]. done.
  - reflexivity.
Defined.

(** A request to delete the torrent is read between the two. *)
Definition demo_delete : request := demo_request verb.delete_ ("/api/torrent/" +:+ demo_hex).
Definition demo_reading : pevent := ev_http_read 0 (read_request demo_delete false) 0 demo_clocks map_to_list.
Definition demo_deleted : process := after [demo_reading] (after demo_popped demo_process).
Definition demo_gone_ses : session := ses_ (server demo_deleted).

Lemma delete_kills_witness :
  remove_torrent demo_handle false ∈ calls (server demo_deleted)
  /\ proc_exec ev_alert (after [ev_session demo_gone_ses] demo_deleted) = None.
Proof.
  assert (forall e p, defined (proc_exec e p) = true -> proc_exec e p = Some (after [e] p)) as Hstep.
  { intros e p Hd. unfold after. cbn [proc_run]. by destruct (proc_exec e p). }
  apply (delete_kills (sel := session_demo_laws) 0 demo_delete 0 demo_clocks map_to_list (after demo_popped demo_process) demo_deleted
           demo_gone_ses _ (torrent_paused_alert demo_handle) [] demo_handle demo_hash false).
  - reflexivity.
  - reflexivity.
  - reflexivity.
  - reflexivity.
  - apply Hstep. vm_compute. reflexivity.
  - apply Hstep. vm_compute. reflexivity.
  - vm_compute. reflexivity.
Defined.
