(* ===== verification/Options.v ===== *)
(** * Options and session parameters (include/option.hpp)

    [Option::init_from] from the stored variables on, the names of the
    environment, and [load_sess_params].  The settings pack is a
    map from names; bdecoding and [read_session_params] belong to libtorrent
    and are the class [SessionParams]. *)

From S2P Require Import Prelude CStd Json JsonPatch Fs Util HttpUtil SessionStats TorrentStatus Libtorrent Demo.
From S2P Require Import Sheath.

(** ** Names of the environment *)

Definition ctoupper (c : ascii) : ascii :=
  let n := nat_of_ascii c in
  if (97 <=? n) && (n <=? 122) then ascii_of_nat (n - 32) else c.

Fixpoint upper (s : string) : string :=
  match s with "" => "" | String c s' => String (ctoupper c) (upper s') end.

Definition mapper (env_var : string) : string :=
  let env_var := upper env_var in
  if bool_decide (env_var = "LT_PEERID_PREFIX") || bool_decide (env_var = "TR_PEERID_PREFIX") then "peer-id"
  else if bool_decide (env_var = "DHT_BOOTSTRAP_NODES") then "dht-bootstrap-nodes"
  else if bool_decide (env_var = "KEDGE_MOVED_ROOT") then "moved-root"
  else if bool_decide (env_var = "KEDGE_STORE_ROOT") then "store-root"
  else if bool_decide (env_var = "KEDGE_WEBUI_ROOT") then "webui-root"
  else if bool_decide (env_var = "KEDGE_HTTP_ADDR") then "http-addr"
  else if bool_decide (env_var = "KEDGE_HTTP_PORT") then "http-port"
  else "".

(** ** Session parameters *)

Inductive setting := SStr (s : string) | SInt (z : Z) | SBool (b : bool).

Record session_params := mk_params {
  settings : gmap string setting;
  privacy_lookups : bool;
}.

Class SessionParams := {
  bnode : Type;
  (** [None]: the error code is set *)
  bdecode : string -> option bnode;
  read_session_params : bnode -> session_params;
  rate_based_choker : Z;
  alert_category : string -> Z;
  LIBTORRENT_VERSION : string;
}.

Definition set_setting (k : string) (v : setting) (p : session_params) : session_params :=
  {| settings := <[k := v]> (settings p); privacy_lookups := privacy_lookups p |}.

Section options.
Context {spc : SessionParams}.

(** The alert mask, category by category. *)
Definition alert_mask : Z :=
  foldl (fun m c => Z.lor m (alert_category c)) 0%Z
    ["error"; "peer"; "port_mapping"; "storage"; "tracker"; "connect"; "status"; "ip_block";
     "performance_warning"; "dht"; "incoming_request"; "dht_operation"; "port_mapping_log"; "file_progress"].

(** What is set whatever the file held. *)
Definition fixed_settings : list (string * setting) :=
  ["cache_size" ~> SInt (-1);
   "choking_algorithm" ~> SInt rate_based_choker;
   "user_agent" ~> SStr ("Kedge/0.0.2 lt/" +:+ LIBTORRENT_VERSION);
   "alert_mask" ~> SInt alert_mask;
   "enable_upnp" ~> SBool false;
   "enable_natpmp" ~> SBool false;
   "enable_dht" ~> SBool false;
   "enable_lsd" ~> SBool false;
   "validate_https_trackers" ~> SBool false].

Definition load_sess_params (f : fsys) (cd : string) (params : session_params) : session_params :=
  let params :=
    match load_file f (path_cat cd SESS_FILE) default_limit with
    | None => params
    | Some bytes =>
        let params := {| settings := settings params; privacy_lookups := true |} in
        match bdecode bytes with
        | Some e => read_session_params e
        | None => params
        end
    end in
  foldl (fun p kv => set_setting kv.1 kv.2 p) params fixed_settings.

(** ** [Option] *)

Record Option := mk_Option {
  peerID : string; listens : string; movedRoot : string; storeRoot : string; webuiRoot : string;
  httpAddr : string; httpPort : Z; params : session_params;
}.

(** The members before [init_from]. *)
Definition default_Option (p : session_params) : Option :=
  mk_Option "" "" "" "" "" "127.0.0.1" 16180 p.

(** The variables after [notify]: command line, environment and defaults. *)
Record variables := mk_variables {
  vm_help : bool;
  vm_string : string -> option string;
  vm_port : option Z;
}.

(** [set_str] for a variable that is there. *)
Definition set_from (vm : variables) (name key : string) (p : session_params) : session_params :=
  match vm_string vm name with Some v => set_setting key (SStr v) p | None => p end.

(** [notify] writes the variables that were given an address; [http-addr]
    has none. *)
Definition notified (vm : variables) (o : Option) : Option :=
  {| peerID := default (peerID o) (vm_string vm "peer-id");
     listens := default (listens o) (vm_string vm "listens");
     movedRoot := default (movedRoot o) (vm_string vm "moved-root");
     storeRoot := default (storeRoot o) (vm_string vm "store-root");
     webuiRoot := default (webuiRoot o) (vm_string vm "webui-root");
     httpAddr := httpAddr o;
     httpPort := default (httpPort o) (vm_port vm);
     params := params o |}.

Definition with_params (p : session_params) (o : Option) : Option :=
  {| peerID := peerID o; listens := listens o; movedRoot := movedRoot o; storeRoot := storeRoot o;
     webuiRoot := webuiRoot o; httpAddr := httpAddr o; httpPort := httpPort o; params := p |}.

(** [init_from] from [notify] on; [CommandLine] has what comes before. *)
Definition init_with (vm : variables) (conf_dir : string) (f : fsys) (o : Option) : bool * Option * fsys :=
  let o := notified vm o in
  if vm_help vm then (false, o, f)
  else
    let '(ok, f) := prepare_dirs f conf_dir in
    if negb ok then (false, o, f)
    else
      let p := load_sess_params f conf_dir (params o) in
      let p := match vm_string vm "listens" with
               | Some _ => set_setting "listen_interfaces" (SStr (listens o)) p | None => p end in
      let p := match vm_string vm "peer-id" with
               | Some _ => set_setting "peer_fingerprint" (SStr (peerID o)) p | None => p end in
      let p := set_from vm "dht-bootstrap-nodes" "dht_bootstrap_nodes" p in
      (true, with_params p o, f).

(** ** What the settings are *)

Lemma set_settings_lookup (l : list (string * setting)) p k :
  NoDup l.*1 ->
  settings (foldl (fun p kv => set_setting kv.1 kv.2 p) p l) !! k
  = match list_find (fun kv => kv.1 = k) l with
    | Some (_, kv) => Some kv.2
    | None => settings p !! k
    end.
Proof.
  revert p. induction l as [|[k' v] l IH]; intros p Hnd; [done|]. cbn [fmap list_fmap] in Hnd.
  apply NoDup_cons in Hnd as [Hnin Hnd]. cbn [foldl list_find fst]. rewrite IH by done.
  destruct (decide (k' = k)) as [->|Hne].
  - assert (list_find (fun kv => kv.1 = k) l = None) as ->.
    { apply list_find_None, Forall_forall. intros [k2 v2] Hin Heq. simpl in Heq. subst k2.
      apply Hnin, list_elem_of_fmap. by exists (k, v2). }
    simpl. by rewrite lookup_insert_eq.
  - destruct (list_find _ l) as [[i kv]|]; [done|]. simpl. by rewrite lookup_insert_ne.
Qed.

(** The names the environment can set, with the options they set. *)
Definition env_table : list (string * string) :=
  ["LT_PEERID_PREFIX" ~> "peer-id"; "TR_PEERID_PREFIX" ~> "peer-id";
   "DHT_BOOTSTRAP_NODES" ~> "dht-bootstrap-nodes"; "KEDGE_MOVED_ROOT" ~> "moved-root";
   "KEDGE_STORE_ROOT" ~> "store-root"; "KEDGE_WEBUI_ROOT" ~> "webui-root";
   "KEDGE_HTTP_ADDR" ~> "http-addr"; "KEDGE_HTTP_PORT" ~> "http-port"].

(** An environment variable sets an option exactly when its name, in
    whatever case, is one of the table; all others are ignored. *)
Theorem mapper_spec e n : n <> "" -> mapper e = n <-> (upper e, n) ∈ env_table.
Proof.
  intros Hn. unfold mapper, env_table. split.
  - repeat case_bool_decide; simpl; intros <-; try congruence;
      match goal with H : upper e = _ |- _ => rewrite H end;
      rewrite !elem_of_cons; repeat first [left; reflexivity|right].
  - intros Hin. rewrite !elem_of_cons in Hin.
    repeat (destruct Hin as [Hin|Hin]; [injection Hin as He ->; by rewrite He|]).
    by apply elem_of_nil in Hin.
Qed.

Lemma obj_value_unique {A} (l : list (string * A)) k v w :
  NoDup l.*1 -> (k, v) ∈ l -> (k, w) ∈ l -> v = w.
Proof.
  induction l as [|[k' u] l IH]; intros Hnd Hv Hw; [by apply elem_of_nil in Hv|].
  cbn [fmap list_fmap] in Hnd. apply NoDup_cons in Hnd as [Hnin Hnd].
  assert (forall x, (k', x) ∈ l -> False) as Hno.
  { intros x Hx. apply Hnin, list_elem_of_fmap. by exists (k', x). }
  apply elem_of_cons in Hv as [Hv|Hv], Hw as [Hw|Hw]; simplify_eq; try done; [by apply Hno in Hw|by apply Hno in Hv|].
  by apply IH.
Qed.

Lemma fixed_settings_distinct : NoDup fixed_settings.*1.
Proof. apply (bool_decide_unpack _). by vm_compute. Qed.

Lemma load_sess_params_fixed f cd p k v :
  (k, v) ∈ fixed_settings -> settings (load_sess_params f cd p) !! k = Some v.
Proof.
  intros Hin. unfold load_sess_params. rewrite set_settings_lookup by apply fixed_settings_distinct.
  destruct (list_find (fun kv => kv.1 = k) fixed_settings) as [[i [k' v']]|] eqn:Hf.
  - apply list_find_Some in Hf as (Hi & Hk & _). simpl in *. subst k'. f_equal.
    apply list_elem_of_lookup_2 in Hi.
    pose proof fixed_settings_distinct as Hnd. apply (obj_value_unique fixed_settings k v' v Hnd Hi Hin).
  - apply list_find_None in Hf. rewrite Forall_forall in Hf. by apply (Hf (k, v)) in Hin.
Qed.

(** What [init_from] leaves of the variables: it fails only for the help or when the
    directories cannot be prepared; otherwise the options given end up in the
    settings, over whatever the session file held, the fixed settings hold,
    and the web address is the built-in one: the [http-addr] option and its
    environment variable have no effect. *)
Theorem init_with_spec vm conf_dir f o :
  let '(ok, o', f') := init_with vm conf_dir f o in
  ok = negb (vm_help vm) && (prepare_dirs f conf_dir).1
  /\ httpAddr o' = httpAddr o /\ httpPort o' = default (httpPort o) (vm_port vm)
  /\ storeRoot o' = default (storeRoot o) (vm_string vm "store-root")
  /\ (ok = true -> forall k v,
        (k, v) ∈ fixed_settings
        \/ k = "listen_interfaces" /\ SStr <$> vm_string vm "listens" = Some v
        \/ k = "peer_fingerprint" /\ SStr <$> vm_string vm "peer-id" = Some v
        \/ k = "dht_bootstrap_nodes" /\ SStr <$> vm_string vm "dht-bootstrap-nodes" = Some v ->
        settings (params o') !! k = Some v).
Proof.
  unfold init_with. destruct (vm_help vm); [done|]. cbn [negb andb].
  destruct (prepare_dirs f conf_dir) as [[] f1]; [|done]. cbn [negb fst].
  split; [done|]. split; [done|]. split; [done|]. split; [done|]. intros _ k v Hk.
  cbn [with_params params]. unfold set_from.
  set (p := load_sess_params f1 conf_dir (params (notified vm o))).
  assert (forall k' v', (k', v') ∈ fixed_settings -> settings p !! k' = Some v') as Hfix
    by (intros; by apply load_sess_params_fixed).
  assert ((k, v) ∈ fixed_settings -> k <> "listen_interfaces" /\ k <> "peer_fingerprint" /\ k <> "dht_bootstrap_nodes") as Hne.
  { intros Hin. assert (k ∈ fixed_settings.*1) as Hin' by (apply list_elem_of_fmap; by exists (k, v)).
    clear -Hin'. cbn in Hin'. rewrite !elem_of_cons in Hin'.
    repeat (destruct Hin' as [->|Hin']; [done|]). by apply elem_of_nil in Hin'. }
  destruct Hk as [Hk|Hk]; [destruct (Hne Hk) as (? & ? & ?)|];
    destruct (vm_string vm "listens") as [l|] eqn:Hl, (vm_string vm "peer-id") as [pid|] eqn:Hp,
      (vm_string vm "dht-bootstrap-nodes") as [d|]; cbn [set_setting settings notified listens peerID] in *;
    rewrite ?Hl, ?Hp; cbn [default];
    try (rewrite !lookup_insert_ne by done; by apply Hfix);
    try (by apply Hfix);
    destruct Hk as [[-> Hv]|[[-> Hv]|[-> Hv]]]; try done; simpl in Hv; simplify_eq;
    repeat (rewrite lookup_insert_eq || (rewrite lookup_insert_ne by done)); done.
Qed.

(** ** The saved session *)

Context {sha : Sha1} {ltd : LtData} {hs : Handles} {ltp : LtParsers} {lts : Session} {mt : Metrics}.

(** C39: the session state saved at the end is not found at the next start:
    it is written inside the configuration directory and looked for beside
    it, at the directory's name with the file name appended.  Saving does not
    change what is loaded. *)
Theorem saved_session_not_loaded s conf p :
  file_ses_state (cfg s) = path_div conf SESS_FILE -> conf <> "" -> ends_with_slash conf = false ->
  load_sess_params (files (save_session s)) conf p = load_sess_params (files s) conf p.
Proof.
  intros Hf Hc He. unfold load_sess_params, save_session.
  assert (load_file (write_all (files s) (path_div conf SESS_FILE) (ses_state (ses_ (if ses_is_paused (ses_ s) then s else do_call pause_session s)))).2
            (path_cat conf SESS_FILE) default_limit
          = load_file (files s) (path_cat conf SESS_FILE) default_limit) as Hl.
  { unfold load_file. rewrite read_write_ne; [done|]. unfold path_cat.
    rewrite path_div_prefix by done. unfold dir_prefix. rewrite bool_decide_eq_false_2, He by done.
    cbn [orb]. rewrite sapp_assoc. intros Heq. by apply sapp_inj_r in Heq. }
  destruct (ses_is_paused (ses_ s)); cbn [set_files files cfg do_call set_ses save_file] in *;
    unfold save_file; rewrite Hf, Hl; done.
Qed.

(** ** The context *)

(** libtorrent's constructor of a session. *)
Class NewSession := new_session : session_params -> session.

(** [make_context]: the constructor of [sheath] reads the clock, and leaves
    two timestamps as they are. *)
Definition make_context `{NewSession} (o : Option) (conf_dir : string) (now t0 t1 : Z) (f : fsys) : sheath :=
  new_sheath (new_session (params o)) (storeRoot o) (movedRoot o) conf_dir now t0 t1 f.
End options.

(** ** Examples *)

#[local] Existing Instance sha1_demo.
#[local] Existing Instance handles_demo.
#[local] Existing Instance lt_demo.
#[local] Existing Instance parsers_demo.
#[local] Existing Instance session_demo.
#[local] Existing Instance demo_metrics.

Definition params_demo : SessionParams := {|
  bnode := string;
  bdecode s := if bool_decide (s = "") then None else Some s;
  read_session_params s := mk_params {["user" := SStr s]} false;
  rate_based_choker := 2%Z;
  alert_category _ := 1%Z;
  LIBTORRENT_VERSION := "1.2.14.0";
|}.
#[local] Existing Instance params_demo.

Lemma mapper_spec_witness :
  "http-addr" <> "" /\ (mapper "kedge_HTTP_addr" = "http-addr" <-> (upper "kedge_HTTP_addr", "http-addr") ∈ env_table).
Proof. split; [discriminate|]. apply (mapper_spec "kedge_HTTP_addr" "http-addr"). discriminate. Defined.

Lemma saved_session_not_loaded_witness :
  load_sess_params (files (save_session demo_sheath)) "/c" (mk_params ∅ false)
  = load_sess_params (files demo_sheath) "/c" (mk_params ∅ false).
Proof. apply (saved_session_not_loaded demo_sheath "/c"); [reflexivity|discriminate|reflexivity]. Defined.
