(* ===== verification/CommandLine.v ===== *)
(** * The command line and the environment (include/option.hpp)

    The description of the options, the two sources they come from, and the
    whole of [Option::init_from].  Boost.Program_options is the class
    [ProgramOptions], with what its documentation says of [store] and of
    [parse_environment] as laws. *)

From S2P Require Import Prelude CStd Json JsonPatch Fs Util HttpUtil SessionStats TorrentStatus Libtorrent Demo.
From S2P Require Import Sheath Options.

(** ** Boost.Program_options *)

(** [po::value] of a string or a port, with its default, or no value. *)
Inductive semantic :=
  | untyped
  | text_value (dflt : option string)
  | port_value (dflt : Z).

Record opt_desc := mk_opt { o_name : string; o_short : option ascii; o_semantic : semantic }.

Inductive po_value := po_flag | po_text (s : string) | po_port (z : Z).

(** [po::variables_map]: each value with whether it is the default. *)
Notation variables_map := (gmap string (po_value * bool)).

(** [None] is an exception: an unknown option, a value that is none, an
    option given twice. *)
Class ProgramOptions := {
  parse_command_line : list opt_desc -> list string -> option (list (string * string));
  parse_environment :
    list opt_desc -> (string -> string) -> list (string * string) -> option (list (string * string));
  (** [boost::lexical_cast<std::uint_least16_t>] *)
  lexical_port : string -> option Z;
  store : list opt_desc -> list (string * string) -> variables_map -> option variables_map;
}.

Definition read_value `{ProgramOptions} (t : semantic) (s : string) : option po_value :=
  match t with
  | untyped => Some po_flag
  | text_value _ => Some (po_text s)
  | port_value _ => po_port <$> lexical_port s
  end.

Definition default_of (t : semantic) : option po_value :=
  match t with
  | untyped => None
  | text_value d => po_text <$> d
  | port_value d => Some (po_port d)
  end.

(** The first value of a name. *)
Fixpoint given {A} (n : string) (l : list (string * A)) : option A :=
  match l with
  | [] => None
  | (k, v) :: l' => if bool_decide (k = n) then Some v else given n l'
  end.

Definition is_set (n : string) (m : variables_map) : bool :=
  match m !! n with Some (_, false) => true | _ => false end.

Class ProgramOptionsLaws `{ProgramOptions} : Prop := {
  (** the mapper is asked for each variable; where it answers nothing the
      variable is ignored *)
  environment_mapped d f env l :
    parse_environment d f env = Some l -> l = filter (fun kv => kv.1 <> "") ((fun kv => (f kv.1, kv.2)) <$> env);
  (** a value that is no default is not changed *)
  store_kept d l m m' n : store d l m = Some m' -> is_set n m = true -> m' !! n = m !! n;
  store_given d l m m' o s :
    NoDup (o_name <$> d) -> store d l m = Some m' -> o ∈ d -> is_set (o_name o) m = false -> given (o_name o) l = Some s ->
    exists v, read_value (o_semantic o) s = Some v /\ m' !! o_name o = Some (v, false);
  store_default d l m m' o :
    NoDup (o_name <$> d) -> store d l m = Some m' -> o ∈ d -> is_set (o_name o) m = false -> given (o_name o) l = None ->
    m' !! o_name o = (fun v => (v, true)) <$> default_of (o_semantic o);
  (** [multiple_occurrences] *)
  store_twice d l1 l2 m o s1 s2 :
    o ∈ d -> is_set (o_name o) m = false -> o_semantic o <> untyped ->
    (o_name o, s1) ∈ l1 -> (o_name o, s2) ∈ l2 -> store d (l1 ++ l2) m = None;
}.

(** ** The options *)

Definition config_options (store_dir webui : string) : list opt_desc :=
  [mk_opt "help" (Some "h"%char) untyped;
   mk_opt "listens" (Some "l"%char) (text_value (Some "0.0.0.0:16188"));
   mk_opt "moved-root" None (text_value None);
   mk_opt "store-root" (Some "d"%char) (text_value (Some store_dir));
   mk_opt "webui-root" None (text_value (Some webui));
   mk_opt "peer-id" None (text_value (Some "-LT-"));
   mk_opt "dht-bootstrap-nodes" None (text_value (Some "dht.transmissionbt.com:6881"));
   mk_opt "http-addr" None (text_value (Some "127.0.0.1"));
   mk_opt "http-port" None (port_value 16180)].

(** The variables of the environment that name an option. *)
Definition mapped (env : list (string * string)) : list (string * string) :=
  filter (fun kv => kv.1 <> "") ((fun kv => (mapper kv.1, kv.2)) <$> env).

Section command_line.
Context {po : ProgramOptions}.

(** The two [store]s: the command line first. *)
Definition read_options (d : list opt_desc) (args : list string) (env : list (string * string))
  : option variables_map :=
  cl ← parse_command_line d args;
  vm ← store d cl ∅;
  ev ← parse_environment d mapper env;
  store d ev vm.

(** [vm.count] and [vm[...].as]. *)
Definition variables_of (m : variables_map) : variables := {|
  vm_help := bool_decide (is_Some (m !! "help"));
  vm_string n := match m !! n with Some (po_text s, _) => Some s | _ => None end;
  vm_port := match m !! "http-port" with Some (po_port z, _) => Some z | _ => None end;
|}.

(** What the process is given: its arguments, the environment in its order
    and the password entry of the user. *)
Record given_process := mk_given { g_args : list string; g_env : list (string * string); g_pw : option string }.

Definition environ_of (g : given_process) : environ := mk_environ (fun k => given k (g_env g)) (g_pw g).

Context {spc : SessionParams}.

(** [home] is the static pointer of [getHomeDir]; [None]: an exception. *)
Definition init_from (g : given_process) (home : option string) (f : fsys) (o : Option)
  : option (bool * Option * fsys) :=
  let e := environ_of g in
  let '(store_dir, home) := getStoreDir e home in
  let '(webui, home) := getWebUI e home in
  m ← read_options (config_options store_dir webui) (g_args g) (g_env g);
  Some (init_with (variables_of m) (getConfDir e home APP_NAME).1 f o).

(** ** Where a value comes from *)

Context {pol : ProgramOptionsLaws}.

Lemma is_set_default n m (v : option po_value) : m !! n = (fun v => (v, true)) <$> v -> is_set n m = false.
Proof. unfold is_set. by intros ->; destruct v. Qed.

Lemma is_set_value n m v : m !! n = Some (v, false) -> is_set n m = true.
Proof. unfold is_set. by intros ->. Qed.

Lemma options_distinct sd wu : NoDup (o_name <$> config_options sd wu).
Proof. apply (bool_decide_unpack _). by vm_compute. Qed.

(** The command line goes before the environment, which goes before the
    default. *)
Lemma option_value d args env m o :
  NoDup (o_name <$> d) -> read_options d args env = Some m -> o ∈ d ->
  exists cl, parse_command_line d args = Some cl
    /\ match given (o_name o) cl, given (o_name o) (mapped env) with
       | Some s, _ | None, Some s => exists v, read_value (o_semantic o) s = Some v /\ m !! o_name o = Some (v, false)
       | None, None => m !! o_name o = (fun v => (v, true)) <$> default_of (o_semantic o)
       end.
Proof.
  intros Hd. unfold read_options. destruct (parse_command_line d args) as [cl|]; [|done]. cbn [mbind option_bind].
  destruct (store d cl ∅) as [m1|] eqn:H1; [|done]. cbn [mbind option_bind].
  destruct (parse_environment d mapper env) as [ev|] eqn:He; [|done]. cbn [mbind option_bind].
  apply environment_mapped in He as ->. change (filter _ _) with (mapped env). intros H2 Ho. exists cl. split; [done|].
  destruct (given (o_name o) cl) as [s|] eqn:Hc.
  - destruct (store_given _ _ _ _ _ _ Hd H1 Ho eq_refl Hc) as (v & Hv & Hm). exists v. split; [done|].
    by rewrite (store_kept _ _ _ _ _ H2) by by eapply is_set_value.
  - pose proof (store_default _ _ _ _ _ Hd H1 Ho eq_refl Hc) as Hm. apply is_set_default in Hm.
    destruct (given (o_name o) (mapped env)) as [s|] eqn:Hg; [by eapply store_given|by eapply store_default].
Qed.

(** The text of a name: of the command line, else of the environment. *)
Definition pick (n : string) (cl : list (string * string)) (env : list (string * string)) : option string :=
  match given n cl with Some s => Some s | None => given n (mapped env) end.

Lemma option_text d args env m n sh dflt :
  NoDup (o_name <$> d) -> read_options d args env = Some m -> mk_opt n sh (text_value dflt) ∈ d ->
  exists cl, parse_command_line d args = Some cl
    /\ vm_string (variables_of m) n = match pick n cl env with Some s => Some s | None => dflt end.
Proof.
  intros Hd Hr Ho. destruct (option_value _ _ _ _ _ Hd Hr Ho) as (cl & Hcl & Hm). exists cl. split; [done|].
  cbn [o_name o_semantic read_value default_of variables_of vm_string] in *. unfold pick.
  destruct (given n cl); [|destruct (given n (mapped env))]; [destruct Hm as (v & [= <-] & ->); done..|]. rewrite Hm. by destruct dflt.
Qed.

Lemma option_port d args env m n sh dflt :
  NoDup (o_name <$> d) -> read_options d args env = Some m -> mk_opt n sh (port_value dflt) ∈ d -> n = "http-port" ->
  exists cl, parse_command_line d args = Some cl
    /\ exists z, vm_port (variables_of m) = Some z
                 /\ match pick n cl env with Some s => lexical_port s = Some z | None => z = dflt end.
Proof.
  intros Hd Hr Ho ->. destruct (option_value _ _ _ _ _ Hd Hr Ho) as (cl & Hcl & Hm). exists cl. split; [done|].
  cbn [o_name o_semantic read_value default_of variables_of vm_port] in *. unfold pick.
  destruct (given _ cl) as [s|]; [|destruct (given _ (mapped env)) as [s|]];
    [destruct Hm as (v & Hv & ->); destruct (lexical_port s) as [z|]; simplify_eq/=; by exists z..|].
  rewrite Hm. by exists dflt.
Qed.

(** C40: where each option comes from: the command line goes before the
    environment, whose names are taken in any case, and that before the default.
    The addresses to listen on, the fingerprint and the DHT nodes are always
    set from the options, so those of a saved session are never kept; the fixed
    settings hold; and the web address is the built-in one whatever was
    given. *)
Theorem options_precedence g home f o o' f' :
  init_from g home f o = Some (true, o', f') ->
  let store_dir := (getStoreDir (environ_of g) home).1 in
  let webui := (getWebUI (environ_of g) (getStoreDir (environ_of g) home).2).1 in
  exists cl, parse_command_line (config_options store_dir webui) (g_args g) = Some cl
    /\ let text n dflt := default dflt (pick n cl (g_env g)) in
       (peerID o' = text "peer-id" "-LT-" /\ listens o' = text "listens" "0.0.0.0:16188"
        /\ movedRoot o' = text "moved-root" (movedRoot o) /\ storeRoot o' = text "store-root" store_dir
        /\ webuiRoot o' = text "webui-root" webui /\ httpAddr o' = httpAddr o
        /\ match pick "http-port" cl (g_env g) with
           | Some s => lexical_port s = Some (httpPort o')
           | None => httpPort o' = 16180%Z
           end)
       /\ forall k v,
            (k, v) ∈ fixed_settings
            \/ k = "listen_interfaces" /\ v = SStr (listens o')
            \/ k = "peer_fingerprint" /\ v = SStr (peerID o')
            \/ k = "dht_bootstrap_nodes"
               /\ v = SStr (text "dht-bootstrap-nodes" "dht.transmissionbt.com:6881") ->
            settings (params o') !! k = Some v.
Proof.
  unfold init_from. destruct (getStoreDir _ _) as [sd home1]. cbn [fst snd].
  destruct (getWebUI _ _) as [wu home2]. cbn [fst].
  destruct (read_options _ _ _) as [m|] eqn:Hr; [|done]. cbn [mbind option_bind]. intros [= Hi]. cbn zeta.
  assert (exists cl, parse_command_line (config_options sd wu) (g_args g) = Some cl) as [cl Hcl].
  { unfold read_options in Hr. destruct (parse_command_line _ _) as [cl|]; [by exists cl|done]. }
  assert (forall n sh dflt, mk_opt n sh (text_value dflt) ∈ config_options sd wu ->
            vm_string (variables_of m) n = match pick n cl (g_env g) with Some s => Some s | None => dflt end) as Ht.
  { intros n sh dflt Ho. destruct (option_text _ _ _ _ _ _ _ (options_distinct sd wu) Hr Ho) as (cl' & Hcl' & Hn). by simplify_eq. }
  destruct (option_port _ _ _ _ "http-port" None 16180 (options_distinct sd wu) Hr) as (cl' & Hcl' & z & Hz & Hport); [by apply (list_elem_of_lookup_2 _ 8)|done|].
  exists cl. split; [done|]. simplify_eq.
  pose proof (init_with_spec (variables_of m) (getConfDir (environ_of g) home2 APP_NAME).1 f o) as Hs.
  rewrite Hi in Hs. destruct Hs as (_ & Ha & Hp & Hst & Hset).
  assert (exists p, o' = with_params p (notified (variables_of m) o)) as [p Ho'].
  { unfold init_with in Hi. repeat case_match; simplify_eq; eauto. }
  rewrite Ho' in *.
  cbn [with_params notified peerID listens movedRoot webuiRoot storeRoot httpAddr httpPort params] in *.
  pose proof (Ht "listens" _ _ ltac:(by apply (list_elem_of_lookup_2 _ 1))) as Hlis.
  pose proof (Ht "moved-root" _ _ ltac:(by apply (list_elem_of_lookup_2 _ 2))) as Hmov.
  pose proof (Ht "store-root" _ _ ltac:(by apply (list_elem_of_lookup_2 _ 3))) as Hsto.
  pose proof (Ht "webui-root" _ _ ltac:(by apply (list_elem_of_lookup_2 _ 4))) as Hweb.
  pose proof (Ht "peer-id" _ _ ltac:(by apply (list_elem_of_lookup_2 _ 5))) as Hpid.
  pose proof (Ht "dht-bootstrap-nodes" _ _ ltac:(by apply (list_elem_of_lookup_2 _ 6))) as Hdht.
  rewrite Hlis, Hmov, Hsto, Hweb, Hpid, Hz. split.
  - repeat split; first [done|by split_if|by destruct (pick "http-port" _ _)].
  - intros k v Hk. apply Hset; [done|]. rewrite Hlis, Hpid, Hdht.
    destruct Hk as [Hk|[[-> ->]|[[-> ->]|[-> ->]]]]; [by left|right..]; [left|right; left|right; right];
      (split; [done|]); by split_if.
Qed.

(** Two variables name the peer prefix: when both are set and the command
    line does not give it, the second [store] throws and nothing in [main]
    catches it. *)
Theorem peer_prefix_twice g home f o cl s1 s2 :
  let store_dir := (getStoreDir (environ_of g) home).1 in
  let webui := (getWebUI (environ_of g) (getStoreDir (environ_of g) home).2).1 in
  parse_command_line (config_options store_dir webui) (g_args g) = Some cl -> given "peer-id" cl = None ->
  ("LT_PEERID_PREFIX", s1) ∈ g_env g -> ("TR_PEERID_PREFIX", s2) ∈ g_env g ->
  init_from g home f o = None.
Proof.
  cbn zeta. unfold init_from. destruct (getStoreDir _ _) as [sd home1]. cbn [fst snd].
  destruct (getWebUI _ _) as [wu home2]. cbn [fst].
  intros Hcl Hg H1 H2. unfold read_options. rewrite Hcl. cbn [mbind option_bind].
  destruct (store _ cl ∅) as [m1|] eqn:Hs; [|done]. cbn [mbind option_bind].
  destruct (parse_environment _ _ _) as [ev|] eqn:He; [|done]. cbn [mbind option_bind].
  apply environment_mapped in He as ->. change (filter _ _) with (mapped (g_env g)).
  set (o1 := mk_opt "peer-id" None (text_value (Some "-LT-"))).
  assert (o1 ∈ config_options sd wu) as Ho by (by apply (list_elem_of_lookup_2 _ 5)).
  pose proof (store_default _ _ _ _ o1 (options_distinct sd wu) Hs Ho eq_refl Hg) as Hm. apply is_set_default in Hm.
  enough (exists l1 l2 v1 v2, mapped (g_env g) = l1 ++ l2 /\ ("peer-id", v1) ∈ l1 /\ ("peer-id", v2) ∈ l2)
    as (l1 & l2 & v1 & v2 & -> & Hv1 & Hv2) by (by rewrite (store_twice _ l1 l2 m1 o1 v1 v2)).
  apply list_elem_of_split in H1 as (e1 & e2 & Henv). rewrite Henv in *. unfold mapped.
  assert (forall k v l, (k, v) ∈ l -> mapper k <> "" -> (mapper k, v) ∈ mapped l) as Hin.
  { intros k v l Hkv Hk. apply list_elem_of_filter. split; [done|]. apply list_elem_of_fmap. by exists (k, v). }
  rewrite elem_of_app, elem_of_cons in H2. destruct H2 as [H2|[H2|H2]]; [|done|].
  - exists (mapped e1), (mapped (("LT_PEERID_PREFIX", s1) :: e2)), s2, s1.
    unfold mapped. rewrite fmap_app, filter_app. split; [done|].
    split; [by apply (Hin "TR_PEERID_PREFIX")|apply (Hin "LT_PEERID_PREFIX"); [by left|done]].
  - exists (mapped (e1 ++ [("LT_PEERID_PREFIX", s1)])), (mapped e2), s1, s2.
    unfold mapped. rewrite <- filter_app, <- fmap_app, <- app_assoc. split; [done|].
    split; [apply (Hin "LT_PEERID_PREFIX"); [set_solver|done]|by apply (Hin "TR_PEERID_PREFIX")].
Qed.
End command_line.

(** ** Examples *)

(** A parser of [--name value] and a [store] that keep the laws. *)
Fixpoint parse_args (args : list string) : option (list (string * string)) :=
  match args with
  | [] => Some []
  | k :: v :: args' => if String.prefix "--" k then l ← parse_args args'; Some ((sdrop 2 k, v) :: l) else None
  | _ => None
  end.

Fixpoint times (n : string) (l : list (string * string)) : nat :=
  match l with [] => 0 | (k, _) :: l' => (if bool_decide (k = n) then 1 else 0) + times n l' end.

Definition port_text (s : string) : option Z := let z := scan_digits 10 0 s in if (z <? 2 ^ 16)%Z then Some z else None.

Definition read_demo (t : semantic) (s : string) : option po_value :=
  match t with untyped => Some po_flag | text_value _ => Some (po_text s) | port_value _ => po_port <$> port_text s end.

Definition entry (l : list (string * string)) (o : opt_desc) : option (po_value * bool) :=
  match given (o_name o) l with
  | Some s => (fun v => (v, false)) <$> read_demo (o_semantic o) s
  | None => (fun v => (v, true)) <$> default_of (o_semantic o)
  end.

Definition is_untyped (t : semantic) : bool := match t with untyped => true | _ => false end.

Definition readable (l : list (string * string)) (o : opt_desc) : bool :=
  match given (o_name o) l with
  | Some s => bool_decide (is_Some (read_demo (o_semantic o) s)) && (is_untyped (o_semantic o) || (times (o_name o) l <=? 1))
  | None => true
  end.

Definition store_demo (d : list opt_desc) (l : list (string * string)) (m : variables_map) : option variables_map :=
  let d := filter (fun o => is_set (o_name o) m = false) d in
  if forallb (readable l) d
  then Some (foldr (fun o m' => partial_alter (fun _ => entry l o) (o_name o) m') m d) else None.

Definition boost_demo : ProgramOptions := {|
  parse_command_line _ args := parse_args (tail args);
  parse_environment _ f env := Some (filter (fun kv => kv.1 <> "") ((fun kv => (f kv.1, kv.2)) <$> env));
  lexical_port := port_text;
  store := store_demo;
|}.

Lemma entries_lookup l d (m : variables_map) n :
  foldr (fun o m' => partial_alter (fun _ => entry l o) (o_name o) m') m d !! n
  = match list_find (fun o => o_name o = n) d with Some (_, o) => entry l o | None => m !! n end.
Proof.
  induction d as [|o d IH]; [done|]. cbn [foldr list_find]. destruct (decide (o_name o = n)) as [<-|Hne].
  - by rewrite lookup_partial_alter_eq.
  - rewrite lookup_partial_alter_ne, IH by done. by destruct (list_find _ d) as [[i o']|].
Qed.

Lemma find_described d m o :
  NoDup (o_name <$> d) -> o ∈ d -> is_set (o_name o) m = false ->
  exists i, list_find (fun o' => o_name o' = o_name o) (filter (fun o => is_set (o_name o) m = false) d) = Some (i, o).
Proof.
  intros Hnd Ho Hs. destruct (list_find _ _) as [[i o']|] eqn:Hf.
  - apply list_find_Some in Hf as (Hi & Hn & _). exists i. do 2 f_equal.
    apply list_elem_of_lookup_2, list_elem_of_filter in Hi as [_ Hi].
    apply list_elem_of_lookup in Ho as [j Hj], Hi as [k Hk].
    assert (j = k) as ->; [|by simplify_eq].
    eapply NoDup_lookup; [done|by rewrite list_lookup_fmap, Hj|by rewrite list_lookup_fmap, Hk; cbn; rewrite Hn].
  - apply list_find_None in Hf. rewrite Forall_forall in Hf. destruct (Hf o); [|done].
    by apply list_elem_of_filter.
Qed.

Lemma given_times n l1 l2 (s1 s2 : string) : (n, s1) ∈ l1 -> (n, s2) ∈ l2 -> is_Some (given n (l1 ++ l2)) /\ 2 <= times n (l1 ++ l2).
Proof.
  assert (forall l s, (n, s) ∈ l -> is_Some (given n l) /\ 1 <= times n l) as H1.
  { induction l as [|[k v] l IH]; intros s Hin; [by apply elem_of_nil in Hin|]. cbn [given times].
    case_bool_decide; [split; [by eexists|lia]|]. apply elem_of_cons in Hin as [?|Hin]; [by simplify_eq|].
    destruct (IH _ Hin). split; [done|lia]. }
  intros Hl1 Hl2. induction l1 as [|[k v] l1 IH]; [by apply elem_of_nil in Hl1|]. cbn [app given times].
  case_bool_decide as Hk.
  - split; [by eexists|]. assert (1 <= times n (l1 ++ l2)); [|lia]. apply (H1 _ s2), elem_of_app. by right.
  - apply elem_of_cons in Hl1 as [?|Hl1]; [by simplify_eq|]. destruct (IH Hl1). split; [done|lia].
Qed.

#[local] Instance boost_demo_laws : ProgramOptionsLaws (H := boost_demo).
Proof.
  split; cbn [parse_environment store boost_demo].
  - by intros d f env l [= <-].
  - intros d l m m' n Hs Hset. unfold store_demo in Hs. case_match; simplify_eq. rewrite entries_lookup.
    destruct (list_find _ _) as [[i o]|] eqn:Hf; [|done]. apply list_find_Some in Hf as (Hi & <- & _).
    apply list_elem_of_lookup_2, list_elem_of_filter in Hi as [Hi _]. congruence.
  - intros d l m m' o s Hnd Hs Ho Hset Hg. unfold store_demo in Hs. case_match eqn:Hall; simplify_eq.
    destruct (find_described _ _ _ Hnd Ho Hset) as [i Hf]. rewrite entries_lookup, Hf. unfold entry. rewrite Hg.
    rewrite forallb_forall in Hall. specialize (Hall o). rewrite <- list_elem_of_In, list_elem_of_filter in Hall.
    specialize (Hall (conj Hset Ho)). unfold readable in Hall. rewrite Hg in Hall. bool_simp.
    change (@read_value boost_demo (o_semantic o) s) with (read_demo (o_semantic o) s).
    destruct (read_demo (o_semantic o) s) as [v|]; [by exists v|by destruct H].
  - intros d l m m' o Hnd Hs Ho Hset Hg. unfold store_demo in Hs. case_match; simplify_eq.
    destruct (find_described _ _ _ Hnd Ho Hset) as [i Hf]. rewrite entries_lookup, Hf. unfold entry. by rewrite Hg.
  - intros d l1 l2 m o s1 s2 Ho Hset Ht H1 H2. unfold store_demo.
    destruct (forallb _ _) eqn:Hall; [|done]. exfalso.
    rewrite forallb_forall in Hall. specialize (Hall o). rewrite <- list_elem_of_In, list_elem_of_filter in Hall.
    specialize (Hall (conj Hset Ho)). unfold readable in Hall. destruct (given_times _ _ _ _ _ H1 H2) as [[s Hs] Hn].
    rewrite Hs in Hall. bool_simp. destruct (o_semantic o); [done|..]; cbn [is_untyped orb] in *; bool_simp; lia.
Qed.

#[local] Existing Instance boost_demo.
#[local] Existing Instance params_demo.

Definition demo_given : given_process :=
  mk_given ["kedge"; "--listens"; "0.0.0.0:6881"; "--http-addr"; "0.0.0.0"]
    [("HOME", "/home/u"); ("kedge_http_port", "8080"); ("LT_PEERID_PREFIX", "-KD-"); ("KEDGE_STORE_ROOT", "/data")] None.
Definition demo_home : fsys := mk_fsys (<["/home/u/.config" := Dir]> (<["/home/u" := Dir]> (<["/home" := Dir]> ∅))) ∅.
Definition demo_options : bool * Option * fsys :=
  default (false, default_Option (mk_params ∅ false), mk_fsys ∅ ∅)
    (init_from demo_given None demo_home (default_Option (mk_params ∅ false))).

Lemma options_precedence_witness :
  demo_options.1.1 = true /\ listens demo_options.1.2 = "0.0.0.0:6881" /\ httpPort demo_options.1.2 = 8080%Z
  /\ storeRoot demo_options.1.2 = "/data" /\ httpAddr demo_options.1.2 = "127.0.0.1"
  /\ settings (params demo_options.1.2) !! "peer_fingerprint" = Some (SStr "-KD-").
Proof.
  assert (init_from demo_given None demo_home (default_Option (mk_params ∅ false)) = Some (true, demo_options.1.2, demo_options.2))
    as Hi by (vm_compute; reflexivity).
  destruct (options_precedence _ _ _ _ _ _ Hi) as (cl & Hcl & (Hp & Hl & _ & Hs & _ & Ha & Hport) & Hset).
  vm_compute in Hcl. injection Hcl as <-.
  assert (settings (params demo_options.1.2) !! "peer_fingerprint" = Some (SStr (peerID demo_options.1.2))) as Hf
    by (apply Hset; right; right; left; split; reflexivity).
  split; [vm_compute; reflexivity|]. split; [etrans; [exact Hl|]; vm_compute; reflexivity|].
  split; [clear Hport; vm_compute; reflexivity|].
  split; [etrans; [exact Hs|]; vm_compute; reflexivity|]. split; [exact Ha|].
  etrans; [exact Hf|]. apply (f_equal (fun x => Some (SStr x))). etrans; [exact Hp|]. vm_compute. reflexivity.
Defined.

Lemma peer_prefix_twice_witness :
  init_from (mk_given ["kedge"] [("LT_PEERID_PREFIX", "-A-"); ("HOME", "/home/u"); ("TR_PEERID_PREFIX", "-B-")] None) None demo_home
    (default_Option (mk_params ∅ false)) = None.
Proof.
  apply (peer_prefix_twice (pol := boost_demo_laws)
    (mk_given ["kedge"] [("LT_PEERID_PREFIX", "-A-"); ("HOME", "/home/u"); ("TR_PEERID_PREFIX", "-B-")] None) None demo_home
    (default_Option (mk_params ∅ false)) [] "-A-" "-B-"); [reflexivity|reflexivity|set_solver|set_solver].
Defined.
