(* ===== verification/Main.v ===== *)
(** * The program (src/main.cpp)

    What [main] does around the components: the two ways out before the
    server runs, the number of threads, the loop of the session thread and
    what the destructor of [sheath] does at the end. *)

From S2P Require Import Prelude CStd Json JsonPatch JsonDiff Fs Util HttpUtil SessionStats TorrentStatus Libtorrent Demo JsonText.
From S2P Require Import Sheath Torrents Accounting Handlers HttpSession Sync WebSocket Rounds Delivery Channel Process Shutdown Program Options CommandLine.

(** ** Starting *)

(** [std::max<int>(1, hardware_concurrency() / 2 - 1)]: the subtraction is
    that of [unsigned int], the result is converted to [int]. *)
Definition threads (hardware_concurrency : Z) : Z :=
  Z.max 1 (swrap 32 (uwrap 32 (hardware_concurrency / 2 - 1))).

(** How [main] goes on: it returns a failure; it is terminated, because the
    joinable thread of the loader is destroyed; or the server runs, with so
    many threads of the I/O context besides the main one. *)
Inductive start := exit_failure | terminated | serving (io_threads : Z).

Definition main_start (init_ok address_ok : bool) (hardware_concurrency : Z) : start :=
  if negb init_ok then exit_failure
  else if negb address_ok then terminated
  else serving (threads hardware_concurrency - 1).

(** The server runs on at least one thread, and on half the hardware's
    less one where that is more; the wrap-around of the subtraction on a
    machine of one core, or of an unknown number, is absorbed. *)
Theorem threads_spec n :
  (0 <= n < 2 ^ 32)%Z ->
  (1 <= threads n)%Z /\ threads n = (if n <? 4 then 1 else n / 2 - 1)%Z.
Proof.
  intros Hn. unfold threads. split; [lia|].
  assert (0 <= n / 2 < 2 ^ 31)%Z as Hd by (split; [apply Z.div_pos; lia|apply Z.div_lt_upper_bound; lia]).
  destruct (n <? 4)%Z eqn:Hs; bool_simp.
  - assert (n / 2 = 0 \/ n / 2 = 1)%Z as [->| ->] by (Z.to_euclidean_division_equations; lia); done.
  - assert (2 <= n / 2)%Z by (apply Z.div_le_lower_bound; lia).
    rewrite uwrap_small by lia. rewrite swrap_small by (change (2 ^ (32 - 1))%Z with (2 ^ 31)%Z; lia). lia.
Qed.

(** ** The session thread, and the end *)

Section main.
Context {sha : Sha1} {ltd : LtData} {hs : Handles} {ltp : LtParsers} {lts : Session} {mt : Metrics}.

(** What one round meets: the alerts, the time, the watched directory. *)
Record round := mk_round { r_alerts : list alert; r_now : Z; r_listing : option (list string) }.

(** [while (!quit) ctx->doLoop();] the flag is read before each round. *)
Fixpoint session_loop (rounds : list (bool * round)) (s : sheath) : option sheath :=
  match rounds with
  | [] => Some s
  | (quit, r) :: rounds' =>
      if (quit : bool) then Some s
      else
        match Torrents.doLoop (r_alerts r) (r_now r) (r_listing r) s with
        | Some (true, s') => session_loop rounds' s'
        | _ => None
        end
  end.

(** The destructor runs when the last owner is gone. *)
Definition main_run (rounds : list (bool * round)) (popped : nat -> list alert)
    (waits : list (option (list alert))) (s : sheath) : option (bool * sheath) :=
  s ← session_loop rounds s; end_ popped waits s.

Context {sel : SessionLaws}.

(** When the program ends and the wait for resume data is over, nothing
    is outstanding, the session is paused, and its state is in the session
    file if that can be written. *)
Theorem end_saves_session rounds popped waits s s' :
  main_run rounds popped waits s = Some (true, s') ->
  (num_outstanding_resume_data s' <= 0)%Z /\ ses_is_paused (ses_ s') = true
  /\ (writable (files s') (file_ses_state (cfg s')) = true ->
      read_all (files s') (file_ses_state (cfg s')) = Some (ses_state (ses_ s'))).
Proof.
  unfold main_run. destruct (session_loop rounds s) as [s1|]; [|done]. cbn [mbind option_bind]. apply end_saved.
Qed.
End main.

(** ** From the options to the process *)

Section whole.
Context {sha : Sha1} {ltd : LtData} {hs : Handles} {ltp : LtParsers} {lts : Session} {mt : Metrics}.
Context {beast : Beast} {jeq : JsonEq} {text : JsonText} {spc : SessionParams} {nses : NewSession}
  {po : ProgramOptions} {fls : Files} {eof : NeedEof}.

(** What the program meets at its start: its arguments and environment, the
    clock, what an uninitialized array holds, the number of cores, whether an
    address parses, which calls on the listening socket succeed, the names in
    the directory of the resume files. *)
Record surroundings := mk_surroundings {
  e_given : given_process; e_params : session_params; e_files : fsys;
  e_now : Z; e_t0 : Z; e_t1 : Z; e_cores : Z;
  e_address_ok : string -> bool; e_socket : list bool; e_listing : option (list string);
}.

Inductive begun := begun_failure | begun_terminated | begun_serving (p : process).

(** The names of the logs are made first, and fix the home directory. *)
Definition home_of (e : surroundings) : option string := (getLogsDir (environ_of (e_given e)) None).2.

Definition conf_of (e : surroundings) : string := (getConfDir (environ_of (e_given e)) (home_of e) APP_NAME).1.

(** An exception of [init_from] is not caught. *)
Definition main (e : surroundings) : begun :=
  match init_from (e_given e) (home_of e) (e_files e) (default_Option (e_params e)) with
  | None => begun_terminated
  | Some (ok, o, f) =>
      match main_start ok (e_address_ok e (httpAddr o)) (e_cores e) with
      | exit_failure => begun_failure
      | terminated => begun_terminated
      | serving io =>
          begun_serving
            (new_process (make_context o (conf_of e) (e_now e) (e_t0 e) (e_t1 e) f)
               (mk_front (run_listener (new_listener (e_socket e))) ∅ (webuiRoot o)) (e_listing e) (Z.to_nat io))
      end
  end.

Context {sel : SessionLaws}.

(** A whole life: however it ran, a program that has come to its end has
    saved the session in the configuration directory, if the file can be
    written. *)
Theorem life_saves_session e p0 es p :
  main e = begun_serving p0 -> proc_run es p0 = Some p -> pc p = ended ->
  writable (files (server p)) (path_div (conf_of e) SESS_FILE) = true ->
  read_all (files (server p)) (path_div (conf_of e) SESS_FILE) = Some (ses_state (ses_ (server p))).
Proof.
  unfold main. destruct (init_from _ _ _ _) as [[[ok o] f]|]; [|done]. destruct (main_start _ _ _) as [| |io]; try done.
  intros [= <-] Hr Hpc. pose proof (proc_run_cfg _ _ _ Hr) as Hcfg. cbn [new_process server] in Hcfg.
  destruct (ended_state _ _ _ _ _ _ Hr Hpc) as (_ & _ & Hsaved). rewrite Hcfg in Hsaved. exact Hsaved.
Qed.
End whole.

(** ** Examples *)

#[local] Existing Instance sha1_demo.
#[local] Existing Instance handles_demo.
#[local] Existing Instance lt_demo.
#[local] Existing Instance parsers_demo.
#[local] Existing Instance session_demo.
#[local] Existing Instance demo_metrics.

Lemma threads_spec_witness : (1 <= threads 16)%Z /\ threads 16 = (if 16 <? 4 then 1 else 16 / 2 - 1)%Z.
Proof. apply (threads_spec 16). split; [lia|reflexivity]. Defined.

Definition demo_rounds : list (bool * round) :=
  [(false, mk_round demo_alerts 500 None); (true, mk_round [] 0 None)].
Definition demo_waiting : list (option (list alert)) :=
  [None; Some [save_resume_data_alert (blank_atp demo_hash)]].
Definition demo_main_ended : bool * sheath :=
  default (false, demo_sheath) (main_run demo_rounds (fun _ => []) demo_waiting demo_sheath).

Lemma end_saves_session_witness :
  (num_outstanding_resume_data demo_main_ended.2 <= 0)%Z /\ ses_is_paused (ses_ demo_main_ended.2) = true
  /\ (writable (files demo_main_ended.2) (file_ses_state (cfg demo_main_ended.2)) = true ->
      read_all (files demo_main_ended.2) (file_ses_state (cfg demo_main_ended.2)) = Some (ses_state (ses_ demo_main_ended.2))).
Proof.
  apply (end_saves_session (sel := session_demo_laws) demo_rounds (fun _ => []) demo_waiting demo_sheath).
  assert (demo_main_ended.1 = true) as <- by (vm_compute; reflexivity).
  assert (defined (main_run demo_rounds (fun _ => []) demo_waiting demo_sheath) = true) as Hd
    by (vm_compute; reflexivity).
  unfold demo_main_ended. by destruct (main_run _ _ _ _) as [[b s]|].
Defined.
